(* ===== verification/_CoqProject ===== *)
-Q . S2P
Prelude.v
Endian.v
Buffer.v
Codec.v
CodecSpec.v
CodecRespond.v
CxxString.v
CgiUtils.v
CgiForms.v
Cgicc.v
CgiccSpec.v
CgiccMultipart.v
Backend.v
BackendSpec.v
CocgiCodec.v
CocgiSpec.v
CocgiServer.v
CocgiPool.v
Fcgx.v
FcgxWriter.v
FcgxRead.v
FcgxReader.v
FcgxAccept.v
FcgxLife.v
FcgxParams.v
TcpConn.v
TcpConnSpec.v
Poller.v
PollerSpec.v
TimerQueue.v
TimerSpec.v
CoLink.v
CoTimeout.v
CoLoop.v
CoLoopSpec.v
Coroutine.v
CoroutineSpec.v
CoHook.v
CoEnv.v
OsUnix.v
OsAsync.v
EventLoop.v
LoopThread.v
Server.v
Dates.v
TimeZone.v
FcgxPrintf.v
FcgiStdio.v
Fcgio.v
FastServer.v
SpawnFcgi.v
