(* ===== verification/Prelude.v ===== *)
(** * Verification of a family of FastCGI application servers

    ** The program

    The repository holds three servers that speak FastCGI to a web server, and the
    libraries below them.

    - [mucgi]: an event-driven server.  The muduo network library ([muduo_net]) owns
      the connections; each read is appended to a [Buffer]; the codec
      ([mucgi/fastcgi.cpp]) cuts it into records, collects parameters and body and
      calls [onRequest] ([mucgi/main.cpp]), which parses the form with cgicc
      ([cgicc_lib]), lets the backend build a page and sends it through the codec.
    - [cocgi]: the same codec and form parser over blocking calls made in coroutines.
      A pool ([cocgi/cocgi_lib/cocgi.cpp]) hands accepted sockets to idle coroutines.
    - [fastcgi]: a server over the FastCGI application library
      ([fastcgi/fastcgi_lib/fcgiapp.cpp]), with its own streams, parameters and
      request life cycle, used through an emulation of standard I/O ([fcgi_stdio.cpp]).

    [spawn-fcgi] is the program that binds the socket, gives up its privileges and starts
    such servers.

    ** The files

    - [Prelude] (this file): octets, fixed-width integers, the type [res] of code that
      can fail an assertion or throw, ranges of a contiguous store, tactics, hints.
    - [Endian]: [mucgi/muduo_net/Endian.h] and [cocgi/cocgi_lib/type.h], behind the
      class [Endian] that the buffer and the codec are written against.
    - [Buffer]: [muduo_net/Buffer.h], [Buffer.cc]: the vector with its two indices;
      every method; the abstract queue of octets with room at both ends ([Deque]) and the
      refinement of every method to it.  Sizes are natural numbers: those of objects that
      fit into memory.
    - [Codec], [CodecSpec], [CodecRespond]: [mucgi/fastcgi.cpp]: state and operations;
      the parser against a record-level specification and whole requests cut in any
      way; the response writer.
    - [CxxString]: the members of [std::string] cgicc uses, with their results out of
      range.  [CgiUtils], [CgiForms], [Cgicc]: the utilities, the form, file and cookie
      values, the parser.  [CgiccSpec], [CgiccMultipart]: its theorems.
    - [Backend], [BackendSpec]: [mucgi/main.cpp] and the two [backend.cpp]; the answer
      of one request through codec, form parser and backend.
    - [CocgiCodec], [CocgiSpec]: [cocgi/cocgi_lib/fastcgi.cpp].  Its parser and
      response writer are the definitions of [Codec] at the other byte order; the read
      and write loops over the socket are its own.
    - [CocgiServer], [CocgiPool]: [cocgi/cocgi_lib/cocgi.cpp]: the two coroutine bodies
      as the code that runs between two yields, and the pool as a step relation.
    - [Fcgx], [FcgxWriter]: streams of [fcgiapp.cpp] and its output side; [FcgxRead],
      [FcgxReader]: its input side, the reading of parameters and management records;
      [FcgxAccept], [FcgxLife]: accepting and finishing a request; [FcgxParams]: the
      parameters a request arrives with, and the defects of the reader.
    - [TcpConn], [TcpConnSpec]: [muduo_net/TcpConnection.cc] with [Channel.cc] and the
      pending functors of [EventLoop.cc]: the life of a connection as a step relation
      over socket events, functors, timers and calls by its user.
    - [Poller], [PollerSpec]: [Poller.cc], [PollPoller.cc], [EPollPoller.cc] over the
      store of channels, behind the class [PollerOps]; what a poller promises is the
      class [PollerLaws], from which the theorem about runs is proved for both.
    - [TimerQueue], [TimerSpec]: [TimerQueue.cc] and [Timer.cc] with the heap of timers.  The
      clock is an argument, a value for each reading; the descriptor holds the reading at
      which it was set and the relative time, with its floor of 100 microseconds.
    - [EventLoop]: [EventLoop.cc] with other threads: the loop thread as a program
      counter, the queue of functors and the wake-up descriptor, every interleaving; the
      loop's own thread may queue functors and ask for the end outside [loop()] too.
    - [LoopThread]: [EventLoopThread.cc] with [Thread.cc], [Mutex.h] and [Condition.h]: the
      starting thread and the loop thread as two program counters, every schedule.
    - [Server]: [TcpServer.cc], [EventLoopThreadPool.cc], [Acceptor.cc]: the map of
      connections, the choice of a loop, the reserve descriptor.
    - [CoLink], [CoTimeout], [CoLoop], [CoLoopSpec]: [libco/co_routine.cpp]: the intrusive
      lists over a heap of nodes, the time-out wheel on them, the event loop with polls
      and conditions.  [Coroutine], [CoroutineSpec]: creation, the call stack and the
      stacks that coroutines share.
    - [CoHook], [CoEnv]: [libco/co_hook_sys_call.cpp]: the system calls a coroutine makes,
      and the environment variables it has for itself.  What the system answers to each
      call, [F_SETFL] included, is free.
    - [OsUnix], [OsAsync]: [fastcgi_lib/os_unix.cpp]: names of sockets and the choice of a
      client; the table of asynchronous operations, with the calls of the completion
      procedures recorded, and closing.
    - [Dates], [TimeZone]: [muduo_base/Date.cc] and [TimeZone.cc]: the calendar, UTC, time
      zone files and local time.
    - [FcgxPrintf]: [FCGX_VFPrintF] of [fcgiapp.cpp]: the scan of a format, the choice of a
      buffer for each conversion; [sprintf] of the C library is an argument.  Lengths are
      [int]s, as everywhere in [fcgiapp.cpp]; a [long double] has the exponent it gets as a
      [double] besides its own.
    - [FcgiStdio]: [fcgi_stdio.cpp]: every function as the choice between a [FILE] of the C
      library, which is an argument, and a stream of the request.
    - [Fcgio]: [fcgio.cpp]: the [streambuf] over a stream, with or without a buffer.
    - [FastServer]: [fastcgi_server.cpp], [fastcgi/backend.cpp], [fastcgi/main.cpp]: set-up,
      the worker's loop and the answer to a request, the page and the command line.
    - [SpawnFcgi]: [spawn-fcgi/spawn-fcgi.c]: options, PID file, privileges, the socket and the
      processes, as system calls recorded with any answers.

    State is passed explicitly.  A function that can fail an assertion, leave its range
    or throw returns [res]; the theorems say when it does.  Every function that the
    sources under this tree do not define (system calls, the backend of a server, the
    user of a connection) is an argument, with the documented behaviour the theorem
    needs as a hypothesis and an instance in its witness.

    ** What the theorems show

    - Codecs: a request cut into records and reads in any way reaches its handler once,
      with exactly its parameters and body; the response on the wire parses back to the
      page; the parser consumes exactly the complete records; both byte orders agree
      ([Endian.byte_orders_agree]).
    - Servers: a request whose form parses gets one well-formed answer through form parser
      and backend, in both servers, whatever portions the socket accepts, with the page for
      the values that were submitted; one whose form does not parse ends in an exception.
    - Form parser: URL-encoded, multipart and cookie input is parsed back to what was
      submitted; no input runs the parser out of range or makes it loop.
    - Coroutine pool: consistency of the idle list, one coroutine per socket, bound on
      the coroutines, a clean codec for every connection, the receive time-out.
    - FastCGI application library: a request is accepted with its role and parameters,
      its input is delivered in order, its output and the end of the request are
      exactly what is sent, and the connection is closed unless it is to be kept.
      Formatted output overruns no buffer and writes what was formatted, within bounds that
      the theorem states; the functions of standard I/O and the [streambuf] on a request's streams lose, add and reorder nothing.
    - The fastcgi server: a worker answers the request of each connection that brings one and
      is not to be kept with the page of its callback.
    - The spawner: an application started by root for a user runs as that user, whatever the
      system answers, and without root's groups if a group was given or the user is known; a
      failed bind leaves no socket and no path.
    - Connections: no assertion fails in any order of events for a user that starts reading
      only on a connection that is up; callbacks come in order;
      what is written is what was sent; the write side is shut after the last octet;
      pending output drains.
    - Pollers: the descriptors watched are those of the registered channels, for the
      events asked for last; both pollers agree for callers that never resume a channel and
      first ask for some events; the one over [poll] loses a channel that is resumed and
      fails an assertion for one that never asked for any; ready channels are reported
      exactly.
    - Timers: no assertion fails and no deleted timer is read; a round runs exactly what
      is due; cancelled timers do not run; the descriptor is armed for the earliest, or for
      100 microseconds if that is more.
    - Event loop and server: no functor is lost or reordered and a waiting loop with work
      from other threads is woken and runs all of it before it tests [quit_] again, in every
      interleaving; the map holds exactly the open connections and each is established and
      destroyed in the same loop, the one whose turn it was.
    - Loop threads: no assertion fails in any schedule, [startLoop] returns the loop within a
      bounded number of steps if nobody ends it, and the destructor of a thread in its loop
      ends it; the schedules in which one of them waits for ever are examples.
    - Coroutines: the lists stay well formed; a pass resumes exactly what is ready or due;
      a broadcast wakes everyone; a shared stack is as good as one's own; no transfer on a
      hooked descriptor that [F_SETFL] was called on blocks the thread; [write] sends a prefix and, if it can, all; the
      environment is a map per coroutine.
    - System layer of the application library: until a shutdown is requested the first
      welcome client is returned and the others closed; the procedure of each finished
      asynchronous operation is called once, in order, with its result, and the table stays
      consistent.
    - Dates: day numbers follow the Gregorian calendar; UTC round trips, and so does local
      time where summer time is one hour.
    - Defects: merged pipelined requests, the accept loop that never yields, the
      exception no one catches, ignored write errors, overflowing parameter lengths, a
      record lost after an empty one, an [OS_Accept] that never stops, workers that fork
      workers, buffers for formatted output that are too small, and the others the theorems and examples name.

    ** Fuel

    Loops without a structural argument take fuel, and each has a lemma that the fuel
    its caller passes is enough, or the theorem states that the function returns.  The
    record loop of the codecs gets one more than the octets in the buffer (each pass
    consumes a header); the form loops one more than the length of the input; [FCGX_PutStr]
    twice the octets to write and two (each pass writes an octet or empties the buffer);
    [FCGX_Accept_r] two more than the connections to come.  The write loop of the coroutine
    server recurses over what the socket answers, and its theorems ask for enough answers.
    The reader of [fcgiapp.cpp] calls itself through [ProcessHeader] at most once, since
    a management record is read on a fresh stream whose own content is never
    interpreted: depth two; its loop gets one more than what is buffered and what the
    connection will still deliver.  The list loops of libco get the size of the heap, the
    loop over active items their number.  [OS_Accept] gets one more than the answers of the
    system; the last loop of [OS_DoIo] the 1024 descriptors of an [fd_set]; the table grows
    at most as often as the index is large.  [bsearch] and [lower_bound] get the length of
    the array; the resolver's buffer is doubled as often as its lemma says.
    [FCGX_VFPrintF] gets one more than the length of the format (each pass passes an octet
    of it).  The loops of the spawner recurse over a number of the source or over the answers
    of the system, and [write_all] ends when they run out; a schedule of the loop threads is
    a list, whose length their [rank] bounds.

    ** Not modelled

    - Logging and configuration, the [main] functions of [mucgi] and [cocgi]: they wire objects
      together and keep no state of a request.
    - [fgetpos] and [fsetpos] of [fcgi_stdio.cpp], which only forward to the C library; the
      redirection of descriptors when a worker of the fastcgi server starts.
    - [getDoubleValue] and the cookie setters of cgicc.
    - A connection is used from its own loop only, as the servers do; calls from other
      threads copy their data and queue the call.
    - The machine code that switches coroutines ([coctx_swap.S]); what a coroutine does
      between two switches is an argument.  [co_epoll.cpp] forwards to the system.
    - Creation of sockets and processes in [os_unix.cpp], file and process queries of
      [muduo_base], socket and address wrappers of [muduo_net]: system calls only, whose
      meaning is not in this tree.
    - The copies of the buffer and of cgicc under [cocgi_lib] differ from those modelled in
      the byte-order functions and in spelling only.

    ** This file

    Octets and C++ integer conversions, the result type of code that can abort or
    throw, byte-range reads and writes on a contiguous store, and the tactics and hint
    database the component files use. *)

From Stdlib Require Import ZArith Lia Bool.
From Stdlib Require Sorting.Sorted.
From Stdlib.Strings Require Import Byte.
From stdpp Require Import base numbers list gmap strings option.

(** ** Octets *)

#[export] Instance byte_eq_decision : EqDecision byte := Byte.byte_eq_dec.

#[export] Instance byte_countable : Countable byte :=
  inj_countable Byte.to_N Byte.of_N Byte.of_to_N.
#[export] Instance byte_inhabited : Inhabited byte := populate x00.

(** A C++ byte string: the contents of a [std::string], a [char] array or a
    range of a [std::vector<char>]. *)
Abbreviation bytes := (list byte).

Local Open Scope Z_scope.

(** [unsigned char] value of an octet. *)
Definition b2z (b : byte) : Z := Z.of_N (Byte.to_N b).

(** The octet a C++ conversion to [unsigned char] (or a store through a
    [char] lvalue) keeps of an integer: the value modulo 256. *)
Definition z2b (z : Z) : byte := default x00 (Byte.of_N (Z.to_N (z mod 256))).

(** ** Fixed-width integers *)

Definition u8 (z : Z) : Z := z mod 2 ^ 8.
Definition u16 (z : Z) : Z := z mod 2 ^ 16.
Definition u32 (z : Z) : Z := z mod 2 ^ 32.
Definition u64 (z : Z) : Z := z mod 2 ^ 64.

(** Two's-complement reading of the low [w] bits. *)
Definition swrap (w z : Z) : Z :=
  let r := z mod 2 ^ w in if r <? 2 ^ (w - 1) then r else r - 2 ^ w.
Definition s8 (z : Z) : Z := swrap 8 z.
Definition s16 (z : Z) : Z := swrap 16 z.
Definition s32 (z : Z) : Z := swrap 32 z.
Definition s64 (z : Z) : Z := swrap 64 z.

(** [char] is signed on the targets the build files name (x86 Linux). *)
Definition schar (b : byte) : Z := s8 (b2z b).

Lemma b2z_range b : 0 ≤ b2z b < 256.
Proof. unfold b2z. pose proof (Byte.to_N_bounded b). lia. Qed.

Lemma z2b_b2z b : z2b (b2z b) = b.
Proof.
unfold z2b. rewrite Z.mod_small by apply b2z_range.
unfold b2z. by rewrite N2Z.id, Byte.of_to_N.
Qed.

Lemma b2z_z2b z : b2z (z2b z) = z mod 256.
Proof.
unfold z2b, b2z. pose proof (Z.mod_pos_bound z 256 ltac:(lia)) as Hb.
destruct (Byte.of_N (Z.to_N (z mod 256))) as [b|] eqn:E; simpl.
- apply Byte.to_of_N in E. rewrite E. lia.
- apply Byte.of_N_None_iff in E. lia.
Qed.

Lemma b2z_z2b_small z : 0 ≤ z < 256 → b2z (z2b z) = z.
Proof. intros. rewrite b2z_z2b. by apply Z.mod_small. Qed.

Lemma b2z_inj a b : b2z a = b2z b → a = b.
Proof. intros H. by rewrite <- (z2b_b2z a), H, z2b_b2z. Qed.

Lemma swrap_mod w z : 0 ≤ w → swrap w z mod 2 ^ w = z mod 2 ^ w.
Proof.
intros. unfold swrap. assert (0 < 2 ^ w) by (apply Z.pow_pos_nonneg; lia).
case_match; [by rewrite Z.mod_mod by lia|].
rewrite <- (Z.mod_mod z (2 ^ w)) at 2 by lia.
replace (z mod 2 ^ w - 2 ^ w) with (z mod 2 ^ w + (-1) * 2 ^ w) by lia.
apply Z_mod_plus_full.
Qed.

(** In-range values survive a conversion to a signed type. *)
Lemma swrap_small w z : 0 < w → - 2 ^ (w - 1) ≤ z < 2 ^ (w - 1) → swrap w z = z.
Proof.
intros Hw Hz. unfold swrap.
assert (2 ^ w = 2 * 2 ^ (w - 1)) as Hp
  by (rewrite <- Z.pow_succ_r by lia; f_equal; lia).
destruct (Z.lt_ge_cases z 0) as [Hn|Hn].
- replace (z mod 2 ^ w) with (z + 2 ^ w)
    by (rewrite <- (Z_mod_plus_full z 1), Z.mod_small; lia).
  destruct (Z.ltb_spec (z + 2 ^ w) (2 ^ (w - 1))); lia.
- rewrite Z.mod_small by lia. destruct (Z.ltb_spec z (2 ^ (w - 1))); lia.
Qed.

Lemma s32_id z : - 2 ^ 31 ≤ z < 2 ^ 31 → s32 z = z.
Proof. intros. unfold s32. apply swrap_small; lia. Qed.

(** A conversion to a signed type does not make a value larger. *)
Lemma s32_le z : 0 ≤ z → s32 z ≤ z.
Proof. intros. unfold s32, swrap. pose proof (Z.mod_le z (2 ^ 32)). case_match; lia. Qed.

Local Close Scope Z_scope.

(** ** Results

    Code can stop without returning: an [assert] that fails (the build type
    of the three programs is Debug, so assertions are compiled in), a read or
    write outside the object it addresses, or a C++ exception. *)

Inductive fault :=
  | AssertFail
  | OutOfBounds
  | OutOfRange      (** [std::out_of_range] *)
  | LengthError     (** [std::length_error] *)
  | OutOfFuel       (** the model of a loop was given too few iterations *)
  | RuntimeError.   (** [std::runtime_error] *)

Inductive res (A : Type) :=
  | Ok (a : A)
  | Fault (f : fault).
Arguments Ok {A} a.
Arguments Fault {A} f.

#[export] Instance res_ret : MRet res := λ A a, Ok a.
#[export] Instance res_bind : MBind res := λ A B k m,
  match m with Ok a => k a | Fault f => Fault f end.
#[export] Instance res_fmap : FMap res := λ A B k m,
  match m with Ok a => Ok (k a) | Fault f => Fault f end.

(** C's [assert]. *)
Definition assert_ (b : bool) : res () := if b then Ok () else Fault AssertFail.

Lemma bind_Ok {A B} (a : A) (k : A → res B) : Ok a ≫= k = k a.
Proof. reflexivity. Qed.

Lemma bind_Ok_inv {A B} (m : res A) (k : A → res B) (b : B) :
  m ≫= k = Ok b → ∃ a, m = Ok a ∧ k a = Ok b.
Proof. destruct m; simpl; [eauto | discriminate]. Qed.

(** ** Contiguous byte ranges *)

(** The [n] elements from offset [off]. *)
Definition slice {A} (off n : nat) (l : list A) : list A := take n (drop off l).

(** [memcpy]/[std::copy] of [d] to offset [off] of the store [l]. *)
Definition overwrite {A} (off : nat) (d l : list A) : list A :=
  take off l ++ d ++ drop (off + length d) l.

Section ranges.
Context {A : Type}.
Implicit Types (l d : list A).

Lemma length_slice off n l : off + n ≤ length l → length (slice off n l) = n.
Proof. intros. unfold slice. rewrite length_take, length_drop. lia. Qed.

Lemma length_overwrite off d l :
  off + length d ≤ length l → length (overwrite off d l) = length l.
Proof.
intros. unfold overwrite. rewrite !length_app, length_take, length_drop. lia.
Qed.

Lemma slice_overwrite off d l :
  off + length d ≤ length l → slice off (length d) (overwrite off d l) = d.
Proof.
intros. unfold slice, overwrite.
rewrite drop_app_length' by (rewrite length_take; lia).
by rewrite take_app_length.
Qed.

Lemma take_overwrite_lt off d l n :
  n ≤ off → off ≤ length l → take n (overwrite off d l) = take n l.
Proof.
intros. unfold overwrite.
rewrite take_app_le by (rewrite length_take; lia).
rewrite take_take. f_equal; lia.
Qed.

Lemma slice_overwrite_before off d l i n :
  i + n ≤ off → off ≤ length l → slice i n (overwrite off d l) = slice i n l.
Proof.
intros. unfold slice. rewrite !take_drop_commute.
rewrite take_overwrite_lt by lia. done.
Qed.

Lemma slice_overwrite_adj off d l i n :
  i + n = off → off + length d ≤ length l →
  slice i (n + length d) (overwrite off d l) = slice i n l ++ d.
Proof.
intros Hi Hl. unfold slice.
rewrite <- (take_take_drop _ n (length d)), drop_drop. f_equal.
- apply slice_overwrite_before; lia.
- replace (i + n) with off by lia. by apply slice_overwrite.
Qed.

Lemma slice_drop off n k l :
  k ≤ n → slice (off + k) (n - k) l = drop k (slice off n l).
Proof. intros. unfold slice. rewrite skipn_firstn_comm, drop_drop. done. Qed.

Lemma slice_take off n k l : k ≤ n → slice off k l = take k (slice off n l).
Proof. intros. unfold slice. rewrite take_take. f_equal; lia. Qed.

Lemma slice_slice i m off n l :
  off + n ≤ m → slice off n (slice i m l) = slice (i + off) n l.
Proof.
intros. unfold slice. rewrite skipn_firstn_comm, take_take, drop_drop.
f_equal. lia.
Qed.

Lemma slice_app_l off n l d :
  off + n ≤ length l → slice off n (l ++ d) = slice off n l.
Proof.
intros. unfold slice. rewrite drop_app_le by lia.
rewrite take_app_le by (rewrite length_drop; lia). done.
Qed.

Lemma slice_0 off l : slice off 0 l = [].
Proof. done. Qed.

Lemma slice_all l : slice 0 (length l) l = l.
Proof. unfold slice. by rewrite drop_0, firstn_all. Qed.

Lemma take_app_slice l n : take n l ++ slice n (length l - n) l = l.
Proof.
unfold slice. rewrite <- length_drop, firstn_all. apply take_drop.
Qed.
End ranges.

(** ** Searching *)

(** [std::search]: offset of the first occurrence of [pat] in [l]. *)
Fixpoint is_prefix (pat l : bytes) : bool :=
  match pat, l with
  | [], _ => true
  | p :: pat, c :: l => if decide (p = c) then is_prefix pat l else false
  | _ :: _, [] => false
  end.

Fixpoint search (pat l : bytes) : option nat :=
  if is_prefix pat l then Some 0
  else match l with [] => None | _ :: l => S <$> search pat l end.

Lemma is_prefix_spec pat l : is_prefix pat l = true ↔ ∃ r, l = pat ++ r.
Proof.
revert l. induction pat as [|p pat IH]; intros l; simpl.
- split; [eauto|done].
- destruct l as [|c l]; [split; [done|by intros [? ?]]|].
  case_decide as Hpc; subst.
  + rewrite IH. split; intros [r Hr]; exists r; congruence.
  + split; [done|]. intros [r Hr]. congruence.
Qed.

Lemma is_prefix_app pat r : is_prefix pat (pat ++ r) = true.
Proof. apply is_prefix_spec. eauto. Qed.

Lemma search_sound pat l i :
  search pat l = Some i →
  (∃ r, drop i l = pat ++ r) ∧ (∀ j, j < i → is_prefix pat (drop j l) = false).
Proof.
revert i. induction l as [|c l IH]; intros i; cbn [search].
- destruct (is_prefix pat []) eqn:E; [|done]. intros [= <-]. split; [|lia].
  by apply is_prefix_spec in E.
- destruct (is_prefix pat (c :: l)) eqn:E.
  + intros [= <-]. split; [|lia]. by apply is_prefix_spec in E.
  + intros H. apply fmap_Some in H as (k & Hk & ->).
    destruct (IH k Hk) as [H1 H2]. split; [done|].
    intros [|j] Hj; [done|]. apply H2. lia.
Qed.

Lemma search_le pat l i : search pat l = Some i → i + length pat ≤ length l.
Proof.
intros H. destruct (search_sound _ _ _ H) as [[r Hr] Hlt].
apply (f_equal length) in Hr. rewrite length_app, length_drop in Hr.
destruct pat as [|p pat]; [|cbn [length] in *; lia].
destruct i as [|i]; [cbn [length] in *; lia|]. specialize (Hlt 0 ltac:(lia)). done.
Qed.

Lemma search_complete pat l :
  search pat l = None → ∀ j, is_prefix pat (drop j l) = false.
Proof.
induction l as [|c l IH]; cbn [search]; intros H j.
- destruct (is_prefix pat []) eqn:E; [done|]. by rewrite drop_nil.
- destruct (is_prefix pat (c :: l)) eqn:E; [done|].
  apply fmap_None in H. destruct j as [|j]; [done|]. by apply IH.
Qed.

Lemma search_found pat l i :
  (∃ r, drop i l = pat ++ r) → (∀ j, j < i → is_prefix pat (drop j l) = false) →
  search pat l = Some i.
Proof.
intros Hi Hlt. destruct (search pat l) as [k|] eqn:E.
- destruct (search_sound _ _ _ E) as [Hk Hk']. f_equal.
  destruct (Nat.lt_trichotomy k i) as [Hl|[Hl|Hl]]; [|done|].
  + apply Hlt in Hl. apply is_prefix_spec in Hk. congruence.
  + apply Hk' in Hl. apply is_prefix_spec in Hi. congruence.
- apply search_complete with (j := i) in E. apply is_prefix_spec in Hi. congruence.
Qed.

(** ** Sorted lists *)

Lemma sorted_at {A} (R : relation A) l i j a b :
  Sorted.StronglySorted R l → (i < j)%nat → l !! i = Some a → l !! j = Some b → R a b.
Proof.
intros Hs. revert i j. induction Hs as [|x l Hs IH Hf]; intros i j Hij Ha Hb; [done|]. destruct j as [|j]; [lia|]. destruct i as [|i].
- injection Ha as <-. cbn in Hb. by eapply Forall_lookup_1 in Hf.
- apply (IH i j); [lia|done|done].
Qed.

(** ** Automation *)

(** Close or expose the cases of a boolean test that occurs in the goal or in a
    hypothesis, turning comparisons into arithmetic facts. *)
Ltac case_bool :=
  match goal with
  | |- context [if ?b then _ else _] => destruct b eqn:?
  | H : context [if ?b then _ else _] |- _ => destruct b eqn:?
  end.

(** Split a hypothesis about a sequence of [res] computations that returned. *)
Ltac inv_res :=
  repeat match goal with
  | H : Ok _ = Ok _ |- _ => injection H as H; subst
  | H : Fault _ = Ok _ |- _ => discriminate H
  | H : Ok _ = Fault _ |- _ => discriminate H
  | H : _ ≫= _ = Ok _ |- _ =>
      let a := fresh "r" in apply bind_Ok_inv in H as (a & ? & H)
  | H : assert_ ?b = Ok _ |- _ =>
      unfold assert_ in H; destruct b eqn:?; [clear H | discriminate H]
  end.

Create HintDb fcgi.
#[export] Hint Resolve b2z_range : fcgi.

(** Lengths of the list expressions the models build. *)
Ltac lens :=
  repeat rewrite ?length_app, ?length_take, ?length_drop, ?length_replicate,
    ?length_cons, ?length_nil in *; try lia.
