(* ===== verification/Endian.v ===== *)
(** Byte order.  The two servers carry one copy each of the [Buffer] class and of
    the FastCGI codec; the copies differ only in how they reach network byte
    order: [mucgi] through [<endian.h>] ([muduo_net/Endian.h]), [cocgi] through
    the macros of [cocgi_lib/type.h].  The class [Endian] states what both
    promise, and both implementations discharge it here, so that the buffer and
    the codec are modelled and proved once against the class. *)

From Stdlib Require Import ZArith Lia Bool.
From Stdlib.Strings Require Import Byte.
From stdpp Require Import base numbers list.
From S2P Require Import Prelude.
Local Open Scope Z_scope.

(** ** Integers in memory on a little-endian host *)

(** Octet [k] of an unsigned integer. *)
Definition byteof (k x : Z) : Z := Z.land (Z.shiftr x (8 * k)) 255.

(** The [n] octets the object representation of an unsigned integer has. *)
Fixpoint le_store (n : nat) (x : Z) : bytes :=
  match n with
  | O => []
  | S n => z2b (Z.land x 255) :: le_store n (Z.shiftr x 8)
  end.

(** The value a [memcpy] of these octets into an unsigned integer gives. *)
Fixpoint le_load (bs : bytes) : Z :=
  match bs with
  | [] => 0
  | b :: bs => Z.lor (b2z b) (Z.shiftl (le_load bs) 8)
  end.

(** Network byte order: the same octets, most significant first. *)
Definition be_store (n : nat) (x : Z) : bytes := reverse (le_store n x).
Definition be_load (bs : bytes) : Z := le_load (reverse bs).

(** ** The interface *)

Class Endian := {
  hton16 : Z → Z;
  hton32 : Z → Z;
  hton64 : Z → Z;
  hton16_be : ∀ x, 0 ≤ x < 2 ^ 16 → le_store 2 (hton16 x) = be_store 2 x;
  hton32_be : ∀ x, 0 ≤ x < 2 ^ 32 → le_store 4 (hton32 x) = be_store 4 x;
  hton64_be : ∀ x, 0 ≤ x < 2 ^ 64 → le_store 8 (hton64 x) = be_store 8 x;
  hton16_range : ∀ x, 0 ≤ hton16 x < 2 ^ 16;
  hton32_range : ∀ x, 0 ≤ hton32 x < 2 ^ 32;
  hton64_range : ∀ x, 0 ≤ hton64 x < 2 ^ 64;
  (** the conversions take their argument at its width *)
  hton16_wrap : ∀ x, hton16 (u16 x) = hton16 x;
  hton32_wrap : ∀ x, hton32 (u32 x) = hton32 x;
  hton64_wrap : ∀ x, hton64 (u64 x) = hton64 x;
}.

(** [networkToHost]: in both programs the same function as [hostToNetwork]
    ([#define ntoh16 hton16]; [be16toh] and [htobe16] are both the byte swap). *)
Definition ntoh16 `{Endian} := hton16.
Definition ntoh32 `{Endian} := hton32.
Definition ntoh64 `{Endian} := hton64.

(** ** The mucgi implementation: glibc's [htobe16] and friends, which on a
    little-endian host reverse the octets of the integer. *)
Definition bswap (n : nat) (x : Z) : Z := le_load (reverse (le_store n x)).

Definition hostToNetwork16 (host16 : Z) : Z := bswap 2 (u16 host16).
Definition hostToNetwork32 (host32 : Z) : Z := bswap 4 (u32 host32).
Definition hostToNetwork64 (host64 : Z) : Z := bswap 8 (u64 host64).
Definition networkToHost16 (net16 : Z) : Z := bswap 2 (u16 net16).
Definition networkToHost32 (net32 : Z) : Z := bswap 4 (u32 net32).
Definition networkToHost64 (net64 : Z) : Z := bswap 8 (u64 net64).

(** ** The cocgi implementation: the macros of [cocgi_lib/type.h]. *)
Definition HTON16 (A : Z) : Z :=
  Z.lor (Z.shiftr (Z.land (u16 A) 0xff00) 8)
        (Z.shiftl (Z.land (u16 A) 0x00ff) 8).

Definition HTON32 (A : Z) : Z :=
  Z.lor (Z.lor (Z.lor
    (Z.shiftr (Z.land (u32 A) 0xff000000) 24)
    (Z.shiftr (Z.land (u32 A) 0x00ff0000) 8))
    (Z.shiftl (Z.land (u32 A) 0x0000ff00) 8))
    (u32 (Z.shiftl (Z.land (u32 A) 0x000000ff) 24)).

Definition HTON64 (A : Z) : Z :=
  Z.lor (Z.lor (Z.lor (Z.lor (Z.lor (Z.lor (Z.lor
    (Z.land (u64 (Z.shiftl (u64 A) 56)) 0xFF00000000000000)
    (Z.land (u64 (Z.shiftl (u64 A) 40)) 0x00FF000000000000))
    (Z.land (u64 (Z.shiftl (u64 A) 24)) 0x0000FF0000000000))
    (Z.land (u64 (Z.shiftl (u64 A) 8)) 0x000000FF00000000))
    (Z.land (Z.shiftr (u64 A) 8) 0x00000000FF000000))
    (Z.land (Z.shiftr (u64 A) 24) 0x0000000000FF0000))
    (Z.land (Z.shiftr (u64 A) 40) 0x000000000000FF00))
    (Z.land (Z.shiftr (u64 A) 56) 0x00000000000000FF).

(** ** Stores and loads *)

Lemma length_le_store n x : length (le_store n x) = n.
Proof. revert x. induction n; intros; simpl; auto. Qed.

Lemma length_be_store n x : length (be_store n x) = n.
Proof. unfold be_store. by rewrite length_reverse, length_le_store. Qed.

Lemma land_255 x : Z.land x 255 = x mod 256.
Proof. change 255 with (Z.ones 8). by rewrite Z.land_ones. Qed.

Lemma lor_shiftl_8 a b : 0 ≤ a < 256 → Z.lor a (Z.shiftl b 8) = a + 256 * b.
Proof.
intros Ha.
assert (Z.land a (Z.shiftl b 8) = 0) as Hd.
{ apply Z.bits_inj'. intros i Hi. rewrite Z.land_spec, Z.bits_0.
  destruct (Z.lt_ge_cases i 8) as [Hlt|Hge].
  - rewrite (Z.shiftl_spec_low b 8 i) by lia. apply andb_false_r.
  - rewrite <- (Z.mod_small a (2 ^ 8)), Z.mod_pow2_bits_high by (simpl; lia). done. }
rewrite <- Z.lxor_lor, <- Z.add_nocarry_lxor, Z.shiftl_mul_pow2 by (lia || done). lia.
Qed.

Lemma le_load_cons b bs : le_load (b :: bs) = b2z b + 256 * le_load bs.
Proof. apply lor_shiftl_8, b2z_range. Qed.

Lemma le_load_range bs : 0 ≤ le_load bs < 2 ^ (8 * Z.of_nat (length bs)).
Proof.
induction bs as [|b bs IH]; [simpl; lia|].
rewrite le_load_cons, length_cons. pose proof (b2z_range b).
replace (8 * Z.of_nat (S (length bs))) with (8 + 8 * Z.of_nat (length bs)) by lia.
rewrite Z.pow_add_r by lia. lia.
Qed.

Lemma le_load_store n x :
  le_load (le_store n x) = x mod 2 ^ (8 * Z.of_nat n).
Proof.
revert x. induction n as [|n IH]; intros x; [by rewrite Z.mod_1_r|].
cbn [le_store]. rewrite le_load_cons, IH, land_255, Z.shiftr_div_pow2 by lia.
rewrite b2z_z2b, Z.mod_mod by lia.
replace (8 * Z.of_nat (S n)) with (8 + 8 * Z.of_nat n) by lia.
rewrite Z.pow_add_r, Z.rem_mul_r by lia. done.
Qed.

Lemma le_store_load bs : le_store (length bs) (le_load bs) = bs.
Proof.
induction bs as [|b bs IH]; [done|].
cbn [length le_store]. rewrite le_load_cons, land_255, Z.shiftr_div_pow2 by lia.
pose proof (b2z_range b).
replace ((b2z b + 256 * le_load bs) mod 256) with (b2z b)
  by (rewrite Z.mul_comm, Z_mod_plus_full, Z.mod_small; lia).
replace ((b2z b + 256 * le_load bs) / 2 ^ 8) with (le_load bs)
  by (change (2 ^ 8) with 256; rewrite Z.mul_comm, Z.div_add, Z.div_small; lia).
by rewrite z2b_b2z, IH.
Qed.

Lemma le_store_load' n bs : length bs = n → le_store n (le_load bs) = bs.
Proof. intros <-. apply le_store_load. Qed.

Lemma le_load_inj a b : length a = length b → le_load a = le_load b → a = b.
Proof. intros Hl H. rewrite <- (le_store_load a), H, Hl. apply le_store_load. Qed.

Lemma le_load_app a b :
  le_load (a ++ b) = le_load a + 2 ^ (8 * Z.of_nat (length a)) * le_load b.
Proof.
induction a as [|x a IH]; [cbn [app length le_load Z.of_nat Z.mul Z.pow]; lia|].
cbn [app]. rewrite !le_load_cons, IH, length_cons.
replace (8 * Z.of_nat (S (length a))) with (8 + 8 * Z.of_nat (length a)) by lia.
rewrite Z.pow_add_r by lia. lia.
Qed.

Lemma le_load_1 b : le_load [b] = b2z b.
Proof. cbn [le_load]. by rewrite Z.shiftl_0_l, Z.lor_0_r. Qed.

Lemma be_load_1 b : be_load [b] = b2z b.
Proof. apply le_load_1. Qed.

Lemma be_load_cons b l :
  be_load (b :: l) = 2 ^ (8 * Z.of_nat (length l)) * b2z b + be_load l.
Proof.
unfold be_load. rewrite reverse_cons, le_load_app, length_reverse.
rewrite le_load_1. lia.
Qed.

Lemma be_load_store n x : be_load (be_store n x) = x mod 2 ^ (8 * Z.of_nat n).
Proof. unfold be_load, be_store. rewrite reverse_involutive. apply le_load_store. Qed.

Lemma be_load_range bs : 0 ≤ be_load bs < 2 ^ (8 * Z.of_nat (length bs)).
Proof. unfold be_load. rewrite <- (length_reverse bs). apply le_load_range. Qed.

Lemma be_store_load n bs : length bs = n → be_store n (be_load bs) = bs.
Proof.
intros. unfold be_store, be_load. rewrite le_store_load' by (by rewrite length_reverse).
apply reverse_involutive.
Qed.

(** The octets of a stored integer are its [byteof]s. *)
Lemma le_store_byteof n x :
  le_store n x = (λ k : nat, z2b (byteof (Z.of_nat k) x)) <$> seq 0 n.
Proof.
revert x. induction n as [|n IH]; intros x; [done|].
cbn [le_store seq]. rewrite fmap_cons, <- (fmap_S_seq 0 n), IH. f_equal.
rewrite <- list_fmap_compose. apply list_fmap_ext. intros i k Hk. simpl.
unfold byteof. rewrite Z.shiftr_shiftr by lia. do 3 f_equal; lia.
Qed.

(** ** The macros move octets *)

Lemma testbit_mask k i :
  0 ≤ k → Z.testbit (Z.shiftl 255 k) i = (k <=? i) && (i <? k + 8).
Proof.
intros Hk. destruct (Z.leb_spec 0 i) as [Hi|Hi].
- rewrite Z.shiftl_spec by lia. change 255 with (Z.ones 8).
  rewrite Z.testbit_ones by lia.
  destruct (Z.leb_spec 0 (i - k)), (Z.ltb_spec (i - k) 8), (Z.leb_spec k i),
    (Z.ltb_spec i (k + 8)); (done || lia).
- rewrite Z.testbit_neg_r by lia. destruct (Z.leb_spec k i); [lia|done].
Qed.

Lemma testbit_byteof k x i :
  0 ≤ k → 0 ≤ i → Z.testbit (byteof k x) i = (i <? 8) && Z.testbit x (i + 8 * k).
Proof.
intros. unfold byteof. rewrite Z.land_spec, Z.shiftr_spec by lia.
change 255 with (Z.shiftl 255 0). rewrite testbit_mask by lia.
rewrite (proj2 (Z.leb_le 0 i)) by lia. simpl.
rewrite andb_comm. done.
Qed.

Lemma byteof_lor k a b : byteof k (Z.lor a b) = Z.lor (byteof k a) (byteof k b).
Proof. unfold byteof. by rewrite Z.shiftr_lor, Z.land_lor_distr_l. Qed.

(** One term of a macro: octet [j] of [x] moved to octet [m]. *)
Definition moved (j m x : Z) : Z := Z.shiftl (byteof j x) (8 * m).

Lemma testbit_moved j m x i :
  0 ≤ j → 0 ≤ m → 0 ≤ i →
  Z.testbit (moved j m x) i =
  (8 * m <=? i) && (i <? 8 * m + 8) && Z.testbit x (i - 8 * m + 8 * j).
Proof.
intros. unfold moved. rewrite Z.shiftl_spec by lia.
destruct (Z.leb_spec (8 * m) i); simpl; [|by rewrite Z.testbit_neg_r by lia].
rewrite testbit_byteof by lia. f_equal.
destruct (Z.ltb_spec (i - 8 * m) 8), (Z.ltb_spec i (8 * m + 8)); (done || lia).
Qed.

(** Decide the order comparisons of the goal. *)
Ltac split_cmp :=
  repeat match goal with
  | |- context [?a <=? ?b] => destruct (Z.leb_spec a b)
  | |- context [?a <? ?b] => destruct (Z.ltb_spec a b)
  end; simpl; rewrite ?andb_true_r, ?andb_false_r; try done; try lia.

Lemma byteof_moved k j m x :
  0 ≤ k → 0 ≤ m → 0 ≤ j →
  byteof k (moved j m x) = if k =? m then byteof j x else 0.
Proof.
intros. apply Z.bits_inj'. intros i Hi.
rewrite testbit_byteof, testbit_moved by lia.
destruct (Z.eqb_spec k m); rewrite ?Z.bits_0, ?testbit_byteof by lia;
  split_cmp; try (f_equal; lia).
Qed.

(** Compare, bit by bit, a masked and shifted integer with a [moved] octet. *)
Ltac moved_bits :=
  apply Z.bits_inj'; intros i Hi; rewrite testbit_moved by lia;
  repeat first
    [ rewrite Z.land_spec | rewrite testbit_mask by lia
    | rewrite Z.shiftr_spec by lia | rewrite Z.shiftl_spec by lia ];
  split_cmp; try (f_equal; lia).

(** mask, then shift right *)
Lemma mask_shiftr j m x :
  0 ≤ m ≤ j → Z.shiftr (Z.land x (Z.shiftl 255 (8 * j))) (8 * (j - m)) = moved j m x.
Proof. intros. moved_bits. Qed.

(** mask, then shift left *)
Lemma mask_shiftl j m x :
  0 ≤ j ≤ m → Z.shiftl (Z.land x (Z.shiftl 255 (8 * j))) (8 * (m - j)) = moved j m x.
Proof. intros. moved_bits. Qed.

(** shift right, then mask *)
Lemma shiftr_mask j m x :
  0 ≤ m ≤ j → Z.land (Z.shiftr x (8 * (j - m))) (Z.shiftl 255 (8 * m)) = moved j m x.
Proof. intros. moved_bits. Qed.

(** shift left at the width [2 ^ w], then mask *)
Lemma shiftl_mask w j m x :
  0 ≤ j ≤ m → 8 * m + 8 ≤ w →
  Z.land (Z.shiftl x (8 * (m - j)) mod 2 ^ w) (Z.shiftl 255 (8 * m)) = moved j m x.
Proof.
intros. apply Z.bits_inj'. intros i Hi. rewrite testbit_moved by lia.
rewrite Z.land_spec, testbit_mask by lia.
destruct (Z.lt_ge_cases i w).
- rewrite Z.mod_pow2_bits_low, Z.shiftl_spec by lia.
  rewrite andb_comm. f_equal. f_equal. lia.
- rewrite Z.mod_pow2_bits_high by lia.
  destruct (Z.ltb_spec i (8 * m + 8)); [lia|]. by rewrite andb_false_r.
Qed.

Lemma moved_small j m x w :
  0 ≤ j → 0 ≤ m → 8 * m + 8 ≤ w → moved j m x mod 2 ^ w = moved j m x.
Proof.
intros. apply Z.bits_inj'. intros i Hi.
destruct (Z.lt_ge_cases i w); [by rewrite Z.mod_pow2_bits_low by lia|].
rewrite Z.mod_pow2_bits_high, testbit_moved by lia.
destruct (Z.ltb_spec i (8 * m + 8)); [lia|]. by rewrite andb_false_r.
Qed.

Lemma HTON16_moved A : HTON16 A = Z.lor (moved 1 0 (u16 A)) (moved 0 1 (u16 A)).
Proof. by rewrite <- (mask_shiftr 1 0), <- (mask_shiftl 0 1) by lia. Qed.

Lemma HTON32_moved A :
  HTON32 A = Z.lor (Z.lor (Z.lor (moved 3 0 (u32 A)) (moved 2 1 (u32 A)))
                          (moved 1 2 (u32 A))) (moved 0 3 (u32 A)).
Proof.
rewrite <- (moved_small 0 3 _ 32) by lia.
by rewrite <- (mask_shiftr 3 0), <- (mask_shiftr 2 1), <- (mask_shiftl 1 2),
  <- (mask_shiftl 0 3) by lia.
Qed.

Lemma HTON64_moved A :
  HTON64 A =
  Z.lor (Z.lor (Z.lor (Z.lor (Z.lor (Z.lor (Z.lor
    (moved 0 7 (u64 A)) (moved 1 6 (u64 A))) (moved 2 5 (u64 A)))
    (moved 3 4 (u64 A))) (moved 4 3 (u64 A))) (moved 5 2 (u64 A)))
    (moved 6 1 (u64 A))) (moved 7 0 (u64 A)).
Proof.
by rewrite <- (shiftl_mask 64 0 7), <- (shiftl_mask 64 1 6), <- (shiftl_mask 64 2 5),
  <- (shiftl_mask 64 3 4), <- (shiftr_mask 4 3), <- (shiftr_mask 5 2),
  <- (shiftr_mask 6 1), <- (shiftr_mask 7 0) by lia.
Qed.

Ltac octets :=
  unfold be_store; rewrite !le_store_byteof; cbn [seq fmap list_fmap];
  rewrite ?byteof_lor, ?byteof_moved by lia; simpl;
  rewrite ?Z.lor_0_r, ?Z.lor_0_l.

Lemma HTON16_be x : 0 ≤ x < 2 ^ 16 → le_store 2 (HTON16 x) = be_store 2 x.
Proof.
intros. rewrite HTON16_moved. unfold u16. rewrite Z.mod_small by lia. by octets.
Qed.

Lemma HTON32_be x : 0 ≤ x < 2 ^ 32 → le_store 4 (HTON32 x) = be_store 4 x.
Proof.
intros. rewrite HTON32_moved. unfold u32. rewrite Z.mod_small by lia. by octets.
Qed.

Lemma HTON64_be x : 0 ≤ x < 2 ^ 64 → le_store 8 (HTON64 x) = be_store 8 x.
Proof.
intros. rewrite HTON64_moved. unfold u64. rewrite Z.mod_small by lia. by octets.
Qed.

Lemma lor_bound a b w :
  0 ≤ w → 0 ≤ a < 2 ^ w → 0 ≤ b < 2 ^ w → 0 ≤ Z.lor a b < 2 ^ w.
Proof.
intros Hw Ha Hb. split; [apply Z.lor_nonneg; lia|].
replace (Z.lor a b) with (Z.lor a b mod 2 ^ w); [apply Z.mod_pos_bound; lia|].
rewrite <- !Z.land_ones, Z.land_lor_distr_l, !Z.land_ones, !Z.mod_small by lia. done.
Qed.

Lemma moved_bound j m x w :
  0 ≤ j → 0 ≤ m → 8 * m + 8 ≤ w → 0 ≤ moved j m x < 2 ^ w.
Proof. intros. rewrite <- (moved_small j m x w) by lia. apply Z.mod_pos_bound. lia. Qed.

Lemma bswap_be n x : le_store n (bswap n x) = be_store n x.
Proof. unfold bswap. rewrite le_store_load'; [done|by rewrite length_reverse, length_le_store]. Qed.

Lemma bswap_range n x : 0 ≤ bswap n x < 2 ^ (8 * Z.of_nat n).
Proof.
unfold bswap. pose proof (le_load_range (reverse (le_store n x))) as H.
by rewrite length_reverse, length_le_store in H.
Qed.

#[export] Program Instance MuduoEndian : Endian :=
  {| hton16 := hostToNetwork16; hton32 := hostToNetwork32; hton64 := hostToNetwork64 |}.
Solve Obligations with
  intros; unfold hostToNetwork16, hostToNetwork32, hostToNetwork64, u16, u32, u64;
  first [ rewrite Z.mod_mod by lia; done
        | rewrite Z.mod_small by lia; apply bswap_be
        | apply (bswap_range 2) | apply (bswap_range 4) | apply (bswap_range 8) ].

#[export] Program Instance CocgiEndian : Endian :=
  {| hton16 := HTON16; hton32 := HTON32; hton64 := HTON64 |}.
Next Obligation. exact HTON16_be. Qed.
Next Obligation. exact HTON32_be. Qed.
Next Obligation. exact HTON64_be. Qed.
Next Obligation. intros. rewrite HTON16_moved. repeat apply lor_bound; try apply moved_bound; lia. Qed.
Next Obligation. intros. rewrite HTON32_moved. repeat apply lor_bound; try apply moved_bound; lia. Qed.
Next Obligation. intros. rewrite HTON64_moved. repeat apply lor_bound; try apply moved_bound; lia. Qed.
Next Obligation. intros. rewrite !HTON16_moved. unfold u16. by rewrite Z.mod_mod by lia. Qed.
Next Obligation. intros. rewrite !HTON32_moved. unfold u32. by rewrite Z.mod_mod by lia. Qed.
Next Obligation. intros. rewrite !HTON64_moved. unfold u64. by rewrite Z.mod_mod by lia. Qed.

(** ** What a client of the interface uses *)

Section client.
Context `{Endian}.

Lemma swap_load n (swap : Z → Z) bs :
  length bs = n → 0 ≤ swap (le_load bs) < 2 ^ (8 * Z.of_nat n) →
  le_store n (swap (le_load bs)) = be_store n (le_load bs) →
  swap (le_load bs) = be_load bs.
Proof.
intros Hl Hr Hs. apply (f_equal le_load) in Hs.
rewrite le_load_store, Z.mod_small in Hs by lia. rewrite Hs.
unfold be_store, be_load. by rewrite le_store_load'.
Qed.

(** Loading two, four or eight octets and converting to host order is the
    big-endian reading of the octets. *)
Lemma ntoh16_load bs : length bs = 2%nat → ntoh16 (le_load bs) = be_load bs.
Proof.
intros Hl. pose proof (le_load_range bs) as Hr. rewrite Hl in Hr.
apply (swap_load 2); [done|apply hton16_range|]. apply hton16_be. done.
Qed.

Lemma ntoh32_load bs : length bs = 4%nat → ntoh32 (le_load bs) = be_load bs.
Proof.
intros Hl. pose proof (le_load_range bs) as Hr. rewrite Hl in Hr.
apply (swap_load 4); [done|apply hton32_range|]. apply hton32_be. done.
Qed.

Lemma ntoh64_load bs : length bs = 8%nat → ntoh64 (le_load bs) = be_load bs.
Proof.
intros Hl. pose proof (le_load_range bs) as Hr. rewrite Hl in Hr.
apply (swap_load 8); [done|apply hton64_range|]. apply hton64_be. done.
Qed.

Lemma hton16_store x : le_store 2 (hton16 x) = be_store 2 (u16 x).
Proof. rewrite <- hton16_wrap. apply hton16_be, Z.mod_pos_bound. lia. Qed.

Lemma hton32_store x : le_store 4 (hton32 x) = be_store 4 (u32 x).
Proof. rewrite <- hton32_wrap. apply hton32_be, Z.mod_pos_bound. lia. Qed.

Lemma hton64_store x : le_store 8 (hton64 x) = be_store 8 (u64 x).
Proof. rewrite <- hton64_wrap. apply hton64_be, Z.mod_pos_bound. lia. Qed.
End client.

(** A conversion is determined by the octets it stores. *)
Lemma stored_inj n a b :
  0 ≤ a < 2 ^ (8 * Z.of_nat n) → 0 ≤ b < 2 ^ (8 * Z.of_nat n) →
  le_store n a = le_store n b → a = b.
Proof.
intros Ha Hb Heq. apply (f_equal le_load) in Heq.
by rewrite !le_load_store, !Z.mod_small in Heq.
Qed.

(** The byte-order macros of cocgi compute the same functions as the
    [<endian.h>] conversions of mucgi, at every width and for every argument,
    in range or not: both programs put the same octets on the wire. *)
Theorem byte_orders_agree x :
  HTON16 x = hostToNetwork16 x ∧ HTON32 x = hostToNetwork32 x ∧
  HTON64 x = hostToNetwork64 x.
Proof.
split_and!.
- apply (stored_inj 2); [apply (@hton16_range CocgiEndian)|apply (@hton16_range MuduoEndian)|].
  by rewrite (@hton16_store CocgiEndian), (@hton16_store MuduoEndian).
- apply (stored_inj 4); [apply (@hton32_range CocgiEndian)|apply (@hton32_range MuduoEndian)|].
  by rewrite (@hton32_store CocgiEndian), (@hton32_store MuduoEndian).
- apply (stored_inj 8); [apply (@hton64_range CocgiEndian)|apply (@hton64_range MuduoEndian)|].
  by rewrite (@hton64_store CocgiEndian), (@hton64_store MuduoEndian).
Qed.
