(* ===== verification/Buffer.v ===== *)
(** [muduo::net::Buffer]: the byte queue both servers read sockets into and build
    responses in ([mucgi/muduo_net/Buffer.h], [Buffer.cc]; cocgi carries the same
    class in [cocgi_lib/muduo_lib]).

    The state is the class's: the vector and the two indices.  Offsets stand for
    the pointers the methods return.  [content] is the abstract view (the
    readable bytes) and [wf] the representation invariant
    [readerIndex <= writerIndex <= size]; each operation preserves [wf], never
    trips one of the class's assertions when its documented precondition holds,
    and acts on [content] as the corresponding list operation.

    [Deque] is the abstract specification of the whole class: the readable bytes with the
    room before and behind them.

    Indices and lengths are [nat]: they are sizes of objects in memory, and [wf]
    keeps every subtraction from going below zero.  A size beyond what a [std::vector] can
    have, for which it throws [length_error], is not modelled.  The values of the integer
    accessors are [Z] at their width. *)

From Stdlib Require Import ZArith Lia Bool.
From Stdlib.Strings Require Import Byte.
From stdpp Require Import base numbers list option.
From S2P Require Import Prelude Endian.

Record Buffer := mkBuffer {
  buffer_ : bytes;
  readerIndex_ : nat;
  writerIndex_ : nat;
}.

Definition kCheapPrepend : nat := 8.
Definition kInitialSize : nat := 1024.
Definition kCRLF : bytes := [x0d; x0a].

Definition readableBytes (b : Buffer) : nat := writerIndex_ b - readerIndex_ b.
Definition writableBytes (b : Buffer) : nat := length (buffer_ b) - writerIndex_ b.
Definition prependableBytes (b : Buffer) : nat := readerIndex_ b.

(** The constructor, with its three assertions. *)
Definition Buffer_ctor (initialSize : nat) : res Buffer :=
  let b := mkBuffer (replicate (kCheapPrepend + initialSize) x00)
                    kCheapPrepend kCheapPrepend in
  assert_ (readableBytes b =? 0) ;;
  assert_ (writableBytes b =? initialSize) ;;
  assert_ (prependableBytes b =? kCheapPrepend) ;;
  Ok b.

Definition swap (a b : Buffer) : Buffer * Buffer := (b, a).

(** Offsets of the pointers [peek()] and [beginWrite()]. *)
Definition peek (b : Buffer) : nat := readerIndex_ b.
Definition beginWrite (b : Buffer) : nat := writerIndex_ b.

(** Reading [n] bytes through a pointer into the vector. *)
Definition mem_read (b : Buffer) (off n : nat) : res bytes :=
  if off + n <=? length (buffer_ b) then Ok (slice off n (buffer_ b))
  else Fault OutOfBounds.

(** [findCRLF(start)] and [findEOL(start)]; the overloads without an argument
    start at [peek()].  [None] is the null pointer. *)
Definition findCRLF_from (b : Buffer) (start : nat) : res (option nat) :=
  assert_ (peek b <=? start) ;;
  assert_ (start <=? beginWrite b) ;;
  range ← mem_read b start (beginWrite b - start);
  Ok ((λ i, start + i) <$> search kCRLF range).

Definition findCRLF (b : Buffer) : res (option nat) :=
  range ← mem_read b (peek b) (beginWrite b - peek b);
  Ok ((λ i, peek b + i) <$> search kCRLF range).

Definition findEOL_from (b : Buffer) (start : nat) : res (option nat) :=
  assert_ (peek b <=? start) ;;
  assert_ (start <=? beginWrite b) ;;
  range ← mem_read b start (beginWrite b - start);
  Ok ((λ i, start + i) <$> search [x0a] range).

Definition findEOL (b : Buffer) : res (option nat) :=
  range ← mem_read b (peek b) (readableBytes b);
  Ok ((λ i, peek b + i) <$> search [x0a] range).

Definition retrieveAll (b : Buffer) : Buffer :=
  mkBuffer (buffer_ b) kCheapPrepend kCheapPrepend.

Definition retrieve (b : Buffer) (len : nat) : res Buffer :=
  assert_ (len <=? readableBytes b) ;;
  if len <? readableBytes b
  then Ok (mkBuffer (buffer_ b) (readerIndex_ b + len) (writerIndex_ b))
  else Ok (retrieveAll b).

Definition retrieveUntil (b : Buffer) (end_ : nat) : res Buffer :=
  assert_ (peek b <=? end_) ;;
  assert_ (end_ <=? beginWrite b) ;;
  retrieve b (end_ - peek b).

Definition retrieveInt64 (b : Buffer) : res Buffer := retrieve b 8.
Definition retrieveInt32 (b : Buffer) : res Buffer := retrieve b 4.
Definition retrieveInt16 (b : Buffer) : res Buffer := retrieve b 2.
Definition retrieveInt8 (b : Buffer) : res Buffer := retrieve b 1.

Definition retrieveAsString (b : Buffer) (len : nat) : res (bytes * Buffer) :=
  assert_ (len <=? readableBytes b) ;;
  result ← mem_read b (peek b) len;
  b' ← retrieve b len;
  Ok (result, b').

Definition retrieveAllAsString (b : Buffer) : res (bytes * Buffer) :=
  retrieveAsString b (readableBytes b).

(** [StringPiece(peek(), static_cast<int>(readableBytes()))]. *)
Definition toStringPiece (b : Buffer) : nat * Z :=
  (peek b, s32 (Z.of_nat (readableBytes b))).

(** ** Writing *)

Definition hasWritten (b : Buffer) (len : nat) : res Buffer :=
  assert_ (len <=? writableBytes b) ;;
  Ok (mkBuffer (buffer_ b) (readerIndex_ b) (writerIndex_ b + len)).

Definition unwrite (b : Buffer) (len : nat) : res Buffer :=
  assert_ (len <=? readableBytes b) ;;
  Ok (mkBuffer (buffer_ b) (readerIndex_ b) (writerIndex_ b - len)).

(** [std::vector::resize]: new elements are value-initialised. *)
Definition resize (v : bytes) (n : nat) : bytes :=
  take n v ++ replicate (n - length v) x00.

Definition makeSpace (b : Buffer) (len : nat) : res Buffer :=
  if writableBytes b + prependableBytes b <? len + kCheapPrepend
  then Ok (mkBuffer (resize (buffer_ b) (writerIndex_ b + len))
                    (readerIndex_ b) (writerIndex_ b))
  else
    assert_ (kCheapPrepend <? readerIndex_ b) ;;
    let readable := readableBytes b in
    data ← mem_read b (readerIndex_ b) readable;
    let b' := mkBuffer (overwrite kCheapPrepend data (buffer_ b))
                       kCheapPrepend (kCheapPrepend + readable) in
    assert_ (readable =? readableBytes b') ;;
    Ok b'.

Definition ensureWritableBytes (b : Buffer) (len : nat) : res Buffer :=
  b' ← (if writableBytes b <? len then makeSpace b len else Ok b);
  assert_ (len <=? writableBytes b') ;;
  Ok b'.

(** [append(const char*, size_t)] and the [const void*] overload. *)
Definition append (b : Buffer) (data : bytes) : res Buffer :=
  b' ← ensureWritableBytes b (length data);
  hasWritten (mkBuffer (overwrite (beginWrite b') data (buffer_ b'))
                       (readerIndex_ b') (writerIndex_ b'))
             (length data).

Definition prepend (b : Buffer) (data : bytes) : res Buffer :=
  assert_ (length data <=? prependableBytes b) ;;
  let r := readerIndex_ b - length data in
  Ok (mkBuffer (overwrite r data (buffer_ b)) r (writerIndex_ b)).

(** [append(const StringPiece&)] of a piece of another buffer: the piece's [int]
    length is converted to [size_t]; a negative one asks the vector for more
    than [max_size()]. *)
Definition append_piece (b src : Buffer) (piece : nat * Z) : res Buffer :=
  if (piece.2 <? 0)%Z then Fault LengthError
  else d ← mem_read src piece.1 (Z.to_nat piece.2); append b d.

Definition shrink (b : Buffer) (reserve : nat) : res Buffer :=
  other ← Buffer_ctor kInitialSize;
  other ← ensureWritableBytes other (readableBytes b + reserve);
  other ← append_piece other b (toStringPiece b);
  Ok (swap b other).1.

Section integers.
Context `{Endian}.

Definition appendInt64 (b : Buffer) (x : Z) : res Buffer :=
  append b (le_store 8 (hton64 x)).
Definition appendInt32 (b : Buffer) (x : Z) : res Buffer :=
  append b (le_store 4 (hton32 x)).
Definition appendInt16 (b : Buffer) (x : Z) : res Buffer :=
  append b (le_store 2 (hton16 x)).
Definition appendInt8 (b : Buffer) (x : Z) : res Buffer :=
  append b (le_store 1 (u8 x)).

Definition peekInt64 (b : Buffer) : res Z :=
  assert_ (8 <=? readableBytes b) ;;
  be64 ← mem_read b (peek b) 8;
  Ok (s64 (ntoh64 (s64 (le_load be64)))).
Definition peekInt32 (b : Buffer) : res Z :=
  assert_ (4 <=? readableBytes b) ;;
  be32 ← mem_read b (peek b) 4;
  Ok (s32 (ntoh32 (s32 (le_load be32)))).
Definition peekInt16 (b : Buffer) : res Z :=
  assert_ (2 <=? readableBytes b) ;;
  be16 ← mem_read b (peek b) 2;
  Ok (s16 (ntoh16 (s16 (le_load be16)))).
Definition peekInt8 (b : Buffer) : res Z :=
  assert_ (1 <=? readableBytes b) ;;
  x ← mem_read b (peek b) 1;
  Ok (s8 (le_load x)).

Definition readInt64 (b : Buffer) : res (Z * Buffer) :=
  result ← peekInt64 b; b' ← retrieveInt64 b; Ok (result, b').
Definition readInt32 (b : Buffer) : res (Z * Buffer) :=
  result ← peekInt32 b; b' ← retrieveInt32 b; Ok (result, b').
Definition readInt16 (b : Buffer) : res (Z * Buffer) :=
  result ← peekInt16 b; b' ← retrieveInt16 b; Ok (result, b').
Definition readInt8 (b : Buffer) : res (Z * Buffer) :=
  result ← peekInt8 b; b' ← retrieveInt8 b; Ok (result, b').

Definition prependInt64 (b : Buffer) (x : Z) : res Buffer :=
  prepend b (le_store 8 (hton64 x)).
Definition prependInt32 (b : Buffer) (x : Z) : res Buffer :=
  prepend b (le_store 4 (hton32 x)).
Definition prependInt16 (b : Buffer) (x : Z) : res Buffer :=
  prepend b (le_store 2 (hton16 x)).
Definition prependInt8 (b : Buffer) (x : Z) : res Buffer :=
  prepend b (le_store 1 (u8 x)).
End integers.

(** ** [readFd] *)

(** What [readv(2)] does: data read, scattered over the given areas in order, or
    an error number. *)
Inductive readv_result :=
  | ReadData (data : bytes)
  | ReadError (errno : Z).

Definition extrabuf_size : nat := Z.to_nat 65536.

(** Returns [readv]'s result, the saved error number if it failed, and the
    buffer.  [sys_readv] receives the lengths of the areas of [vec]. *)
Definition readFd (sys_readv : list nat → readv_result) (b : Buffer)
  : res (Z * option Z * Buffer) :=
  let writable := writableBytes b in
  let vec := if writable <? extrabuf_size
             then [writable; extrabuf_size] else [writable] in
  match sys_readv vec with
  | ReadError errno => Ok ((-1)%Z, Some errno, b)
  | ReadData data =>
      if sum_list vec <? length data then Fault OutOfBounds else
      let n := length data in
      let v := overwrite (writerIndex_ b) (take writable data) (buffer_ b) in
      if n <=? writable
      then Ok (Z.of_nat n, None, mkBuffer v (readerIndex_ b) (writerIndex_ b + n))
      else
        b' ← append (mkBuffer v (readerIndex_ b) (length v)) (drop writable data);
        Ok (Z.of_nat n, None, b')
  end.

(** ** Representation invariant and abstract view *)

Record wf (b : Buffer) : Prop := {
  wf_rw : readerIndex_ b ≤ writerIndex_ b;
  wf_ws : writerIndex_ b ≤ length (buffer_ b);
  wf_pre : kCheapPrepend ≤ length (buffer_ b);
}.

Definition content (b : Buffer) : bytes :=
  slice (readerIndex_ b) (readableBytes b) (buffer_ b).

(** [b'] is a well-formed buffer holding [l]. *)
Definition holds (b' : Buffer) (l : bytes) : Prop := wf b' ∧ content b' = l.

(** ** Operations against the abstract view *)

Ltac bsimpl :=
  unfold content, readableBytes, writableBytes, prependableBytes, peek, beginWrite,
    kCheapPrepend in *; simpl in *.

(** Discharge the assertion at the head of the goal. *)
Ltac pass_assert :=
  match goal with
  | |- context [assert_ ?b] =>
      let E := fresh in
      assert (b = true) as E by
        (first [apply Nat.leb_le | apply Nat.ltb_lt | apply Nat.eqb_eq]; bsimpl; lens);
      rewrite E; clear E; cbn [assert_ mbind res_bind]
  end.

Lemma length_content b : wf b → length (content b) = readableBytes b.
Proof. intros [? ? ?]. bsimpl. apply length_slice. lia. Qed.

Lemma wf_retrieveAll b : wf b → wf (retrieveAll b).
Proof. intros [? ? ?]. split; simpl; lia. Qed.

Lemma content_retrieveAll b : content (retrieveAll b) = [].
Proof. reflexivity. Qed.

Lemma retrieveAll_holds b : wf b → holds (retrieveAll b) [].
Proof. split; [by apply wf_retrieveAll | apply content_retrieveAll]. Qed.

Lemma Buffer_ctor_holds n : ∃ b, Buffer_ctor n = Ok b ∧ holds b [].
Proof.
eexists. unfold Buffer_ctor.
do 3 pass_assert.
split; [reflexivity|]. split; [split|done]; bsimpl; lens.
Qed.

Lemma mem_read_content b off n :
  wf b → off + n ≤ readableBytes b →
  mem_read b (peek b + off) n = Ok (slice off n (content b)).
Proof.
intros [? ? ?] ?. unfold mem_read, content.
rewrite (proj2 (Nat.leb_le _ _)) by (bsimpl; lia).
by rewrite slice_slice.
Qed.

Lemma mem_read_peek b n :
  wf b → n ≤ readableBytes b → mem_read b (peek b) n = Ok (take n (content b)).
Proof.
intros. pose proof (mem_read_content b 0 n) as Hm. rewrite Nat.add_0_r in Hm.
by rewrite Hm by (done || lia).
Qed.

Lemma retrieve_holds b n :
  wf b → n ≤ readableBytes b →
  ∃ b', retrieve b n = Ok b' ∧ holds b' (drop n (content b)).
Proof.
intros Hwf Hn. unfold retrieve. pass_assert.
destruct (Nat.ltb_spec n (readableBytes b)) as [Hlt|Hge].
- eexists. split; [done|]. destruct Hwf. split; [split; bsimpl; lia|].
  bsimpl. rewrite <- slice_drop by lia. f_equal. lia.
- exists (retrieveAll b). split; [done|]. rewrite drop_ge by (rewrite length_content by done; lia).
  by apply retrieveAll_holds.
Qed.

Lemma retrieve_too_much b n : readableBytes b < n → retrieve b n = Fault AssertFail.
Proof. intros. unfold retrieve. by rewrite (proj2 (Nat.leb_gt _ _)). Qed.

Lemma retrieveAsString_holds b n :
  wf b → n ≤ readableBytes b →
  ∃ b', retrieveAsString b n = Ok (take n (content b), b') ∧
        holds b' (drop n (content b)).
Proof.
intros Hwf Hn. unfold retrieveAsString. pass_assert.
rewrite mem_read_peek by done. destruct (retrieve_holds b n) as (b' & E & ?); [done..|].
exists b'. simpl. rewrite E. done.
Qed.

Lemma retrieveAllAsString_holds b :
  wf b → ∃ b', retrieveAllAsString b = Ok (content b, b') ∧ holds b' [].
Proof.
intros Hwf. destruct (retrieveAsString_holds b (readableBytes b)) as (b' & E & Hb); [done|lia|].
rewrite <- length_content, firstn_all, skipn_all in * by done.
exists b'. unfold retrieveAllAsString. by rewrite <- length_content.
Qed.

Lemma length_resize v n : length (resize v n) = n.
Proof. unfold resize. lens. Qed.

Lemma slice_resize off n v m :
  off + n ≤ length v → off + n ≤ m → slice off n (resize v m) = slice off n v.
Proof.
intros. unfold resize. rewrite slice_app_l by lens.
unfold slice. rewrite !take_drop_commute, take_take. do 2 f_equal. lia.
Qed.

(** ** The abstract specification

    Bytes with room before and behind them; room is made behind by adding it, or by moving
    the bytes to the front when enough lies there. *)

Module Deque.
Record t := mk { front : nat; items : bytes; back : nat }.

Definition fresh (n : nat) : t := mk kCheapPrepend [] n.

Definition room (len : nat) (q : t) : t :=
  if len <=? back q then q
  else if back q + front q <? len + kCheapPrepend then mk (front q) (items q) len
  else mk kCheapPrepend (items q) (front q + back q - kCheapPrepend).

(** Writing into the room behind. *)
Definition extend (d : bytes) (q : t) : t := mk (front q) (items q ++ d) (back q - length d).
Definition push_back (d : bytes) (q : t) : t := extend d (room (length d) q).

Definition push_front (d : bytes) (q : t) : res t :=
  assert_ (length d <=? front q) ;; Ok (mk (front q - length d) (d ++ items q) (back q)).

Definition clear (q : t) : t := fresh (front q + length (items q) + back q - kCheapPrepend).

(** Taking all bytes gives their room to the back. *)
Definition pop_front (n : nat) (q : t) : res t :=
  assert_ (n <=? length (items q)) ;;
  Ok (if n <? length (items q) then mk (front q + n) (drop n (items q)) (back q) else clear q).

Definition drop_back (n : nat) (q : t) : res t :=
  assert_ (n <=? length (items q)) ;; Ok (mk (front q) (take (length (items q) - n) (items q)) (back q + n)).

(** The bytes go through an [int] length. *)
Definition compact (reserve : nat) (q : t) : res t :=
  let n := s32 (Z.of_nat (length (items q))) in
  if (n <? 0)%Z then Fault LengthError
  else Ok (extend (take (Z.to_nat n) (items q)) (fresh (kInitialSize `max` (length (items q) + reserve)))).

(** What [readv] stores, up to 64 KiB more than there is room. *)
Definition receive (d : bytes) (q : t) : res t :=
  if (if back q <? extrabuf_size then back q + extrabuf_size else back q) <? length d then Fault OutOfBounds
  else Ok (if length d <=? back q then extend d q
           else push_back (drop (back q) d) (extend (take (back q) d) q)).

(** Room behind is never lost. *)
Lemma room_back len q : len ≤ back (room len q).
Proof.
unfold room. destruct (Nat.leb_spec len (back q)); [done|]. destruct (Nat.ltb_spec (back q + front q) (len + kCheapPrepend)); cbn; lia.
Qed.

Lemma room_items len q : items (room len q) = items q.
Proof. unfold room. by repeat case_match. Qed.
End Deque.

Definition view (b : Buffer) : Deque.t := Deque.mk (readerIndex_ b) (content b) (writableBytes b).

(** [b] is a well-formed buffer that represents [q]. *)
Definition represents (b : Buffer) (q : Deque.t) : Prop := wf b ∧ view b = q.

Lemma represents_holds b q : represents b q → holds b (Deque.items q).
Proof. by intros [? <-]. Qed.

Lemma represents_intro b f l k : wf b → readerIndex_ b = f → content b = l → writableBytes b = k → represents b (Deque.mk f l k).
Proof. intros ? <- <- <-. by split. Qed.

(** [makeSpace] never trips its assertion [kCheapPrepend < readerIndex_]: it is
    called only when the writable area is too small. *)
Lemma makeSpace_represents b len :
  wf b → writableBytes b < len → ∃ b', makeSpace b len = Ok b' ∧ represents b' (Deque.room len (view b)).
Proof.
intros [Hrw Hws Hpre] Hlen. unfold makeSpace, Deque.room. cbn [view Deque.back Deque.front Deque.items].
rewrite (proj2 (Nat.leb_gt _ _)) by lia. change (prependableBytes b) with (readerIndex_ b).
destruct (Nat.ltb_spec (writableBytes b + readerIndex_ b) (len + kCheapPrepend)).
- eexists. split; [done|]. apply represents_intro; [split|..]; bsimpl; rewrite ?length_resize; try lia. apply slice_resize; lia.
- pass_assert.
  rewrite (mem_read_peek b) by (done || lia). rewrite take_ge by (rewrite length_content by done; lia).
  cbn [mbind res_bind].
  assert (length (content b) = readableBytes b) as Hc by (by apply length_content).
  pass_assert. eexists. split; [done|]. apply represents_intro; [split|..]; bsimpl; try rewrite length_overwrite by (bsimpl; lia); try lia.
  rewrite Nat.sub_0_r. rewrite <- Hc at 1. apply slice_overwrite. lia.
Qed.

Lemma ensureWritableBytes_represents b len :
  wf b → ∃ b', ensureWritableBytes b len = Ok b' ∧ represents b' (Deque.room len (view b)).
Proof.
intros Hwf. unfold ensureWritableBytes. pose proof (Deque.room_back len (view b)) as Hr.
destruct (Nat.ltb_spec (writableBytes b) len).
- destruct (makeSpace_represents b len) as (b' & -> & Hw & Hv); [done..|].
  exists b'. cbn [mbind res_bind]. rewrite <- Hv in Hr. cbn in Hr. by pass_assert.
- exists b. cbn [mbind res_bind]. pass_assert. split; [done|]. split; [done|]. unfold Deque.room. cbn [view Deque.back].
  by rewrite (proj2 (Nat.leb_le _ _)).
Qed.

(** Bytes stored at [beginWrite()] within the writable area and then declared. *)
Lemma hasWritten_represents b d :
  wf b → length d ≤ writableBytes b →
  ∃ b', hasWritten (mkBuffer (overwrite (beginWrite b) d (buffer_ b)) (readerIndex_ b) (writerIndex_ b)) (length d) = Ok b' ∧
    represents b' (Deque.extend d (view b)).
Proof.
intros [Hrw Hws Hp] Hl.
assert (length (overwrite (beginWrite b) d (buffer_ b)) = length (buffer_ b)) as Ho
  by (apply length_overwrite; bsimpl; lia).
unfold hasWritten. pass_assert. eexists. split; [done|]. unfold Deque.extend. apply represents_intro; [split; bsimpl; lia|done| |cbn [view Deque.back]; bsimpl; lia].
cbn [view Deque.items]. bsimpl.
replace (writerIndex_ b + length d - readerIndex_ b)
  with (writerIndex_ b - readerIndex_ b + length d) by lia.
apply slice_overwrite_adj; lia.
Qed.

Lemma append_represents b d : wf b → ∃ b', append b d = Ok b' ∧ represents b' (Deque.push_back d (view b)).
Proof.
intros Hwf. unfold append. destruct (ensureWritableBytes_represents b (length d)) as (b1 & -> & Hw & Hv); [done|]. cbn [mbind res_bind].
destruct (hasWritten_represents b1 d) as (b2 & -> & Hb2); [done| |].
- pose proof (Deque.room_back (length d) (view b)) as Hr. rewrite <- Hv in Hr. exact Hr.
- exists b2. split; [done|]. unfold Deque.push_back. by rewrite <- Hv.
Qed.

Lemma ensureWritableBytes_holds b len :
  wf b →
  ∃ b', ensureWritableBytes b len = Ok b' ∧ holds b' (content b) ∧
        len ≤ writableBytes b'.
Proof.
intros Hwf. destruct (ensureWritableBytes_represents b len Hwf) as (b' & -> & Hb). exists b'. split; [done|].
pose proof (represents_holds _ _ Hb) as Hh. rewrite Deque.room_items in Hh. split; [done|]. destruct Hb as [_ Hv].
pose proof (Deque.room_back len (view b)) as Hr. by rewrite <- Hv in Hr.
Qed.

Lemma append_holds b d :
  wf b → ∃ b', append b d = Ok b' ∧ holds b' (content b ++ d).
Proof.
intros Hwf. destruct (append_represents b d Hwf) as (b' & -> & Hb). exists b'. split; [done|].
apply represents_holds in Hb. cbn in Hb. by rewrite Deque.room_items in Hb.
Qed.

Lemma prepend_holds b d :
  wf b → length d ≤ prependableBytes b →
  ∃ b', prepend b d = Ok b' ∧ holds b' (d ++ content b).
Proof.
intros [Hrw Hws Hp] Hd. unfold prepend. pass_assert. eexists. split; [done|].
assert (length (overwrite (readerIndex_ b - length d) d (buffer_ b)) = length (buffer_ b))
  as Ho by (apply length_overwrite; bsimpl; lia).
split; [split; bsimpl; lia|]. bsimpl.
unfold slice, overwrite.
rewrite drop_app_length' by (rewrite length_take; lia).
replace (writerIndex_ b - (readerIndex_ b - length d))
  with (length d + (writerIndex_ b - readerIndex_ b)) by lia.
rewrite take_app_add. do 3 f_equal. lia.
Qed.

Lemma unwrite_holds b n :
  wf b → n ≤ readableBytes b →
  ∃ b', unwrite b n = Ok b' ∧ holds b' (take (readableBytes b - n) (content b)).
Proof.
intros [Hrw Hws Hp] Hn. unfold unwrite. pass_assert. eexists. split; [done|].
split; [split; bsimpl; lia|]. bsimpl. rewrite <- slice_take by lia. f_equal. lia.
Qed.

(** ** Integer accessors: network byte order on the wire *)

Section integer_specs.
Context `{Endian}.

Lemma hton16_signed x : hton16 (s16 x) = hton16 x.
Proof. rewrite <- hton16_wrap, <- (hton16_wrap x). unfold u16, s16. by rewrite swrap_mod. Qed.
Lemma hton32_signed x : hton32 (s32 x) = hton32 x.
Proof. rewrite <- hton32_wrap, <- (hton32_wrap x). unfold u32, s32. by rewrite swrap_mod. Qed.
Lemma hton64_signed x : hton64 (s64 x) = hton64 x.
Proof. rewrite <- hton64_wrap, <- (hton64_wrap x). unfold u64, s64. by rewrite swrap_mod. Qed.

(** The first [n] readable bytes have length [n]. *)
Lemma length_take_content b n :
  wf b → n ≤ readableBytes b → length (take n (content b)) = n.
Proof. intros. rewrite length_take, length_content by done. lia. Qed.

Lemma peekInt64_spec b :
  wf b → 8 ≤ readableBytes b → peekInt64 b = Ok (s64 (be_load (take 8 (content b)))).
Proof.
intros. unfold peekInt64. pass_assert. rewrite mem_read_peek by done. simpl.
unfold ntoh64. rewrite hton64_signed. do 2 f_equal.
by apply ntoh64_load, length_take_content.
Qed.

Lemma peekInt32_spec b :
  wf b → 4 ≤ readableBytes b → peekInt32 b = Ok (s32 (be_load (take 4 (content b)))).
Proof.
intros. unfold peekInt32. pass_assert. rewrite mem_read_peek by done. simpl.
unfold ntoh32. rewrite hton32_signed. do 2 f_equal.
by apply ntoh32_load, length_take_content.
Qed.

Lemma peekInt16_spec b :
  wf b → 2 ≤ readableBytes b → peekInt16 b = Ok (s16 (be_load (take 2 (content b)))).
Proof.
intros. unfold peekInt16. pass_assert. rewrite mem_read_peek by done. simpl.
unfold ntoh16. rewrite hton16_signed. do 2 f_equal.
by apply ntoh16_load, length_take_content.
Qed.

Lemma peekInt8_spec b :
  wf b → 1 ≤ readableBytes b → peekInt8 b = Ok (s8 (be_load (take 1 (content b)))).
Proof.
intros. unfold peekInt8. pass_assert. rewrite mem_read_peek by done. simpl.
assert (length (take 1 (content b)) = 1) by (by apply length_take_content).
by destruct (take 1 (content b)) as [|? [|]].
Qed.

(** [readIntN]: a peek followed by a retrieve. *)
Lemma read_then_retrieve {A} b n (x : A) (m : res A) :
  wf b → n ≤ readableBytes b → m = Ok x →
  ∃ b', (r ← m; b' ← retrieve b n; Ok (r, b')) = Ok (x, b') ∧
        holds b' (drop n (content b)).
Proof.
intros Hwf Hn ->. simpl. destruct (retrieve_holds b n) as (b' & -> & ?); eauto.
Qed.

Lemma readInt32_holds b :
  wf b → 4 ≤ readableBytes b →
  ∃ b', readInt32 b = Ok (s32 (be_load (take 4 (content b))), b') ∧
        holds b' (drop 4 (content b)).
Proof. intros. apply read_then_retrieve; auto using peekInt32_spec. Qed.

Lemma readInt8_holds b :
  wf b → 1 ≤ readableBytes b →
  ∃ b', readInt8 b = Ok (s8 (be_load (take 1 (content b))), b') ∧
        holds b' (drop 1 (content b)).
Proof. intros. apply read_then_retrieve; auto using peekInt8_spec. Qed.

Lemma appendInt32_holds b x :
  wf b → ∃ b', appendInt32 b x = Ok b' ∧ holds b' (content b ++ be_store 4 (u32 x)).
Proof. intros. unfold appendInt32. rewrite hton32_store. by apply append_holds. Qed.

Lemma store_u8 x : le_store 1 (u8 x) = be_store 1 (u8 x).
Proof. done. Qed.
End integer_specs.

(** ** [shrink] and [readFd] *)

Lemma shrink_holds b reserve :
  wf b → (Z.of_nat (readableBytes b) < 2 ^ 31)%Z →
  ∃ b', shrink b reserve = Ok b' ∧ holds b' (content b).
Proof.
intros Hwf Hlt. unfold shrink.
destruct (Buffer_ctor_holds kInitialSize) as (b0 & -> & Hb0 & Hc0). cbn [mbind res_bind].
destruct (ensureWritableBytes_holds b0 (readableBytes b + reserve))
  as (b1 & -> & [Hb1 Hc1] & _); [done|]. cbn [mbind res_bind].
unfold append_piece, toStringPiece. cbn [fst snd].
unfold s32. rewrite swrap_small by lia.
rewrite (proj2 (Z.ltb_ge _ _)), Nat2Z.id by lia.
rewrite mem_read_peek by (done || lia). cbn [mbind res_bind].
rewrite take_ge by (rewrite length_content by done; lia).
destruct (append_holds b1 (content b)) as (b2 & -> & Hb2); [done|].
exists b2. split; [done|]. by rewrite Hc1, Hc0 in Hb2.
Qed.

(** What [readv(2)] documents: it stores at most the bytes the areas hold. *)
Definition readv_ok (sys_readv : list nat → readv_result) : Prop :=
  ∀ vec d, sys_readv vec = ReadData d → length d ≤ sum_list vec.

(** The areas [readFd] passes to [readv]. *)
Definition readFd_vec (b : Buffer) : list nat :=
  if writableBytes b <? extrabuf_size
  then [writableBytes b; extrabuf_size] else [writableBytes b].

Lemma readFd_data sys_readv b d :
  readv_ok sys_readv → wf b → sys_readv (readFd_vec b) = ReadData d →
  ∃ b', readFd sys_readv b = Ok (Z.of_nat (length d), None, b') ∧
        holds b' (content b ++ d).
Proof.
intros Hrv Hwf E. unfold readFd. fold (readFd_vec b). rewrite E.
rewrite (proj2 (Nat.ltb_ge _ _)) by eauto. destruct Hwf as [Hrw Hws Hp].
destruct (Nat.leb_spec (length d) (writableBytes b)) as [Hle|Hgt].
- eexists. split; [done|]. rewrite (take_ge d) by done.
  assert (length (overwrite (writerIndex_ b) d (buffer_ b)) = length (buffer_ b)) as Ho
    by (apply length_overwrite; bsimpl; lia).
  split; [split; bsimpl; lia|]. bsimpl.
  replace (writerIndex_ b + length d - readerIndex_ b)
    with (writerIndex_ b - readerIndex_ b + length d) by lia.
  apply slice_overwrite_adj; lia.
- assert (length (take (writableBytes b) d) = writableBytes b) as Ht by (rewrite length_take; lia).
  set (v := overwrite _ _ _).
  assert (length v = length (buffer_ b)) as Ho
    by (apply length_overwrite; rewrite Ht; bsimpl; lia).
  destruct (append_holds (mkBuffer v (readerIndex_ b) (length v)) (drop (writableBytes b) d))
    as (b' & -> & Hb').
  { split; bsimpl; lia. }
  exists b'. split; [done|].
  replace (content b ++ d) with
    (content (mkBuffer v (readerIndex_ b) (length v)) ++ drop (writableBytes b) d); [done|].
  rewrite <- (take_drop (writableBytes b) d) at 2. rewrite app_assoc. f_equal.
  unfold content at 1, readableBytes at 1. cbn [readerIndex_ writerIndex_ buffer_].
  replace (length v - readerIndex_ b)
    with (readableBytes b + length (take (writableBytes b) d)) by (rewrite Ht; bsimpl; lia).
  apply slice_overwrite_adj; rewrite ?Ht; bsimpl; lia.
Qed.

(** ** The buffer as a queue of bytes

    Every method of the class, on a buffer and on the abstract queue.  A pointer that is
    passed in or returned is given by its distance from [peek()]. *)

Inductive width := W8 | W16 | W32 | W64.
Definition octets (w : width) : nat :=
  match w with W8 => 1 | W16 => 2 | W32 => 4 | W64 => 8 end.

(** [CWrite]: the caller stores bytes at [beginWrite()], as far as there is room, and calls
    [hasWritten] for all of them. *)
Inductive call :=
  | CAppend (d : bytes) | CAppendInt (w : width) (x : Z)
  | CPrepend (d : bytes) | CPrependInt (w : width) (x : Z)
  | CWrite (d : bytes) | CEnsureWritable (n : nat) | CUnwrite (n : nat)
  | CRetrieve (n : nat) | CRetrieveUntil (end_ : nat) | CRetrieveInt (w : width) | CRetrieveAll
  | CRetrieveAsString (n : nat) | CRetrieveAllAsString
  | CPeekInt (w : width) | CReadInt (w : width)
  | CFindCRLF (start : option nat) | CFindEOL (start : option nat)
  | CToStringPiece | CShrink (reserve : nat) | CReadFd (r : readv_result)
  | CSizes.

Inductive reply :=
  | RVoid | RInt (x : Z) | RString (s : bytes) | RFound (p : option nat) | RRead (n : Z) (savedErrno : option Z)
  | RSizes (prependable readable writable : nat).

Section queue.
Context `{Endian}.

Definition appendInt (w : width) : Buffer → Z → res Buffer :=
  match w with W8 => appendInt8 | W16 => appendInt16 | W32 => appendInt32 | W64 => appendInt64 end.
Definition prependInt (w : width) : Buffer → Z → res Buffer :=
  match w with W8 => prependInt8 | W16 => prependInt16 | W32 => prependInt32 | W64 => prependInt64 end.
Definition peekInt (w : width) : Buffer → res Z :=
  match w with W8 => peekInt8 | W16 => peekInt16 | W32 => peekInt32 | W64 => peekInt64 end.
Definition readInt (w : width) : Buffer → res (Z * Buffer) :=
  match w with W8 => readInt8 | W16 => readInt16 | W32 => readInt32 | W64 => readInt64 end.
Definition retrieveInt (w : width) : Buffer → res Buffer :=
  match w with W8 => retrieveInt8 | W16 => retrieveInt16 | W32 => retrieveInt32 | W64 => retrieveInt64 end.

Definition void (m : res Buffer) : res (reply * Buffer) := b ← m; Ok (RVoid, b).
Definition found (b : Buffer) (m : res (option nat)) : res (reply * Buffer) := p ← m; Ok (RFound ((λ i, i - peek b) <$> p), b).

Definition buffer_call (c : call) (b : Buffer) : res (reply * Buffer) :=
  match c with
  | CAppend d => void (append b d)
  | CAppendInt w x => void (appendInt w b x)
  | CPrepend d => void (prepend b d)
  | CPrependInt w x => void (prependInt w b x)
  | CWrite d =>
      void (hasWritten (mkBuffer (overwrite (beginWrite b) (take (writableBytes b) d) (buffer_ b)) (readerIndex_ b) (writerIndex_ b)) (length d))
  | CEnsureWritable n => void (ensureWritableBytes b n)
  | CUnwrite n => void (unwrite b n)
  | CRetrieve n => void (retrieve b n)
  | CRetrieveUntil end_ => void (retrieveUntil b (peek b + end_))
  | CRetrieveInt w => void (retrieveInt w b)
  | CRetrieveAll => Ok (RVoid, retrieveAll b)
  | CRetrieveAsString n => '(s, b') ← retrieveAsString b n; Ok (RString s, b')
  | CRetrieveAllAsString => '(s, b') ← retrieveAllAsString b; Ok (RString s, b')
  | CPeekInt w => x ← peekInt w b; Ok (RInt x, b)
  | CReadInt w => '(x, b') ← readInt w b; Ok (RInt x, b')
  | CFindCRLF None => found b (findCRLF b)
  | CFindCRLF (Some start) => found b (findCRLF_from b (peek b + start))
  | CFindEOL None => found b (findEOL b)
  | CFindEOL (Some start) => found b (findEOL_from b (peek b + start))
  | CToStringPiece => Ok (RInt (toStringPiece b).2, b)
  | CShrink reserve => void (shrink b reserve)
  | CReadFd r => '(n, e, b') ← readFd (λ _, r) b; Ok (RRead n e, b')
  | CSizes => Ok (RSizes (prependableBytes b) (readableBytes b) (writableBytes b), b)
  end.

Fixpoint buffer_calls (cs : list call) (b : Buffer) : res (list reply * Buffer) :=
  match cs with
  | [] => Ok ([], b)
  | c :: cs =>
      '(r, b) ← buffer_call c b;
      '(rs, b) ← buffer_calls cs b;
      Ok (r :: rs, b)
  end.
End queue.

(** The same on the abstract queue. *)
Definition int_octets (w : width) (x : Z) : bytes := be_store (octets w) (x mod 2 ^ (8 * Z.of_nat (octets w))).
Definition int_at (w : width) (l : bytes) : res Z :=
  assert_ (octets w <=? length l) ;; Ok (swrap (8 * Z.of_nat (octets w)) (be_load (take (octets w) l))).
Definition found_in (pat : bytes) (start : nat) (l : bytes) : res (option nat) :=
  assert_ (start <=? length l) ;; Ok ((λ i, start + i) <$> search pat (drop start l)).

Definition deque_call (c : call) (q : Deque.t) : res (reply * Deque.t) :=
  let l := Deque.items q in
  let void m := q ← m; Ok (RVoid, q) in
  match c with
  | CAppend d => Ok (RVoid, Deque.push_back d q)
  | CAppendInt w x => Ok (RVoid, Deque.push_back (int_octets w x) q)
  | CPrepend d => void (Deque.push_front d q)
  | CPrependInt w x => void (Deque.push_front (int_octets w x) q)
  | CWrite d => assert_ (length d <=? Deque.back q) ;; Ok (RVoid, Deque.extend d q)
  | CEnsureWritable n => Ok (RVoid, Deque.room n q)
  | CUnwrite n => void (Deque.drop_back n q)
  | CRetrieve n | CRetrieveUntil n => void (Deque.pop_front n q)
  | CRetrieveInt w => void (Deque.pop_front (octets w) q)
  | CRetrieveAll => Ok (RVoid, Deque.clear q)
  | CRetrieveAsString n => q ← Deque.pop_front n q; Ok (RString (take n l), q)
  | CRetrieveAllAsString => Ok (RString l, Deque.clear q)
  | CPeekInt w => x ← int_at w l; Ok (RInt x, q)
  | CReadInt w => x ← int_at w l; q ← Deque.pop_front (octets w) q; Ok (RInt x, q)
  | CFindCRLF start => p ← found_in kCRLF (default 0 start) l; Ok (RFound p, q)
  | CFindEOL start => p ← found_in [x0a] (default 0 start) l; Ok (RFound p, q)
  | CToStringPiece => Ok (RInt (s32 (Z.of_nat (length l))), q)
  | CShrink reserve => void (Deque.compact reserve q)
  | CReadFd (ReadError e) => Ok (RRead (-1)%Z (Some e), q)
  | CReadFd (ReadData d) => q ← Deque.receive d q; Ok (RRead (Z.of_nat (length d)) None, q)
  | CSizes => Ok (RSizes (Deque.front q) (length l) (Deque.back q), q)
  end.

Fixpoint deque_calls (cs : list call) (q : Deque.t) : res (list reply * Deque.t) :=
  match cs with
  | [] => Ok ([], q)
  | c :: cs =>
      '(r, q) ← deque_call c q;
      '(rs, q) ← deque_calls cs q;
      Ok (r :: rs, q)
  end.

Section queue_refinement.
Context `{Endian}.

(** Outcome of a call on a buffer, given the abstract outcome. *)
Definition refines {A} (spec : res (A * Deque.t)) (impl : res (A * Buffer)) : Prop :=
  match spec with
  | Ok (a, q) => ∃ b', impl = Ok (a, b') ∧ represents b' q
  | Fault e => impl = Fault e
  end.
Definition refines_void (spec : res Deque.t) (impl : res Buffer) : Prop :=
  match spec with
  | Ok q => ∃ b', impl = Ok b' ∧ represents b' q
  | Fault e => impl = Fault e
  end.

Lemma void_refines spec impl : refines_void spec impl → refines (q ← spec; Ok (RVoid, q)) (void impl).
Proof. unfold void. destruct spec as [q|e]; cbn; [intros (b' & -> & ?); by eexists|by intros ->]. Qed.

Lemma Buffer_ctor_represents n : ∃ b, Buffer_ctor n = Ok b ∧ represents b (Deque.fresh n).
Proof.
destruct (Buffer_ctor_holds n) as (b & E & Hw & Hc). exists b. split; [done|]. unfold Buffer_ctor in E.
apply bind_Ok_inv in E as (? & _ & (? & _ & (? & _ & [= <-])%bind_Ok_inv)%bind_Ok_inv).
apply represents_intro; [done|done|done|]. unfold writableBytes. cbn. rewrite length_replicate. lia.
Qed.

Lemma retrieveAll_represents b : wf b → represents (retrieveAll b) (Deque.clear (view b)).
Proof.
intros Hwf. pose proof (length_content b Hwf) as Hl. unfold Deque.clear. cbn [view Deque.front Deque.items Deque.back]. rewrite Hl.
apply represents_intro; [by apply wf_retrieveAll|done|done|]. destruct Hwf. unfold writableBytes, readableBytes, retrieveAll. cbn. unfold kCheapPrepend in *. lia.
Qed.

Lemma retrieve_represents b n : wf b → refines_void (Deque.pop_front n (view b)) (retrieve b n).
Proof.
intros Hwf. unfold Deque.pop_front, retrieve. cbn [view Deque.items]. rewrite length_content by done.
destruct (Nat.leb_spec n (readableBytes b)) as [Hn|]; cbn [assert_ mbind res_bind refines_void Deque.front Deque.back view]; [|done].
destruct (Nat.ltb_spec n (readableBytes b)) as [Hlt|Hge].
- eexists. split; [done|]. destruct Hwf. apply represents_intro; [split; bsimpl; lia|done| |done].
  bsimpl. rewrite <- slice_drop by lia. f_equal. lia.
- eexists. split; [done|]. by apply retrieveAll_represents.
Qed.

Lemma retrieveAsString_represents b n :
  wf b → refines (q ← Deque.pop_front n (view b); Ok (take n (content b), q)) (retrieveAsString b n).
Proof.
intros Hwf. pose proof (retrieve_represents b n Hwf) as Hr. unfold Deque.pop_front in *. cbn [view Deque.items] in *. unfold retrieveAsString.
rewrite length_content in * by done. destruct (Nat.leb_spec n (readableBytes b)) as [Hn|]; [|done]. cbn [assert_ mbind res_bind] in *.
rewrite mem_read_peek by done. cbn [mbind res_bind]. destruct Hr as (b' & -> & ?). by eexists.
Qed.

Lemma prepend_represents b d : wf b → refines_void (Deque.push_front d (view b)) (prepend b d).
Proof.
intros Hwf. unfold Deque.push_front, prepend. cbn [view Deque.front]. change (prependableBytes b) with (readerIndex_ b).
destruct (Nat.leb_spec (length d) (readerIndex_ b)) as [Hd|]; cbn [assert_ mbind res_bind refines_void]; [|done].
destruct (prepend_holds b d Hwf Hd) as (b' & E & Hw & Hc). unfold prepend in E. change (prependableBytes b) with (readerIndex_ b) in E.
rewrite (proj2 (Nat.leb_le _ _)) in E by done. cbn [assert_ mbind res_bind] in E. injection E as <-. eexists. split; [done|].
apply represents_intro; [done|done|done|]. destruct Hwf. unfold writableBytes. cbn. rewrite length_overwrite by (bsimpl; lia). done.
Qed.

Lemma unwrite_represents b n : wf b → refines_void (Deque.drop_back n (view b)) (unwrite b n).
Proof.
intros Hwf. unfold Deque.drop_back, unwrite. cbn [view Deque.items Deque.back Deque.front]. rewrite length_content by done.
destruct (Nat.leb_spec n (readableBytes b)) as [Hn|]; cbn [assert_ mbind res_bind refines_void]; [|done].
destruct (unwrite_holds b n Hwf Hn) as (b' & E & Hw & Hc). unfold unwrite in E. rewrite (proj2 (Nat.leb_le _ _)) in E by done.
injection E as <-. eexists. split; [done|]. apply represents_intro; [done|done|done|]. destruct Hwf. bsimpl. lia.
Qed.

Lemma write_represents b d :
  wf b →
  refines (assert_ (length d <=? Deque.back (view b)) ;; Ok (RVoid, Deque.extend d (view b)))
    (void (hasWritten (mkBuffer (overwrite (beginWrite b) (take (writableBytes b) d) (buffer_ b)) (readerIndex_ b) (writerIndex_ b)) (length d))).
Proof.
intros Hwf. cbn [view Deque.back]. destruct (Nat.leb_spec (length d) (writableBytes b)) as [Hd|Hd]; cbn [assert_ mbind res_bind].
- rewrite (take_ge d) by done. destruct (hasWritten_represents b d Hwf Hd) as (b' & E & ?). unfold void. rewrite E. by exists b'.
- unfold void, hasWritten. destruct Hwf. assert (length (take (writableBytes b) d) = writableBytes b) as Ht by (rewrite length_take; lia).
  rewrite (proj2 (Nat.leb_gt _ _)); [done|]. unfold writableBytes at 1. cbn. rewrite length_overwrite; [done|]. rewrite Ht. bsimpl. lia.
Qed.

Lemma int_octets_store w x :
  match w with W8 => le_store 1 (u8 x) | W16 => le_store 2 (hton16 x) | W32 => le_store 4 (hton32 x) | W64 => le_store 8 (hton64 x) end = int_octets w x.
Proof. destruct w; rewrite ?hton16_store, ?hton32_store, ?hton64_store, ?store_u8; done. Qed.

Lemma peekInt_refines w b : wf b → peekInt w b = int_at w (content b).
Proof.
intros Hwf. unfold int_at. rewrite length_content by done. destruct (Nat.leb_spec (octets w) (readableBytes b)) as [Hn|Hn]; cbn [assert_ mbind res_bind].
- destruct w; cbn [peekInt octets]; auto using peekInt8_spec, peekInt16_spec, peekInt32_spec, peekInt64_spec.
- destruct w; unfold peekInt, peekInt8, peekInt16, peekInt32, peekInt64; by rewrite (proj2 (Nat.leb_gt _ _)) by (simpl in *; lia).
Qed.

Lemma readInt_retrieves w b : readInt w b = x ← peekInt w b; b' ← retrieve b (octets w); Ok (x, b').
Proof. by destruct w. Qed.

(** A search from [start]. *)
Lemma find_refines pat start b :
  wf b → refines (p ← found_in pat start (content b); Ok (RFound p, view b))
    (found b (assert_ (peek b <=? peek b + start) ;; assert_ (peek b + start <=? beginWrite b) ;;
       range ← mem_read b (peek b + start) (beginWrite b - (peek b + start)); Ok ((λ i, peek b + start + i) <$> search pat range))).
Proof.
intros Hwf. unfold found_in, found. rewrite length_content by done. rewrite (proj2 (Nat.leb_le (peek b) (peek b + start))) by lia. cbn [assert_ mbind res_bind].
pose proof (wf_rw b Hwf). destruct (Nat.leb_spec start (readableBytes b)) as [Hs|Hs].
- rewrite (proj2 (Nat.leb_le (peek b + start) _)) by (bsimpl; lia). cbn [assert_ mbind res_bind].
  rewrite mem_read_content by (done || (bsimpl; lia)). cbn [mbind res_bind]. replace (beginWrite b - (peek b + start)) with (readableBytes b - start) by (bsimpl; lia).
  unfold slice. rewrite (take_ge (drop start (content b))) by (rewrite length_drop, length_content by done; lia).
  exists b. split; [|by split]. do 3 f_equal. destruct (search _ _) as [i|]; cbn; [f_equal; lia|done].
- rewrite (proj2 (Nat.leb_gt (peek b + start) _)) by (bsimpl; lia). done.
Qed.

Lemma shrink_represents b reserve : wf b → refines_void (Deque.compact reserve (view b)) (shrink b reserve).
Proof.
intros Hwf. unfold shrink, Deque.compact. cbn [view Deque.items]. rewrite length_content by done.
set (n := s32 (Z.of_nat (readableBytes b))). set (big := kInitialSize `max` (readableBytes b + reserve)).
destruct (Buffer_ctor_represents kInitialSize) as (b0 & -> & Hb0 & Hv0). cbn [mbind res_bind]. destruct (ensureWritableBytes_represents b0 (readableBytes b + reserve)) as (b1 & -> & Hb1 & Hv1); [done|]. cbn [mbind res_bind].
assert (view b1 = Deque.fresh big) as Hv.
{ rewrite Hv1, Hv0. unfold Deque.room, big. cbn [Deque.fresh Deque.back Deque.front Deque.items].
  destruct (Nat.leb_spec (readableBytes b + reserve) kInitialSize); [by rewrite Nat.max_l|].
  rewrite Nat.max_r by lia. by rewrite (proj2 (Nat.ltb_lt _ _)) by lia. }
unfold append_piece, toStringPiece. cbn [fst snd]. fold n. destruct (Z.ltb_spec n 0) as [|Hn]; [done|].
assert (Z.to_nat n ≤ readableBytes b) as Hle.
{ pose proof (s32_le (Z.of_nat (readableBytes b)) ltac:(lia)). unfold n. lia. }
rewrite mem_read_peek by done. cbn [mbind res_bind].
destruct (append_represents b1 (take (Z.to_nat n) (content b)) Hb1) as (b2 & -> & Hb2). cbn [mbind res_bind]. exists b2. split; [done|].
rewrite Hv in Hb2. unfold Deque.push_back, Deque.room in Hb2. cbn [Deque.fresh Deque.back] in Hb2. rewrite (proj2 (Nat.leb_le _ big)) in Hb2; [done|].
rewrite length_take, length_content by done. unfold big. lia.
Qed.

Lemma readFd_represents b d :
  wf b → refines (q ← Deque.receive d (view b); Ok (RRead (Z.of_nat (length d)) None, q))
    ('(n, e, b') ← readFd (λ _, ReadData d) b; Ok (RRead n e, b')).
Proof.
intros Hwf. unfold Deque.receive, readFd. cbn [view Deque.back]. fold (readFd_vec b).
assert (sum_list (readFd_vec b) = if writableBytes b <? extrabuf_size then writableBytes b + extrabuf_size else writableBytes b) as ->.
{ unfold readFd_vec. destruct (writableBytes b <? extrabuf_size).
  - change (sum_list [writableBytes b; extrabuf_size]) with (writableBytes b + (extrabuf_size + 0)). lia.
  - change (sum_list [writableBytes b]) with (writableBytes b + 0). lia. }
destruct (_ <? length d); [done|]. destruct (Nat.leb_spec (length d) (writableBytes b)) as [Hd|Hd].
- rewrite (take_ge d) by done. destruct (hasWritten_represents b d Hwf Hd) as (b' & E & Hb'). cbn [mbind res_bind].
  unfold hasWritten in E. apply bind_Ok_inv in E as (? & _ & [= <-]). eexists. split; [done|exact Hb'].
- set (t := take (writableBytes b) d). assert (length t = writableBytes b) as Ht by (unfold t; rewrite length_take; lia).
  destruct (hasWritten_represents b t Hwf) as (b1 & E & Hw1 & Hv1); [by rewrite Ht|].
  unfold hasWritten in E. apply bind_Ok_inv in E as (? & _ & [= E]).
  assert (mkBuffer (overwrite (writerIndex_ b) t (buffer_ b)) (readerIndex_ b) (length (overwrite (writerIndex_ b) t (buffer_ b))) = b1) as ->.
  { rewrite <- E. f_equal. destruct Hwf. rewrite length_overwrite by (rewrite Ht; bsimpl; lia). rewrite Ht. bsimpl. lia. }
  destruct (append_represents b1 (drop (writableBytes b) d) Hw1) as (b2 & -> & Hb2). rewrite Hv1 in Hb2. by exists b2.
Qed.

Lemma call_refines c b : wf b → refines (deque_call c (view b)) (buffer_call c b).
Proof.
intros Hwf. pose proof (length_content b Hwf) as Hlen.
assert (represents b (view b)) as Hrep by (by split).
destruct c as [d|w x|d|w x|d|n|n|n|n|w| |n| |w|w|[start|]|[start|]| |reserve|[d|e]|]; cbn [deque_call buffer_call]; change (Deque.items (view b)) with (content b).
- destruct (append_represents b d Hwf) as (b' & E & ?). unfold void. rewrite E. by exists b'.
- destruct (append_represents b (int_octets w x) Hwf) as (b' & E & ?). rewrite <- int_octets_store in E.
  assert (appendInt w b x = Ok b') as E' by (by destruct w). unfold void. rewrite E'. by exists b'.
- apply void_refines. by apply prepend_represents.
- apply void_refines. pose proof (prepend_represents b (int_octets w x) Hwf) as Hp. rewrite <- int_octets_store in Hp at 2. by destruct w.
- by apply write_represents.
- destruct (ensureWritableBytes_represents b n Hwf) as (b' & E & ?). unfold void. rewrite E. by exists b'.
- apply void_refines. by apply unwrite_represents.
- apply void_refines. by apply retrieve_represents.
- apply void_refines. unfold retrieveUntil. rewrite (proj2 (Nat.leb_le (peek b) _)) by lia. cbn [assert_ mbind res_bind].
  pose proof (retrieve_represents b n Hwf) as Hr. pose proof (wf_rw b Hwf). destruct (Nat.leb_spec (peek b + n) (beginWrite b)) as [Hn|Hn].
  + cbn [assert_ mbind res_bind]. by replace (peek b + n - peek b) with n by lia.
  + unfold Deque.pop_front. cbn [view Deque.items]. rewrite Hlen. rewrite (proj2 (Nat.leb_gt n _)) by (bsimpl; lia). done.
- apply void_refines. pose proof (retrieve_represents b (octets w) Hwf). by destruct w.
- exists (retrieveAll b). split; [done|]. by apply retrieveAll_represents.
- pose proof (retrieveAsString_represents b n Hwf) as Hr. destruct (Deque.pop_front n (view b)) as [q|e]; cbn in *; [|by rewrite Hr].
  destruct Hr as (b' & -> & ?). by exists b'.
- pose proof (retrieveAsString_represents b (readableBytes b) Hwf) as Hr. unfold retrieveAllAsString, Deque.pop_front in *. cbn [view Deque.items] in Hr.
  rewrite Hlen, Nat.leb_refl, Nat.ltb_irrefl in Hr. cbn in Hr. destruct Hr as (b' & -> & ?). exists b'. rewrite <- Hlen, firstn_all. by split.
- rewrite peekInt_refines by done. destruct (int_at w (content b)); cbn; [by exists b|done].
- rewrite readInt_retrieves, peekInt_refines by done. destruct (int_at w (content b)) as [x|]; cbn [mbind res_bind]; [|done].
  pose proof (retrieve_represents b (octets w) Hwf) as Hr. destruct (Deque.pop_front _ _) as [q|]; cbn in *; [|by rewrite Hr].
  destruct Hr as (b' & -> & ?). by exists b'.
- cbn [default]. by apply find_refines.
- cbn [default]. pose proof (find_refines kCRLF 0 b Hwf) as Hf. rewrite Nat.add_0_r, Nat.leb_refl in Hf.
  rewrite (proj2 (Nat.leb_le (peek b) (beginWrite b))) in Hf by (apply Hwf). exact Hf.
- cbn [default]. by apply find_refines.
- cbn [default]. pose proof (find_refines [x0a] 0 b Hwf) as Hf. rewrite Nat.add_0_r, Nat.leb_refl in Hf.
  rewrite (proj2 (Nat.leb_le (peek b) (beginWrite b))) in Hf by (apply Hwf). exact Hf.
- exists b. split; [|done]. unfold toStringPiece. cbn [snd]. by rewrite Hlen.
- apply void_refines. by apply shrink_represents.
- by apply readFd_represents.
- by exists b.
- exists b. split; [|done]. by rewrite Hlen.
Qed.

Lemma calls_refine cs b : wf b → refines (deque_calls cs (view b)) (buffer_calls cs b).
Proof.
revert b. induction cs as [|c cs IH]; intros b Hwf; cbn [deque_calls buffer_calls].
- by exists b.
- pose proof (call_refines c b Hwf) as Hc.
  destruct (deque_call c (view b)) as [[r q]|]; simpl in *; [|by rewrite Hc].
  destruct Hc as (b1 & -> & Hb1 & Hl). specialize (IH b1 Hb1). rewrite Hl in IH. simpl.
  destruct (deque_calls cs q) as [[rs q2]|]; simpl in *; [|by rewrite IH].
  destruct IH as (b2 & -> & Hb2). simpl. eauto.
Qed.

(** C5: A [Buffer] is a byte queue with room at both ends.  For any initial size and any
    sequence of calls to its methods - append, prepend and unwrite, direct writes with
    [hasWritten], retrieving as bytes, strings and integers, peeking, searching, making
    room, shrinking, [readFd] and the sizes - the class returns exactly the replies of an
    abstract queue of bytes and holds its bytes and its room afterwards, through every
    relocation and reallocation that [makeSpace] does.  An assertion of the class fails
    exactly when the abstract queue refuses a call: a retrieval, peek, search or unwrite
    beyond the readable bytes, or a prepend or direct write beyond the room there is;
    [shrink] with 2 GiB or more readable throws, and what [readv] stores fits the room it
    was given.  Sizes are those of objects that fit into memory. *)
Theorem buffer_refines_queue initialSize cs :
  match deque_calls cs (Deque.fresh initialSize) with
  | Ok (rs, q) =>
      ∃ b', (b ← Buffer_ctor initialSize; buffer_calls cs b) = Ok (rs, b') ∧ wf b' ∧ view b' = q
  | Fault e => (b ← Buffer_ctor initialSize; buffer_calls cs b) = Fault e
  end.
Proof.
destruct (Buffer_ctor_represents initialSize) as (b & -> & Hwf & Hv). simpl.
pose proof (calls_refine cs b Hwf) as Hr. rewrite Hv in Hr.
by destruct (deque_calls cs (Deque.fresh initialSize)) as [[rs q]|].
Qed.
End queue_refinement.

(** [readFd] appends to the readable bytes exactly what [readv] delivered,
    whether it fits the writable area or spills into the 64 KiB stack buffer,
    and returns its length; on an error it saves the error number, returns -1
    and leaves the buffer unchanged. *)
Theorem readFd_appends sys_readv b :
  readv_ok sys_readv → wf b →
  match sys_readv (readFd_vec b) with
  | ReadData d =>
      ∃ b', readFd sys_readv b = Ok (Z.of_nat (length d), None, b') ∧
            wf b' ∧ content b' = content b ++ d
  | ReadError e => readFd sys_readv b = Ok ((-1)%Z, Some e, b)
  end.
Proof.
intros Hrv Hwf. destruct (sys_readv (readFd_vec b)) as [d|e] eqn:E.
- by apply readFd_data.
- unfold readFd. fold (readFd_vec b). by rewrite E.
Qed.

Lemma readFd_appends_witness :
  let readv (vec : list nat) := ReadData (take (sum_list vec) [x61; x62; x63; x64]) in
  readv_ok readv ∧ wf (mkBuffer (replicate 10 x00) 8 8) ∧
  ∃ b', readFd readv (mkBuffer (replicate 10 x00) 8 8) = Ok (4%Z, None, b') ∧
        wf b' ∧ content b' = [x61; x62; x63; x64].
Proof.
intros readv.
assert (readv_ok readv) as H by (intros vec d [= <-]; rewrite length_take; apply Nat.le_min_l).
assert (wf (mkBuffer (replicate 10 x00) 8 8)) as Hw by (split; unfold kCheapPrepend; simpl; lia).
split; [done|]. split; [done|].
exact (readFd_appends readv (mkBuffer (replicate 10 x00) 8 8) H Hw).
Defined.
