(* ===== verification/Codec.v ===== *)
(** [FastCgiCodec]: the FastCGI record parser and response writer of the two event
    driven servers ([mucgi/fastcgi.cpp], [mucgi/fastcgi.h]; the same functions in
    [cocgi/cocgi_lib/fastcgi.cpp]).  One codec serves one connection.

    The loops are modelled with fuel; [parseRequest] and [parseAllParams] supply
    one iteration per readable byte plus one, which is enough because an
    iteration consumes at least eight, respectively two, bytes (proved in
    [CodecSpec]: neither function ever returns [OutOfFuel]). *)

From Stdlib Require Import ZArith Lia Bool.
From Stdlib.Strings Require Import Byte String.
From stdpp Require Import base numbers list gmap option.
From S2P Require Import Prelude Endian Buffer.

(** ** Protocol constants *)

Definition FCGI_MAX_LENGTH : nat := Z.to_nat 0xffff.

Local Open Scope Z_scope.

(** The enumerators of [FcgiType], [FcgiRole] and [FcgiConstant]. *)
Definition kFcgiInvalid : Z := 0.
Definition kFcgiBeginRequest : Z := 1.
Definition kFcgiAbortRequest : Z := 2.
Definition kFcgiEndRequest : Z := 3.
Definition kFcgiParams : Z := 4.
Definition kFcgiStdin : Z := 5.
Definition kFcgiStdout : Z := 6.
Definition kFcgiStderr : Z := 7.
Definition kFcgiData : Z := 8.
Definition kFcgiGetValues : Z := 9.
Definition kFcgiGetValuesResult : Z := 10.
Definition kFcgiResponder : Z := 1.
Definition kFcgiAuthorizer : Z := 2.
Definition kFcgiKeepConn : Z := 1.

(** [struct RecordHeader]: eight octets without padding. *)
Record RecordHeader := mkHeader {
  h_version : Z;   (* uint8_t *)
  h_type : Z;      (* uint8_t *)
  h_id : Z;        (* uint16_t *)
  h_length : Z;    (* uint16_t *)
  h_padding : Z;   (* uint8_t *)
  h_unused : Z;    (* uint8_t *)
}.

Definition kRecordHeader : nat := 8.

(** The object representation of a header, and [memcpy] from one. *)
Definition header_store (h : RecordHeader) : bytes :=
  le_store 1 (h_version h) ++ le_store 1 (h_type h) ++ le_store 2 (h_id h) ++
  le_store 2 (h_length h) ++ le_store 1 (h_padding h) ++ le_store 1 (h_unused h).

Definition header_load (m : bytes) : RecordHeader :=
  mkHeader (le_load (slice 0 1 m)) (le_load (slice 1 1 m)) (le_load (slice 2 2 m))
           (le_load (slice 4 2 m)) (le_load (slice 6 1 m)) (le_load (slice 7 1 m)).

(** [std::map<string, string>]. *)
Abbreviation ParamMap := (gmap bytes bytes).

(** The members of the class (the callback is a parameter of [onMessage]). *)
Record FastCgiCodec := mkCodec {
  gotRequest_ : bool;
  keepConn_ : bool;
  stdin_ : Buffer;
  paramsStream_ : Buffer;
  params_ : ParamMap;
}.

Definition FastCgiCodec_ctor : res FastCgiCodec :=
  b1 ← Buffer_ctor kInitialSize;
  b2 ← Buffer_ctor kInitialSize;
  Ok (mkCodec false false b1 b2 ∅).

Section codec.
Context `{Endian}.

(** ** Name-value pairs *)

(** [static_cast<uint32_t>(-1)] *)
Definition badLen : Z := u32 (-1).

Definition readLen (s : Buffer) : res (Z * Buffer) :=
  if (1 <=? readableBytes s)%nat then
    x ← peekInt8 s;
    let byte := u8 x in
    if negb (Z.land byte 0x80 =? 0) then
      if (4 <=? readableBytes s)%nat then
        '(v, s') ← readInt32 s;
        Ok (u32 (Z.land v 0x7fffffff), s')
      else Ok (u32 (-1), s)
    else
      '(v, s') ← readInt8 s;
      Ok (u32 v, s')
  else Ok (u32 (-1), s).

Fixpoint parseAllParams_loop (fuel : nat) (s : Buffer) (params : ParamMap)
  : res (bool * Buffer * ParamMap) :=
  match fuel with
  | O => Fault OutOfFuel
  | S fuel =>
      if (0 <? readableBytes s)%nat then
        '(nameLen, s) ← readLen s;
        if nameLen =? u32 (-1) then Ok (false, s, params) else
        '(valueLen, s) ← readLen s;
        if valueLen =? u32 (-1) then Ok (false, s, params) else
        if u32 (nameLen + valueLen) <=? Z.of_nat (readableBytes s) then
          '(name, s) ← retrieveAsString s (Z.to_nat nameLen);
          '(value, s) ← retrieveAsString s (Z.to_nat valueLen);
          parseAllParams_loop fuel s (<[name := value]> params)
        else Ok (false, s, params)
      else Ok (true, s, params)
  end.

Definition parseAllParams (c : FastCgiCodec) : res (bool * FastCgiCodec) :=
  '(ok, s, m) ← parseAllParams_loop (S (readableBytes (paramsStream_ c)))
                  (paramsStream_ c) (params_ c);
  Ok (ok, mkCodec (gotRequest_ c) (keepConn_ c) (stdin_ c) s m).

(** ** Record handlers; [content] is the record's content in the input buffer. *)

Definition onParams (c : FastCgiCodec) (content : bytes) : res (bool * FastCgiCodec) :=
  if (0 <? length content)%nat then
    s ← append (paramsStream_ c) content;
    Ok (true, mkCodec (gotRequest_ c) (keepConn_ c) (stdin_ c) s (params_ c))
  else
    '(ok, c') ← parseAllParams c;
    Ok (ok, c').

Definition onStdin (c : FastCgiCodec) (content : bytes) : res FastCgiCodec :=
  if (0 <? length content)%nat then
    s ← append (stdin_ c) content;
    Ok (mkCodec (gotRequest_ c) (keepConn_ c) s (paramsStream_ c) (params_ c))
  else Ok (mkCodec true (keepConn_ c) (stdin_ c) (paramsStream_ c) (params_ c)).

(** The free function [readInt16], which reads through a pointer. *)
Definition readInt16_at (b : Buffer) (off : nat) : res Z :=
  be16 ← mem_read b off 2;
  Ok (ntoh16 (le_load be16)).

Definition onBeginRequest (c : FastCgiCodec) (header : RecordHeader) (buf : Buffer)
  : res (bool * FastCgiCodec) :=
  assert_ (h_length header <=? Z.of_nat (readableBytes buf)) ;;
  assert_ (h_type header =? kFcgiBeginRequest) ;;
  if Z.of_nat kRecordHeader <=? h_length header then
    role ← readInt16_at buf (peek buf + kRecordHeader);
    fl ← mem_read buf (peek buf + kRecordHeader + 2) 1;
    let flags := le_load fl in
    if role =? kFcgiResponder then
      Ok (true, mkCodec (gotRequest_ c) (flags =? kFcgiKeepConn)
                        (stdin_ c) (paramsStream_ c) (params_ c))
    else Ok (false, c)
  else Ok (false, c).

(** ** The record loop.  The handlers' results are ignored, as in the source;
    types other than the three listed do nothing. *)

Definition dispatch (c : FastCgiCodec) (header : RecordHeader) (buf : Buffer)
  : res FastCgiCodec :=
  if h_type header =? kFcgiBeginRequest then
    '(_, c') ← onBeginRequest c header buf; Ok c'
  else if h_type header =? kFcgiParams then
    d ← mem_read buf (peek buf + kRecordHeader) (Z.to_nat (h_length header));
    '(_, c') ← onParams c d; Ok c'
  else if h_type header =? kFcgiStdin then
    d ← mem_read buf (peek buf + kRecordHeader) (Z.to_nat (h_length header));
    onStdin c d
  else Ok c.

Fixpoint parseRequest_loop (fuel : nat) (c : FastCgiCodec) (buf : Buffer)
  : res (FastCgiCodec * Buffer) :=
  match fuel with
  | O => Fault OutOfFuel
  | S fuel =>
      if (kRecordHeader <=? readableBytes buf)%nat then
        m ← mem_read buf (peek buf) kRecordHeader;
        let h := header_load m in
        let header := mkHeader (h_version h) (h_type h) (ntoh16 (h_id h))
                        (ntoh16 (h_length h)) (h_padding h) (h_unused h) in
        let total := Z.of_nat kRecordHeader + h_length header + h_padding header in
        if total <=? Z.of_nat (readableBytes buf) then
          c ← dispatch c header buf;
          buf ← retrieve buf (Z.to_nat total);
          parseRequest_loop fuel c buf
        else Ok (c, buf)
      else Ok (c, buf)
  end.

Definition parseRequest (c : FastCgiCodec) (buf : Buffer) : res (FastCgiCodec * Buffer) :=
  parseRequest_loop (S (readableBytes buf)) c buf.

(** ** [onMessage] *)

(** What a message makes the codec do outside: run the request callback on the
    parameters and the standard input, and shut the connection down. *)
Inductive effect :=
  | Callback (params : ParamMap) (stdin : bytes)
  | Shutdown.

(** The callback receives [params_] and [stdin_] by reference; both are cleared
    right after it returns, whatever it left in them. *)
Definition onMessage (c : FastCgiCodec) (buf : Buffer)
  : res (FastCgiCodec * Buffer * list effect) :=
  '(c, buf) ← parseRequest c buf;
  if gotRequest_ c then
    body ← mem_read (stdin_ c) (peek (stdin_ c)) (readableBytes (stdin_ c));
    let c' := mkCodec false (keepConn_ c) (retrieveAll (stdin_ c))
                (retrieveAll (paramsStream_ c)) ∅ in
    Ok (c', buf, Callback (params_ c) body ::
                 (if negb (keepConn_ c) then [Shutdown] else []))
  else Ok (c, buf, []).

(** ** Responses *)

Definition endStdout (buf : Buffer) : res Buffer :=
  append buf (header_store (mkHeader 1 kFcgiStdout (hton16 1) 0 0 0)).

Definition endRequest (buf : Buffer) : res Buffer :=
  buf ← append buf (header_store
          (mkHeader 1 kFcgiEndRequest (hton16 1) (hton16 (Z.of_nat kRecordHeader)) 0 0));
  buf ← appendInt32 buf 0;
  appendInt32 buf 0.

(** A standard output record; [padding] is the header field, an [uint8_t]. *)
Definition append_stdout (response : Buffer) (out : bytes) (len padding : Z) : res Buffer :=
  response ← append response
    (header_store (mkHeader 1 kFcgiStdout (hton16 1) (hton16 len) padding 0));
  response ← append response out;
  append response (take (Z.to_nat padding) (replicate 8 x00)).

(** [static_cast<uint8_t>(-out.length() & 7)] at type [size_t]. *)
Definition stdout_padding (out : bytes) : Z :=
  u8 (Z.land (u64 (- Z.of_nat (length out))) 7).

Fixpoint respond_chunks (n i : nat) (out : bytes) (response : Buffer) : res Buffer :=
  match n with
  | O => Ok response
  | S n =>
      let outSubString := slice (i * FCGI_MAX_LENGTH) FCGI_MAX_LENGTH out in
      response ← append_stdout response outSubString
                   (u16 (Z.of_nat FCGI_MAX_LENGTH))
                   (u8 (Z.land (- Z.of_nat FCGI_MAX_LENGTH) 7));
      respond_chunks n (S i) out response
  end.

Definition crlf : bytes := [x0d; x0a].

(** The page sent when the backend returned nothing. *)
Definition empty_result : bytes :=
  list_byte_of_string "Content-Type: text/html; charset=UTF-8" ++ crlf ++
  list_byte_of_string "Content-Length: 13" ++ crlf ++ crlf ++
  list_byte_of_string "Empty Result!".

(** The page as standard output records: one, or one per 65535 octets and one
    for the remainder if there is any. *)
Definition respond_page (out : bytes) (response : Buffer) : res Buffer :=
  if (length out <=? FCGI_MAX_LENGTH)%nat then
    append_stdout response out (u16 (Z.of_nat (length out))) (stdout_padding out)
  else
    let numSubstrings := (length out / FCGI_MAX_LENGTH)%nat in
    response ← respond_chunks numSubstrings 0 out response;
    if negb (length out mod FCGI_MAX_LENGTH =? 0)%nat then
      let outSubString := drop (FCGI_MAX_LENGTH * numSubstrings) out in
      append_stdout response outSubString
        (u16 (Z.of_nat (length outSubString))) (stdout_padding outSubString)
    else Ok response.

(** Returns [out], which the function changes through its reference, and the
    response buffer. *)
Definition respond (out : bytes) (response : Buffer) : res (bytes * Buffer) :=
  let out := match out with [] => empty_result | _ => out end in
  response ← respond_page out response;
  response ← endStdout response;
  response ← endRequest response;
  Ok (out, response).
End codec.
