(* ===== verification/CodecSpec.v ===== *)
(** What the FastCGI codec promises, and that it keeps the promise.

    The specification level is pure: byte strings are split into FastCGI records
    ([split_records]), a record acts on the abstract connection state ([step]),
    and parameter streams are decoded into a map ([dec_params]).  The
    implementation of [Codec] is shown to compute exactly this, without ever
    aborting, and the specification is shown to invert the encodings a web
    server uses. *)

From Stdlib Require Import ZArith Lia Bool.
From Stdlib.Strings Require Import Byte.
From stdpp Require Import base numbers list gmap option.
From S2P Require Import Prelude Endian Buffer Codec.
Local Open Scope Z_scope.

(** ** FastCGI records on the wire *)

Record frec := mkRec {
  f_version : byte;
  f_type : byte;
  f_id : Z;
  f_content : bytes;
  f_padding : bytes;
  f_reserved : byte;
}.

Definition frec_ok (r : frec) : Prop :=
  0 ≤ f_id r < 2 ^ 16 ∧ Z.of_nat (length (f_content r)) < 2 ^ 16 ∧
  Z.of_nat (length (f_padding r)) < 2 ^ 8.

Definition encode_rec (r : frec) : bytes :=
  [f_version r; f_type r] ++ be_store 2 (f_id r) ++
  be_store 2 (Z.of_nat (length (f_content r))) ++
  [z2b (Z.of_nat (length (f_padding r))); f_reserved r] ++
  f_content r ++ f_padding r.

(** The record at the front of a byte string, if all of it has arrived. *)
Definition decode_rec (l : bytes) : option (frec * bytes) :=
  match l with
  | v :: t :: i1 :: i0 :: l1 :: l0 :: p :: u :: body =>
      let n := Z.to_nat (be_load [l1; l0]) in
      let k := Z.to_nat (b2z p) in
      if (n + k <=? length body)%nat
      then Some (mkRec v t (be_load [i1; i0]) (take n body) (slice n k body) u,
                 drop (n + k) body)
      else None
  | _ => None
  end.

Fixpoint split_fuel (fuel : nat) (l : bytes) : list frec * bytes :=
  match fuel with
  | O => ([], l)
  | S fuel =>
      match decode_rec l with
      | Some (r, l') => let '(rs, rest) := split_fuel fuel l' in (r :: rs, rest)
      | None => ([], l)
      end
  end.

(** The complete records of a byte string and what follows them. *)
Definition split_records (l : bytes) : list frec * bytes := split_fuel (S (length l)) l.

(** ** Name-value pairs *)

(** A length of one octet, or of four with the top bit set. *)
Definition dec_len (l : bytes) : option (Z * bytes) :=
  match l with
  | b :: l' =>
      if b2z b <? 128 then Some (b2z b, l')
      else if (4 <=? length l)%nat
           then Some (be_load (take 4 l) - 2 ^ 31, drop 4 l) else None
  | [] => None
  end.

Fixpoint dec_params (fuel : nat) (l : bytes) (m : ParamMap) : bool * bytes * ParamMap :=
  match fuel, l with
  | _, [] => (true, [], m)
  | O, _ => (false, l, m)
  | S fuel, _ =>
      match dec_len l with
      | None => (false, l, m)
      | Some (n, l1) =>
          match dec_len l1 with
          | None => (false, l1, m)
          | Some (v, l2) =>
              if (Z.to_nat n + Z.to_nat v <=? length l2)%nat
              then dec_params fuel (drop (Z.to_nat v) (drop (Z.to_nat n) l2))
                     (<[take (Z.to_nat n) l2 := take (Z.to_nat v) (drop (Z.to_nat n) l2)]> m)
              else (false, l2, m)
          end
      end
  end.

Definition enc_len (n : nat) : bytes :=
  if (n <? 128)%nat then [z2b (Z.of_nat n)] else be_store 4 (Z.of_nat n + 2 ^ 31).

Definition enc_pair (kv : bytes * bytes) : bytes :=
  enc_len (length kv.1) ++ enc_len (length kv.2) ++ kv.1 ++ kv.2.

Definition enc_pairs (kvs : list (bytes * bytes)) : bytes := concat (enc_pair <$> kvs).

(** The map after the assignments [m[k] = v], in order. *)
Definition assign_all (kvs : list (bytes * bytes)) (m : ParamMap) : ParamMap :=
  fold_left (λ m kv, <[kv.1 := kv.2]> m) kvs m.

Definition pair_ok (kv : bytes * bytes) : Prop :=
  Z.of_nat (length kv.1) < 2 ^ 31 ∧ Z.of_nat (length kv.2) < 2 ^ 31.

(** ** The abstract connection *)

Record aconn := mkConn {
  a_got : bool;
  a_keep : bool;
  a_stdin : bytes;
  a_pstream : bytes;
  a_params : ParamMap;
}.

Definition a0 : aconn := mkConn false false [] [] ∅.

Definition step (a : aconn) (r : frec) : aconn :=
  let c := f_content r in
  if b2z (f_type r) =? kFcgiBeginRequest then
    if ((8 <=? length c)%nat && (be_load (take 2 c) =? kFcgiResponder))%bool
    then mkConn (a_got a) (le_load (slice 2 1 c) =? kFcgiKeepConn)
                (a_stdin a) (a_pstream a) (a_params a)
    else a
  else if b2z (f_type r) =? kFcgiParams then
    match c with
    | [] => let '(_, s, m) := dec_params (S (length (a_pstream a))) (a_pstream a) (a_params a) in
            mkConn (a_got a) (a_keep a) (a_stdin a) s m
    | _ => mkConn (a_got a) (a_keep a) (a_stdin a) (a_pstream a ++ c) (a_params a)
    end
  else if b2z (f_type r) =? kFcgiStdin then
    match c with
    | [] => mkConn true (a_keep a) (a_stdin a) (a_pstream a) (a_params a)
    | _ => mkConn (a_got a) (a_keep a) (a_stdin a ++ c) (a_pstream a) (a_params a)
    end
  else a.

(** Abstraction of the implementation's state, and its invariant. *)
Definition abs (c : FastCgiCodec) : aconn :=
  mkConn (gotRequest_ c) (keepConn_ c) (content (stdin_ c))
         (content (paramsStream_ c)) (params_ c).

Definition cwf (c : FastCgiCodec) : Prop := wf (stdin_ c) ∧ wf (paramsStream_ c).

(** What [onMessage] does to an abstract connection with unread input [l]. *)
Definition message (a : aconn) (l : bytes) : aconn * bytes * list effect :=
  let '(rs, rest) := split_records l in
  let a := fold_left step rs a in
  if a_got a
  then (mkConn false (a_keep a) [] [] ∅, rest,
        Callback (a_params a) (a_stdin a) :: (if negb (a_keep a) then [Shutdown] else []))
  else (a, rest, []).

(** A connection that receives its input in the given pieces, one read each. *)
Fixpoint feed `{Endian} (c : FastCgiCodec) (buf : Buffer) (pieces : list bytes)
  : res (FastCgiCodec * Buffer * list effect) :=
  match pieces with
  | [] => Ok (c, buf, [])
  | d :: pieces =>
      buf ← append buf d;
      '(c, buf, es) ← onMessage c buf;
      '(c, buf, es') ← feed c buf pieces;
      Ok (c, buf, es ++ es')
  end.

(** The records of a responder request, as a web server sends them: the parameter
    and input streams cut into pieces (content and padding) of its choice. *)
Definition request_records (id : Z) (flags : byte) (ps ss : list (bytes * bytes))
  : list frec :=
  mkRec x01 x01 id [x00; x01; flags; x00; x00; x00; x00; x00] [] x00 ::
  ((λ cp, mkRec x01 x04 id cp.1 cp.2 x00) <$> ps) ++
  [mkRec x01 x04 id [] [] x00] ++
  ((λ cp, mkRec x01 x05 id cp.1 cp.2 x00) <$> ss) ++
  [mkRec x01 x05 id [] [] x00].

Definition pieces_ok (ps : list (bytes * bytes)) : Prop :=
  Forall (λ cp, cp.1 ≠ []) ps.

(** ** Record framing *)

Lemma length_decode_rec l r l' :
  decode_rec l = Some (r, l') → (8 + length l' ≤ length l)%nat.
Proof.
intros H. do 8 (destruct l as [|? l]; [discriminate|]). cbn [decode_rec] in H.
case_match; [|discriminate]. injection H as <- <-. lens.
Qed.

Lemma decode_rec_short l : (length l < 8)%nat → decode_rec l = None.
Proof.
intros H. do 8 (destruct l as [|? l]; [done|]). cbn [length] in H. lia.
Qed.

Lemma long_enough (l : bytes) :
  (8 ≤ length l)%nat →
  ∃ v t i1 i0 l1 l0 p u body, l = v :: t :: i1 :: i0 :: l1 :: l0 :: p :: u :: body.
Proof.
intros H. do 8 (destruct l as [|? l]; [cbn [length] in H; lia|]). by do 9 eexists.
Qed.

Lemma split_fuel_enough f1 f2 l :
  (length l < f1)%nat → (length l < f2)%nat → split_fuel f1 l = split_fuel f2 l.
Proof.
revert f2 l. induction f1 as [|f1 IH]; intros f2 l H1 H2; [lia|].
destruct f2 as [|f2]; [lia|]. cbn [split_fuel].
destruct (decode_rec l) as [[r l']|] eqn:E; [|done].
apply length_decode_rec in E. by rewrite (IH f2 l') by lia.
Qed.

Lemma split_records_eq l :
  split_records l =
  match decode_rec l with
  | Some (r, l') => let '(rs, rest) := split_records l' in (r :: rs, rest)
  | None => ([], l)
  end.
Proof.
unfold split_records at 1. cbn [split_fuel].
destruct (decode_rec l) as [[r l']|] eqn:E; [|done].
apply length_decode_rec in E. unfold split_records.
by rewrite (split_fuel_enough (length l) (S (length l'))) by lia.
Qed.

(** Induction that follows the records of a string. *)
Lemma split_ind (P : bytes → Prop) :
  (∀ l, decode_rec l = None → P l) →
  (∀ l r l', decode_rec l = Some (r, l') → P l' → P l) → ∀ l, P l.
Proof.
intros H0 H1 l. remember (length l) as n eqn:En. revert l En.
induction (lt_wf n) as [n _ IH]. intros l ->.
destruct (decode_rec l) as [[r l']|] eqn:E; [|by apply H0].
apply (H1 l r l' E). pose proof (length_decode_rec _ _ _ E).
apply (IH (length l')); [lia|done].
Qed.

Lemma decode_rec_app l r l' x :
  decode_rec l = Some (r, l') → decode_rec (l ++ x) = Some (r, l' ++ x).
Proof.
intros H. do 8 (destruct l as [|? l]; [discriminate|]). cbn [decode_rec app] in *.
case_match eqn:E; [|discriminate]. apply Nat.leb_le in E.
injection H as <- <-. rewrite (proj2 (Nat.leb_le _ _)) by lens.
do 3 f_equal.
- by rewrite take_app_le by lia.
- by rewrite slice_app_l.
- by rewrite drop_app_le by lia.
Qed.

Lemma split_records_app l x rs rest :
  split_records l = (rs, rest) →
  split_records (l ++ x) =
  let '(rs', rest') := split_records (rest ++ x) in (rs ++ rs', rest').
Proof.
revert rs rest. induction l as [l E|l r l' E IH] using split_ind; intros rs rest.
- rewrite split_records_eq, E. intros [= <- <-]. by destruct (split_records (l ++ x)).
- rewrite split_records_eq, E. destruct (split_records l') as [rs1 rest1] eqn:E1.
  intros [= <- <-]. rewrite split_records_eq, (decode_rec_app _ _ _ x E).
  rewrite (IH rs1 rest1 eq_refl). by destruct (split_records (rest1 ++ x)).
Qed.

(** Two octets in network order. *)
Lemma be_store_2 x :
  0 ≤ x < 2 ^ 16 → ∃ b1 b0, be_store 2 x = [b1; b0] ∧ be_load [b1; b0] = x.
Proof.
intros. pose proof (length_be_store 2 x) as Hl. pose proof (be_load_store 2 x) as Hb.
destruct (be_store 2 x) as [|b1 [|b0 [|]]]; try discriminate.
exists b1, b0. split; [done|]. rewrite Hb. by apply Z.mod_small.
Qed.

Lemma decode_encode_rec r x :
  frec_ok r → decode_rec (encode_rec r ++ x) = Some (r, x).
Proof.
intros (Hid & Hc & Hp). unfold encode_rec.
destruct (be_store_2 (f_id r) Hid) as (i1 & i0 & -> & Hi).
destruct (be_store_2 (Z.of_nat (length (f_content r)))) as (l1 & l0 & -> & Hl); [lia|].
cbn [app decode_rec]. rewrite Hi, Hl, b2z_z2b_small, !Nat2Z.id by lia.
rewrite <- !app_assoc, (proj2 (Nat.leb_le _ _)) by lens.
rewrite take_app_length. unfold slice. rewrite drop_app_length, take_app_length.
rewrite <- drop_drop, !drop_app_length. by destruct r.
Qed.

Lemma split_encode rs x :
  Forall frec_ok rs →
  split_records (concat (encode_rec <$> rs) ++ x) =
  let '(rs', rest) := split_records x in (rs ++ rs', rest).
Proof.
induction 1 as [|r rs Hr _ IH]; [simpl; by destruct (split_records x)|].
cbn [fmap list_fmap concat]. rewrite <- app_assoc, split_records_eq, decode_encode_rec by done.
rewrite IH. by destruct (split_records x).
Qed.

(** ** Name-value pairs *)

Lemma top_bit b : (Z.land (u8 (s8 (b2z b))) 0x80 =? 0) = (b2z b <? 128).
Proof. by destruct b. Qed.

Lemma small_octet b : b2z b < 128 → u32 (s8 (b2z b)) = b2z b.
Proof.
intros. pose proof (b2z_range b). unfold s8. rewrite swrap_small by lia.
apply Z.mod_small. lia.
Qed.

Lemma take4_cons b l :
  (4 ≤ length (b :: l))%nat → be_load (take 4 (b :: l)) = 2 ^ 24 * b2z b + be_load (take 3 l).
Proof.
intros. cbn [take]. rewrite be_load_cons.
replace (length (take 3 l)) with 3%nat by (rewrite length_take; cbn [length] in *; lia). done.
Qed.

Lemma dec_len_range l n l' :
  dec_len l = Some (n, l') → 0 ≤ n < 2 ^ 31 ∧ (length l' < length l)%nat.
Proof.
destruct l as [|b l]; [done|]. cbn [dec_len]. pose proof (b2z_range b).
destruct (Z.ltb_spec (b2z b) 128).
- intros [= <- <-]. simpl. lia.
- destruct (Nat.leb_spec 4 (length (b :: l))) as [Hl|]; [|done].
  rewrite take4_cons by done. intros [= <- <-]. pose proof (be_load_range (take 3 l)) as Hr.
  rewrite length_take in Hr. cbn [length] in *.
  replace (Z.of_nat (3 `min` length l)) with 3 in Hr by lia.
  split; [lia|]. cbn [length drop]. rewrite ?length_drop. lia.
Qed.

Section readLen_spec.
Context `{Endian}.

Lemma readLen_holds s :
  wf s →
  ∃ s', readLen s =
    Ok (match dec_len (content s) with Some (n, _) => n | None => u32 (-1) end, s') ∧
    holds s' (match dec_len (content s) with Some (_, l) => l | None => content s end).
Proof.
intros Hwf. unfold readLen. pose proof (length_content s Hwf) as Hl.
destruct (Nat.leb_spec 1 (readableBytes s)).
- rewrite peekInt8_spec by done. cbn [mbind res_bind].
  destruct (content s) as [|b l] eqn:Ec; [simpl in Hl; lia|].
  assert (be_load (take 1 (b :: l)) = b2z b) as Hb by apply be_load_1.
  rewrite Hb, top_bit. cbn [dec_len]. rewrite Hl.
  destruct (Z.ltb_spec (b2z b) 128); cbn [negb].
  + destruct (readInt8_holds s) as (s' & -> & Hs); [done..|]. cbn [mbind res_bind].
    exists s'. rewrite Ec, Hb in *. by rewrite small_octet.
  + destruct (Nat.leb_spec 4 (readableBytes s)) as [H4|H4].
    * destruct (readInt32_holds s) as (s' & -> & Hs); [done..|]. cbn [mbind res_bind].
      exists s'. rewrite Ec in *. split; [|done]. do 3 f_equal.
      change 0x7fffffff with (Z.ones 31). rewrite Z.land_ones by lia.
      rewrite take4_cons by lia. pose proof (be_load_range (take 3 l)) as Hr.
      rewrite length_take in Hr. cbn [length] in Hl.
      replace (Z.of_nat (3 `min` length l)) with 3 in Hr by lia.
      set (z := 2 ^ 24 * b2z b + be_load (take 3 l)) in *.
      pose proof (b2z_range b). assert (2 ^ 31 ≤ z < 2 ^ 32) as Hz by lia.
      unfold s32, swrap. rewrite (Z.mod_small z) by lia.
      rewrite (proj2 (Z.ltb_ge _ _)) by lia.
      replace ((z - 2 ^ 32) mod 2 ^ 31) with (z - 2 ^ 31); [apply Z.mod_small; lia|].
      symmetry. rewrite <- (Z_mod_plus_full _ 1).
      replace (z - 2 ^ 32 + 1 * 2 ^ 31) with (z - 2 ^ 31) by lia.
      rewrite Z.mod_small; lia.
    * exists s. by rewrite <- Ec.
- exists s. destruct (content s) eqn:Ec; [|simpl in Hl; lia].
  split; [done|]. by split.
Qed.

Lemma parseAllParams_loop_holds fuel s m :
  wf s → (length (content s) < fuel)%nat →
  ∃ s', parseAllParams_loop fuel s m =
    Ok ((dec_params fuel (content s) m).1.1, s', (dec_params fuel (content s) m).2) ∧
    holds s' (dec_params fuel (content s) m).1.2.
Proof.
revert s m. induction fuel as [|fuel IH]; intros s m Hwf Hf; [lia|].
cbn [parseAllParams_loop dec_params]. rewrite <- (length_content s) by done.
destruct (content s) as [|b l] eqn:Ec; [by exists s|].
rewrite (proj2 (Nat.ltb_lt _ _)) by (simpl; lia).
destruct (readLen_holds s) as (s1 & -> & Hs1); [done|]. rewrite Ec in *.
cbn [mbind res_bind].
destruct (dec_len (b :: l)) as [[n l1]|] eqn:E1; [|by exists s1].
apply dec_len_range in E1 as [Hn Hl1].
rewrite (proj2 (Z.eqb_neq n (u32 (-1)))) by (change (u32 (-1)) with 4294967295; lia).
destruct Hs1 as [Hw1 Hc1]. destruct (readLen_holds s1) as (s2 & -> & Hs2); [done|].
rewrite Hc1 in *. cbn [mbind res_bind].
destruct (dec_len l1) as [[v l2]|] eqn:E2; [|by exists s2].
apply dec_len_range in E2 as [Hv Hl2].
rewrite (proj2 (Z.eqb_neq v (u32 (-1)))) by (change (u32 (-1)) with 4294967295; lia).
destruct Hs2 as [Hw2 Hc2]. rewrite <- (length_content s2), Hc2 by done.
unfold u32. rewrite Z.mod_small by lia.
assert ((n + v <=? Z.of_nat (length l2)) = (Z.to_nat n + Z.to_nat v <=? length l2)%nat) as ->.
{ destruct (Z.leb_spec (n + v) (Z.of_nat (length l2))),
    (Nat.leb_spec (Z.to_nat n + Z.to_nat v) (length l2)); (done || lia). }
destruct (Nat.leb_spec (Z.to_nat n + Z.to_nat v) (length l2)); [|by exists s2].
destruct (retrieveAsString_holds s2 (Z.to_nat n)) as (s3 & -> & Hw3 & Hc3);
  [done|rewrite <- length_content, Hc2 by done; lia|]. cbn [mbind res_bind].
destruct (retrieveAsString_holds s3 (Z.to_nat v)) as (s4 & -> & Hw4 & Hc4);
  [done|rewrite <- length_content, Hc3, Hc2 by done; lens|]. cbn [mbind res_bind].
rewrite Hc3, Hc2 in *. rewrite <- Hc4. apply IH; [done|].
rewrite Hc4. simpl in *. lens.
Qed.
End readLen_spec.

Lemma dec_enc_len n x :
  Z.of_nat n < 2 ^ 31 → dec_len (enc_len n ++ x) = Some (Z.of_nat n, x).
Proof.
intros Hn. unfold enc_len. destruct (Nat.ltb_spec n 128).
- cbn [app dec_len]. rewrite b2z_z2b_small by lia.
  by rewrite (proj2 (Z.ltb_lt _ _)) by lia.
- pose proof (length_be_store 4 (Z.of_nat n + 2 ^ 31)) as Hl.
  pose proof (be_load_store 4 (Z.of_nat n + 2 ^ 31)) as Hb.
  rewrite Z.mod_small in Hb by (simpl; lia).
  destruct (be_store 4 (Z.of_nat n + 2 ^ 31)) as [|b3 [|b2 [|b1 [|b0 [|]]]]]; try done.
  cbn [app dec_len]. pose proof (be_load_cons b3 [b2; b1; b0]) as Hb'.
  pose proof (be_load_range [b2; b1; b0]) as Hr. simpl length in Hb', Hr.
  pose proof (b2z_range b3).
  rewrite (proj2 (Z.ltb_ge _ _)) by lia.
  cbn [take drop length Nat.leb]. rewrite take_0, drop_0, Hb. do 2 f_equal. lia.
Qed.

Lemma dec_enc_pairs kvs fuel m :
  Forall pair_ok kvs → (length (enc_pairs kvs) < fuel)%nat →
  dec_params fuel (enc_pairs kvs) m = (true, [], assign_all kvs m).
Proof.
intros Hok. revert fuel m. induction Hok as [|[k v] kvs [Hk Hv] _ IH]; intros fuel m Hf.
- by destruct fuel.
- simpl in Hk, Hv. unfold enc_pairs in *. cbn [fmap list_fmap concat] in *.
  assert (∀ x, enc_pair (k, v) ++ x = enc_len (length k) ++ enc_len (length v) ++ k ++ v ++ x)
    as Hp by (intros; unfold enc_pair; by rewrite <- !app_assoc).
  rewrite Hp in Hf |- *.
  destruct fuel as [|fuel]; [lia|]. cbn [dec_params].
  assert (∀ n, enc_len n ≠ []) as Hne
    by (intros n Hn; unfold enc_len in Hn; case_match; discriminate).
  destruct (enc_len (length k) ++ _) eqn:El.
  { apply app_eq_nil in El as [El _]. by apply Hne in El. }
  rewrite <- El in *. rewrite dec_enc_len, dec_enc_len by done.
  rewrite !Nat2Z.id, (proj2 (Nat.leb_le _ _)) by lens.
  rewrite take_app_length, !drop_app_length, take_app_length.
  rewrite IH; [done|]. assert (1 ≤ length (enc_len (length k)))%nat
    by (destruct (enc_len (length k)) eqn:E; [by apply Hne in E|simpl; lia]).
  lens.
Qed.

(** ** The implementation computes the specification *)

Section refinement.
Context `{Endian}.

Lemma parseAllParams_holds c :
  cwf c →
  ∃ ok c', parseAllParams c = Ok (ok, c') ∧ cwf c' ∧
    abs c' = let '(_, s, m) := dec_params (S (length (content (paramsStream_ c))))
                                 (content (paramsStream_ c)) (params_ c) in
             mkConn (gotRequest_ c) (keepConn_ c) (content (stdin_ c)) s m.
Proof.
intros [Hw1 Hw2]. unfold parseAllParams.
rewrite <- length_content by done.
destruct (parseAllParams_loop_holds (S (length (content (paramsStream_ c))))
  (paramsStream_ c) (params_ c)) as (s' & -> & Hs & Hc); [done|lia|].
cbn [mbind res_bind]. eexists _, _. split; [done|].
split; [done|]. unfold abs.
cbn [gotRequest_ keepConn_ stdin_ paramsStream_ params_]. rewrite Hc.
by destruct (dec_params _ _ _) as [[? ?] ?].
Qed.

Lemma onParams_holds c d :
  cwf c →
  ∃ ok c', onParams c d = Ok (ok, c') ∧ cwf c' ∧
    abs c' = step (abs c) (mkRec x01 x04 0 d [] x00).
Proof.
intros Hc. unfold onParams. destruct d as [|x d]; cbn [length Nat.ltb Nat.leb].
- destruct (parseAllParams_holds c Hc) as (ok & c' & -> & Hc' & Ha).
  cbn [mbind res_bind]. eauto.
- destruct Hc as [Hw1 Hw2]. destruct (append_holds (paramsStream_ c) (x :: d))
    as (s & -> & Hs & Hcs); [done|]. cbn [mbind res_bind].
  eexists _, _. split; [done|]. split; [done|]. unfold abs. simpl. by rewrite Hcs.
Qed.

Lemma onStdin_holds c d :
  cwf c →
  ∃ c', onStdin c d = Ok c' ∧ cwf c' ∧ abs c' = step (abs c) (mkRec x01 x05 0 d [] x00).
Proof.
intros [Hw1 Hw2]. unfold onStdin. destruct d as [|x d]; cbn [length Nat.ltb Nat.leb].
- eexists. split; [done|]. by split.
- destruct (append_holds (stdin_ c) (x :: d)) as (s & -> & Hs & Hcs); [done|].
  cbn [mbind res_bind]. eexists. split; [done|]. split; [done|].
  unfold abs. simpl. by rewrite Hcs.
Qed.

(** [step] looks at the type and the content of a record only. *)
Lemma step_ext a r r' :
  b2z (f_type r) = b2z (f_type r') → f_content r = f_content r' → step a r = step a r'.
Proof. intros Ht Hc. unfold step. by rewrite Ht, Hc. Qed.

(** The header as [parseRequest] has it after the two [networkToHost16]. *)
Definition host_header (m : bytes) : RecordHeader :=
  let h := header_load m in
  mkHeader (h_version h) (h_type h) (ntoh16 (h_id h)) (ntoh16 (h_length h))
           (h_padding h) (h_unused h).

Lemma host_header_spec v t i1 i0 l1 l0 p u :
  host_header [v; t; i1; i0; l1; l0; p; u] =
  mkHeader (b2z v) (b2z t) (be_load [i1; i0]) (be_load [l1; l0]) (b2z p) (b2z u).
Proof.
unfold host_header, header_load, slice. cbn [drop take h_version h_type h_id h_length
  h_padding h_unused]. by rewrite !le_load_1, !ntoh16_load.
Qed.

Lemma onBeginRequest_holds c buf v i1 i0 l1 l0 p u body :
  let n := Z.to_nat (be_load [l1; l0]) in
  wf buf → content buf = v :: x01 :: i1 :: i0 :: l1 :: l0 :: p :: u :: body →
  (n ≤ length body)%nat → cwf c →
  ∃ ok c', onBeginRequest c (host_header [v; x01; i1; i0; l1; l0; p; u]) buf = Ok (ok, c') ∧
    cwf c' ∧ abs c' = step (abs c) (mkRec x01 x01 0 (take n body) [] x00).
Proof.
intros n Hwf Hc Hn Hcwf. rewrite host_header_spec. unfold onBeginRequest.
pose proof (length_content buf Hwf) as Hl. rewrite Hc in Hl. cbn [length] in Hl.
pose proof (be_load_range [l1; l0]) as Hr.
assert (be_load [l1; l0] = Z.of_nat n) as Hbn by (unfold n; lia).
cbn [h_length h_type].
rewrite (proj2 (Z.leb_le (be_load [l1; l0]) (Z.of_nat (readableBytes buf)))) by lia.
change (b2z x01 =? kFcgiBeginRequest) with true. cbn [assert_ mbind res_bind].
unfold step. cbn [f_type f_content].
change (b2z x01 =? kFcgiBeginRequest) with true. cbn iota.
rewrite length_take, Nat.min_l by done.
assert ((Z.of_nat kRecordHeader <=? be_load [l1; l0]) = (8 <=? n)%nat) as ->.
{ unfold kRecordHeader. destruct (Z.leb_spec (Z.of_nat 8) (be_load [l1; l0])),
    (Nat.leb_spec 8 n); (done || lia). }
destruct (Nat.leb_spec 8 n) as [H8|H8]; cbn [andb]; [|eauto].
unfold readInt16_at. rewrite mem_read_content by (unfold kRecordHeader; done || lia).
replace (peek buf + kRecordHeader + 2)%nat with (peek buf + 10)%nat by (unfold kRecordHeader; lia).
rewrite mem_read_content by (done || lia). rewrite Hc. cbn [mbind res_bind].
unfold slice, kRecordHeader. cbn [drop]. rewrite drop_0.
rewrite ntoh16_load by (rewrite length_take; lia).
replace (take 2 (take n body)) with (take 2 body) by (rewrite take_take; f_equal; lia).
replace (take 1 (drop 2 (take n body))) with (take 1 (drop 2 body))
  by (rewrite skipn_firstn_comm, take_take; f_equal; lia).
destruct (be_load (take 2 body) =? kFcgiResponder); [|eauto].
eexists _, _. split; [done|]. done.
Qed.

Lemma dispatch_holds c buf v t i1 i0 l1 l0 p u body :
  let n := Z.to_nat (be_load [l1; l0]) in
  wf buf → content buf = v :: t :: i1 :: i0 :: l1 :: l0 :: p :: u :: body →
  (n ≤ length body)%nat → cwf c →
  ∃ c', dispatch c (host_header [v; t; i1; i0; l1; l0; p; u]) buf = Ok c' ∧ cwf c' ∧
    abs c' = step (abs c) (mkRec v t (be_load [i1; i0]) (take n body)
                             (slice n (Z.to_nat (b2z p)) body) u).
Proof.
intros n Hwf Hc Hn Hcwf. unfold dispatch.
replace (h_type (host_header [v; t; i1; i0; l1; l0; p; u])) with (b2z t)
  by (by rewrite host_header_spec).
replace (h_length (host_header [v; t; i1; i0; l1; l0; p; u])) with (be_load [l1; l0])
  by (by rewrite host_header_spec).
pose proof (length_content buf Hwf) as Hl. rewrite Hc in Hl. cbn [length] in Hl.
assert (mem_read buf (peek buf + kRecordHeader) n = Ok (take n body)) as Hm.
{ rewrite mem_read_content by (unfold kRecordHeader; done || lia). by rewrite Hc. }
fold n. destruct (Z.eqb_spec (b2z t) kFcgiBeginRequest) as [E|E1].
{ assert (t = x01) as -> by (by apply b2z_inj).
  destruct (onBeginRequest_holds c buf v i1 i0 l1 l0 p u body) as (ok & c' & -> & ? & Ha);
    [done..|]. exists c'. split; [done|]. split; [done|]. rewrite Ha. by apply step_ext. }
destruct (Z.eqb_spec (b2z t) kFcgiParams) as [E|E2].
{ rewrite Hm. cbn [mbind res_bind].
  destruct (onParams_holds c (take n body) Hcwf) as (ok & c' & -> & ? & Ha).
  exists c'. split; [done|]. split; [done|]. rewrite Ha. by apply step_ext. }
destruct (Z.eqb_spec (b2z t) kFcgiStdin) as [E|E3].
{ rewrite Hm. cbn [mbind res_bind].
  destruct (onStdin_holds c (take n body) Hcwf) as (c' & -> & ? & Ha).
  exists c'. split; [done|]. split; [done|]. rewrite Ha. by apply step_ext. }
exists c. split; [done|]. split; [done|]. unfold step. cbn [f_type].
by rewrite (proj2 (Z.eqb_neq _ _) E1), (proj2 (Z.eqb_neq _ _) E2), (proj2 (Z.eqb_neq _ _) E3).
Qed.

Lemma parseRequest_loop_holds fuel c buf :
  wf buf → cwf c → (readableBytes buf < fuel)%nat →
  ∃ c' buf', parseRequest_loop fuel c buf = Ok (c', buf') ∧ cwf c' ∧
    abs c' = fold_left step (split_records (content buf)).1 (abs c) ∧
    holds buf' (split_records (content buf)).2.
Proof.
revert c buf. induction fuel as [|fuel IH]; intros c buf Hwf Hcwf Hf; [lia|].
cbn [parseRequest_loop]. pose proof (length_content buf Hwf) as Hl.
rewrite split_records_eq.
destruct (Nat.leb_spec kRecordHeader (readableBytes buf)) as [H8|H8].
2: { rewrite decode_rec_short by (unfold kRecordHeader in *; lia).
     exists c, buf. split_and!; [done..|by split]. }
rewrite mem_read_peek by done. cbn [mbind res_bind].
destruct (long_enough (content buf)) as (v & t & i1 & i0 & l1 & l0 & p & u & body & Hc);
  [unfold kRecordHeader in *; lia|].
rewrite Hc in Hl |- *. cbn [length] in Hl.
change (take kRecordHeader _) with [v; t; i1; i0; l1; l0; p; u].
fold (host_header [v; t; i1; i0; l1; l0; p; u]).
replace (h_length (host_header [v; t; i1; i0; l1; l0; p; u])) with (be_load [l1; l0])
  by (by rewrite host_header_spec).
replace (h_padding (host_header [v; t; i1; i0; l1; l0; p; u])) with (b2z p)
  by (by rewrite host_header_spec).
pose proof (be_load_range [l1; l0]). pose proof (b2z_range p).
cbn [decode_rec]. set (n := Z.to_nat (be_load [l1; l0])). set (k := Z.to_nat (b2z p)).
assert (be_load [l1; l0] = Z.of_nat n ∧ b2z p = Z.of_nat k) as [Hn Hk] by (unfold n, k; lia).
assert ((Z.of_nat kRecordHeader + be_load [l1; l0] + b2z p <=? Z.of_nat (readableBytes buf))
        = (n + k <=? length body)%nat) as ->.
{ unfold kRecordHeader in *. destruct (Nat.leb_spec (n + k) (length body));
    [apply Z.leb_le|apply Z.leb_gt]; lia. }
destruct (Nat.leb_spec (n + k) (length body)) as [Hle|Hgt].
2: { exists c, buf. split_and!; [done..|by split]. }
destruct (dispatch_holds c buf v t i1 i0 l1 l0 p u body) as (c1 & -> & Hc1 & Ha1);
  [done|done|fold n; lia|done|]. cbn [mbind res_bind].
replace (Z.to_nat (Z.of_nat kRecordHeader + be_load [l1; l0] + b2z p))
  with (8 + (n + k))%nat by (unfold kRecordHeader; lia).
destruct (retrieve_holds buf (8 + (n + k))) as (b1 & -> & Hb1 & Hcb1); [done|lia|].
cbn [mbind res_bind]. rewrite Hc in Hcb1. cbn [drop Nat.add] in Hcb1.
destruct (IH c1 b1) as (c2 & b2 & -> & Hc2 & Ha2 & Hb2); [done|done| |].
{ rewrite <- length_content, Hcb1 by done. lens. }
exists c2, b2. rewrite Hcb1 in *. rewrite Ha2, Ha1.
by destruct (split_records (drop (n + k) body)).
Qed.

(** C4: The record parser is total and exact: from any well-formed state and for
    any bytes in the input buffer, [parseRequest] returns (no assertion of the
    codec or of the buffer can fail, and the loop ends), consumes exactly the
    complete records at the front of the buffer, leaves the incomplete rest, and
    has applied the records in order to the connection state. *)
Theorem parseRequest_refines c buf :
  wf buf → cwf c →
  ∃ c' buf', parseRequest c buf = Ok (c', buf') ∧ wf buf' ∧ cwf c' ∧
    content buf' = (split_records (content buf)).2 ∧
    abs c' = fold_left step (split_records (content buf)).1 (abs c).
Proof.
intros Hwf Hcwf. destruct (parseRequest_loop_holds (S (readableBytes buf)) c buf)
  as (c' & buf' & E & ? & ? & ? & ?); [done..|lia|].
exists c', buf'. by split_and!.
Qed.

Lemma onMessage_holds c buf :
  wf buf → cwf c →
  ∃ c' buf', onMessage c buf = Ok (c', buf', (message (abs c) (content buf)).2) ∧
    cwf c' ∧ abs c' = (message (abs c) (content buf)).1.1 ∧
    holds buf' (message (abs c) (content buf)).1.2.
Proof.
intros Hwf Hcwf. unfold onMessage, parseRequest.
destruct (parseRequest_loop_holds (S (readableBytes buf)) c buf)
  as (c1 & b1 & -> & Hc1 & Ha & Hb1); [done..|lia|]. cbn [mbind res_bind].
unfold message. destruct (split_records (content buf)) as [rs rest]. cbn [fst snd] in *.
rewrite <- Ha. cbn [a_got abs]. destruct (gotRequest_ c1); [|by exists c1, b1].
destruct Hc1 as [Hw1 Hw2]. rewrite mem_read_peek, take_ge by
  (done || lia || (rewrite length_content by done; lia)).
cbn [mbind res_bind]. eexists _, _. split; [done|].
split; [split; by apply wf_retrieveAll|]. done.
Qed.
End refinement.

(** ** Delivery of a request, however the network cuts it up *)

Lemma split_none l : decode_rec l = None → split_records l = ([], l).
Proof. intros H. by rewrite split_records_eq, H. Qed.

Lemma split_nil_inv l rest : split_records l = ([], rest) → rest = l.
Proof.
rewrite split_records_eq. destruct (decode_rec l) as [[r l']|]; [|congruence].
destruct (split_records l'). congruence.
Qed.

Definition ends_input (r : frec) : Prop := b2z (f_type r) = kFcgiStdin ∧ f_content r = [].

Lemma step_got a r : ¬ ends_input r → a_got (step a r) = a_got a.
Proof.
intros Hr. unfold step. destruct (b2z (f_type r) =? kFcgiBeginRequest); [by case_match|].
destruct (b2z (f_type r) =? kFcgiParams).
{ destruct (f_content r); [|done]. by destruct (dec_params _ _ _) as [[??]?]. }
destruct (Z.eqb_spec (b2z (f_type r)) kFcgiStdin); [|done].
destruct (f_content r) eqn:Ec; [|done]. by destruct Hr.
Qed.

Lemma steps_got rs a :
  Forall (λ r, ¬ ends_input r) rs → a_got (fold_left step rs a) = a_got a.
Proof.
intros H. revert a. induction H as [|r rs Hr _ IH]; intros a; [done|].
cbn [fold_left]. by rewrite IH, step_got.
Qed.

(** A proper prefix of [rs ++ [r]] is a prefix of [rs]. *)
Lemma proper_prefix {A} (rs : list A) r rs1 rs2 :
  rs ++ [r] = rs1 ++ rs2 → rs2 ≠ [] → ∃ rs3, rs = rs1 ++ rs3.
Proof.
intros H Hne. destruct (exists_last Hne) as (rs3 & x & ->).
rewrite app_assoc in H. apply app_inj_2 in H as [H _]; [|done]. eauto.
Qed.

Section delivery.
Context `{Endian}.

Lemma message_idle a : a_got a = false → message a [] = (a, [], []).
Proof. intros Hg. unfold message. simpl. by rewrite Hg. Qed.

Lemma feed_idle c buf pieces :
  cwf c → holds buf [] → a_got (abs c) = false → concat pieces = [] →
  ∃ c' buf', feed c buf pieces = Ok (c', buf', []) ∧ cwf c' ∧ abs c' = abs c ∧ holds buf' [].
Proof.
revert c buf. induction pieces as [|d pieces IH]; intros c buf Hc Hb Hg Hp.
{ by exists c, buf. }
cbn [concat] in Hp. apply app_eq_nil in Hp as [-> Hp]. cbn [feed].
destruct Hb as [Hwf Hcb]. destruct (append_holds buf []) as (b1 & -> & Hw1 & Hc1); [done|].
rewrite Hcb in Hc1. cbn [app] in Hc1. cbn [mbind res_bind].
destruct (onMessage_holds c b1) as (c2 & b2 & -> & Hc2 & Ha2 & Hb2); [done..|].
rewrite Hc1, message_idle in * by done. cbn [mbind res_bind fst snd] in *.
destruct (IH c2 b2) as (c3 & b3 & -> & Hc3 & Ha3 & Hb3); [done|done|by rewrite Ha2|done|].
cbn [mbind res_bind app]. exists c3, b3. by rewrite Ha3.
Qed.

(** The codec collects records until the one that ends the input, then answers
    and is idle; [rs] and [last] are the records of the whole stream. *)
Lemma feed_collects rs last a1 c buf p pieces rs1 rest :
  Forall (λ r, ¬ ends_input r) rs → ends_input last → a_got a1 = false →
  split_records (p ++ concat pieces) = (rs ++ [last], []) →
  split_records p = (rs1, rest) → rs1 ≠ rs ++ [last] →
  cwf c → abs c = fold_left step rs1 a1 → holds buf rest →
  let a := fold_left step (rs ++ [last]) a1 in
  ∃ c' buf',
    feed c buf pieces = Ok (c', buf', Callback (a_params a) (a_stdin a) ::
      (if negb (a_keep a) then [Shutdown] else [])) ∧
    cwf c' ∧ abs c' = mkConn false (a_keep a) [] [] ∅ ∧ holds buf' [].
Proof.
intros Hrs Hlast Ha1. revert c buf p rs1 rest.
induction pieces as [|d pieces IH]; intros c buf p rs1 rest Hall Hp Hne Hc Ha Hb a.
{ cbn [concat] in Hall. rewrite app_nil_r in Hall. congruence. }
cbn [feed]. destruct Hb as [Hwf Hcb].
destruct (append_holds buf d) as (b1 & -> & Hw1 & Hc1); [done|]. rewrite Hcb in Hc1.
cbn [mbind res_bind].
destruct (onMessage_holds c b1) as (c2 & b2 & -> & Hc2 & Ha2 & Hb2); [done..|].
rewrite Hc1, Ha in *. unfold message in *.
pose proof (split_records_app p d rs1 rest Hp) as Hpd.
destruct (split_records (rest ++ d)) as [rs' rest'] eqn:Erd. rewrite <- fold_left_app in *.
cbn [concat] in Hall. rewrite app_assoc in Hall.
pose proof (split_records_app (p ++ d) (concat pieces) _ _ Hpd) as Hsp.
rewrite Hall in Hsp. destruct (split_records (rest' ++ concat pieces)) as [rs3 rest3] eqn:E3.
injection Hsp as Hrs3 Hrest3. subst rest3.
destruct (decide (rs3 = [])) as [->|Hne3].
- rewrite app_nil_r in Hrs3. rewrite <- Hrs3 in *.
  apply split_nil_inv in E3. symmetry in E3. apply app_eq_nil in E3 as [-> Hnil].
  assert (a_got (fold_left step (rs ++ [last]) a1) = true) as Hgot.
  { rewrite fold_left_app. cbn [fold_left]. destruct Hlast as [Ht Hcont].
    unfold step. by rewrite Ht, Hcont. }
  rewrite Hgot in *. cbn [mbind res_bind fst snd] in *.
  destruct (feed_idle c2 b2 pieces) as (c3 & b3 & -> & Hc3 & Ha3 & Hb3);
    [done|done|by rewrite Ha2|done|].
  cbn [mbind res_bind]. exists c3, b3. rewrite app_nil_r. split; [done|].
  split; [done|]. by rewrite Ha3, Ha2.
- destruct (proper_prefix _ _ _ _ Hrs3 Hne3) as (rs4 & Hrs4).
  assert (a_got (fold_left step (rs1 ++ rs') a1) = false) as Hgot.
  { rewrite steps_got; [done|]. rewrite Hrs4 in Hrs. by apply Forall_app in Hrs as [? _]. }
  rewrite Hgot in *. cbn [mbind res_bind fst snd] in *.
  destruct (IH c2 b2 (p ++ d) (rs1 ++ rs') rest') as (c3 & b3 & -> & Hc3 & Ha3 & Hb3); try done.
  { rewrite Hrs4, <- !app_assoc. intros Heq. apply app_inv_head in Heq.
    apply (f_equal length) in Heq. rewrite !length_app in Heq. simpl in Heq.
    rewrite Hrs4 in Hrs3. apply (f_equal length) in Hrs3. rewrite !length_app in Hrs3.
    simpl in Hrs3. lia. }
  cbn [mbind res_bind app]. by exists c3, b3.
Qed.
End delivery.

(** The same stream of reads on an abstract connection. *)
Fixpoint afeed (a : aconn) (l : bytes) (pieces : list bytes) : aconn * bytes * list effect :=
  match pieces with
  | [] => (a, l, [])
  | d :: pieces =>
      let '(a, l, es) := message a (l ++ d) in
      let '(a, l, es') := afeed a l pieces in
      (a, l, es ++ es')
  end.

Lemma feed_afeed `{Endian} c buf pieces :
  cwf c → wf buf →
  ∃ c' buf', feed c buf pieces = Ok (c', buf', (afeed (abs c) (content buf) pieces).2) ∧
    cwf c' ∧ abs c' = (afeed (abs c) (content buf) pieces).1.1 ∧
    holds buf' (afeed (abs c) (content buf) pieces).1.2.
Proof.
revert c buf. induction pieces as [|d pieces IH]; intros c buf Hc Hwf; cbn [feed afeed].
{ by exists c, buf. }
destruct (append_holds buf d) as (b1 & -> & Hw1 & Hc1); [done|]. cbn [mbind res_bind].
destruct (onMessage_holds c b1) as (c2 & b2 & -> & Hc2 & Ha2 & Hw2 & Hb2); [done..|].
rewrite Hc1 in *. destruct (message (abs c) (content buf ++ d)) as [[a l] es].
cbn [mbind res_bind fst snd] in *.
destruct (IH c2 b2 Hc2 Hw2) as (c3 & b3 & -> & Hc3 & Ha3 & Hb3). rewrite Ha2, Hb2 in *.
destruct (afeed a l pieces) as [[a' l'] es']. cbn [mbind res_bind fst snd] in *.
by exists c3, b3.
Qed.

(** ** The state a request leaves behind *)

Lemma steps_params id ps a :
  pieces_ok ps →
  fold_left step ((λ cp, mkRec x01 x04 id cp.1 cp.2 x00) <$> ps) a =
  mkConn (a_got a) (a_keep a) (a_stdin a) (a_pstream a ++ concat ps.*1) (a_params a).
Proof.
intros Hps. revert a. induction Hps as [|[cc pp] ps Hne _ IH]; intros a.
- destruct a. cbn. by rewrite app_nil_r.
- cbn [fmap list_fmap fold_left concat]. rewrite IH.
  unfold step. cbn [f_type f_content fst] in *.
  change (b2z x04 =? kFcgiBeginRequest) with false.
  change (b2z x04 =? kFcgiParams) with true. cbn iota.
  destruct cc; [done|]. cbn [a_got a_keep a_stdin a_pstream a_params]. by rewrite app_assoc.
Qed.

Lemma steps_stdin id ss a :
  pieces_ok ss →
  fold_left step ((λ cp, mkRec x01 x05 id cp.1 cp.2 x00) <$> ss) a =
  mkConn (a_got a) (a_keep a) (a_stdin a ++ concat ss.*1) (a_pstream a) (a_params a).
Proof.
intros Hss. revert a. induction Hss as [|[cc pp] ss Hne _ IH]; intros a.
- destruct a. cbn. by rewrite app_nil_r.
- cbn [fmap list_fmap fold_left concat]. rewrite IH.
  unfold step. cbn [f_type f_content fst] in *.
  change (b2z x05 =? kFcgiBeginRequest) with false.
  change (b2z x05 =? kFcgiParams) with false.
  change (b2z x05 =? kFcgiStdin) with true. cbn iota.
  destruct cc; [done|]. cbn [a_got a_keep a_stdin a_pstream a_params]. by rewrite app_assoc.
Qed.

Lemma step_begin id flags a :
  step a (mkRec x01 x01 id [x00; x01; flags; x00; x00; x00; x00; x00] [] x00) =
  mkConn (a_got a) (b2z flags =? kFcgiKeepConn) (a_stdin a) (a_pstream a) (a_params a).
Proof.
unfold step, slice. cbn [f_type f_content]. cbn [drop take]. rewrite le_load_1. done.
Qed.

Lemma step_params_end id kvs a :
  Forall pair_ok kvs → a_pstream a = enc_pairs kvs →
  step a (mkRec x01 x04 id [] [] x00) =
  mkConn (a_got a) (a_keep a) (a_stdin a) [] (assign_all kvs (a_params a)).
Proof.
intros Hkv Hs. unfold step. cbn [f_type f_content].
change (b2z x04 =? kFcgiBeginRequest) with false.
change (b2z x04 =? kFcgiParams) with true. cbn iota.
by rewrite Hs, dec_enc_pairs by (done || lia).
Qed.

(** A request whose parameter stream encodes [kvs], on a connection whose
    parameter stream is empty, adds the pairs and the input to what is there. *)
Lemma steps_request id flags ps ss kvs a :
  pieces_ok ps → pieces_ok ss → Forall pair_ok kvs → concat ps.*1 = enc_pairs kvs →
  a_pstream a = [] →
  fold_left step (request_records id flags ps ss) a =
  mkConn true (b2z flags =? kFcgiKeepConn) (a_stdin a ++ concat ss.*1) []
    (assign_all kvs (a_params a)).
Proof.
intros Hps Hss Hkv Hcat Ha. unfold request_records. cbn [fold_left].
rewrite !fold_left_app, step_begin, steps_params by done. cbn [fold_left].
rewrite (step_params_end id kvs) by (cbn [a_pstream]; rewrite ?Ha; done).
rewrite steps_stdin by done. done.
Qed.

(** The records before the last do not end the input. *)
Lemma request_records_body id flags ps ss :
  pieces_ok ss →
  ∃ rs, request_records id flags ps ss = rs ++ [mkRec x01 x05 id [] [] x00] ∧
        Forall (λ r, ¬ ends_input r) rs.
Proof.
intros Hss. unfold request_records.
exists (mkRec x01 x01 id [x00; x01; flags; x00; x00; x00; x00; x00] [] x00 ::
  ((λ cp, mkRec x01 x04 id cp.1 cp.2 x00) <$> ps) ++
  [mkRec x01 x04 id [] [] x00] ++ ((λ cp, mkRec x01 x05 id cp.1 cp.2 x00) <$> ss)).
split; [cbn [app]; f_equal; by rewrite <- app_assoc|].
constructor; [by intros [? _]|].
apply Forall_app. split; [|constructor; [by intros [? _]|]].
- apply Forall_fmap, Forall_true. by intros ? [? _].
- apply Forall_fmap. eapply Forall_impl; [|exact Hss]. by intros [??] Hne [_ ?].
Qed.

Section requests.
Context `{Endian}.

Lemma request_delivery id flags kvs ps ss pieces c buf :
  Forall frec_ok (request_records id flags ps ss) →
  pieces_ok ps → pieces_ok ss → Forall pair_ok kvs → concat ps.*1 = enc_pairs kvs →
  concat pieces = concat (encode_rec <$> request_records id flags ps ss) →
  cwf c → abs c = a0 → wf buf → content buf = [] →
  ∃ c' buf',
    feed c buf pieces =
      Ok (c', buf', Callback (assign_all kvs ∅) (concat ss.*1) ::
                    (if b2z flags =? 1 then [] else [Shutdown])) ∧
    content buf' = [] ∧ abs c' = mkConn false (b2z flags =? 1) [] [] ∅.
Proof.
intros Hok Hps Hss Hkv Hcat Hw Hc Ha Hwf Hcb.
destruct (request_records_body id flags ps ss Hss) as (rs & Ers & Hrs).
pose proof (split_encode _ [] Hok) as Hsplit. rewrite app_nil_r, <- Hw in Hsplit.
change (split_records []) with (@nil frec, @nil byte) in Hsplit. cbn iota in Hsplit.
rewrite app_nil_r, Ers in Hsplit.
destruct (feed_collects rs (mkRec x01 x05 id [] [] x00) a0 c buf [] pieces [] [])
  as (c' & buf' & E & _ & Ha' & _ & Hb'); try done.
{ by destruct rs. }
rewrite <- Ers, (steps_request id flags ps ss kvs) in E, Ha' by done.
exists c', buf'. split; [|done]. rewrite E. cbn [a_params a_stdin a_keep a0 app].
unfold kFcgiKeepConn. by destruct (b2z flags =? 1).
Qed.

(** C1: A request is delivered exactly once and intact.  For every responder
    request - any request id, any parameters with names and values shorter than
    2^31 bytes, any body, cut into records and padded as the web server likes -
    and however the network then splits its bytes into reads, a fresh codec
    invokes the callback exactly once, with the map that assigning the pairs in
    order builds and with exactly the body; it asks for the connection to be
    shut down iff the flags octet is not 1, and it ends idle, with nothing left
    unread and nothing of the request kept. *)
Theorem request_delivered id flags kvs ps ss pieces c buf :
  Forall frec_ok (request_records id flags ps ss) →
  pieces_ok ps → pieces_ok ss → Forall pair_ok kvs → concat ps.*1 = enc_pairs kvs →
  concat pieces = concat (encode_rec <$> request_records id flags ps ss) →
  cwf c → abs c = a0 → wf buf → content buf = [] →
  ∃ c' buf',
    feed c buf pieces =
      Ok (c', buf', Callback (assign_all kvs ∅) (concat ss.*1) ::
                    (if b2z flags =? 1 then [] else [Shutdown])) ∧
    content buf' = [] ∧ abs c' = mkConn false (b2z flags =? 1) [] [] ∅.
Proof. apply request_delivery. Qed.

(** Requests that arrive in the same read are merged.  The record loop does
    not stop at the end of a request, so when the bytes of two complete requests
    are in the buffer together the callback runs once, on the union of both
    parameter lists and the concatenation of both bodies; the second request
    gets no answer of its own. *)
Theorem same_read_merges id1 id2 fl1 fl2 kvs1 kvs2 ps1 ss1 ps2 ss2 c buf :
  let w := request_records id1 fl1 ps1 ss1 ++ request_records id2 fl2 ps2 ss2 in
  Forall frec_ok w → pieces_ok ps1 → pieces_ok ss1 → pieces_ok ps2 → pieces_ok ss2 →
  Forall pair_ok kvs1 → Forall pair_ok kvs2 →
  concat ps1.*1 = enc_pairs kvs1 → concat ps2.*1 = enc_pairs kvs2 →
  cwf c → abs c = a0 → wf buf → content buf = concat (encode_rec <$> w) →
  ∃ c' buf',
    onMessage c buf =
      Ok (c', buf', Callback (assign_all kvs2 (assign_all kvs1 ∅))
                             (concat ss1.*1 ++ concat ss2.*1) ::
                    (if b2z fl2 =? 1 then [] else [Shutdown])).
Proof.
intros w Hok Hp1 Hs1 Hp2 Hs2 Hk1 Hk2 Hc1 Hc2 Hc Ha Hwf Hcb.
destruct (onMessage_holds c buf Hwf Hc) as (c' & buf' & E & _).
exists c', buf'. rewrite E. f_equal. f_equal. unfold message.
pose proof (split_encode w [] Hok) as Hsplit. rewrite app_nil_r, <- Hcb in Hsplit.
change (split_records []) with (@nil frec, @nil byte) in Hsplit. cbn iota in Hsplit.
rewrite app_nil_r in Hsplit. rewrite Hsplit, Ha. unfold w. rewrite fold_left_app.
rewrite (steps_request id1 fl1 ps1 ss1 kvs1), (steps_request id2 fl2 ps2 ss2 kvs2) by done.
cbn. unfold kFcgiKeepConn. by destruct (b2z fl2 =? 1).
Qed.

(** The keep-connection flag is compared, not masked: a begin record of a
    responder keeps the connection open iff its whole flags octet is 1, so a
    server that sets FCGI_KEEP_CONN together with any reserved bit has its
    connection closed after the response. *)
Theorem keepConn_exact id flags c buf :
  cwf c → wf buf → 0 ≤ id < 2 ^ 16 →
  content buf =
    encode_rec (mkRec x01 x01 id [x00; x01; flags; x00; x00; x00; x00; x00] [] x00) →
  ∃ c' buf', parseRequest c buf = Ok (c', buf') ∧ content buf' = [] ∧
    keepConn_ c' = (b2z flags =? 1).
Proof.
intros Hc Hwf Hid Hcb.
destruct (parseRequest_loop_holds (S (readableBytes buf)) c buf)
  as (c' & buf' & E & _ & Ha & _ & Hb); [done..|lia|].
exists c', buf'. split; [done|].
assert (frec_ok (mkRec x01 x01 id [x00; x01; flags; x00; x00; x00; x00; x00] [] x00)) as Hok
  by (repeat split; cbn; lia).
rewrite <- (app_nil_r (encode_rec _)) in Hcb. rewrite Hcb, split_records_eq, decode_encode_rec in * by done.
split; [done|]. change (keepConn_ c') with (a_keep (abs c')). rewrite Ha.
change (split_records []) with (@nil frec, @nil byte). cbn [fst fold_left].
by rewrite step_begin.
Qed.
End requests.

(** ** Concrete connections *)

Definition fresh_buf : Buffer := mkBuffer (replicate 16 x00) 8 8.
Definition fresh_codec : FastCgiCodec := mkCodec false false fresh_buf fresh_buf ∅.

(** A buffer whose readable bytes are [l]. *)
Definition buf_of (l : bytes) : Buffer := mkBuffer (replicate 8 x00 ++ l) 8 (8 + length l).

Lemma fresh_buf_wf : wf fresh_buf.
Proof. split; unfold kCheapPrepend; simpl; lia. Qed.

Lemma buf_of_wf l : wf (buf_of l).
Proof. split; unfold kCheapPrepend, buf_of; cbn [buffer_ readerIndex_ writerIndex_]; lens. Qed.

Lemma buf_of_content l : content (buf_of l) = l.
Proof.
unfold content, buf_of, readableBytes, slice. cbn [buffer_ readerIndex_ writerIndex_].
rewrite drop_app_length' by done. apply take_ge. lia.
Qed.

Lemma fresh_codec_cwf : cwf fresh_codec.
Proof. split; apply fresh_buf_wf. Qed.

(** A two-parameter request with a body, in padded records. *)
Definition demo_pairs : list (bytes * bytes) := [([x41], [x62; x63]); ([x44], [])].
Definition demo_ps : list (bytes * bytes) :=
  [(take 3 (enc_pairs demo_pairs), [x00]); (drop 3 (enc_pairs demo_pairs), [])].
Definition demo_ss : list (bytes * bytes) := [([x68; x69], [x00; x00])].

Lemma demo_ok flags : Forall frec_ok (request_records 1 flags demo_ps demo_ss).
Proof. unfold frec_ok. repeat constructor; cbn; lia. Qed.

Lemma demo_pieces_ok : pieces_ok demo_ps ∧ pieces_ok demo_ss.
Proof. split; repeat constructor; done. Qed.

Lemma demo_pairs_ok : Forall pair_ok demo_pairs.
Proof. unfold pair_ok. repeat constructor; cbn; lia. Qed.

Lemma parseRequest_refines_witness :
  wf (buf_of [x01; x05; x00]) ∧ cwf fresh_codec ∧
  ∃ c' buf', parseRequest (H := MuduoEndian) fresh_codec (buf_of [x01; x05; x00]) =
      Ok (c', buf') ∧ wf buf' ∧ cwf c' ∧ content buf' = [x01; x05; x00] ∧ abs c' = a0.
Proof.
split; [apply buf_of_wf|]. split; [apply fresh_codec_cwf|].
exact (parseRequest_refines (H := MuduoEndian) fresh_codec (buf_of [x01; x05; x00])
         (buf_of_wf _) fresh_codec_cwf).
Defined.

Lemma request_delivered_witness :
  let w := concat (encode_rec <$> request_records 1 x01 demo_ps demo_ss) in
  ∃ c' buf',
    feed (H := MuduoEndian) fresh_codec fresh_buf [take 5 w; drop 5 w] =
      Ok (c', buf', [Callback {[ [x41] := [x62; x63]; [x44] := [] ]} [x68; x69]]) ∧
    content buf' = [] ∧ abs c' = mkConn false true [] [] ∅.
Proof.
intros w. destruct demo_pieces_ok as [Hps Hss].
destruct (request_delivered (H := MuduoEndian) 1 x01 demo_pairs demo_ps demo_ss
  [take 5 w; drop 5 w] fresh_codec fresh_buf (demo_ok x01) Hps Hss demo_pairs_ok)
  as (c' & buf' & E & Hr); try reflexivity.
- apply fresh_codec_cwf.
- apply fresh_buf_wf.
- exists c', buf'. split; [|exact Hr]. rewrite E. vm_compute. reflexivity.
Defined.

Lemma same_read_merges_witness :
  let w := concat (encode_rec <$> request_records 1 x01 demo_ps demo_ss
                   ++ request_records 2 x00 demo_ps demo_ss) in
  ∃ c' buf',
    onMessage (H := MuduoEndian) fresh_codec (buf_of w) =
      Ok (c', buf', [Callback (assign_all demo_pairs (assign_all demo_pairs ∅))
                              [x68; x69; x68; x69]; Shutdown]).
Proof.
intros w. destruct demo_pieces_ok as [Hps Hss].
apply (same_read_merges (H := MuduoEndian) 1 2 x01 x00 demo_pairs demo_pairs
  demo_ps demo_ss demo_ps demo_ss fresh_codec (buf_of w)); try done.
- apply Forall_app. split; unfold frec_ok; repeat constructor; cbn; lia.
- apply demo_pairs_ok.
- apply demo_pairs_ok.
- apply fresh_codec_cwf.
- apply buf_of_wf.
Defined.

Lemma keepConn_exact_witness :
  let l := encode_rec (mkRec x01 x01 1 [x00; x01; x03; x00; x00; x00; x00; x00] [] x00) in
  ∃ c' buf', parseRequest (H := CocgiEndian) fresh_codec (buf_of l) = Ok (c', buf') ∧
    content buf' = [] ∧ keepConn_ c' = false.
Proof.
intros l. apply (keepConn_exact (H := CocgiEndian) 1 x03 fresh_codec (buf_of l)).
- apply fresh_codec_cwf.
- apply buf_of_wf.
- lia.
- apply buf_of_content.
Defined.
