(* ===== verification/CodecRespond.v ===== *)
(** The response writer of the codec: what [respond] puts on the wire is a
    sequence of standard output records that carry the page, the empty record that
    ends the stream, and the end-request record. *)

From Stdlib Require Import ZArith Lia Bool.
From Stdlib.Strings Require Import Byte.
From stdpp Require Import base numbers list gmap option.
From S2P Require Import Prelude Endian Buffer Codec CodecSpec.
Local Open Scope Z_scope.

Lemma FCGI_MAX_LENGTH_val : Z.of_nat FCGI_MAX_LENGTH = 65535.
Proof. unfold FCGI_MAX_LENGTH. lia. Qed.

#[local] Opaque FCGI_MAX_LENGTH.

(** A standard output record of request 1 with [k] octets of padding. *)
Definition stdout_rec (out : bytes) (k : nat) : frec :=
  mkRec x01 x06 1 out (replicate k x00) x00.

Definition stdout_end : frec := mkRec x01 x06 1 [] [] x00.
Definition request_end : frec := mkRec x01 x03 1 (replicate 8 x00) [] x00.

(** A record that carries output and keeps the stream aligned to eight octets. *)
Definition output_rec (r : frec) : Prop :=
  frec_ok r ∧ f_version r = x01 ∧ b2z (f_type r) = kFcgiStdout ∧ f_id r = 1 ∧
  f_content r ≠ [] ∧ (length (encode_rec r) mod 8 = 0)%nat.

Section respond.
Context `{Endian}.

Lemma header_store_spec t len padding :
  0 ≤ len < 2 ^ 16 →
  header_store (mkHeader 1 (b2z t) (hton16 1) (hton16 len) padding 0) =
  [x01; t] ++ be_store 2 1 ++ be_store 2 len ++ [z2b (Z.land padding 255); x00].
Proof.
intros Hl. unfold header_store. cbn [h_version h_type h_id h_length h_padding h_unused].
rewrite !hton16_store. unfold u16. rewrite (Z.mod_small len) by lia.
change (1 mod 2 ^ 16) with 1. cbn [le_store]. rewrite !land_255.
rewrite (Z.mod_small (b2z t)) by apply b2z_range. by rewrite z2b_b2z.
Qed.

Lemma append_stdout_holds response out padding :
  wf response → Z.of_nat (length out) < 2 ^ 16 → 0 ≤ padding < 8 →
  ∃ r', append_stdout response out (Z.of_nat (length out)) padding = Ok r' ∧
    holds r' (content response ++ encode_rec (stdout_rec out (Z.to_nat padding))).
Proof.
intros Hwf Hlen Hp. unfold append_stdout.
destruct (append_holds response (header_store (mkHeader 1 kFcgiStdout (hton16 1)
  (hton16 (Z.of_nat (length out))) padding 0))) as (b1 & -> & Hw1 & Hc1); [done|].
cbn [mbind res_bind].
destruct (append_holds b1 out) as (b2 & -> & Hw2 & Hc2); [done|]. cbn [mbind res_bind].
destruct (append_holds b2 (take (Z.to_nat padding) (replicate 8 x00)))
  as (b3 & -> & Hw3 & Hc3); [done|].
exists b3. split; [done|]. split; [done|]. rewrite Hc3, Hc2, Hc1.
change kFcgiStdout with (b2z x06). rewrite header_store_spec by lia.
rewrite land_255, Z.mod_small by lia.
unfold encode_rec, stdout_rec. cbn [f_version f_type f_id f_content f_padding f_reserved].
rewrite length_replicate, Z2Nat.id, take_replicate, Nat.min_l by lia.
by rewrite <- !app_assoc.
Qed.

Lemma stdout_padding_spec out :
  stdout_padding out = (- Z.of_nat (length out)) mod 8.
Proof.
unfold stdout_padding, u8, u64. change 7 with (Z.ones 3). rewrite Z.land_ones by lia.
pose proof (Z.mod_pos_bound (- Z.of_nat (length out) mod 2 ^ 64) (2 ^ 3)).
rewrite (Z.mod_small (_ mod 2 ^ 3)) by lia.
rewrite Z.mod_mod_divide by (exists (2 ^ 61); reflexivity). done.
Qed.

(** The padding makes the whole record a multiple of eight octets. *)
Lemma stdout_rec_output out :
  out ≠ [] → Z.of_nat (length out) < 2 ^ 16 →
  output_rec (stdout_rec out (Z.to_nat ((- Z.of_nat (length out)) mod 8))).
Proof.
intros Hne Hl. pose proof (Z.mod_pos_bound (- Z.of_nat (length out)) 8 ltac:(lia)).
unfold output_rec, frec_ok, stdout_rec, encode_rec.
cbn [f_version f_type f_id f_content f_padding f_reserved].
split_and!; try done; try lia; [rewrite length_replicate; lia|].
rewrite !length_app, !length_be_store, length_replicate. cbn [length].
apply Nat2Z.inj. rewrite Nat2Z.inj_mod. apply Z.mod_divide; [lia|].
pose proof (Z.div_mod (- Z.of_nat (length out)) 8 ltac:(lia)).
exists (1 - (- Z.of_nat (length out)) / 8). lia.
Qed.

(** A padded output record is appended whole. *)
Lemma append_output response out padding :
  wf response → out ≠ [] → Z.of_nat (length out) < 2 ^ 16 →
  padding = (- Z.of_nat (length out)) mod 8 →
  ∃ r' r, append_stdout response out (u16 (Z.of_nat (length out))) padding = Ok r' ∧
    holds r' (content response ++ encode_rec r) ∧ output_rec r ∧ f_content r = out.
Proof.
intros Hwf Hne Hl ->. pose proof (Z.mod_pos_bound (- Z.of_nat (length out)) 8 ltac:(lia)).
unfold u16. rewrite (Z.mod_small (Z.of_nat (length out))) by lia.
destruct (append_stdout_holds response out ((- Z.of_nat (length out)) mod 8))
  as (r' & -> & Hr'); [done|done|lia|].
eexists r', _. split; [done|]. split; [done|]. split; [by apply stdout_rec_output|done].
Qed.

Lemma respond_chunks_holds n i out response :
  wf response → ((i + n) * FCGI_MAX_LENGTH ≤ length out)%nat →
  ∃ r' rs, respond_chunks n i out response = Ok r' ∧
    holds r' (content response ++ concat (encode_rec <$> rs)) ∧ Forall output_rec rs ∧
    concat (f_content <$> rs) = slice (i * FCGI_MAX_LENGTH) (n * FCGI_MAX_LENGTH) out.
Proof.
pose proof FCGI_MAX_LENGTH_val as HM.
revert i response. induction n as [|n IH]; intros i response Hwf Hl.
{ exists response, []. cbn [fmap list_fmap concat respond_chunks].
  rewrite app_nil_r, Nat.mul_0_l, slice_0.
  split; [reflexivity|]. split; [by split|]. by split; [constructor|]. }
cbn [respond_chunks]. set (sub := slice (i * FCGI_MAX_LENGTH) FCGI_MAX_LENGTH out).
assert (length sub = FCGI_MAX_LENGTH) as Hs by (apply length_slice; nia).
rewrite <- Hs.
destruct (append_output response sub (u8 (Z.land (- Z.of_nat (length sub)) 7)))
  as (b1 & r & E & [Hw1 Hc1] & Hr & Hf); [done| |lia|by rewrite Hs, HM|].
{ intros E. rewrite E in Hs. simpl in Hs. lia. }
rewrite E. cbn [mbind res_bind].
destruct (IH (S i) b1) as (b2 & rs & -> & [Hw2 Hc2] & Hrs & Hcat); [done|lia|].
exists b2, (r :: rs). split; [done|]. cbn [fmap list_fmap concat].
split; [split; [done|]; by rewrite Hc2, Hc1, <- app_assoc|].
split; [by constructor|]. rewrite Hcat, Hf, Hs. unfold sub, slice.
replace (S i * FCGI_MAX_LENGTH)%nat with (i * FCGI_MAX_LENGTH + FCGI_MAX_LENGTH)%nat by lia.
rewrite <- drop_drop, take_take_drop. by f_equal.
Qed.

Lemma endings_hold response :
  wf response →
  ∃ b1 b2, endStdout response = Ok b1 ∧ endRequest b1 = Ok b2 ∧
    holds b2 (content response ++ encode_rec stdout_end ++ encode_rec request_end).
Proof.
intros Hwf. unfold endStdout, endRequest.
destruct (append_holds response (header_store (mkHeader 1 kFcgiStdout (hton16 1) 0 0 0)))
  as (b1 & -> & Hw1 & Hc1); [done|]. exists b1.
destruct (append_holds b1 (header_store (mkHeader 1 kFcgiEndRequest (hton16 1)
  (hton16 (Z.of_nat kRecordHeader)) 0 0))) as (b2 & -> & Hw2 & Hc2); [done|].
cbn [mbind res_bind].
destruct (appendInt32_holds b2 0) as (b3 & -> & Hw3 & Hc3); [done|]. cbn [mbind res_bind].
destruct (appendInt32_holds b3 0) as (b4 & -> & Hw4 & Hc4); [done|].
exists b4. split; [done|]. split; [done|]. split; [done|].
rewrite Hc4, Hc3, Hc2, Hc1, <- !app_assoc. f_equal.
change kFcgiEndRequest with (b2z x03). rewrite header_store_spec by done.
change kFcgiStdout with (b2z x06). 
unfold header_store at 1. cbn [h_version h_type h_id h_length h_padding h_unused].
rewrite hton16_store. done.
Qed.

Lemma respond_page_holds page response :
  wf response → page ≠ [] →
  ∃ r1 rs, respond_page page response = Ok r1 ∧
    holds r1 (content response ++ concat (encode_rec <$> rs)) ∧ Forall output_rec rs ∧
    concat (f_content <$> rs) = page.
Proof.
intros Hwf Hne. pose proof FCGI_MAX_LENGTH_val as HM. unfold respond_page.
destruct (Nat.leb_spec (length page) FCGI_MAX_LENGTH) as [Hle|Hgt].
{ destruct (append_output response page (stdout_padding page))
    as (b1 & r & -> & Hb & Hr & Hf); [done|done|lia|apply stdout_padding_spec|].
  exists b1, [r]. cbn [fmap list_fmap concat]. rewrite !app_nil_r, Hf.
  split_and!; [done|done|by constructor|done]. }
pose proof (Nat.div_mod_eq (length page) FCGI_MAX_LENGTH) as Hdm.
set (q := (length page / FCGI_MAX_LENGTH)%nat) in *.
assert (length page mod FCGI_MAX_LENGTH < FCGI_MAX_LENGTH)%nat as Hm
  by (apply Nat.mod_upper_bound; lia).
destruct (respond_chunks_holds q 0 page response) as (b1 & rs & -> & [Hw1 Hc1] & Hrs & Hcat);
  [done|lia|]. cbn [mbind res_bind].
unfold slice in Hcat. rewrite Nat.mul_0_l, drop_0, Nat.mul_comm in Hcat.
destruct (Nat.eqb_spec (length page mod FCGI_MAX_LENGTH) 0) as [E|E]; cbn [negb].
- exists b1, rs. split; [reflexivity|]. split; [by split|]. split; [done|].
  rewrite Hcat. apply take_ge. lia.
- destruct (append_output b1 (drop (FCGI_MAX_LENGTH * q) page)
    (stdout_padding (drop (FCGI_MAX_LENGTH * q) page)))
    as (b2 & r & -> & [Hw2 Hc2] & Hr & Hf); [done| | |apply stdout_padding_spec|].
  + intros Hd. apply (f_equal length) in Hd. rewrite length_drop in Hd. simpl in Hd. lia.
  + rewrite length_drop. lia.
  + exists b2, (rs ++ [r]). split; [reflexivity|].
    rewrite !fmap_app, !concat_app, Hcat. cbn [fmap list_fmap concat].
    rewrite !app_nil_r, Hf, take_drop, app_assoc, <- Hc1.
    split; [exact (conj Hw2 Hc2)|]. split; [|reflexivity].
    by apply Forall_app_2; [|constructor].
Qed.

Lemma respond_holds out response :
  wf response →
  let page := match out with [] => empty_result | _ => out end in
  ∃ response' rs wire,
    respond out response = Ok (page, response') ∧ wf response' ∧
    content response' = content response ++ wire ∧
    split_records wire = (rs ++ [stdout_end; request_end], []) ∧
    Forall output_rec rs ∧ concat (f_content <$> rs) = page.
Proof.
intros Hwf page. unfold respond. fold page.
destruct (respond_page_holds page response) as (r1 & rs & -> & [Hw1 Hc1] & Hrs & Hcat);
  [done|unfold page; by destruct out|]. cbn [mbind res_bind].
destruct (endings_hold r1 Hw1) as (b1 & b2 & -> & E2 & Hw2 & Hc2).
cbn [mbind res_bind]. rewrite E2. cbn [mbind res_bind].
exists b2, rs, (concat (encode_rec <$> rs ++ [stdout_end; request_end])).
split; [done|]. split; [done|]. rewrite Hc2, Hc1.
split. { rewrite fmap_app, concat_app, <- app_assoc.
  cbn [fmap list_fmap concat]. by rewrite app_nil_r. }
split; [|done].
rewrite <- (app_nil_r (concat _)), split_encode.
- change (split_records []) with (@nil frec, @nil byte). cbn iota. by rewrite app_nil_r.
- apply Forall_app. split; [eapply Forall_impl; [|exact Hrs]; by intros ? [? _]|].
  unfold stdout_end, request_end, frec_ok. repeat constructor; cbn; lia.
Qed.

(** C2: A response is well formed and complete.  [respond] always succeeds; what
    it appends to the response buffer parses as a sequence of standard output
    records of protocol version 1 and request 1, each non-empty and padded to a
    multiple of eight octets, whose contents concatenated are exactly the page
    (the fixed "Empty Result!" page when the backend returned nothing), followed
    by the empty record that ends the output stream and by the end-request record
    with status 0; nothing is left over.  This holds for pages of every length,
    including those above 65535 octets, which are cut. *)
Theorem respond_wire out response :
  wf response →
  let page := match out with [] => empty_result | _ => out end in
  ∃ response' rs wire,
    respond out response = Ok (page, response') ∧ wf response' ∧
    content response' = content response ++ wire ∧
    split_records wire = (rs ++ [stdout_end; request_end], []) ∧
    Forall output_rec rs ∧ concat (f_content <$> rs) = page.
Proof. apply respond_holds. Qed.
End respond.

Lemma respond_wire_witness :
  wf fresh_buf ∧
  ∃ response' rs wire,
    respond (H := MuduoEndian) [x6f; x6b] fresh_buf = Ok ([x6f; x6b], response') ∧
    wf response' ∧ content response' = content fresh_buf ++ wire ∧
    split_records wire = (rs ++ [stdout_end; request_end], []) ∧
    Forall output_rec rs ∧ concat (f_content <$> rs) = [x6f; x6b].
Proof.
split; [apply fresh_buf_wf|].
exact (respond_wire (H := MuduoEndian) [x6f; x6b] fresh_buf fresh_buf_wf).
Defined.
