(* ===== verification/CxxString.v ===== *)
(** The parts of [std::string], [<cctype>], [<cstdlib>] and the integer streams the
    cgicc sources use.  [size_type] is a [Z] at its 64-bit width, so that the
    arithmetic the sources do on [npos] wraps the way it does there. *)

From Stdlib Require Import ZArith Lia Bool.
From Stdlib.Strings Require Import Byte String.
From stdpp Require Import base numbers list option.
From S2P Require Import Prelude.
Local Open Scope Z_scope.

Definition npos : Z := 2 ^ 64 - 1.

Definition size (s : bytes) : Z := Z.of_nat (length s).

(** [s.find(pat, pos)] *)
Definition find (s pat : bytes) (pos : Z) : Z :=
  if pos <=? size s then
    match search pat (drop (Z.to_nat pos) s) with
    | Some i => pos + Z.of_nat i
    | None => npos
    end
  else npos.

(** [s.find_first_of(c, pos)] for a single character. *)
Definition find_first_of (s : bytes) (c : byte) (pos : Z) : Z := find s [c] pos.

(** [s.substr(pos, n)]; [s.substr(pos)] has [n = npos]. *)
Definition substr (s : bytes) (pos n : Z) : res bytes :=
  if pos <=? size s
  then Ok (take (Z.to_nat (Z.min n (size s - pos))) (drop (Z.to_nat pos) s))
  else Fault OutOfRange.

(** The character [*(s.begin() + i)] for [i <= s.size()]: C++11 strings end in a
    null character. *)
Definition char_at (s : bytes) (i : nat) : byte := default x00 (s !! i).

(** ** Character classes of the C locale *)

Definition in_range (b lo hi : byte) : bool := (b2z lo <=? b2z b) && (b2z b <=? b2z hi).

Definition toupper (b : byte) : byte :=
  if in_range b x61 x7a then z2b (b2z b - 32) else b.
Definition tolower (b : byte) : byte :=
  if in_range b x41 x5a then z2b (b2z b + 32) else b.
Definition isdigit (b : byte) : bool := in_range b x30 x39.
Definition isxdigit (b : byte) : bool :=
  isdigit b || in_range b x41 x46 || in_range b x61 x66.
Definition isalnum (b : byte) : bool :=
  isdigit b || in_range b x41 x5a || in_range b x61 x7a.
(** Space, form feed, newline, carriage return, tab, vertical tab. *)
Definition isspace (b : byte) : bool := in_range b x09 x0d || bool_decide (b = x20).

(** ** Decimal numbers *)

(** [out << n] for an unsigned [n]. *)
Fixpoint dec_digits (fuel : nat) (n : Z) (acc : bytes) : bytes :=
  match fuel with
  | O => acc
  | S fuel =>
      let acc := z2b (48 + n mod 10) :: acc in
      if n <? 10 then acc else dec_digits fuel (n / 10) acc
  end.
Definition print_dec (n : Z) : bytes := dec_digits (S (Z.to_nat (Z.log2 n))) n [].

(** The value of a run of digits read after [acc]. *)
Fixpoint digits_value (acc : Z) (l : bytes) : Z :=
  match l with
  | [] => acc
  | b :: l => digits_value (10 * acc + (b2z b - 48)) l
  end.

(** The longest prefix whose characters satisfy [p], and the rest. *)
Fixpoint span (p : byte → bool) (l : bytes) : bytes * bytes :=
  match l with
  | b :: l' => if p b then let '(a, r) := span p l' in (b :: a, r) else ([], l)
  | [] => ([], [])
  end.

(** An optional sign; [true] for a minus. *)
Definition read_sign (s : bytes) : bool * bytes :=
  match s with
  | x2d :: s' => (true, s')
  | x2b :: s' => (false, s')
  | _ => (false, s)
  end.

(** [std::atol]: optional white space, an optional sign, digits; the value
    saturates at the ends of [long] as [strtol] documents. *)
Definition atol (s : bytes) : Z :=
  let '(_, s) := span isspace s in
  let '(neg, s) := read_sign s in
  let '(ds, _) := span isdigit s in
  let v := digits_value 0 ds in
  if neg : bool then Z.max (- 2 ^ 63) (- v) else Z.min (2 ^ 63 - 1) v.

(** An input stream: the characters not yet read, and whether the last operation
    left it usable. *)
Record istream := mkIn { in_rest : bytes; in_good : bool }.

(** [in >> n] for [unsigned long]: skips white space, an optional sign (a minus
    negates modulo the width), digits; no digits, or a value that does not fit,
    sets the fail bit. *)
Definition read_ulong (s : istream) : Z * istream :=
  if in_good s then
    let '(_, r) := span isspace (in_rest s) in
    let '(neg, r) := read_sign r in
    let '(ds, r) := span isdigit r in
    match ds with
    | [] => (0, mkIn r false)
    | _ =>
        let v := digits_value 0 ds in
        if v <? 2 ^ 64 then ((if neg : bool then u64 (- v) else v), mkIn r true)
        else (2 ^ 64 - 1, mkIn r false)
    end
  else (0, s).

(** [in.get()], the character dropped. *)
Definition stream_get (s : istream) : istream :=
  match in_good s, in_rest s with
  | true, _ :: r => mkIn r true
  | _, r => mkIn r false
  end.

(** [in.read(buf, n)] and [gcount()]. *)
Definition stream_read (s : istream) (n : Z) : bytes * istream :=
  if in_good s then
    if n <=? size (in_rest s)
    then (take (Z.to_nat n) (in_rest s), mkIn (drop (Z.to_nat n) (in_rest s)) true)
    else (in_rest s, mkIn [] false)
  else ([], s).

(** ** Lemmas *)

Lemma size_nonneg s : 0 ≤ size s.
Proof. unfold size. lia. Qed.

Lemma size_app a b : size (a ++ b) = size a + size b.
Proof. unfold size. rewrite length_app. lia. Qed.

Lemma span_spec p l :
  let '(a, r) := span p l in
  l = a ++ r ∧ Forall (λ b, p b = true) a ∧ match r with [] => True | b :: _ => p b = false end.
Proof.
induction l as [|b l IH]; cbn [span]; [by repeat constructor|].
destruct (p b) eqn:E; [|by repeat constructor].
destruct (span p l) as [a r]. destruct IH as (-> & ? & ?). by repeat constructor.
Qed.

Lemma span_app p a r :
  Forall (λ b, p b = true) a → match r with [] => True | b :: _ => p b = false end →
  span p (a ++ r) = (a, r).
Proof.
intros Ha Hr. induction Ha as [|b a Hb _ IH]; cbn [app span].
- destruct r as [|b r]; cbn [span]; [done|]. by rewrite Hr.
- by rewrite Hb, IH.
Qed.

(** A single character is found at the first place it occurs. *)
Lemma search_char c a r : c ∉ a → search [c] (a ++ c :: r) = Some (length a).
Proof.
intros Hc. apply search_found.
- exists r. by rewrite drop_app_length.
- intros j Hj. destruct (is_prefix [c] (drop j (a ++ c :: r))) eqn:E; [|done].
  apply is_prefix_spec in E as [r' Hr']. exfalso. apply Hc.
  rewrite drop_app_le in Hr' by lia.
  destruct (drop j a) as [|x a'] eqn:Ed.
  { apply (f_equal length) in Ed. rewrite length_drop in Ed. simpl in Ed. lia. }
  injection Hr' as -> _. apply list_elem_of_lookup. exists j.
  rewrite <- (Nat.add_0_r j), <- lookup_drop, Ed. done.
Qed.

Lemma search_char_none c l : c ∉ l → search [c] l = None.
Proof.
intros Hc. destruct (search [c] l) as [i|] eqn:E; [|done].
apply search_sound in E as [[r Hr] _]. exfalso. apply Hc.
apply list_elem_of_lookup. exists i.
by rewrite <- (Nat.add_0_r i), <- lookup_drop, Hr.
Qed.

(** Text that holds none of the [c]s an occurrence of [pat] needs is skipped. *)
Lemma search_skip pat k c a b :
  pat !! k = Some c → c ∉ a → c ∉ take k b →
  search pat (a ++ b) = Nat.add (length a) <$> search pat b.
Proof.
intros Hk Ha Hb. induction a as [|x a IH]; cbn [app length].
{ by destruct (search pat b). }
apply not_elem_of_cons in Ha as [Hx Ha]. cbn [search].
destruct (is_prefix pat (x :: a ++ b)) eqn:E.
- apply is_prefix_spec in E as [r Hr]. exfalso.
  assert ((x :: a ++ b) !! k = Some c) as Hc
    by (rewrite Hr; rewrite lookup_app_l; [done|by apply lookup_lt_Some in Hk]).
  change (x :: a ++ b) with ((x :: a) ++ b) in Hc.
  destruct (decide (k < length (x :: a))%nat).
  + rewrite lookup_app_l in Hc by done. apply list_elem_of_lookup_2 in Hc.
    apply elem_of_cons in Hc as [->|]; done.
  + rewrite lookup_app_r in Hc by lia. apply Hb. cbn [length] in *.
    apply list_elem_of_lookup. exists (k - S (length a))%nat.
    rewrite lookup_take_lt by lia. done.
- rewrite IH by done. by destruct (search pat b).
Qed.

(** No occurrence of [pat] starts in [a], whatever follows [a]: at each place a
    character of [a] differs from the one [pat] needs. *)
Fixpoint compatible (pat a : bytes) : bool :=
  match pat, a with
  | p :: pat, x :: a => if decide (p = x) then compatible pat a else false
  | _, _ => true
  end.
Fixpoint clear_of (pat a : bytes) : bool :=
  match a with
  | [] => true
  | x :: a' => negb (compatible pat a) && clear_of pat a'
  end.

Lemma compatible_prefix pat a b : is_prefix pat (a ++ b) = true → compatible pat a = true.
Proof.
revert a. induction pat as [|p pat IH]; intros [|x a]; try done. cbn [is_prefix compatible app].
case_decide; [apply IH|done].
Qed.

Lemma search_clear pat a b :
  clear_of pat a = true → search pat (a ++ b) = Nat.add (length a) <$> search pat b.
Proof.
induction a as [|x a IH]; cbn [clear_of app length]; intros H.
{ by destruct (search pat b). }
apply andb_true_iff in H as [H1 H2]. cbn [search].
destruct (is_prefix pat (x :: a ++ b)) eqn:E.
{ change (x :: a ++ b) with ((x :: a) ++ b) in E. apply compatible_prefix in E.
  rewrite E in H1. done. }
rewrite IH by done. by destruct (search pat b).
Qed.

Lemma search_pat pat r : search pat (pat ++ r) = Some 0%nat.
Proof. destruct pat as [|p pat]; [by destruct r|]. cbn [search app].
pose proof (is_prefix_app (p :: pat) r) as H. cbn [app] in H. by rewrite H. Qed.

(** The first character of [pat] does not occur before it. *)
Lemma search_head c pat a r : c ∉ a → search (c :: pat) (a ++ (c :: pat) ++ r) = Some (length a).
Proof.
intros Ha. rewrite (search_skip _ 0 c) by (done || apply not_elem_of_nil).
rewrite search_pat. cbn. by rewrite Nat.add_0_r.
Qed.

(** What is found in a prefix of the text is found in the text. *)
Lemma search_extend pat a r i : search pat a = Some i → search pat (a ++ r) = Some i.
Proof.
revert i. induction a as [|x a IH]; intros i; cbn [search app].
- destruct (is_prefix pat []) eqn:E; [|done]. intros [= <-].
  destruct pat; [|done]. by destruct r.
- destruct (is_prefix pat (x :: a)) eqn:E.
  + intros [= <-]. apply is_prefix_spec in E as [s Hs].
    change (x :: a ++ r) with ((x :: a) ++ r).
    by rewrite Hs, <- app_assoc, is_prefix_app.
  + intros H. apply fmap_Some in H as (k & Hk & ->).
    assert (is_prefix pat (x :: a ++ r) = false) as ->; [|by rewrite (IH k Hk)].
    destruct (is_prefix pat (x :: a ++ r)) eqn:E'; [|done]. exfalso.
    apply search_le in Hk. apply is_prefix_spec in E' as [s Hs].
    change (x :: a ++ r) with ((x :: a) ++ r) in Hs.
    assert (x :: a = pat ++ take (length (x :: a) - length pat) s) as Ha.
    { apply (f_equal (take (length (x :: a)))) in Hs.
      rewrite take_app_length, take_app, firstn_all2 in Hs; [done|cbn [length]; lia]. }
    rewrite Ha, is_prefix_app in E. done.
Qed.

(** [find] at a position is [search] in what follows it. *)
Lemma find_at p l pat :
  find (p ++ l) pat (size p) =
  match search pat l with Some i => size p + Z.of_nat i | None => npos end.
Proof.
unfold find. pose proof (size_nonneg l). rewrite size_app, (proj2 (Z.leb_le _ _)) by lia.
unfold size at 1. by rewrite Nat2Z.id, drop_app_length.
Qed.

Lemma find_at0 l pat :
  find l pat 0 = match search pat l with Some i => Z.of_nat i | None => npos end.
Proof. exact (find_at [] l pat). Qed.

Lemma find_after p c a r :
  c ∉ a → find (p ++ a ++ c :: r) [c] (size p) = size p + size a.
Proof.
intros Hc. unfold find. pose proof (size_nonneg (a ++ c :: r)). rewrite size_app.
rewrite (proj2 (Z.leb_le _ _)) by lia. unfold size at 1. rewrite Nat2Z.id, drop_app_length.
rewrite search_char by done. done.
Qed.

Lemma find_after_none p c a : c ∉ a → find (p ++ a) [c] (size p) = npos.
Proof.
intros Hc. unfold find. pose proof (size_nonneg a). rewrite size_app.
rewrite (proj2 (Z.leb_le _ _)) by lia. unfold size at 1. rewrite Nat2Z.id, drop_app_length.
by rewrite search_char_none.
Qed.

(** The characters from [size p], as many as [a] has. *)
Lemma substr_mid p a r : substr (p ++ a ++ r) (size p) (size a) = Ok a.
Proof.
unfold substr. pose proof (size_nonneg a). pose proof (size_nonneg r).
rewrite !size_app, (proj2 (Z.leb_le _ _)) by lia.
rewrite Z.min_l by lia. unfold size. by rewrite !Nat2Z.id, drop_app_length, take_app_length.
Qed.

Lemma substr_prefix a r : substr (a ++ r) 0 (size a) = Ok a.
Proof. exact (substr_mid [] a r). Qed.

(** All of them, whatever larger count is given. *)
Lemma substr_rest p a n : size a ≤ n → substr (p ++ a) (size p) n = Ok a.
Proof.
intros. unfold substr. pose proof (size_nonneg a).
rewrite size_app, (proj2 (Z.leb_le _ _)) by lia.
rewrite Z.min_r by lia. replace (size p + size a - size p) with (size a) by lia.
unfold size. by rewrite !Nat2Z.id, drop_app_length, firstn_all.
Qed.

(** ** Printing and reading numbers *)

Lemma digit_b2z n : b2z (z2b (48 + n mod 10)) = 48 + n mod 10.
Proof. pose proof (Z.mod_pos_bound n 10 ltac:(lia)). apply b2z_z2b_small. lia. Qed.

Lemma digit_isdigit n : isdigit (z2b (48 + n mod 10)) = true.
Proof.
pose proof (Z.mod_pos_bound n 10 ltac:(lia)). unfold isdigit, in_range. rewrite digit_b2z.
change (b2z x30) with 48. change (b2z x39) with 57.
rewrite andb_true_iff. split; apply Z.leb_le; lia.
Qed.

Lemma digits_value_scale acc l :
  digits_value acc l = acc * 10 ^ Z.of_nat (length l) + digits_value 0 l.
Proof.
revert acc. induction l as [|b l IH]; intros acc; cbn [digits_value length];
  [rewrite Z.pow_0_r; lia|].
rewrite IH, (IH (10 * 0 + _)), Nat2Z.inj_succ, Z.pow_succ_r by lia. lia.
Qed.

Lemma dec_digits_spec fuel n acc :
  0 ≤ n < 2 ^ Z.of_nat fuel →
  Forall (λ b, isdigit b = true) acc →
  Forall (λ b, isdigit b = true) (dec_digits fuel n acc) ∧
  digits_value 0 (dec_digits fuel n acc) =
    n * 10 ^ Z.of_nat (length acc) + digits_value 0 acc ∧
  (fuel ≠ O → dec_digits fuel n acc ≠ []).
Proof.
revert n acc. induction fuel as [|fuel IH]; intros n acc Hn Hacc; cbn [dec_digits].
{ replace n with 0 by (simpl in Hn; lia). split; [done|]. split; [lia|done]. }
assert (Forall (λ b, isdigit b = true) (z2b (48 + n mod 10) :: acc)) as Hacc'
  by (constructor; [apply digit_isdigit|done]).
assert (digits_value 0 (z2b (48 + n mod 10) :: acc) =
  (n mod 10) * 10 ^ Z.of_nat (length acc) + digits_value 0 acc) as Hv.
{ cbn [digits_value]. rewrite digit_b2z, digits_value_scale. lia. }
destruct (Z.ltb_spec n 10).
- rewrite (Z.mod_small n) in * by lia. repeat split; done.
- destruct (IH (n / 10) (z2b (48 + n mod 10) :: acc)) as (H1 & H2 & H3); [|done|].
  { rewrite Nat2Z.inj_succ, Z.pow_succ_r in Hn by lia. split; [apply Z.div_pos; lia|].
    apply Z.div_lt_upper_bound; lia. }
  split; [done|]. split.
  + rewrite H2, Hv. cbn [length]. rewrite Nat2Z.inj_succ, Z.pow_succ_r by lia.
    pose proof (Z.div_mod n 10 ltac:(lia)). nia.
  + intros _. destruct fuel; [|by apply H3]. simpl. done.
Qed.

Lemma print_dec_spec n :
  0 ≤ n →
  Forall (λ b, isdigit b = true) (print_dec n) ∧ digits_value 0 (print_dec n) = n ∧
  print_dec n ≠ [].
Proof.
intros Hn. unfold print_dec.
destruct (dec_digits_spec (S (Z.to_nat (Z.log2 n))) n []) as (H1 & H2 & H3); [|done|].
{ rewrite Nat2Z.inj_succ, Z2Nat.id by apply Z.log2_nonneg.
  destruct (Z.eq_dec n 0) as [->|]; [done|]. pose proof (Z.log2_spec n ltac:(lia)). lia. }
split; [done|]. split; [rewrite H2; simpl; lia|by apply H3].
Qed.

Lemma digit_not_space b : isdigit b = true → isspace b = false.
Proof. by destruct b. Qed.

Lemma read_print n r :
  0 ≤ n < 2 ^ 64 → match r with [] => True | b :: _ => isdigit b = false end →
  read_ulong (mkIn (print_dec n ++ r) true) = (n, mkIn r true).
Proof.
intros Hn Hr. destruct (print_dec_spec n) as (Hd & Hv & Hne); [lia|].
unfold read_ulong. cbn [in_good in_rest].
assert (span isspace (print_dec n ++ r) = ([], print_dec n ++ r)) as ->.
{ destruct (print_dec n) as [|b l]; [done|]. apply Forall_cons_1 in Hd as [Hb _].
  cbn [app span]. by rewrite digit_not_space. }
assert (read_sign (print_dec n ++ r) = (false, print_dec n ++ r)) as ->.
{ destruct (print_dec n) as [|b l]; [done|]. apply Forall_cons_1 in Hd as [Hb _].
  cbn [app read_sign]. destruct b; done. }
rewrite span_app by done. destruct (print_dec n) as [|b l] eqn:E; [done|].
rewrite Hv, (proj2 (Z.ltb_lt _ _)) by lia. done.
Qed.
