(* ===== verification/CgiUtils.v ===== *)
(** [cgicc_lib/CgiUtils.cpp]: case-insensitive comparison, form URL encoding,
    substring extraction, and the string format of saved environments.  Both
    servers carry a byte-identical copy of the file. *)

From Stdlib Require Import ZArith Lia Bool.
From Stdlib.Strings Require Import Byte String.
From stdpp Require Import base numbers list option.
From S2P Require Import Prelude CxxString.
Local Open Scope Z_scope.

(** ** Definitions *)

(** The loop both overloads share: compare until either range ends. *)
Fixpoint compare_loop (s1 s2 : bytes) : bool :=
  match s1, s2 with
  | c1 :: s1, c2 :: s2 =>
      if decide (toupper c1 = toupper c2) then compare_loop s1 s2 else false
  | _, _ => true
  end.

Definition stringsAreEqual (s1 s2 : bytes) : bool :=
  if compare_loop s1 s2 then size s2 =? size s1 else false.

Definition stringsAreEqual_n (s1 s2 : bytes) (n : nat) : bool :=
  let good := (n <=? length s1)%nat && (n <=? length s2)%nat in
  let l1 := if good then take n s1 else s1 in
  let l2 := if good then take n s2 else s2 in
  if compare_loop l1 l2 then good else false.

Definition charToHex (c : byte) : bytes :=
  let first := Z.land (schar c) 0xF0 / 16 in
  let first := first + (if 9 <? first then 65 - 10 else 48) in
  let second := Z.land (schar c) 0x0F in
  let second := second + (if 9 <? second then 65 - 10 else 48) in
  [z2b first; z2b second].

Definition hexToChar (first second : byte) : byte :=
  let value (c : byte) : Z :=
    if 65 <=? schar c then Z.land (schar c) 0xDF - 65 + 10 else schar c - 48 in
  let digit := value first * 16 + value second in
  z2b digit.

(** The unescaped characters of [form_urlencode]'s switch: alphanumerics and
    marks. *)
Definition is_mark (c : byte) : bool :=
  bool_decide (c ∈ [x2d; x5f; x2e; x21; x7e; x2a; x27; x28; x29]).

Definition urlencode_char (c : byte) : bytes :=
  if decide (c = x20) then [x2b]
  else if isalnum c || is_mark c then [c]
  else x25 :: charToHex c.

Definition form_urlencode (src : bytes) : bytes := concat (urlencode_char <$> src).

Fixpoint form_urldecode (src : bytes) : bytes :=
  match src with
  | [] => []
  | c :: rest =>
      if decide (c = x2b) then x20 :: form_urldecode rest
      else if decide (c = x25) then
        if (2 <=? length src)%nat && isxdigit (char_at src 1) && isxdigit (char_at src 2)
        then match rest with
             | h1 :: h2 :: rest' => hexToChar h1 h2 :: form_urldecode rest'
             | _ => [hexToChar (char_at src 1) (char_at src 2)]
             end
        else x25 :: form_urldecode rest
      else c :: form_urldecode rest
  end.

Definition extractBetween (data separator1 separator2 : bytes) : res bytes :=
  let start := find data separator1 0 in
  if negb (start =? npos) then
    let start := start + size separator1 in
    let limit := find data separator2 start in
    if negb (limit =? npos) then substr data start (limit - start) else Ok []
  else Ok [].

(** The two-argument overload. *)
Definition extractBetween2 (datas separators : bytes) : res bytes :=
  extractBetween datas separators separators.

(** Writers return what they append to the stream. *)
Definition writeString (s : bytes) : bytes := print_dec (size s) ++ [x20] ++ s.
Definition writeLong (l : Z) : bytes := print_dec l ++ [x20].

Definition readString (inp : istream) : res (bytes * istream) :=
  let '(dataSize, inp) := read_ulong inp in
  let inp := stream_get inp in
  if dataSize =? 0 then Ok ([], inp) else
  if 2 ^ 63 - 1 <? dataSize then Fault LengthError else
  let '(temp, inp) := stream_read inp dataSize in
  if negb (size temp =? dataSize) then Fault RuntimeError else Ok (temp, inp).

Definition readLong (inp : istream) : Z * istream :=
  let '(l, inp) := read_ulong inp in (l, stream_get inp).

(** ** Comparison *)

Lemma compare_loop_spec s1 s2 :
  length s1 = length s2 →
  compare_loop s1 s2 = true ↔ toupper <$> s1 = toupper <$> s2.
Proof.
revert s2. induction s1 as [|c1 s1 IH]; intros [|c2 s2] Hl; try done.
cbn [compare_loop fmap list_fmap]. case_decide as E.
- rewrite IH by (simpl in Hl; lia). split; [by intros ->; rewrite E|congruence].
- split; [done|congruence].
Qed.

Lemma compare_loop_refl_pad s1 s2 : compare_loop s1 (s1 ++ s2) = true.
Proof. induction s1; simpl; [by destruct s2|]. by rewrite decide_True. Qed.

(** [stringsAreEqual] decides equality of the strings with letter case
    ignored; the overload with a count decides it for the first [n] characters,
    and is false when either string is shorter. *)
Theorem stringsAreEqual_spec s1 s2 n :
  (stringsAreEqual s1 s2 = true ↔ toupper <$> s1 = toupper <$> s2) ∧
  (stringsAreEqual_n s1 s2 n = true ↔
     (n ≤ length s1)%nat ∧ (n ≤ length s2)%nat ∧
     toupper <$> take n s1 = toupper <$> take n s2).
Proof.
split.
- unfold stringsAreEqual, size. split.
  + destruct (compare_loop s1 s2) eqn:E; [|done]. intros Hs.
    apply compare_loop_spec; [|done]. apply Z.eqb_eq in Hs. lia.
  + intros H. assert (length s1 = length s2) as Hl
      by (apply (f_equal length) in H; by rewrite !length_fmap in H).
    rewrite (proj2 (compare_loop_spec s1 s2 Hl)) by done. apply Z.eqb_eq. lia.
- unfold stringsAreEqual_n.
  destruct (Nat.leb_spec n (length s1)), (Nat.leb_spec n (length s2)); cbn [andb].
  2-4: split; [by case_match|lia].
  rewrite <- compare_loop_spec by (rewrite !length_take; lia).
  destruct (compare_loop (take n s1) (take n s2)); intuition.
Qed.

(** ** Form URL encoding *)

Lemma hex_roundtrip c :
  isxdigit (char_at (charToHex c) 0) = true ∧ isxdigit (char_at (charToHex c) 1) = true ∧
  hexToChar (char_at (charToHex c) 0) (char_at (charToHex c) 1) = c.
Proof. destruct c; vm_compute; done. Qed.

Lemma charToHex_two c : ∃ h1 h2, charToHex c = [h1; h2].
Proof. unfold charToHex. eauto. Qed.

(** A character the decoder copies. *)
Definition plain (c : byte) : bool := negb (bool_decide (c = x2b)) && negb (bool_decide (c = x25)).

Lemma urldecode_plain c l : plain c = true → form_urldecode (c :: l) = c :: form_urldecode l.
Proof.
unfold plain. intros H. cbn [form_urldecode].
destruct (decide (c = x2b)) as [->|]; [done|]. by destruct (decide (c = x25)) as [->|].
Qed.

Lemma urldecode_escape h1 h2 l :
  isxdigit h1 = true → isxdigit h2 = true →
  form_urldecode (x25 :: h1 :: h2 :: l) = hexToChar h1 h2 :: form_urldecode l.
Proof.
intros H1 H2. cbn [form_urldecode]. rewrite decide_False, decide_True by done.
cbn [char_at lookup list_lookup default length]. unfold char_at. simpl.
by rewrite H1, H2.
Qed.

Lemma encoded_plain c : c ≠ x20 → isalnum c || is_mark c = true → plain c = true.
Proof. by destruct c. Qed.

Lemma urldecode_char c l :
  form_urldecode (urlencode_char c ++ l) = c :: form_urldecode l.
Proof.
unfold urlencode_char. case_decide as Hs; [by subst|].
destruct (isalnum c || is_mark c) eqn:Hm.
- cbn [app]. apply urldecode_plain. by apply encoded_plain.
- destruct (hex_roundtrip c) as (H1 & H2 & H3). destruct (charToHex_two c) as (h1 & h2 & E).
  rewrite E in *. cbn [app]. rewrite urldecode_escape by done. by f_equal.
Qed.

Lemma urldecode_encode_app s l :
  form_urldecode (form_urlencode s ++ l) = s ++ form_urldecode l.
Proof.
unfold form_urlencode. induction s as [|c s IH]; [done|].
cbn [fmap list_fmap concat]. by rewrite <- app_assoc, urldecode_char, IH.
Qed.

Lemma urldecode_encode s : form_urldecode (form_urlencode s) = s.
Proof. by rewrite <- (app_nil_r (form_urlencode s)), urldecode_encode_app, app_nil_r. Qed.

(** Characters an encoded string can contain. *)
Definition url_safe (b : byte) : bool := isalnum b || is_mark b || bool_decide (b ∈ [x2b; x25]).

Lemma charToHex_safe c : Forall (λ b, url_safe b = true) (charToHex c).
Proof. destruct c; repeat constructor. Qed.

Lemma urlencode_safe s : Forall (λ b, url_safe b = true) (form_urlencode s).
Proof.
unfold form_urlencode. induction s as [|c s IH]; [constructor|].
cbn [fmap list_fmap concat]. apply Forall_app. split; [|done].
unfold urlencode_char. case_decide; [by repeat constructor|].
destruct (isalnum c || is_mark c) eqn:E.
- repeat constructor. unfold url_safe. by rewrite E.
- constructor; [done|apply charToHex_safe].
Qed.

(** Form URL encoding round-trips.  For every byte string, the encoder's
    output consists of alphanumerics, marks, plus and percent signs only, and
    decoding it gives the string back. *)
Theorem urlencode_roundtrip s :
  form_urldecode (form_urlencode s) = s ∧
  Forall (λ b, url_safe b = true) (form_urlencode s).
Proof. split; [apply urldecode_encode|apply urlencode_safe]. Qed.

Lemma length_urldecode_bound s : (length (form_urldecode s) ≤ length s)%nat.
Proof.
assert (∀ n s, (length s ≤ n)%nat → (length (form_urldecode s) ≤ length s)%nat) as Hn;
  [|by eapply Hn].
clear s. induction n as [|n IH]; intros [|c rest] Hl; try (simpl in *; lia).
cbn [form_urldecode]. cbn [length] in Hl.
case_decide; [cbn [length]; specialize (IH rest); lia|].
case_decide; [|cbn [length]; specialize (IH rest); lia].
case_match; [|cbn [length]; specialize (IH rest); lia].
destruct rest as [|h1 [|h2 rest']]; cbn [length] in *; try lia.
specialize (IH rest'). lia.
Qed.

(** Decoding is total and never lengthens its input, and malformed escapes
    pass through: a percent sign that is not followed by two hexadecimal digits
    stands for itself, also at the very end of the string. *)
Theorem urldecode_total s h l :
  (length (form_urldecode s) ≤ length s)%nat ∧
  form_urldecode [x25] = [x25] ∧
  form_urldecode [x25; h] = x25 :: form_urldecode [h] ∧
  (isxdigit h = false → form_urldecode (x25 :: h :: l) = x25 :: form_urldecode (h :: l)).
Proof.
split; [apply length_urldecode_bound|]. split; [done|].
split.
- cbn [form_urldecode]. rewrite decide_False, decide_True by done.
  change (isxdigit (char_at [x25; h] 2)) with false. by rewrite andb_false_r.
- intros Hh. cbn [form_urldecode]. rewrite (decide_False (P := x25 = x2b)), decide_True by done.
  unfold char_at at 1. simpl. by rewrite Hh.
Qed.

Lemma urldecode_total_witness :
  isxdigit x7a = false ∧
  form_urldecode (x25 :: x7a :: [x31]) = x25 :: form_urldecode (x7a :: [x31]).
Proof. split; [reflexivity|]. apply (urldecode_total [] x7a [x31]). reflexivity. Defined.

(** ** Substring extraction *)

Lemma find_range s pat pos :
  0 ≤ pos → find s pat pos = npos ∨ (pos ≤ find s pat pos ∧ find s pat pos + size pat ≤ size s).
Proof.
intros Hp. unfold find. destruct (Z.leb_spec pos (size s)); [|by left].
destruct (search pat (drop (Z.to_nat pos) s)) as [i|] eqn:E; [|by left].
right. split; [lia|]. apply search_le in E. rewrite length_drop in E.
unfold size in *. lia.
Qed.

(** The search for a separator that does occur succeeds below [npos]. *)
Lemma extractBetween_total data s1 s2 : ∃ r, extractBetween data s1 s2 = Ok r.
Proof.
unfold extractBetween. destruct (Z.eqb_spec (find data s1 0) npos) as [|Hn]; [eauto|].
cbn [negb]. destruct (find_range data s1 0) as [|[H1 H2]]; [lia|done|].
destruct (Z.eqb_spec (find data s2 (find data s1 0 + size s1)) npos); [eauto|]. cbn [negb].
unfold substr. rewrite (proj2 (Z.leb_le _ _)) by lia. eauto.
Qed.

Lemma extractBetween_found pre mid post s1 s2 :
  s1 ≠ [] → s2 ≠ [] → size (pre ++ s1 ++ mid ++ s2 ++ post) < npos →
  search s1 (pre ++ s1 ++ mid ++ s2 ++ post) = Some (length pre) →
  search s2 (mid ++ s2 ++ post) = Some (length mid) →
  extractBetween (pre ++ s1 ++ mid ++ s2 ++ post) s1 s2 = Ok mid.
Proof.
intros Hn1 Hn2 Hsz H1 H2. set (data := pre ++ s1 ++ mid ++ s2 ++ post) in *.
assert (size data = size pre + size s1 + size mid + size s2 + size post) as Hd
  by (unfold data; rewrite !size_app; lia).
pose proof (size_nonneg pre). pose proof (size_nonneg s1). pose proof (size_nonneg mid).
pose proof (size_nonneg s2). pose proof (size_nonneg post).
assert (find data s1 0 = size pre) as F1.
{ unfold find. rewrite (proj2 (Z.leb_le _ _)) by lia. change (Z.to_nat 0) with 0%nat.
  by rewrite drop_0, H1. }
assert (find data s2 (size pre + size s1) = size pre + size s1 + size mid) as F2.
{ unfold find. rewrite (proj2 (Z.leb_le _ _)) by lia.
  replace (drop (Z.to_nat (size pre + size s1)) data) with (mid ++ s2 ++ post).
  - by rewrite H2.
  - unfold data. rewrite (app_assoc pre s1), drop_app_length'; [done|].
    rewrite length_app. unfold size. lia. }
unfold extractBetween. rewrite F1, (proj2 (Z.eqb_neq _ _)) by lia. cbn [negb].
rewrite F2, (proj2 (Z.eqb_neq _ _)) by lia. cbn [negb].
replace (size pre + size s1 + size mid - (size pre + size s1)) with (size mid) by lia.
unfold data. rewrite (app_assoc pre s1), <- size_app. apply substr_mid.
Qed.

Lemma extractBetween_missing data s1 s2 : search s1 data = None → extractBetween data s1 s2 = Ok [].
Proof.
intros H. unfold extractBetween, find. pose proof (size_nonneg data).
rewrite (proj2 (Z.leb_le _ _)) by lia. change (Z.to_nat 0) with 0%nat. by rewrite drop_0, H.
Qed.

(** [extractBetween] returns the text between the first occurrence of the
    first separator and the next occurrence of the second; it returns the empty
    string when either is missing and never throws. *)
Theorem extractBetween_spec pre mid post s1 s2 :
  s1 ≠ [] → s2 ≠ [] → size (pre ++ s1 ++ mid ++ s2 ++ post) < npos →
  search s1 (pre ++ s1 ++ mid ++ s2 ++ post) = Some (length pre) →
  search s2 (mid ++ s2 ++ post) = Some (length mid) →
  extractBetween (pre ++ s1 ++ mid ++ s2 ++ post) s1 s2 = Ok mid ∧
  (∀ data, search s1 data = None → extractBetween data s1 s2 = Ok []) ∧
  (∀ data, ∃ r, extractBetween data s1 s2 = Ok r).
Proof.
intros. split_and!; [by apply extractBetween_found|intros; by apply extractBetween_missing|].
intros data. apply extractBetween_total.
Qed.

Lemma extractBetween_spec_witness :
  extractBetween ([x31] ++ [x3b; x3b] ++ [x66; x6f; x6f] ++ [x22] ++ [x22]) [x3b; x3b] [x22] =
  Ok [x66; x6f; x6f].
Proof. apply (extractBetween_spec [x31] [x66; x6f; x6f] [x22] [x3b; x3b] [x22]); done. Defined.

(** ** Saved strings *)

(** A string written by [writeString] is read back by [readString], which
    leaves the stream exactly behind it; likewise for [writeLong] and
    [readLong]. *)
Theorem saved_roundtrip s n rest :
  size s < 2 ^ 63 → 0 ≤ n < 2 ^ 64 →
  readString (mkIn (writeString s ++ rest) true) = Ok (s, mkIn rest true) ∧
  readLong (mkIn (writeLong n ++ rest) true) = (n, mkIn rest true).
Proof.
intros Hs Hn. pose proof (size_nonneg s). split.
- unfold readString, writeString. rewrite <- !app_assoc, read_print by (done || lia).
  cbn [stream_get in_good in_rest app].
  destruct (Z.eqb_spec (size s) 0) as [E|E].
  + destruct s as [|b s]; [done|]. unfold size in E. cbn [length] in E. lia.
  + rewrite (proj2 (Z.ltb_ge _ _)) by lia. unfold stream_read. cbn [in_good in_rest].
    rewrite size_app, (proj2 (Z.leb_le _ _)) by (pose proof (size_nonneg rest); lia).
    replace (Z.to_nat (size s)) with (length s) by (unfold size; lia).
    by rewrite take_app_length, drop_app_length, Z.eqb_refl.
- unfold readLong, writeLong. rewrite <- app_assoc, read_print by (done || lia). done.
Qed.

Lemma saved_roundtrip_witness :
  size [x61; x20] < 2 ^ 63 ∧
  readString (mkIn (writeString [x61; x20] ++ [x7a]) true) = Ok ([x61; x20], mkIn [x7a] true) ∧
  readLong (mkIn (writeLong 107 ++ [x7a]) true) = (107, mkIn [x7a] true).
Proof.
split; [reflexivity|]. apply (saved_roundtrip [x61; x20] 107 [x7a]); [reflexivity|lia].
Defined.
