(* ===== verification/CgiForms.v ===== *)
(** The value classes of cgicc: [FormEntry], [FormFile], [HTTPCookie] and the
    [MultipartHeader] of [Cgicc.cpp]. *)

From Stdlib Require Import ZArith Lia Bool.
From Stdlib.Strings Require Import Byte String.
From stdpp Require Import base numbers list option.
From S2P Require Import Prelude CxxString CgiUtils.
Local Open Scope Z_scope.

(** ** FormEntry *)
Module FormEntry.

Record t := mk { fName : bytes; fValue : bytes }.

(** [operator==] *)
Definition eqb (a b : t) : bool := stringsAreEqual (fName a) (fName b).

Definition isEmpty (e : t) : bool := 0 =? size (fValue e).

(** [getIntegerValue(min, max, bounded)] *)
Definition getIntegerValue_bounded (e : t) (min max : Z) : Z * bool :=
  let value := atol (fValue e) in
  if max <? value then (max, true)
  else if value <? min then (min, true)
  else (value, false).

(** [getIntegerValue(min, max)] *)
Definition getIntegerValue (e : t) (min max : Z) : Z :=
  let value := atol (fValue e) in
  if max <? value then max
  else if value <? min then min
  else value.

Definition is_newline (b : byte) : bool := bool_decide (b = x0d) || bool_decide (b = x0a).

Definition count_byte (c : byte) (l : bytes) : nat :=
  length (filter (λ b, b = c) l).

(** The outer loop, on the characters [src .. lim) and the length [len] of what
    has been appended; [fuel] bounds the iterations, one per character. *)
Fixpoint makeString_loop (fuel : nat) (src : bytes) (len avail : nat)
    (allowNewlines : bool) : bytes :=
  match fuel, src with
  | S fuel, c :: rest =>
      if (len <? avail)%nat then
        if is_newline c then
          let '(run, rest) := span is_newline src in
          if allowNewlines then
            let lfsAdd := Nat.max (count_byte x0d run) (count_byte x0a run) in
            replicate lfsAdd x0a ++
            makeString_loop fuel rest (len + lfsAdd) avail allowNewlines
          else makeString_loop fuel rest len avail allowNewlines
        else c :: makeString_loop fuel rest (S len) avail allowNewlines
      else []
  | _, _ => []
  end.

Definition makeString (e : t) (maxLen : nat) (allowNewlines : bool) : bytes :=
  makeString_loop (length (fValue e)) (fValue e) 0 maxLen allowNewlines.

(** [getValue(maxChars)] *)
Definition getValue (e : t) (maxChars : nat) : bytes := makeString e maxChars true.

(** [getStrippedValue(maxChars)] *)
Definition getStrippedValue (e : t) (maxChars : nat) : bytes := makeString e maxChars false.
End FormEntry.

(** ** FormFile *)
Module FormFile.
Record t := mk { fName : bytes; fFilename : bytes; fDataType : bytes; fData : bytes }.

Definition ctor (name filename dataType data : bytes) : t :=
  mk name filename
     (match dataType with [] => list_byte_of_string "text/plain" | _ => dataType end) data.

Definition eqb (a b : t) : bool :=
  stringsAreEqual (fName a) (fName b) && stringsAreEqual (fFilename a) (fFilename b) &&
  stringsAreEqual (fDataType a) (fDataType b).

Definition writeToStream (f : t) : bytes := fData f.
End FormFile.

(** ** HTTPCookie *)
Module HTTPCookie.
Record t := mk {
  fName : bytes; fValue : bytes; fComment : bytes; fDomain : bytes;
  fMaxAge : Z; fPath : bytes; fSecure : bool; fRemoved : bool }.

(** [HTTPCookie(name, value)] *)
Definition ctor2 (name value : bytes) : t := mk name value [] [] 0 [] false false.

Definition ctor7 (name value comment domain : bytes) (maxAge : Z) (path : bytes)
    (secure : bool) : t :=
  mk name value comment domain maxAge path secure false.

Definition eqb (a b : t) : bool :=
  stringsAreEqual (fName a) (fName b) && stringsAreEqual (fValue a) (fValue b) &&
  stringsAreEqual (fComment a) (fComment b) && stringsAreEqual (fDomain a) (fDomain b) &&
  (fMaxAge a =? fMaxAge b) && stringsAreEqual (fPath a) (fPath b) &&
  Bool.eqb (fSecure a) (fSecure b) && Bool.eqb (fRemoved a) (fRemoved b).

Definition render (c : t) : bytes :=
  list_byte_of_string "Set-Cookie:" ++ fName c ++ [x3d] ++ fValue c ++
  (if negb (bool_decide (fComment c = []))
   then list_byte_of_string "; Comment=" ++ fComment c else []) ++
  (if negb (bool_decide (fDomain c = []))
   then list_byte_of_string "; Domain=" ++ fDomain c else []) ++
  (if fRemoved c
   then list_byte_of_string "; Expires=Fri, 01-Jan-1971 01:00:00 GMT;"
   else if negb (0 =? fMaxAge c)
   then list_byte_of_string "; Max-Age=" ++ print_dec (fMaxAge c) else []) ++
  (if negb (bool_decide (fPath c = []))
   then list_byte_of_string "; Path=" ++ fPath c else []) ++
  (if fSecure c then list_byte_of_string "; Secure" else []) ++
  list_byte_of_string "; Version=1".
End HTTPCookie.

(** ** MultipartHeader *)
Record MultipartHeader := mkMultipart {
  fContentDisposition : bytes; mh_fName : bytes; mh_fFilename : bytes; fContentType : bytes }.

(** ** Properties *)
Module FormEntryFacts.
Import FormEntry.

Lemma is_newline_spec b : is_newline b = true ↔ b = x0d ∨ b = x0a.
Proof. unfold is_newline. rewrite orb_true_iff, !bool_decide_eq_true. done. Qed.

Lemma filter_all_newlines run :
  Forall (λ b, is_newline b = true) run → filter (λ b, is_newline b = false) run = [].
Proof.
induction 1 as [|b run Hb _ IH]; [done|]. rewrite filter_cons_False by congruence. done.
Qed.

Lemma stripped_loop fuel src len avail :
  (length src ≤ fuel)%nat →
  makeString_loop fuel src len avail false =
  take (avail - len) (filter (λ b, is_newline b = false) src).
Proof.
revert src len. induction fuel as [|fuel IH]; intros [|c rest] len Hf;
  cbn [makeString_loop length] in *; [by rewrite filter_nil, take_nil|lia|by rewrite filter_nil, take_nil|].
destruct (Nat.ltb_spec len avail) as [Hlt|Hge].
2: { replace (avail - len)%nat with 0%nat by lia. done. }
destruct (is_newline c) eqn:Ec.
- pose proof (span_spec is_newline (c :: rest)) as Hs.
  destruct (span is_newline (c :: rest)) as [run rest'] eqn:Espan.
  destruct Hs as (Heq & Hrun & Hrest').
  assert (run ≠ []) as Hne.
  { intros ->. cbn [app] in Heq. rewrite <- Heq in Hrest'. congruence. }
  assert (length rest' ≤ fuel)%nat as Hl.
  { apply (f_equal length) in Heq. rewrite length_app in Heq. cbn [length] in Heq.
    destruct run; [done|]. cbn [length] in Heq. lia. }
  rewrite IH, Heq, list.filter_app by exact Hl. by rewrite (filter_all_newlines run Hrun).
- rewrite IH by lia. rewrite filter_cons_True by done.
  replace (avail - len)%nat with (S (avail - S len)) by lia. done.
Qed.

(** [getStrippedValue(maxChars)] is the value without its carriage returns
    and line feeds, cut to at most [maxChars] characters. *)
Theorem getStrippedValue_spec e maxChars :
  getStrippedValue e maxChars =
  take maxChars (filter (λ b, is_newline b = false) (fValue e)).
Proof.
unfold getStrippedValue, makeString. rewrite stripped_loop by lia. by rewrite Nat.sub_0_r.
Qed.

(** [getValue(maxChars)] does not truncate inside a run of line breaks: a
    value that starts with [k] line feeds yields all [k] of them for any
    [maxChars] of at least one, so the result can be longer than the documented
    maximum. *)
Theorem getValue_exceeds_max name k maxChars :
  (1 ≤ maxChars)%nat →
  getValue (mk name (replicate k x0a)) maxChars = replicate k x0a.
Proof.
intros Hm. unfold getValue, makeString. cbn [fValue]. destruct k as [|k]; [done|].
rewrite length_replicate. cbn [makeString_loop replicate].
rewrite (proj2 (Nat.ltb_lt _ _)) by lia. change (is_newline x0a) with true. cbn iota.
change (x0a :: replicate k x0a) with (replicate (S k) x0a).
rewrite <- (app_nil_r (replicate (S k) x0a)) at 1.
rewrite span_app by (done || apply Forall_replicate; done).
unfold count_byte.
assert (∀ n, filter (λ b, b = x0d) (replicate n x0a) = []) as ->
  by (induction n; [done|]; cbn [replicate]; rewrite filter_cons_False; done).
assert (∀ n, filter (λ b, b = x0a) (replicate n x0a) = replicate n x0a) as ->
  by (induction n as [|n IH]; [done|]; cbn [replicate]; rewrite filter_cons_True, IH; done).
rewrite length_replicate. cbn [length Nat.max].
by destruct k; rewrite app_nil_r.
Qed.

Lemma getValue_exceeds_max_witness :
  (1 ≤ 1)%nat ∧ getValue (mk [] (replicate 3 x0a)) 1 = replicate 3 x0a.
Proof. split; [lia|]. apply (getValue_exceeds_max [] 3 1). lia. Defined.

(** [getIntegerValue] is the number at the front of the value, clamped to
    the given bounds, and [bounded] reports exactly that it was clamped. *)
Theorem getIntegerValue_clamps e min max :
  min ≤ max →
  getIntegerValue e min max = Z.max min (Z.min max (atol (fValue e))) ∧
  getIntegerValue_bounded e min max =
    (getIntegerValue e min max,
     negb ((min <=? atol (fValue e)) && (atol (fValue e) <=? max))).
Proof.
intros Hb. unfold getIntegerValue, getIntegerValue_bounded.
destruct (Z.ltb_spec max (atol (fValue e))), (Z.ltb_spec (atol (fValue e)) min),
  (Z.leb_spec min (atol (fValue e))), (Z.leb_spec (atol (fValue e)) max);
  try lia; split; (done || lia).
Qed.

Lemma getIntegerValue_clamps_witness :
  0 ≤ 9 ∧ getIntegerValue (mk [] [x34; x32]) 0 9 = Z.max 0 (Z.min 9 (atol [x34; x32])).
Proof. split; [lia|]. apply (getIntegerValue_clamps (mk [] [x34; x32]) 0 9). lia. Defined.

(** [FormEntry] equality compares the names only: two entries with the same
    name, up to case, are equal whatever their values. *)
Theorem FormEntry_eqb_name n1 n2 v1 v2 :
  toupper <$> n1 = toupper <$> n2 → eqb (mk n1 v1) (mk n2 v2) = true.
Proof.
intros H. unfold eqb, stringsAreEqual. cbn [fName].
assert (length n1 = length n2) as Hl
  by (apply (f_equal length) in H; by rewrite !length_fmap in H).
rewrite (proj2 (compare_loop_spec n1 n2 Hl)) by done. unfold size. apply Z.eqb_eq. lia.
Qed.

Lemma FormEntry_eqb_name_witness :
  toupper <$> [x61] = toupper <$> [x41] ∧ eqb (mk [x61] [x31]) (mk [x41] [x32]) = true.
Proof. split; [reflexivity|]. apply (FormEntry_eqb_name [x61] [x41]). reflexivity. Defined.
End FormEntryFacts.
