(* ===== verification/Cgicc.v ===== *)
(** [cgicc_lib/Cgicc.cpp]: the parser of query strings, URL-encoded and multipart
    bodies and cookies, and the lookups on what it found.  Positions are
    [size_type] values, so arithmetic on [npos] wraps as in the source.  A C++
    exception is a [Fault]: [OutOfRange] from [substr], [RuntimeError] from
    [parseMIME]. *)

From Stdlib Require Import ZArith Lia Bool.
From Stdlib.Strings Require Import Byte String.
From stdpp Require Import base numbers list option.
From S2P Require Import Prelude CxxString CgiUtils CgiForms.
Local Open Scope Z_scope.

(** ** State *)

Record Cgicc := mkCgicc {
  fQueryString : bytes; fCookie : bytes; fPostData : bytes; fQueryType : bytes;
  fFormData : list FormEntry.t; fFormFiles : list FormFile.t; fCookies : list HTTPCookie.t }.

Definition set_FormData (st : Cgicc) v :=
  mkCgicc (fQueryString st) (fCookie st) (fPostData st) (fQueryType st)
          v (fFormFiles st) (fCookies st).
Definition set_FormFiles (st : Cgicc) v :=
  mkCgicc (fQueryString st) (fCookie st) (fPostData st) (fQueryType st)
          (fFormData st) v (fCookies st).
Definition set_Cookies (st : Cgicc) v :=
  mkCgicc (fQueryString st) (fCookie st) (fPostData st) (fQueryType st)
          (fFormData st) (fFormFiles st) v.

Definition push_FormData (st : Cgicc) e := set_FormData st (fFormData st ++ [e]).
Definition push_FormFile (st : Cgicc) f := set_FormFiles st (fFormFiles st ++ [f]).
Definition push_Cookie (st : Cgicc) c := set_Cookies st (fCookies st ++ [c]).

(** ** Literals *)

Definition CRLF : bytes := [x0d; x0a].
Definition HEAD_END : bytes := CRLF ++ CRLF.
Definition DASHES : bytes := [x2d; x2d].
Definition standard_type : bytes := list_byte_of_string "application/x-www-form-urlencoded".
Definition multipart_type : bytes := list_byte_of_string "multipart/form-data".
Definition bType : bytes := list_byte_of_string "boundary=".
Definition QUOTE : bytes := [x22].
Definition name_attr : bytes := list_byte_of_string "name=" ++ QUOTE.
Definition filename_attr : bytes := list_byte_of_string "filename=" ++ QUOTE.
Definition disposition_attr : bytes := list_byte_of_string "Content-Disposition: ".
Definition type_attr : bytes := list_byte_of_string "Content-Type: ".

(** ** Multipart bodies *)

Definition parseHeader (data : bytes) : res MultipartHeader :=
  disposition ← extractBetween data disposition_attr [x3b];
  name ← extractBetween data name_attr QUOTE;
  filename ← extractBetween data filename_attr QUOTE;
  cType ← extractBetween data type_attr HEAD_END;
  let filename := form_urldecode filename in
  Ok (mkMultipart disposition name filename cType).

Definition parseMIME (st : Cgicc) (data : bytes) : res Cgicc :=
  let headLimit := find data HEAD_END 0 in
  if headLimit =? npos then Fault RuntimeError else
  let valueStart := headLimit + size HEAD_END in
  value ← substr data valueStart (u64 (size data - valueStart - 2));
  hd ← substr data 0 valueStart;
  head ← parseHeader hd;
  Ok (match mh_fFilename head with
      | [] => push_FormData st (FormEntry.mk (mh_fName head) value)
      | _ => push_FormFile st
               (FormFile.ctor (mh_fName head) (mh_fFilename head) (fContentType head) value)
      end).

(** The loop over the items between separators; returns the position behind the
    last [sep1].  Every iteration moves [oldPos] forward by [size sep1]. *)
Fixpoint multipart_loop (fuel : nat) (st : Cgicc) (data sep1 : bytes) (oldPos : Z) :
    res (Cgicc * Z) :=
  match fuel with
  | O => Fault OutOfFuel
  | S fuel =>
      let pos := find data sep1 oldPos in
      if pos =? npos then Ok (st, oldPos) else
      item ← substr data oldPos (u64 (pos - oldPos));
      st ← parseMIME st item;
      multipart_loop fuel st data sep1 (u64 (pos + size sep1))
  end.

Definition parse_multipart (st : Cgicc) (data content_type : bytes) : res Cgicc :=
  let pos := find content_type bType 0 in
  boundary ← substr content_type (u64 (pos + size bType)) npos;
  let sep1 := DASHES ++ (boundary ++ CRLF) in
  let sep2 := DASHES ++ (boundary ++ DASHES ++ CRLF) in
  let start := find data sep1 0 in
  let oldPos := u64 (start + size sep1) in
  '(st, oldPos) ← multipart_loop (S (length data)) st data sep1 oldPos;
  let pos := find data sep2 oldPos in
  if negb (pos =? npos) then
    item ← substr data oldPos (u64 (pos - oldPos));
    parseMIME st item
  else Ok st.

(** ** URL-encoded bodies *)

Fixpoint urlencoded_loop (fuel : nat) (st : Cgicc) (data : bytes) (oldPos : Z) : res Cgicc :=
  match fuel with
  | O => Fault OutOfFuel
  | S fuel =>
      let pos := find_first_of data x3d oldPos in
      if pos =? npos then Ok st else
      raw ← substr data oldPos (u64 (pos - oldPos));
      let name := form_urldecode raw in
      let oldPos := pos + 1 in
      let pos := find_first_of data x26 oldPos in
      raw ← substr data oldPos (u64 (pos - oldPos));
      let value := form_urldecode raw in
      let st := push_FormData st (FormEntry.mk name value) in
      if pos =? npos then Ok st else urlencoded_loop fuel st data (pos + 1)
  end.

Definition parseFormInput (st : Cgicc) (data content_type : bytes) : res Cgicc :=
  match data with
  | [] => Ok st
  | _ =>
      if bool_decide (content_type = []) ||
         stringsAreEqual_n content_type standard_type (length standard_type)
      then urlencoded_loop (S (length data)) st data 0
      else if stringsAreEqual_n multipart_type content_type (length multipart_type)
      then parse_multipart st data content_type
      else Ok st
  end.

(** ** Cookies *)

Definition parseCookie (st : Cgicc) (data : bytes) : res Cgicc :=
  let pos := find data [x3d] 0 in
  if pos =? npos then Ok st else
  let wscount := size (span isspace data).1 in
  name ← substr data wscount (u64 (pos - wscount));
  value ← substr data (pos + 1) npos;
  Ok (push_Cookie st (HTTPCookie.ctor2 name value)).

Fixpoint cookies_loop (fuel : nat) (st : Cgicc) (data : bytes) (oldPos : Z) : res Cgicc :=
  match fuel with
  | O => Fault OutOfFuel
  | S fuel =>
      let pos := find data [x3b] oldPos in
      if pos =? npos then
        item ← substr data oldPos npos;
        parseCookie st item
      else
        item ← substr data oldPos (u64 (pos - oldPos));
        st ← parseCookie st item;
        cookies_loop fuel st data (pos + 1)
  end.

Definition parseCookies (st : Cgicc) (data : bytes) : res Cgicc :=
  match data with
  | [] => Ok st
  | _ => cookies_loop (S (length data)) st data 0
  end.

(** ** Construction, assignment *)

Definition Cgicc_ctor (query cookie data type : bytes) : res Cgicc :=
  let st := mkCgicc query cookie data type [] [] [] in
  st ← parseFormInput st (fPostData st) (fQueryType st);
  st ← parseFormInput st (fQueryString st) standard_type;
  parseCookies st (fCookie st).

(** [operator=]: the right-hand side is not used. *)
Definition Cgicc_assign (st cgi : Cgicc) : res Cgicc :=
  let st := set_FormFiles (set_FormData st []) [] in
  st ← parseFormInput st (fPostData st) (fQueryType st);
  parseFormInput st (fQueryString st) standard_type.

(** ** Lookups; the end iterator is [None]. *)

Definition FE_nameCompare (name : bytes) (e : FormEntry.t) : bool :=
  stringsAreEqual name (FormEntry.fName e).
Definition FE_valueCompare (value : bytes) (e : FormEntry.t) : bool :=
  stringsAreEqual value (FormEntry.fValue e).
Definition FF_compare (name : bytes) (f : FormFile.t) : bool :=
  stringsAreEqual name (FormFile.fName f).

Definition getElement (st : Cgicc) (name : bytes) : option FormEntry.t :=
  List.find (FE_nameCompare name) (fFormData st).
Definition getElementByValue (st : Cgicc) (value : bytes) : option FormEntry.t :=
  List.find (FE_valueCompare value) (fFormData st).
Definition getFile (st : Cgicc) (name : bytes) : option FormFile.t :=
  List.find (FF_compare name) (fFormFiles st).

(** Returns the filled vector with the flag. *)
Definition findEntries (st : Cgicc) (param : bytes) (byName : bool) : bool * list FormEntry.t :=
  let result :=
    if byName then List.filter (FE_nameCompare param) (fFormData st)
    else List.filter (FE_valueCompare param) (fFormData st) in
  (negb (match result with [] => true | _ => false end), result).

Definition getElements (st : Cgicc) (name : bytes) := findEntries st name true.
Definition getElementsByValue (st : Cgicc) (value : bytes) := findEntries st value false.

Definition queryCheckbox (st : Cgicc) (elementName : bytes) : bool :=
  match getElement st elementName with
  | None => false
  | Some e => stringsAreEqual (FormEntry.fValue e) (list_byte_of_string "on")
  end.

(** [operator()] *)
Definition Cgicc_call (st : Cgicc) (name : bytes) : bytes :=
  match getElement st name with
  | Some e => if negb (FormEntry.isEmpty e) then FormEntry.fValue e else []
  | None => []
  end.
