(* ===== verification/CgiccSpec.v ===== *)
(** What the form and cookie parser of [Cgicc.v] computes: round trips for
    URL-encoded and multipart forms, a reference definition of cookie parsing,
    and totality for every input. *)

From Stdlib Require Import ZArith Lia Bool.
From Stdlib.Strings Require Import Byte String.
From stdpp Require Import base numbers list option.
From S2P Require Import Prelude CxxString CgiUtils CgiForms Cgicc.
Local Open Scope Z_scope.

(** ** Reference definitions *)

(** A URL-encoded form, as a browser submits it. *)
Definition pair_text (nv : bytes * bytes) : bytes :=
  form_urlencode nv.1 ++ [x3d] ++ form_urlencode nv.2.

Fixpoint render_form (kvs : list (bytes * bytes)) : bytes :=
  match kvs with
  | [] => []
  | [p] => pair_text p
  | p :: ps => pair_text p ++ x26 :: render_form ps
  end.

Definition entries (kvs : list (bytes * bytes)) : list FormEntry.t :=
  (λ nv, FormEntry.mk nv.1 nv.2) <$> kvs.

(** The pieces between the occurrences of a character. *)
Fixpoint split_on (c : byte) (l : bytes) : list bytes :=
  match l with
  | [] => [[]]
  | b :: l =>
      if decide (b = c) then [] :: split_on c l
      else match split_on c l with h :: t => (b :: h) :: t | [] => [[b]] end
  end.

(** A cookie is an item with an equals sign; white space before its name is
    dropped, nothing is unescaped. *)
Definition cookie_of (item : bytes) : option HTTPCookie.t :=
  match span (λ b, negb (bool_decide (b = x3d))) item with
  | (_, []) => None
  | (name, _ :: value) => Some (HTTPCookie.ctor2 (span isspace name).2 value)
  end.

(** ** Strings *)

Lemma find_le s pat pos : size s < npos → find s pat pos ≠ npos → find s pat pos ≤ size s.
Proof.
intros Hs. unfold find. destruct (Z.leb_spec pos (size s)); [|done].
destruct (search pat _) as [i|] eqn:E; [|done]. intros _. apply search_le in E.
rewrite length_drop in E. unfold size in *. lia.
Qed.

Lemma npos_neq p a : size (p ++ a) < npos → size p + size a ≠ npos.
Proof. rewrite size_app. lia. Qed.

Lemma u64_sub a b : 0 ≤ b → 0 ≤ a → a + b ≤ npos → u64 (b + a - b) = a.
Proof. unfold npos. intros. unfold u64. rewrite Z.mod_small; lia. Qed.

(** The item up to the next [c], and everything when there is none. *)
Lemma item_before p a c r :
  c ∉ a → size (p ++ a ++ c :: r) < npos →
  find (p ++ a ++ c :: r) [c] (size p) = size p + size a ∧
  substr (p ++ a ++ c :: r) (size p) (u64 (size p + size a - size p)) = Ok a.
Proof.
intros Hc Hs. split; [by apply find_after|].
pose proof (size_nonneg p). pose proof (size_nonneg a). pose proof (size_nonneg (c :: r)).
rewrite !size_app in Hs. rewrite u64_sub by lia. apply substr_mid.
Qed.

Lemma item_last p a c :
  c ∉ a → size (p ++ a) < npos →
  find (p ++ a) [c] (size p) = npos ∧
  substr (p ++ a) (size p) (u64 (npos - size p)) = Ok a.
Proof.
intros Hc Hs. split; [by apply find_after_none|].
pose proof (size_nonneg p). pose proof (size_nonneg a). rewrite size_app in Hs.
apply substr_rest. unfold u64. rewrite Z.mod_small; unfold npos in *; lia.
Qed.

(** ** URL-encoded forms *)

Lemma urlencode_no c s : url_safe c = false → c ∉ form_urlencode s.
Proof.
intros Hc Hin. pose proof (urlencode_safe s) as Hs.
rewrite list.Forall_forall in Hs. apply Hs in Hin. congruence.
Qed.

Lemma set_FormData_twice st a b : set_FormData (set_FormData st a) b = set_FormData st b.
Proof. done. Qed.

Lemma set_FormData_id st : set_FormData st (fFormData st) = st.
Proof. by destruct st. Qed.

Lemma render_form_step p nv kvs :
  p ++ render_form (nv :: kvs) =
  (p ++ form_urlencode nv.1 ++ [x3d]) ++ form_urlencode nv.2 ++
  match kvs with [] => [] | _ => x26 :: render_form kvs end.
Proof.
destruct kvs; cbn [render_form]; unfold pair_text; by rewrite <- !app_assoc, ?app_nil_r.
Qed.

Lemma urlencoded_loop_render fuel st p kvs :
  (length kvs < fuel)%nat → size (p ++ render_form kvs) < npos →
  urlencoded_loop fuel st (p ++ render_form kvs) (size p) =
  Ok (set_FormData st (fFormData st ++ entries kvs)).
Proof.
revert fuel st p. induction kvs as [|[n v] kvs IH]; intros [|fuel] st p Hf Hs; try lia.
{ cbn [urlencoded_loop render_form]. unfold find_first_of.
  rewrite find_after_none by apply not_elem_of_nil. unfold entries.
  rewrite Z.eqb_refl. cbn [fmap list_fmap]. by rewrite app_nil_r, set_FormData_id. }
cbn [urlencoded_loop]. unfold find_first_of.
rewrite render_form_step in *. cbn [fst snd] in *.
set (tail := match kvs with [] => [] | _ => x26 :: render_form kvs end) in *.
assert (x3d ∉ form_urlencode n) as Hn by by apply urlencode_no.
assert (x26 ∉ form_urlencode v) as Hv by by apply urlencode_no.
destruct (item_before p (form_urlencode n) x3d (form_urlencode v ++ tail)) as [E1 E2];
  [done|by rewrite <- !app_assoc in Hs; cbn [app] in Hs|].
rewrite <- !app_assoc. cbn [app]. rewrite E1, E2.
assert ((size p + size (form_urlencode n) =? npos) = false) as ->.
{ apply Z.eqb_neq. rewrite !size_app in Hs. pose proof (size_nonneg (form_urlencode v)).
  pose proof (size_nonneg tail). unfold size at 3 in Hs. cbn [length] in Hs. lia. }
cbn [mbind res_bind]. rewrite urldecode_encode.
replace (size p + size (form_urlencode n) + 1) with (size (p ++ form_urlencode n ++ [x3d]))
  by (rewrite !size_app; unfold size at 3; cbn [length]; lia).
replace (p ++ form_urlencode n ++ x3d :: form_urlencode v ++ tail) with
  ((p ++ form_urlencode n ++ [x3d]) ++ form_urlencode v ++ tail)
  by (by rewrite <- !app_assoc).
set (q := p ++ form_urlencode n ++ [x3d]) in *.
destruct kvs as [|nv kvs]; subst tail.
- rewrite app_nil_r in *. destruct (item_last q (form_urlencode v) x26) as [-> ->]; [done..|].
  cbn [mbind res_bind]. rewrite urldecode_encode. done.
- destruct (item_before q (form_urlencode v) x26 (render_form (nv :: kvs))) as [-> ->]; [done..|].
  cbn [mbind res_bind]. rewrite urldecode_encode.
  assert ((size q + size (form_urlencode v) =? npos) = false) as ->.
  { apply Z.eqb_neq. rewrite !size_app in Hs.
    pose proof (size_nonneg (x26 :: render_form (nv :: kvs))). lia. }
  replace (size q + size (form_urlencode v) + 1) with (size (q ++ form_urlencode v ++ [x26]))
    by (rewrite !size_app; unfold size at 3; cbn [length]; lia).
  replace (q ++ form_urlencode v ++ x26 :: render_form (nv :: kvs)) with
    ((q ++ form_urlencode v ++ [x26]) ++ render_form (nv :: kvs)) in *
    by (by rewrite <- !app_assoc).
  rewrite IH; [|cbn [length] in *; lia|done]. unfold push_FormData.
  rewrite set_FormData_twice. cbn [fFormData set_FormData]. by rewrite <- app_assoc.
Qed.

Lemma render_form_length kvs : (length kvs ≤ length (render_form kvs))%nat.
Proof.
induction kvs as [|p kvs IH]; [cbn; lia|].
assert (1 ≤ length (pair_text p))%nat by (unfold pair_text; rewrite !length_app; cbn [length]; lia).
destruct kvs as [|q kvs]; [done|].
change (render_form (p :: q :: kvs)) with (pair_text p ++ x26 :: render_form (q :: kvs)).
rewrite length_app.
change (length (p :: q :: kvs)) with (S (length (q :: kvs))).
cbn [length] in *. lia.
Qed.

Lemma parse_render st kvs :
  size (render_form kvs) < npos →
  parseFormInput st (render_form kvs) standard_type =
  Ok (set_FormData st (fFormData st ++ entries kvs)).
Proof.
intros Hs. unfold parseFormInput. destruct (render_form kvs) as [|b l] eqn:E.
{ assert (kvs = []) as ->; [|by rewrite app_nil_r, set_FormData_id].
  pose proof (render_form_length kvs) as Hl. rewrite E in Hl. by destruct kvs; cbn in Hl; [|lia]. }
rewrite <- E in *.
replace (bool_decide (standard_type = []) ||
  stringsAreEqual_n standard_type standard_type (length standard_type)) with true by done.
apply (urlencoded_loop_render _ st [] kvs); [|done].
pose proof (render_form_length kvs). lia.
Qed.

(** ** Cookies *)

Lemma split_on_head c a r : c ∉ a → split_on c (a ++ c :: r) = a :: split_on c r.
Proof.
intros Hc. induction a as [|b a IH]; cbn [app split_on].
- by rewrite decide_True.
- apply not_elem_of_cons in Hc as [Hb Hc]. by rewrite decide_False, IH by done.
Qed.

Lemma split_on_last c a : c ∉ a → split_on c a = [a].
Proof.
induction a as [|b a IH]; intros Hc; cbn [split_on]; [done|].
apply not_elem_of_cons in Hc as [Hb Hc]. by rewrite decide_False, IH by done.
Qed.

(** Either the character does not occur, or the string is cut at the first one. *)
Lemma cut_at (c : byte) (l : bytes) : c ∉ l ∨ ∃ a r, l = a ++ c :: r ∧ c ∉ a.
Proof.
induction l as [|b l IH]; [left; apply not_elem_of_nil|].
destruct (decide (b = c)) as [->|Hb].
{ right. exists [], l. split; [done|apply not_elem_of_nil]. }
destruct IH as [Hn|(a & r & -> & Ha)].
- left. by apply not_elem_of_cons.
- right. exists (b :: a), r. split; [done|]. by apply not_elem_of_cons.
Qed.

Lemma span_no c a r :
  c ∉ a → span (λ b, negb (bool_decide (b = c))) (a ++ c :: r) = (a, c :: r).
Proof.
intros Hc. apply span_app; [|by rewrite bool_decide_true].
apply list.Forall_forall. intros x Hx. rewrite bool_decide_false; [done|]. by intros ->.
Qed.

Lemma span_no_end c a : c ∉ a → span (λ b, negb (bool_decide (b = c))) a = (a, []).
Proof.
intros Hc. rewrite <- (app_nil_r a) at 1. apply span_app; [|done].
apply list.Forall_forall. intros x Hx. rewrite bool_decide_false; [done|]. by intros ->.
Qed.

Lemma span_space_before a r :
  span isspace (a ++ x3d :: r) =
  ((span isspace a).1, (span isspace a).2 ++ x3d :: r).
Proof.
induction a as [|b a IH]; [done|]. cbn [app span]. destruct (isspace b); [|done].
rewrite IH. by destruct (span isspace a).
Qed.

Definition add_cookie (st : Cgicc) (item : bytes) : Cgicc :=
  match cookie_of item with Some c => push_Cookie st c | None => st end.

Lemma parseCookie_spec st item :
  size item < npos → parseCookie st item = Ok (add_cookie st item).
Proof.
intros Hs. unfold parseCookie, add_cookie, cookie_of.
destruct (cut_at x3d item) as [Hn|(a & r & -> & Ha)].
{ rewrite find_at0, search_char_none by done. cbn. by rewrite span_no_end. }
rewrite find_at0, search_char, span_no by done. change (Z.of_nat (length a)) with (size a).
pose proof (size_nonneg a). pose proof (size_nonneg (x3d :: r)) as Hr. rewrite size_app in Hs.
rewrite (proj2 (Z.eqb_neq _ _)) by lia. rewrite span_space_before. cbn [fst].
pose proof (span_spec isspace a) as Hsp. destruct (span isspace a) as [ws nm].
destruct Hsp as [-> _]. cbn [fst snd]. rewrite size_app in *.
pose proof (size_nonneg ws). pose proof (size_nonneg nm).
rewrite u64_sub by lia. rewrite <- app_assoc at 1.
rewrite substr_mid. cbn [mbind res_bind].
replace (((ws ++ nm) ++ x3d :: r)) with (((ws ++ nm) ++ [x3d]) ++ r) by (by rewrite <- app_assoc).
replace (size ws + size nm + 1) with (size ((ws ++ nm) ++ [x3d]))
  by (rewrite !size_app; unfold size at 3; cbn [length]; lia).
rewrite substr_rest; [done|]. unfold size in *. cbn [length] in *. lia.
Qed.

Lemma cookies_loop_spec fuel st p l :
  (length l < fuel)%nat → size (p ++ l) < npos →
  cookies_loop fuel st (p ++ l) (size p) = Ok (foldl add_cookie st (split_on x3b l)).
Proof.
revert st p l. induction fuel as [|fuel IH]; intros st p l Hf Hs; [lia|].
cbn [cookies_loop]. pose proof (size_nonneg p).
destruct (cut_at x3b l) as [Hn|(a & r & -> & Ha)].
- destruct (item_last p l x3b) as [-> _]; [done..|]. rewrite Z.eqb_refl.
  rewrite substr_rest by (rewrite size_app in Hs; lia). cbn [mbind res_bind].
  rewrite split_on_last by done. apply parseCookie_spec. rewrite size_app in Hs. lia.
- destruct (item_before p a x3b r) as [-> ->]; [done..|].
  rewrite size_app in Hs. pose proof (size_nonneg (x3b :: r)) as Hr.
  pose proof (size_nonneg a). rewrite size_app in Hs.
  rewrite (proj2 (Z.eqb_neq _ _)) by lia. cbn [mbind res_bind].
  rewrite parseCookie_spec by lia. cbn [mbind res_bind]. rewrite split_on_head by done.
  replace (p ++ a ++ x3b :: r) with ((p ++ a ++ [x3b]) ++ r) by (by rewrite <- !app_assoc).
  replace (size p + size a + 1) with (size (p ++ a ++ [x3b]))
    by (rewrite !size_app; unfold size at 3; cbn [length]; lia).
  apply IH.
  + rewrite length_app in Hf. cbn [length] in Hf. lia.
  + rewrite !size_app. unfold size in *. cbn [length] in *. lia.
Qed.

Lemma set_Cookies_id st : set_Cookies st (fCookies st) = st.
Proof. by destruct st. Qed.

Lemma foldl_add_cookie st items :
  foldl add_cookie st items = set_Cookies st (fCookies st ++ omap cookie_of items).
Proof.
revert st. induction items as [|i items IH]; intros st; cbn [foldl].
{ cbn [omap list_omap]. by rewrite app_nil_r, set_Cookies_id. }
rewrite IH. unfold add_cookie. cbn [omap list_omap]. destruct (cookie_of i); [|done].
cbn [push_Cookie set_Cookies fCookies]. by rewrite <- app_assoc.
Qed.

Lemma cookies_spec st data :
  size data < npos →
  parseCookies st data =
  Ok (set_Cookies st (fCookies st ++ omap cookie_of (split_on x3b data))).
Proof.
intros Hs. rewrite <- foldl_add_cookie. destruct data as [|b l]; [done|].
apply (cookies_loop_spec _ st []); [lia|done].
Qed.

(** Cookie parsing is total and is, for every header, the reference parse:
    the items between semicolons, those with an equals sign, in order, white
    space before the name dropped and nothing unescaped; it changes nothing but
    the cookies. *)
Theorem parseCookies_reference st data :
  size data < npos →
  parseCookies st data =
  Ok (set_Cookies st (fCookies st ++ omap cookie_of (split_on x3b data))).
Proof.
apply cookies_spec.
Qed.

Lemma parseCookies_reference_witness :
  fCookies <$> parseCookies (mkCgicc [] [] [] [] [] [] []) (list_byte_of_string "a=1; b=2") =
  Ok [HTTPCookie.ctor2 [x61] [x31]; HTTPCookie.ctor2 [x62] [x32]].
Proof. rewrite parseCookies_reference; reflexivity. Defined.

(** C37: A form submitted URL-encoded is recovered exactly: parsing the encoded
    text of any list of names and values appends those entries, in order, and
    changes nothing else. *)
Theorem form_roundtrip st kvs :
  size (render_form kvs) < npos →
  parseFormInput st (render_form kvs) standard_type =
  Ok (set_FormData st (fFormData st ++ entries kvs)).
Proof. apply parse_render. Qed.

Lemma form_roundtrip_witness :
  fFormData <$> parseFormInput (mkCgicc [] [] [] [] [] [] [])
    (render_form [([x61; x26], [x3d]); ([x62], [])]) standard_type =
  Ok [FormEntry.mk [x61; x26] [x3d]; FormEntry.mk [x62] []].
Proof. rewrite form_roundtrip; reflexivity. Defined.

(** ** Every input is handled *)

(** A result that is a value or the documented exception, never a stuck or
    out-of-range one. *)
Definition parsed {A} (r : res A) (P : A → Prop) : Prop :=
  match r with Ok a => P a | Fault f => f = RuntimeError end.

Lemma parsed_bind {A B} (r : res A) (k : A → res B) (P : A → Prop) (Q : B → Prop) :
  parsed r P → (∀ a, P a → parsed (k a) Q) → parsed (r ≫= k) Q.
Proof. destruct r; cbn; [|done]. eauto. Qed.

(** What the parser may change: it appends entries and files. *)
Definition appends (st st' : Cgicc) : Prop :=
  ∃ es fs, st' = set_FormFiles (set_FormData st (fFormData st ++ es)) (fFormFiles st ++ fs).

Lemma appends_refl st : appends st st.
Proof. exists [], []. rewrite !app_nil_r. by destruct st. Qed.

Lemma appends_trans a b c : appends a b → appends b c → appends a c.
Proof.
intros (e1 & f1 & ->) (e2 & f2 & ->). exists (e1 ++ e2), (f1 ++ f2).
unfold set_FormFiles, set_FormData. cbn. by rewrite !app_assoc.
Qed.

Lemma appends_entry st e : appends st (push_FormData st e).
Proof. exists [e], []. rewrite app_nil_r. by destruct st. Qed.

Lemma appends_file st f : appends st (push_FormFile st f).
Proof. exists [], [f]. rewrite app_nil_r. by destruct st. Qed.

#[local] Hint Resolve appends_refl appends_entry appends_file : fcgi.

Lemma substr_total s pos n : pos ≤ size s → ∃ r, substr s pos n = Ok r.
Proof. intros. unfold substr. rewrite (proj2 (Z.leb_le _ _)) by done. eauto. Qed.

Lemma parseHeader_total data : ∃ h, parseHeader data = Ok h.
Proof.
unfold parseHeader.
destruct (extractBetween_total data disposition_attr [x3b]) as [? ->].
destruct (extractBetween_total data name_attr QUOTE) as [? ->].
destruct (extractBetween_total data filename_attr QUOTE) as [? ->].
destruct (extractBetween_total data type_attr HEAD_END) as [? ->]. eexists. done.
Qed.

Lemma parseMIME_safe st data : parsed (parseMIME st data) (appends st).
Proof.
unfold parseMIME. destruct (Z.eqb_spec (find data HEAD_END 0) npos); [done|].
destruct (find_range data HEAD_END 0) as [|[H1 H2]]; [lia|done|].
destruct (substr_total data (find data HEAD_END 0 + size HEAD_END)
  (u64 (size data - (find data HEAD_END 0 + size HEAD_END) - 2)) H2) as [value ->].
pose proof (size_nonneg data).
destruct (substr_total data 0 (find data HEAD_END 0 + size HEAD_END)) as [hd ->]; [lia|].
cbn [mbind res_bind]. destruct (parseHeader_total hd) as [h ->]. cbn.
destruct (mh_fFilename h); auto with fcgi.
Qed.

Lemma multipart_loop_safe fuel st data sep1 oldPos :
  0 < size sep1 → size data < npos → 0 ≤ oldPos →
  (0 < fuel)%nat → size data - oldPos < Z.of_nat fuel →
  parsed (multipart_loop fuel st data sep1 oldPos) (λ r, appends st r.1 ∧ 0 ≤ r.2).
Proof.
intros Hsep Hd. revert st oldPos.
induction fuel as [|fuel IH]; intros st oldPos Ho Hf Hm; [lia|]. cbn [multipart_loop].
destruct (Z.eqb_spec (find data sep1 oldPos) npos); [split; [apply appends_refl|done]|].
destruct (find_range data sep1 oldPos) as [|[H1 H2]]; [done..|].
destruct (substr_total data oldPos (u64 (find data sep1 oldPos - oldPos))) as [item ->]; [lia|].
cbn [mbind res_bind]. eapply parsed_bind; [apply parseMIME_safe|]. intros st1 H.
assert (u64 (find data sep1 oldPos + size sep1) = find data sep1 oldPos + size sep1) as ->
  by (unfold u64; rewrite Z.mod_small; unfold npos in *; lia).
specialize (IH st1 (find data sep1 oldPos + size sep1)).
destruct (multipart_loop _ _ _ _ _) as [[st2 p]|]; cbn in *.
- destruct IH; [lia..|]. split; [by eapply appends_trans|done].
- apply IH; lia.
Qed.

Lemma u64_nonneg x : 0 ≤ u64 x.
Proof. unfold u64. apply Z.mod_pos_bound. lia. Qed.

Lemma parse_multipart_safe st data content_type :
  size data < npos → size content_type < npos - size bType → 8 ≤ size content_type →
  parsed (parse_multipart st data content_type) (appends st).
Proof.
intros Hd Hc H8. unfold parse_multipart.
destruct (substr_total content_type (u64 (find content_type bType 0 + size bType)) npos)
  as [boundary ->].
{ destruct (find_range content_type bType 0) as [->|[H1 H2]]; [lia|done|].
  unfold u64. rewrite Z.mod_small; [lia|]. unfold npos in *. pose proof (size_nonneg bType). lia. }
cbn [mbind res_bind]. set (sep1 := DASHES ++ boundary ++ CRLF).
set (oldPos := u64 (find data sep1 0 + size sep1)).
eapply parsed_bind.
{ apply multipart_loop_safe; [|done|apply u64_nonneg|lia|].
  - unfold sep1, DASHES. rewrite size_app. pose proof (size_nonneg (boundary ++ CRLF)).
    change (size [x2d; x2d]) with 2. lia.
  - pose proof (u64_nonneg (find data sep1 0 + size sep1)). subst oldPos. unfold size in *. lia. }
intros [st1 pos1] [Ha Hp]. cbn [fst snd] in *. set (sep2 := DASHES ++ boundary ++ _).
destruct (Z.eqb_spec (find data sep2 pos1) npos); cbn [negb]; [done|].
destruct (find_range data sep2 pos1) as [|[H1 H2]]; [done..|].
pose proof (size_nonneg sep2).
destruct (substr_total data pos1 (u64 (find data sep2 pos1 - pos1))) as [item ->]; [lia|].
cbn [mbind res_bind]. pose proof (parseMIME_safe st1 item) as Hm.
destruct (parseMIME st1 item); cbn in *; [by eapply appends_trans|done].
Qed.

Lemma urlencoded_loop_safe fuel st data oldPos :
  size data < npos → 0 ≤ oldPos ≤ size data → size data - oldPos < Z.of_nat fuel →
  ∃ st', urlencoded_loop fuel st data oldPos = Ok st' ∧ appends st st'.
Proof.
intros Hd. revert st oldPos. induction fuel as [|fuel IH]; intros st oldPos Ho Hf; [lia|].
cbn [urlencoded_loop]. unfold find_first_of.
destruct (Z.eqb_spec (find data [x3d] oldPos) npos); [eauto with fcgi|].
destruct (find_range data [x3d] oldPos) as [|[H1 H2]]; [lia|done|].
change (size [x3d]) with 1 in H2.
destruct (substr_total data oldPos (u64 (find data [x3d] oldPos - oldPos))) as [raw ->]; [lia|].
cbn [mbind res_bind].
set (p := find data [x3d] oldPos + 1) in *.
destruct (substr_total data p (u64 (find data [x26] p - p))) as [raw2 ->]; [lia|].
cbn [mbind res_bind].
destruct (Z.eqb_spec (find data [x26] p) npos); [eauto with fcgi|].
destruct (find_range data [x26] p) as [|[H3 H4]]; [lia|done|].
change (size [x26]) with 1 in H4.
destruct (IH (push_FormData st (FormEntry.mk (form_urldecode raw) (form_urldecode raw2)))
  (find data [x26] p + 1)) as (st' & -> & Ha); [lia..|].
exists st'. split; [done|]. eapply appends_trans; [apply appends_entry|done].
Qed.

Lemma parseFormInput_appends st data content_type :
  size data < npos → size content_type < npos - size bType →
  parsed (parseFormInput st data content_type) (appends st).
Proof.
intros Hd Hc. unfold parseFormInput. destruct data as [|b l]; [apply appends_refl|].
set (data := b :: l) in *.
destruct (bool_decide (content_type = []) || _).
{ destruct (urlencoded_loop_safe (S (length data)) st data 0) as (st' & -> & Ha);
    [done| |unfold size; lia|done]. pose proof (size_nonneg data). lia. }
destruct (stringsAreEqual_n multipart_type content_type _) eqn:E; [|apply appends_refl].
apply parse_multipart_safe; [done..|].
unfold stringsAreEqual_n in E. case_match; [|done]. apply andb_true_iff in E as [_ E].
apply Nat.leb_le in E. change (length multipart_type) with 19%nat in E. unfold size. lia.
Qed.

(** C34: No body or content type can hang the parser or run a [substr] out of
    range: it either returns, having only appended entries and files, or throws
    the runtime error for a multipart item without a header; for URL-encoded
    input (an empty content type, or the standard one) it always returns. *)
Theorem parseFormInput_total st data content_type :
  size data < npos → size content_type < npos - size bType →
  parsed (parseFormInput st data content_type) (appends st) ∧
  ∃ st', parseFormInput st data standard_type = Ok st' ∧ appends st st'.
Proof.
intros Hd Hc. split; [by apply parseFormInput_appends|]. unfold parseFormInput.
destruct data as [|b l]; [eauto with fcgi|]. cbn [orb].
replace (bool_decide (standard_type = []) ||
  stringsAreEqual_n standard_type standard_type (length standard_type)) with true by done.
pose proof (size_nonneg (b :: l)). apply urlencoded_loop_safe; [done|lia|unfold size; lia].
Qed.

Lemma parseFormInput_total_witness :
  parsed (parseFormInput (mkCgicc [] [] [] [] [] [] []) [x2d]
            (multipart_type ++ list_byte_of_string "; boundary=b"))
         (appends (mkCgicc [] [] [] [] [] [] [])).
Proof.
apply (parseFormInput_total _ [x2d] (multipart_type ++ list_byte_of_string "; boundary=b"));
  vm_compute; reflexivity.
Defined.
