(* ===== verification/CgiccMultipart.v ===== *)
(** Multipart forms: what a browser sends for a list of fields and files is
    parsed back to exactly those fields and files; and what assignment does. *)

From Stdlib Require Import ZArith Lia Bool.
From Stdlib.Strings Require Import Byte String.
From stdpp Require Import base numbers list option sets.
From S2P Require Import Prelude CxxString CgiUtils CgiForms Cgicc CgiccSpec.
Local Open Scope Z_scope.

(** ** The text of a multipart form *)

Inductive part :=
  | Field (name value : bytes)
  | File (name filename type data : bytes).

Definition form_data : bytes := list_byte_of_string "Content-Disposition: form-data; ".

(** The header up to the blank line. *)
Definition part_header (p : part) : bytes :=
  match p with
  | Field name _ => form_data ++ name_attr ++ name ++ QUOTE
  | File name filename type _ =>
      form_data ++ name_attr ++ name ++ QUOTE ++ list_byte_of_string "; " ++
      filename_attr ++ form_urlencode filename ++ QUOTE ++ CRLF ++ type_attr ++ type
  end.

Definition part_value (p : part) : bytes :=
  match p with Field _ v => v | File _ _ _ v => v end.

Definition part_text (p : part) : bytes := part_header p ++ HEAD_END ++ part_value p ++ CRLF.

Definition sep1 (b : bytes) : bytes := DASHES ++ (b ++ CRLF).
Definition sep2 (b : bytes) : bytes := DASHES ++ (b ++ DASHES ++ CRLF).

(** What follows the first separator. *)
Fixpoint parts_text (b : bytes) (p : part) (ps : list part) : bytes :=
  match ps with
  | [] => part_text p ++ sep2 b
  | q :: ps => part_text p ++ sep1 b ++ parts_text b q ps
  end.

Definition render_multipart (b : bytes) (p : part) (ps : list part) : bytes :=
  sep1 b ++ parts_text b p ps.

Definition multipart_content_type (b : bytes) : bytes :=
  multipart_type ++ list_byte_of_string "; " ++ bType ++ b.

(** What the parser should record for a part. *)
Definition add_part (st : Cgicc) (p : part) : Cgicc :=
  match p with
  | Field name value => push_FormData st (FormEntry.mk name value)
  | File name filename type data => push_FormFile st (FormFile.ctor name filename type data)
  end.

(** ** Well-formed parts *)

(** No quote, equals sign, colon or carriage return: these could complete one of
    the strings the header parser looks for. *)
Definition name_char (b : byte) : bool := bool_decide (b ∉ [x22; x3d; x3a; x0d]).

Definition part_ok (p : part) : Prop :=
  match p with
  | Field name _ => Forall (λ b, name_char b = true) name
  | File name filename type _ =>
      Forall (λ b, name_char b = true) name ∧ filename ≠ [] ∧ x0d ∉ type
  end.

(** The delimiter does not occur in the part. *)
Definition delimited (b : bytes) (p : part) : Prop :=
  search (DASHES ++ b) (part_text p ++ DASHES ++ b) = Some (length (part_text p)).

(** The closing delimiter does not contain the other one, as it would for a
    boundary of dashes. *)
Definition boundary_ok (b : bytes) : Prop := search (sep1 b) (sep2 b) = None.

(** ** One part *)

(** Membership in a constant list, by evaluation. *)
Ltac by_eval := apply (bool_decide_unpack _); vm_compute; exact I.

Lemma name_no c name :
  c ∈ [x22; x3d; x3a; x0d] → Forall (λ b, name_char b = true) name → c ∉ name.
Proof.
intros Hc Hf Hin. rewrite list.Forall_forall in Hf. apply Hf in Hin.
unfold name_char in Hin. by apply bool_decide_eq_true in Hin.
Qed.

Lemma name_attr_at rest : search name_attr (form_data ++ name_attr ++ rest) = Some (length form_data).
Proof.
rewrite app_assoc. apply search_extend. reflexivity.
Qed.

Lemma extract_name rest name :
  x22 ∉ name → size (form_data ++ name_attr ++ name ++ QUOTE ++ rest) < npos →
  extractBetween (form_data ++ name_attr ++ name ++ QUOTE ++ rest) name_attr QUOTE = Ok name.
Proof.
intros Hq Hs. apply extractBetween_found; [done..|apply name_attr_at|]. by apply search_char.
Qed.

Lemma skip_name pat k c name rest :
  pat !! k = Some c → c ∉ name → c ∉ take k (QUOTE ++ rest) →
  search pat (name ++ QUOTE ++ rest) = Nat.add (length name) <$> search pat (QUOTE ++ rest).
Proof. apply search_skip. Qed.

(** The attributes that are looked for past the name. *)
Lemma attr_past pat k c name rest :
  clear_of pat (form_data ++ name_attr) = true →
  pat !! k = Some c → c ∉ name → c ∉ take k (QUOTE ++ rest) →
  search pat (form_data ++ name_attr ++ name ++ QUOTE ++ rest) =
  Nat.add (length (form_data ++ name_attr ++ name)) <$> search pat (QUOTE ++ rest).
Proof.
intros Hc Hk Hn Hr.
replace (form_data ++ name_attr ++ name ++ QUOTE ++ rest) with
  ((form_data ++ name_attr) ++ name ++ QUOTE ++ rest) by (by rewrite <- !app_assoc).
rewrite (app_assoc form_data), (length_app (_ ++ _)).
rewrite search_clear, (search_skip pat k c) by done.
by destruct (search pat (QUOTE ++ rest)).
Qed.

Lemma parseHeader_field name :
  Forall (λ b, name_char b = true) name → size (part_header (Field name []) ++ HEAD_END) < npos →
  ∃ h, parseHeader (part_header (Field name []) ++ HEAD_END) = Ok h ∧
       mh_fName h = name ∧ mh_fFilename h = [].
Proof.
intros Hn Hs. cbn [part_header] in *. rewrite <- !app_assoc in *. unfold parseHeader.
set (hd := form_data ++ _) in *.
destruct (extractBetween_total hd disposition_attr [x3b]) as [? ->].
destruct (extractBetween_total hd type_attr HEAD_END) as [? E4]. unfold hd in *.
rewrite extract_name by (done || by eapply name_no; [|done]; by_eval).
rewrite (extractBetween_missing _ filename_attr).
- cbn [mbind res_bind]. rewrite E4. eexists. split; [reflexivity|]. done.
- rewrite (attr_past _ 8 x3d); [done|done|done| |by_eval].
  eapply name_no; [|done]. by_eval.
Qed.

(** What follows the name in the header of a file part. *)
Definition file_rest (filename type : bytes) : bytes :=
  list_byte_of_string "; " ++ filename_attr ++ form_urlencode filename ++ QUOTE ++ CRLF ++
  type_attr ++ type ++ HEAD_END.

Lemma filename_attr_at filename type :
  search filename_attr (QUOTE ++ file_rest filename type) = Some 3%nat.
Proof.
unfold file_rest.
replace (QUOTE ++ _) with ((QUOTE ++ list_byte_of_string "; " ++ filename_attr) ++
  form_urlencode filename ++ QUOTE ++ CRLF ++ type_attr ++ type ++ HEAD_END)
  by (by rewrite <- !app_assoc).
apply search_extend. reflexivity.
Qed.

Lemma type_attr_at filename type :
  search type_attr (QUOTE ++ file_rest filename type) =
  Some (length (QUOTE ++ list_byte_of_string "; " ++ filename_attr ++
                form_urlencode filename ++ QUOTE ++ CRLF)).
Proof.
unfold file_rest.
replace (QUOTE ++ _) with ((QUOTE ++ list_byte_of_string "; " ++ filename_attr) ++
  form_urlencode filename ++ (QUOTE ++ CRLF ++ type_attr) ++ type ++ HEAD_END)
  by (by rewrite <- !app_assoc).
rewrite search_clear by done.
rewrite (search_skip _ 12 x3a) by
  (done || (by apply urlencode_no) || by_eval).
rewrite (search_extend _ _ _ 3) by done. cbn. f_equal. rewrite !length_app. cbn. lia.
Qed.

Lemma parseHeader_file name filename type data :
  part_ok (File name filename type data) →
  size (part_header (File name filename type data) ++ HEAD_END) < npos →
  ∃ h, parseHeader (part_header (File name filename type data) ++ HEAD_END) = Ok h ∧
       mh_fName h = name ∧ mh_fFilename h = filename ∧ fContentType h = type.
Proof.
intros (Hn & Hf & Ht) Hs. cbn [part_header] in *. rewrite <- !app_assoc in *.
unfold parseHeader. fold (file_rest filename type) in *.
set (hd := form_data ++ _) in *.
destruct (extractBetween_total hd disposition_attr [x3b]) as [disp ->].
assert (extractBetween hd name_attr QUOTE = Ok name) as ->.
{ apply extract_name; [|done]. eapply name_no; [|done]. by_eval. }
assert (extractBetween hd filename_attr QUOTE = Ok (form_urlencode filename)) as ->.
{ pose proof (filename_attr_at filename type) as Hat. unfold hd in *. clear hd.
  assert (search filename_attr (form_data ++ name_attr ++ name ++ QUOTE ++ file_rest filename type)
    = Some (length (form_data ++ name_attr ++ name ++ QUOTE ++ list_byte_of_string "; "))) as E.
  { rewrite (attr_past _ 8 x3d), Hat; [|done|done| |by_eval].
    - cbn. f_equal. rewrite !length_app. cbn. lia.
    - eapply name_no; [|done]. by_eval. }
  replace (form_data ++ name_attr ++ name ++ QUOTE ++ file_rest filename type) with
    ((form_data ++ name_attr ++ name ++ QUOTE ++ list_byte_of_string "; ") ++ filename_attr ++
     form_urlencode filename ++ QUOTE ++ CRLF ++ type_attr ++ type ++ HEAD_END) in *
    by (unfold file_rest; by rewrite <- !app_assoc).
  apply extractBetween_found; [done..|exact E|]. apply search_char. by apply urlencode_no. }
assert (extractBetween hd type_attr HEAD_END = Ok type) as ->.
{ pose proof (type_attr_at filename type) as Hat. unfold hd in *. clear hd.
  set (pre := form_data ++ name_attr ++ name ++ QUOTE ++ list_byte_of_string "; " ++
    filename_attr ++ form_urlencode filename ++ QUOTE ++ CRLF).
  assert (search type_attr (form_data ++ name_attr ++ name ++ QUOTE ++ file_rest filename type)
    = Some (length pre)) as E.
  { rewrite (attr_past _ 12 x3a), Hat; [|done|done| |by_eval].
    - unfold pre. cbn [fmap option_fmap option_map]. f_equal. rewrite !length_app. cbn. lia.
    - eapply name_no; [|done]. by_eval. }
  replace (form_data ++ name_attr ++ name ++ QUOTE ++ file_rest filename type) with
    (pre ++ type_attr ++ type ++ HEAD_END ++ []) in *
    by (unfold pre, file_rest; by rewrite app_nil_r, <- !app_assoc).
  apply extractBetween_found; [done..|exact E|]. by apply search_head. }
cbn [mbind res_bind]. eexists. split; [reflexivity|]. cbn. by rewrite urldecode_encode.
Qed.

(** The blank line is where the header ends. *)
Lemma head_end_at p r :
  part_ok p → search HEAD_END (part_header p ++ HEAD_END ++ r) = Some (length (part_header p)).
Proof.
destruct p as [name v|name filename type d]; cbn [part_ok part_header].
- intros Hn. apply search_head. rewrite !not_elem_of_app. split_and!; try by_eval.
  eapply name_no; [|done]. by_eval.
- intros (Hn & Hf & Ht).
  set (h1 := form_data ++ name_attr ++ name ++ QUOTE ++ list_byte_of_string "; " ++
    filename_attr ++ form_urlencode filename ++ QUOTE).
  replace (_ ++ HEAD_END ++ r) with (h1 ++ (CRLF ++ type_attr) ++ type ++ HEAD_END ++ r)
    by (unfold h1; by rewrite <- !app_assoc).
  replace (length _) with (length h1 + length (CRLF ++ type_attr) + length type)%nat
    by (unfold h1; rewrite !length_app; lia).
  rewrite (search_skip _ 0 x0d); [|done| |by_eval].
  + rewrite search_clear by done. 
    pose proof (search_head x0d [x0a; x0d; x0a] type r Ht) as E. 
    change [x0d; x0a; x0d; x0a] with HEAD_END in E. rewrite E.
    cbn [fmap option_fmap option_map]. f_equal. lia.
  + unfold h1. rewrite !not_elem_of_app. split_and!; try by_eval.
    * eapply name_no; [|done]. by_eval.
    * by apply urlencode_no.
Qed.

Lemma parseMIME_part st p :
  part_ok p → size (part_text p) < npos → parseMIME st (part_text p) = Ok (add_part st p).
Proof.
intros Hp Hs. unfold parseMIME, part_text in *.
set (hd := part_header p) in *. set (v := part_value p) in *.
assert (find (hd ++ HEAD_END ++ v ++ CRLF) HEAD_END 0 = size hd) as ->.
{ rewrite find_at0. unfold hd. by rewrite head_end_at. }
pose proof (size_nonneg hd). pose proof (size_nonneg v). rewrite !size_app in Hs.
change (size HEAD_END) with 4 in *. change (size CRLF) with 2 in *.
rewrite (proj2 (Z.eqb_neq _ _)) by lia.
replace (size (hd ++ HEAD_END ++ v ++ CRLF) - (size hd + 4) - 2) with (size v)
  by (rewrite !size_app; change (size HEAD_END) with 4; change (size CRLF) with 2; lia).
replace (u64 (size v)) with (size v) by (unfold u64; rewrite Z.mod_small; unfold npos in *; lia).
rewrite (app_assoc hd). replace (size hd + 4) with (size (hd ++ HEAD_END)) by (by rewrite size_app).
rewrite substr_mid. cbn [mbind res_bind].
rewrite substr_prefix. cbn [mbind res_bind].
assert (size (hd ++ HEAD_END) < npos) by (rewrite size_app; change (size HEAD_END) with 4; lia).
unfold hd in *. destruct p as [name value|name filename type data].
- destruct (parseHeader_field name) as (h & E & Hname & Hfile); [done..|].
  change (part_header (Field name value)) with (part_header (Field name [])).
  rewrite E. cbn [mbind res_bind]. by rewrite Hfile, Hname.
- destruct (parseHeader_file name filename type data) as (h & -> & Hname & Hfile & Htype);
    [done..|]. cbn [mbind res_bind]. rewrite Hfile, Hname, Htype.
  destruct Hp as (_ & Hne & _). by destruct filename.
Qed.

(** ** The separators *)

Lemma sep1_after b p :
  delimited b p → search (sep1 b) (part_text p ++ sep1 b) = Some (length (part_text p)).
Proof.
intros Hd. apply search_found; [exists []; by rewrite drop_app_length, app_nil_r|].
intros j Hj. apply (search_extend _ _ CRLF) in Hd. apply search_sound in Hd as [_ Hd].
specialize (Hd j Hj). destruct (is_prefix (sep1 b) _) eqn:E; [|done].
apply is_prefix_spec in E as [r E]. exfalso. unfold sep1 in E. rewrite !app_assoc in *.
rewrite E, <- !app_assoc, (app_assoc DASHES), is_prefix_app in Hd. done.
Qed.

Lemma sep2_after b p :
  delimited b p → search (sep2 b) (part_text p ++ sep2 b) = Some (length (part_text p)).
Proof.
intros Hd. apply search_found; [exists []; by rewrite drop_app_length, app_nil_r|].
intros j Hj. apply (search_extend _ _ (DASHES ++ CRLF)) in Hd. apply search_sound in Hd as [_ Hd].
specialize (Hd j Hj). destruct (is_prefix (sep2 b) _) eqn:E; [|done].
apply is_prefix_spec in E as [r E]. exfalso. unfold sep2 in E. rewrite !app_assoc in *.
rewrite E, <- !app_assoc, (app_assoc DASHES), is_prefix_app in Hd. done.
Qed.

Lemma sep1_not_last b p :
  boundary_ok b → delimited b p → search (sep1 b) (part_text p ++ sep2 b) = None.
Proof.
intros Hb Hd. destruct (search (sep1 b) (part_text p ++ sep2 b)) as [i|] eqn:E; [|done].
apply search_sound in E as [[r E] _]. exfalso.
destruct (decide (i < length (part_text p))%nat) as [Hi|Hi].
- apply (search_extend _ _ (DASHES ++ CRLF)) in Hd. apply search_sound in Hd as [_ Hd].
  specialize (Hd i Hi). unfold sep1, sep2 in E. rewrite !app_assoc in *.
  rewrite E, <- !app_assoc, (app_assoc DASHES), is_prefix_app in Hd. done.
- rewrite drop_app_ge in E by lia.
  apply search_complete with (j := (i - length (part_text p))%nat) in Hb.
  rewrite E, is_prefix_app in Hb. done.
Qed.

(** ** The whole body *)

(** The item loop with the closing item. *)
Definition items (fuel : nat) (st : Cgicc) (data s1 s2 : bytes) (oldPos : Z) : res Cgicc :=
  '(st, oldPos) ← multipart_loop fuel st data s1 oldPos;
  let pos := find data s2 oldPos in
  if negb (pos =? npos) then
    item ← substr data oldPos (u64 (pos - oldPos));
    parseMIME st item
  else Ok st.

(** An item [t] that ends where the separator [s] is found. *)
Lemma item_at q t s r :
  search s (t ++ r) = Some (length t) → size (q ++ t ++ r) < npos →
  find (q ++ t ++ r) s (size q) = size q + size t ∧ size q + size t ≠ npos ∧
  substr (q ++ t ++ r) (size q) (u64 (size q + size t - size q)) = Ok t.
Proof.
intros Ht Hs. rewrite find_at, Ht. rewrite !size_app in Hs.
pose proof (size_nonneg q). pose proof (size_nonneg t). pose proof (size_nonneg r).
split_and!; [done|lia|]. rewrite u64_sub by lia. apply substr_mid.
Qed.

Lemma items_parts b fuel st q p ps :
  boundary_ok b → (length ps < fuel)%nat →
  Forall (λ p, part_ok p ∧ delimited b p) (p :: ps) →
  size (q ++ parts_text b p ps) < npos →
  items fuel st (q ++ parts_text b p ps) (sep1 b) (sep2 b) (size q) =
  Ok (foldl add_part st (p :: ps)).
Proof.
intros Hb. revert fuel st q p. induction ps as [|p2 ps IH];
  intros [|fuel] st q p Hf Hps Hs; try (cbn [length] in Hf; lia);
  apply Forall_cons_1 in Hps as [[Hok Hdel] Hps]; unfold items; cbn [multipart_loop parts_text] in *.
- rewrite find_at, sep1_not_last by done. rewrite Z.eqb_refl. cbn [mbind res_bind].
  destruct (item_at q (part_text p) (sep2 b) (sep2 b)) as (-> & Hn & ->);
    [by apply sep2_after|done|].
  rewrite (proj2 (Z.eqb_neq _ _)) by done. cbn [negb mbind res_bind].
  apply parseMIME_part; [done|]. rewrite !size_app in Hs.
  pose proof (size_nonneg q). pose proof (size_nonneg (sep2 b)). lia.
- destruct (item_at q (part_text p) (sep1 b) (sep1 b ++ parts_text b p2 ps)) as (-> & Hn & ->);
    [rewrite app_assoc; by apply search_extend, sep1_after|done|].
  rewrite (proj2 (Z.eqb_neq _ _)) by done. cbn [mbind res_bind].
  pose proof (size_nonneg q). pose proof (size_nonneg (part_text p)).
  pose proof (size_nonneg (sep1 b)). pose proof (size_nonneg (parts_text b p2 ps)).
  pose proof Hs as Hs'. rewrite !size_app in Hs'.
  rewrite parseMIME_part by (done || lia). cbn [mbind res_bind].
  replace (u64 (size q + size (part_text p) + size (sep1 b))) with
    (size (q ++ part_text p ++ sep1 b))
    by (rewrite !size_app; unfold u64; rewrite Z.mod_small; unfold npos in *; lia).
  replace (q ++ part_text p ++ sep1 b ++ parts_text b p2 ps) with
    ((q ++ part_text p ++ sep1 b) ++ parts_text b p2 ps) in * by (by rewrite <- !app_assoc).
  apply (IH fuel); [cbn [length] in Hf; lia|done|done].
Qed.

Lemma multipart_boundary b :
  size (multipart_content_type b) < npos →
  substr (multipart_content_type b)
    (u64 (find (multipart_content_type b) bType 0 + size bType)) npos = Ok b.
Proof.
intros Hs. rewrite find_at0. unfold multipart_content_type in *.
rewrite !app_assoc in *. rewrite (search_extend _ _ b 21) by done.
change (u64 (Z.of_nat 21 + size bType)) with
  (size ((multipart_type ++ list_byte_of_string "; ") ++ bType)).
apply substr_rest. rewrite size_app in Hs.
pose proof (size_nonneg ((multipart_type ++ list_byte_of_string "; ") ++ bType)). lia.
Qed.

Lemma parts_text_length b p ps : (length ps < length (parts_text b p ps))%nat.
Proof.
revert p. induction ps as [|q ps IH]; intros p; cbn [parts_text length]; unfold part_text;
  rewrite !length_app; [unfold HEAD_END, CRLF; cbn; lia|].
specialize (IH q). unfold HEAD_END, CRLF. cbn. lia.
Qed.

Lemma multipart_dispatch st b data :
  data ≠ [] →
  parseFormInput st data (multipart_content_type b) =
  parse_multipart st data (multipart_content_type b).
Proof.
intros Hd. destruct data as [|x data]; [done|].
assert (stringsAreEqual_n (multipart_content_type b) standard_type (length standard_type) = false)
  as E.
{ unfold stringsAreEqual_n. destruct (_ && _); reflexivity. }
assert (stringsAreEqual_n multipart_type (multipart_content_type b) (length multipart_type) = true)
  as E' by reflexivity.
unfold parseFormInput. rewrite E, E'. reflexivity.
Qed.

(** C33: A multipart form is recovered exactly: for any nonempty list of fields
    and files whose names are plain and whose text does not contain the
    delimiter, parsing the body a browser sends appends those fields and files,
    in order, with values that are arbitrary bytes, and throws nothing. *)
Theorem multipart_roundtrip st b p ps :
  boundary_ok b → Forall (λ p, part_ok p ∧ delimited b p) (p :: ps) →
  size (multipart_content_type b) < npos → size (render_multipart b p ps) < npos →
  parseFormInput st (render_multipart b p ps) (multipart_content_type b) =
  Ok (foldl add_part st (p :: ps)).
Proof.
intros Hb Hps Hc Hs.
rewrite multipart_dispatch by done. unfold parse_multipart. rewrite multipart_boundary by done. cbn [mbind res_bind].
fold (sep1 b) (sep2 b). 
assert (find (render_multipart b p ps) (sep1 b) 0 = 0) as ->
  by (unfold render_multipart; by rewrite find_at0, search_pat).
replace (u64 (0 + size (sep1 b))) with (size (sep1 b)).
- apply (items_parts b); [done| |done|done].
  unfold render_multipart. rewrite length_app. pose proof (parts_text_length b p ps). lia.
- unfold render_multipart in Hs. rewrite size_app in Hs.
  pose proof (size_nonneg (sep1 b)). pose proof (size_nonneg (parts_text b p ps)).
  unfold u64. rewrite Z.mod_small; unfold npos in *; lia.
Qed.

Definition demo_parts : list part :=
  [File [x66] [x61; x2e] [] [x0d; x0a]; Field [x6e] [x2d; x2d]].

Lemma multipart_roundtrip_witness :
  (λ st, (fFormData st, fFormFiles st)) <$>
    parseFormInput (mkCgicc [] [] [] [] [] [] [])
      (render_multipart [x62; x31] (Field [x6e] [x76]) demo_parts)
      (multipart_content_type [x62; x31]) =
  Ok ([FormEntry.mk [x6e] [x76]; FormEntry.mk [x6e] [x2d; x2d]],
      [FormFile.ctor [x66] [x61; x2e] [] [x0d; x0a]]).
Proof.
rewrite multipart_roundtrip; [reflexivity|reflexivity| |vm_compute; reflexivity..].
repeat constructor; try by_eval; try done; vm_compute; reflexivity.
Defined.

(** An upload whose first item is empty is refused with an exception. *)
Lemma empty_item_throws st b rest :
  size (multipart_content_type b) < npos → size (sep1 b ++ sep1 b ++ rest) < npos →
  parseFormInput st (sep1 b ++ sep1 b ++ rest) (multipart_content_type b) = Fault RuntimeError.
Proof.
intros Hc Hs. rewrite multipart_dispatch by done. unfold parse_multipart.
rewrite multipart_boundary by done. cbn [mbind res_bind]. fold (sep1 b).
assert (find (sep1 b ++ sep1 b ++ rest) (sep1 b) 0 = 0) as -> by (by rewrite find_at0, search_pat).
pose proof (size_nonneg (sep1 b)). pose proof (size_nonneg rest). rewrite !size_app in Hs.
replace (u64 (0 + size (sep1 b))) with (size (sep1 b))
  by (unfold u64; rewrite Z.mod_small; unfold npos in *; lia).
cbn [multipart_loop]. rewrite find_at, search_pat, (proj2 (Z.eqb_neq _ _)) by lia.
replace (size (sep1 b) + Z.of_nat 0 - size (sep1 b)) with 0 by lia.
change (u64 0) with (size []).
pose proof (substr_mid (sep1 b) [] (sep1 b ++ rest)) as E. cbn [app] in E. rewrite E. done.
Qed.

(** ** Assignment *)

Definition with_cookies c (r : res Cgicc) : res Cgicc := (λ s, set_Cookies s c) <$> r.

(** Form parsing neither reads nor writes the cookies. *)
Lemma parseMIME_frame st c data :
  parseMIME (set_Cookies st c) data = with_cookies c (parseMIME st data).
Proof.
unfold parseMIME. case_match; [done|].
destruct (substr data (find data HEAD_END 0 + _) _); [|done]. cbn [mbind res_bind].
destruct (substr data 0 _) as [hd|]; [|done]. cbn [mbind res_bind].
destruct (parseHeader hd) as [h|]; [|done]. cbn. by destruct (mh_fFilename h).
Qed.

Lemma multipart_loop_frame fuel st c data s1 pos :
  multipart_loop fuel (set_Cookies st c) data s1 pos =
  (λ r, (set_Cookies r.1 c, r.2)) <$> multipart_loop fuel st data s1 pos.
Proof.
revert st pos. induction fuel as [|fuel IH]; intros st pos; cbn [multipart_loop]; [done|].
case_match; [done|]. destruct (substr data pos _) as [item|]; [|done]. cbn [mbind res_bind].
rewrite parseMIME_frame. destruct (parseMIME st item) as [st1|]; [|done]. apply IH.
Qed.

Lemma urlencoded_loop_frame fuel st c data pos :
  urlencoded_loop fuel (set_Cookies st c) data pos =
  with_cookies c (urlencoded_loop fuel st data pos).
Proof.
revert st pos. induction fuel as [|fuel IH]; intros st pos; cbn [urlencoded_loop]; [done|].
case_match; [done|]. destruct (substr data pos _) as [n|]; [|done]. cbn [mbind res_bind].
destruct (substr data _ _) as [v|]; [|done]. cbn [mbind res_bind]. case_match; [done|].
apply (IH (push_FormData st _)).
Qed.

Lemma parseFormInput_frame st c data ct :
  parseFormInput (set_Cookies st c) data ct = with_cookies c (parseFormInput st data ct).
Proof.
unfold parseFormInput. destruct data as [|b l]; [done|].
case_match; [apply urlencoded_loop_frame|]. case_match; [|done]. unfold parse_multipart.
destruct (substr ct _ _) as [bd|]; [|done]. cbn [mbind res_bind].
rewrite multipart_loop_frame. destruct (multipart_loop _ st _ _ _) as [[st1 pos]|]; [|done].
cbn. case_match; [|done]. destruct (substr (b :: l) pos _); [|done]. apply parseMIME_frame.
Qed.

(** Assigning to a form keeps the form's own contents: whatever object is
    assigned, a constructed form is unchanged, because [operator=] parses the
    left-hand side's stored input again and never reads its argument. *)
Theorem assign_keeps_target q c d t st other :
  size q < npos → size c < npos → size d < npos → size t < npos - size bType →
  Cgicc_ctor q c d t = Ok st → Cgicc_assign st other = Ok st.
Proof.
intros Hq Hc Hd Ht H. unfold Cgicc_ctor in H. cbn [fPostData fQueryType] in H.
set (st0 := mkCgicc q c d t [] [] []) in *.
pose proof (parseFormInput_appends st0 d t Hd Ht) as A1.
destruct (parseFormInput st0 d t) as [st1|] eqn:E1; [|done]. cbn [mbind res_bind] in H.
destruct A1 as (e1 & f1 & A1).
assert (fQueryString st1 = q) as Eq by (by rewrite A1). rewrite Eq in H.
pose proof (parseFormInput_appends st1 q standard_type Hq ltac:(done)) as A2.
destruct (parseFormInput st1 q standard_type) as [st2|] eqn:E2; [|done].
cbn [mbind res_bind] in H. destruct A2 as (e2 & f2 & A2).
assert (fCookie st2 = c) as Ec by (by rewrite A2, A1). rewrite Ec in H.
rewrite cookies_spec in H by done. injection H as <-.
set (cs := fCookies st2 ++ _). unfold Cgicc_assign.
replace (set_FormFiles (set_FormData (set_Cookies st2 cs) []) []) with (set_Cookies st0 cs)
  by (by rewrite A2, A1).
cbn [set_Cookies fPostData fQueryType fQueryString st0].
fold st0. change (mkCgicc q c d t [] [] cs) with (set_Cookies st0 cs).
rewrite parseFormInput_frame, E1. unfold with_cookies. cbn [fmap res_fmap mbind res_bind].
change (fQueryString (set_Cookies st1 cs)) with (fQueryString st1).
rewrite Eq, parseFormInput_frame, E2. done.
Qed.

Definition demo_form : Cgicc :=
  mkCgicc (list_byte_of_string "a=1") [] [] [] [FormEntry.mk [x61] [x31]] [] [].

Lemma assign_keeps_target_witness :
  Cgicc_ctor (list_byte_of_string "a=1") [] [] [] = Ok demo_form ∧
  ∀ other, Cgicc_assign demo_form other = Ok demo_form.
Proof.
split; [vm_compute; reflexivity|]. intros other.
apply (assign_keeps_target (list_byte_of_string "a=1") [] [] []); vm_compute; reflexivity.
Defined.

(** ** Lookups *)

Lemma equal_names a b : stringsAreEqual a b = true ↔ toupper <$> a = toupper <$> b.
Proof.
unfold stringsAreEqual, size. split.
- destruct (compare_loop a b) eqn:E; [|done]. intros Hs. apply compare_loop_spec; [|done].
  apply Z.eqb_eq in Hs. lia.
- intros H. assert (length a = length b) as Hl
    by (apply (f_equal length) in H; by rewrite !length_fmap in H).
  rewrite (proj2 (compare_loop_spec a b Hl)) by done. apply Z.eqb_eq. lia.
Qed.

(** After a form is submitted, looking up a field by name, in any letter
    case, gives the first submitted entry of that name; [findEntries] gives all
    of them in order and reports whether there is one. *)
Theorem lookup_after_submit kvs cookie name st :
  size (render_form kvs) < npos → size cookie < npos →
  Cgicc_ctor (render_form kvs) cookie [] [] = Ok st →
  getElement st name =
    List.find (λ e, bool_decide (toupper <$> name = toupper <$> FormEntry.fName e)) (entries kvs) ∧
  findEntries st name true =
    (negb (bool_decide (Forall (λ kv, toupper <$> name ≠ toupper <$> kv.1) kvs)),
     List.filter (λ e, bool_decide (toupper <$> name = toupper <$> FormEntry.fName e))
       (entries kvs)).
Proof.
intros Hk Hc H. unfold Cgicc_ctor in H. cbn [fPostData parseFormInput mbind res_bind] in H.
cbn [fQueryString] in H. rewrite parse_render in H by done. cbn [mbind res_bind] in H.
rewrite cookies_spec in H by done. injection H as <-.
assert (∀ e, FE_nameCompare name e =
  bool_decide (toupper <$> name = toupper <$> FormEntry.fName e)) as Hcmp.
{ intros e. unfold FE_nameCompare.
  destruct (stringsAreEqual name (FormEntry.fName e)) eqn:E; symmetry.
  - apply bool_decide_eq_true. by apply equal_names.
  - apply bool_decide_eq_false. intros Heq. apply equal_names in Heq. congruence. }
unfold getElement, findEntries. cbn. split.
- induction (entries kvs) as [|e es IH]; [done|]. cbn [List.find]. by rewrite Hcmp, IH.
- rewrite (List.filter_ext _ _ Hcmp). f_equal. clear.
  induction kvs as [|[n v] kvs IH]; [done|]. cbn [entries fmap list_fmap List.filter FormEntry.fName fst].
  destruct (bool_decide_reflect (toupper <$> name = toupper <$> n)) as [E|E].
  + symmetry. apply negb_true_iff, bool_decide_eq_false. intros HF.
    apply Forall_cons_1 in HF as [HF _]. done.
  + unfold entries in IH. rewrite IH. f_equal. apply bool_decide_ext. split; intros HF.
    * by constructor.
    * by apply Forall_cons_1 in HF as [_ HF].
Qed.

Lemma lookup_after_submit_witness :
  getElement demo_form [x41] = Some (FormEntry.mk [x61] [x31]).
Proof.
destruct (lookup_after_submit [([x61], [x31])] [] [x41] demo_form) as [E _];
  [vm_compute; reflexivity..|]. rewrite E. reflexivity.
Defined.
