(* ===== verification/Backend.v ===== *)
(** The request handlers between the codec and the response: the backend both
    servers ship ([mucgi/backend.cpp], [cocgi/backend.cpp]) and the functions that
    build its arguments: [onRequest] of [mucgi/main.cpp] and the first half of
    [FastCgiCodec::doRequest] of [cocgi/cocgi_lib/fastcgi.cpp]. *)

From Stdlib Require Import ZArith Lia Bool.
From Stdlib.Strings Require Import Byte String.
From stdpp Require Import base numbers list gmap option.
From S2P Require Import Prelude Endian Buffer Codec CxxString CgiForms Cgicc.
Local Open Scope Z_scope.

(** ** [std::map<std::string, std::string>] *)

(** [m[k]] as an rvalue: a missing key is inserted with an empty value. *)
Definition map_at (m : ParamMap) (k : bytes) : bytes * ParamMap :=
  match m !! k with
  | Some v => (v, m)
  | None => ([], <[k := []]> m)
  end.

(** [m.insert(value_type(k, v))] keeps a value that is there. *)
Definition map_insert (m : ParamMap) (k v : bytes) : ParamMap :=
  match m !! k with Some _ => m | None => <[k := v]> m end.

Definition QUERY_STRING : bytes := list_byte_of_string "QUERY_STRING".
Definition CONTENT_TYPE : bytes := list_byte_of_string "CONTENT_TYPE".
Definition HTTP_COOKIE : bytes := list_byte_of_string "HTTP_COOKIE".

(** ** The backend *)

(** The page of [PrintRequest]; logging is left out.  [content.length()] is
    appended as a character, the one with code 4. *)
Definition print_page : bytes :=
  let content := list_byte_of_string "OK!!" in
  list_byte_of_string "Content-Type: text/html; charset=UTF-8" ++ [x0d; x0a] ++
  list_byte_of_string "Content-Length: " ++ [z2b (size content)] ++
  [x0d; x0a; x0d; x0a] ++ content.

(** mucgi's [BackendProc::printRequest] *)
Definition printRequest (qmap header : ParamMap) : bytes := print_page.

(** cocgi's [BackendProc::PrintRequest], which sets [strResp]. *)
Definition PrintRequest (qmap header : ParamMap) (strResp : bytes) : bytes := print_page.

(** ** cocgi: the arguments of the callback *)

Record request := mkRequest {
  rq_query : bytes; rq_type : bytes; rq_cookie : bytes; rq_params : ParamMap }.

(** The three lookups by which both handlers start. *)
Definition request_of (params : ParamMap) : request :=
  let '(queryString, params) := map_at params QUERY_STRING in
  let '(queryType, params) := map_at params CONTENT_TYPE in
  let '(queryCookie, params) := map_at params HTTP_COOKIE in
  mkRequest queryString queryType queryCookie params.

(** Elements and files, a later one overwriting an earlier one of its name. *)
Definition cocgi_qmap (cgi : Cgicc) : ParamMap :=
  let qmap := foldl (λ q e, <[FormEntry.fName e := FormEntry.fValue e]> q) ∅ (fFormData cgi) in
  foldl (λ q f, <[FormFile.fName f := FormFile.fData f]> q) qmap (fFormFiles cgi).

(** The parameters, then the cookies. *)
Definition request_header (params : ParamMap) (cgi : Cgicc) : ParamMap :=
  foldl (λ h c, <[HTTPCookie.fName c := HTTPCookie.fValue c]> h) params (fCookies cgi).

(** ** mucgi: [onRequest] *)

Definition mucgi_qmap (cgi : Cgicc) : ParamMap :=
  let qmap := foldl (λ q e, map_insert q (tolower <$> FormEntry.fName e) (FormEntry.fValue e))
                    ∅ (fFormData cgi) in
  foldl (λ q f, map_insert q (FormFile.fName f) (FormFile.fData f)) qmap (fFormFiles cgi).

(** Returns the parameters and input buffer it leaves behind and the bytes it
    passes to [conn->send]. *)
Definition onRequest `{Endian} (backend : ParamMap → ParamMap → bytes)
    (params : ParamMap) (inb : Buffer) : res (ParamMap * Buffer * bytes) :=
  let rq := request_of params in
  '(postData, inb) ← (if (0 <? readableBytes inb)%nat then retrieveAllAsString inb
                      else Ok ([], inb));
  cgi ← Cgicc_ctor (rq_query rq) (rq_cookie rq) postData (rq_type rq);
  let qmap := mucgi_qmap cgi in
  let header := request_header (rq_params rq) cgi in
  let out := backend qmap header in
  response ← Buffer_ctor kInitialSize;
  '(_, response) ← respond out response;
  Ok (rq_params rq, inb, content response).
