(* ===== verification/BackendSpec.v ===== *)
(** What the request handlers pass to the backend and send back. *)

From Stdlib Require Import ZArith Lia Bool.
From Stdlib.Strings Require Import Byte String.
From stdpp Require Import base numbers list gmap option.
From S2P Require Import Prelude Endian Buffer Codec CodecSpec CodecRespond.
From S2P Require Import CxxString CgiUtils CgiForms Cgicc CgiccSpec CgiccMultipart Backend.
Local Open Scope Z_scope.

(** The parse of a request's parameters and body. *)
Definition cgi_of (params : ParamMap) (body : bytes) : res Cgicc :=
  let rq := request_of params in Cgicc_ctor (rq_query rq) (rq_cookie rq) body (rq_type rq).

(** A response on the wire that carries [page]. *)
Definition answers (wire page : bytes) : Prop :=
  ∃ rs, split_records wire = (rs ++ [stdout_end; request_end], []) ∧
        Forall output_rec rs ∧ concat (f_content <$> rs) = page.

Lemma request_body (b : Buffer) :
  wf b →
  ∃ b', (if (0 <? readableBytes b)%nat then retrieveAllAsString b else Ok ([], b)) =
        Ok (content b, b') ∧ holds b' [].
Proof.
intros Hwf. destruct (Nat.ltb_spec 0 (readableBytes b)).
- by apply retrieveAllAsString_holds.
- exists b. pose proof (length_content b Hwf) as Hl.
  assert (content b = []) as E by (apply nil_length_inv; lia). rewrite E. by split.
Qed.


Lemma cgi_of_malformed params body b rest :
  params !! CONTENT_TYPE = Some (multipart_content_type b) →
  body = sep1 b ++ sep1 b ++ rest →
  size (multipart_content_type b) < npos → size body < npos →
  Cgicc_ctor (rq_query (request_of params)) (rq_cookie (request_of params)) body
    (rq_type (request_of params)) = Fault RuntimeError.
Proof.
intros Hct -> Hc Hs. assert (rq_type (request_of params) = multipart_content_type b) as ->.
{ unfold request_of, map_at at 1. destruct (params !! QUERY_STRING).
  - unfold map_at. rewrite Hct. by destruct (params !! HTTP_COOKIE).
  - unfold map_at. rewrite lookup_insert_ne, Hct by done. by case_match. }
unfold Cgicc_ctor. cbn [fPostData fQueryType]. by rewrite empty_item_throws.
Qed.

(** ** Arguments of the backend *)

Lemma fold_first (f : bytes → bytes) (kvs : list (bytes * bytes)) m k :
  foldl (λ q e, map_insert q (f (FormEntry.fName e)) (FormEntry.fValue e)) m (entries kvs) !! k =
  match m !! k with
  | Some v => Some v
  | None => snd <$> List.find (λ kv, bool_decide (f kv.1 = k)) kvs
  end.
Proof.
revert m. induction kvs as [|[n v] kvs IH]; intros m.
{ cbn. by destruct (m !! k). }
change (entries ((n, v) :: kvs)) with (FormEntry.mk n v :: entries kvs).
cbn [foldl List.find fst snd FormEntry.fName FormEntry.fValue]. rewrite IH. unfold map_insert.
destruct (decide (f n = k)) as [<-|Hne].
- rewrite bool_decide_true by done. destruct (m !! f n) eqn:E; [by rewrite E|].
  by rewrite lookup_insert_eq.
- rewrite bool_decide_false by done. destruct (m !! f n); [done|].
  by rewrite lookup_insert_ne.
Qed.

Lemma fold_last (kvs : list (bytes * bytes)) m :
  foldl (λ q e, <[FormEntry.fName e := FormEntry.fValue e]> q) m (entries kvs) = assign_all kvs m.
Proof.
revert m. induction kvs as [|[n v] kvs IH]; intros m; [done|].
change (entries ((n, v) :: kvs)) with (FormEntry.mk n v :: entries kvs). cbn [foldl]. apply IH.
Qed.

(** What the backend sees of a submitted form.  Under the coroutine server
    the map holds, for each name, the last value submitted; under the event
    server it holds, for each name in lower case, the first one. *)
Theorem backend_arguments kvs cookie st :
  size (render_form kvs) < npos → size cookie < npos →
  Cgicc_ctor (render_form kvs) cookie [] [] = Ok st →
  cocgi_qmap st = assign_all kvs ∅ ∧
  ∀ k, mucgi_qmap st !! k = snd <$> List.find (λ kv, bool_decide (tolower <$> kv.1 = k)) kvs.
Proof.
intros Hk Hc H. unfold Cgicc_ctor in H. cbn [fPostData parseFormInput mbind res_bind] in H.
cbn [fQueryString] in H. rewrite parse_render in H by done. cbn [mbind res_bind] in H.
rewrite cookies_spec in H by done. injection H as <-. split.
- unfold cocgi_qmap. cbn [fFormData fFormFiles set_Cookies set_FormData foldl app].
  apply fold_last.
- intros k. unfold mucgi_qmap. cbn [fFormData fFormFiles set_Cookies set_FormData foldl app].
  rewrite (fold_first (fmap tolower)). by rewrite lookup_empty.
Qed.

Lemma backend_arguments_witness :
  Cgicc_ctor (render_form [([x41], [x31]); ([x41], [x32])]) [] [] [] =
    Ok (mkCgicc (render_form [([x41], [x31]); ([x41], [x32])]) [] [] []
          [FormEntry.mk [x41] [x31]; FormEntry.mk [x41] [x32]] [] []) ∧
  cocgi_qmap (mkCgicc (render_form [([x41], [x31]); ([x41], [x32])]) [] [] []
          [FormEntry.mk [x41] [x31]; FormEntry.mk [x41] [x32]] [] []) = {[ [x41] := [x32] ]} ∧
  mucgi_qmap (mkCgicc (render_form [([x41], [x31]); ([x41], [x32])]) [] [] []
          [FormEntry.mk [x41] [x31]; FormEntry.mk [x41] [x32]] [] []) !! [x61] = Some [x31].
Proof.
split; [vm_compute; reflexivity|].
destruct (backend_arguments [([x41], [x31]); ([x41], [x32])] []
  (mkCgicc (render_form [([x41], [x31]); ([x41], [x32])]) [] [] []
          [FormEntry.mk [x41] [x31]; FormEntry.mk [x41] [x32]] [] [])) as [-> H];
  [vm_compute; reflexivity..|]. rewrite H. split; vm_compute; reflexivity.
Defined.

(** ** What a handler is to pass to the backend *)

(** The value of a parameter, empty when there is none. *)
Definition param_of (params : ParamMap) (k : bytes) : bytes := default [] (params !! k).

(** The form of a request: its query string, cookies, body and content type, parsed. *)
Definition form_of (params : ParamMap) (body : bytes) : res Cgicc :=
  Cgicc_ctor (param_of params QUERY_STRING) (param_of params HTTP_COOKIE) body (param_of params CONTENT_TYPE).

(** The first and the last value given to a name. *)
Definition first_value (kvs : list (bytes * bytes)) (k : bytes) : option bytes :=
  snd <$> List.find (λ kv, bool_decide (kv.1 = k)) kvs.
Definition last_value (kvs : list (bytes * bytes)) (k : bytes) : option bytes := first_value (reverse kvs) k.

(** What was submitted: the elements of the form, then the files; the event server takes
    the names of elements in lower case. *)
Definition submitted (name : bytes → bytes) (cgi : Cgicc) : list (bytes * bytes) :=
  ((λ e, (name (FormEntry.fName e), FormEntry.fValue e)) <$> fFormData cgi) ++
  ((λ f, (FormFile.fName f, FormFile.fData f)) <$> fFormFiles cgi).

Definition cookie_values (cgi : Cgicc) : list (bytes * bytes) := (λ c, (HTTPCookie.fName c, HTTPCookie.fValue c)) <$> fCookies cgi.

(** The parameters of the request, the three that the handlers look up counting as empty
    when they are missing; a cookie replaces a parameter of its name, the last one
    counts. *)
Definition header_value (params : ParamMap) (cgi : Cgicc) (k : bytes) : option bytes :=
  match last_value (cookie_values cgi) k with
  | Some v => Some v
  | None => if bool_decide (k ∈ [QUERY_STRING; CONTENT_TYPE; HTTP_COOKIE]) then Some (param_of params k) else params !! k
  end.

(** The page that is sent for a page of the backend. *)
Definition shown (page : bytes) : bytes := match page with [] => empty_result | _ => page end.

Lemma first_value_app a b k :
  first_value (a ++ b) k = match first_value a k with Some v => Some v | None => first_value b k end.
Proof. unfold first_value. induction a as [|kv a IH]; [done|]. cbn [app List.find]. by case_bool_decide. Qed.

Lemma last_value_app a b k :
  last_value (a ++ b) k = match last_value b k with Some v => Some v | None => last_value a k end.
Proof. unfold last_value. by rewrite reverse_app, first_value_app. Qed.

(** Assigning overwrites: the last value counts. *)
Lemma insert_last {A} (f g : A → bytes) (es : list A) (m : ParamMap) k :
  foldl (λ q e, <[f e := g e]> q) m es !! k =
  match last_value ((λ e, (f e, g e)) <$> es) k with Some v => Some v | None => m !! k end.
Proof.
induction es as [|e es IH] using rev_ind; [done|]. rewrite foldl_snoc, fmap_app, last_value_app. cbn.
unfold last_value at 1, first_value. cbn. case_bool_decide as Hk; cbn.
- subst. by rewrite lookup_insert_eq.
- by rewrite lookup_insert_ne.
Qed.

(** Inserting keeps: the first value counts. *)
Lemma insert_first {A} (f g : A → bytes) (es : list A) (m : ParamMap) k :
  foldl (λ q e, map_insert q (f e) (g e)) m es !! k =
  match m !! k with Some v => Some v | None => first_value ((λ e, (f e, g e)) <$> es) k end.
Proof.
revert m. induction es as [|e es IH]; intros m; [cbn; by destruct (m !! k)|]. cbn [foldl fmap list_fmap]. rewrite IH. unfold map_insert, first_value.
cbn [List.find fst snd]. destruct (decide (f e = k)) as [<-|Hne].
- rewrite bool_decide_true by done. destruct (m !! f e) eqn:E; [by rewrite E|]. by rewrite lookup_insert_eq.
- rewrite bool_decide_false by done. destruct (m !! f e); [done|]. by rewrite lookup_insert_ne.
Qed.

Lemma cocgi_qmap_spec cgi k : cocgi_qmap cgi !! k = last_value (submitted id cgi) k.
Proof. unfold cocgi_qmap, submitted. by rewrite (insert_last FormFile.fName), (insert_last FormEntry.fName), last_value_app, lookup_empty; repeat case_match. Qed.

Lemma mucgi_qmap_spec cgi k : mucgi_qmap cgi !! k = first_value (submitted (fmap tolower) cgi) k.
Proof.
unfold mucgi_qmap, submitted. rewrite (insert_first FormFile.fName), (insert_first (λ e, tolower <$> FormEntry.fName e)), first_value_app, lookup_empty.
done.
Qed.

(** The three lookups: [m[k]] leaves an empty value behind. *)
Lemma map_at_spec m k : (map_at m k).1 = param_of m k ∧ ∀ k', (map_at m k).2 !! k' = if bool_decide (k' = k) then Some (param_of m k) else m !! k'.
Proof.
unfold map_at, param_of. destruct (m !! k) as [v|] eqn:E; (split; [done|]); intros k'; case_bool_decide as Hk; subst; cbn; try done.
- by rewrite lookup_insert_eq.
- by rewrite lookup_insert_ne.
Qed.

Lemma request_of_spec params :
  rq_query (request_of params) = param_of params QUERY_STRING ∧ rq_type (request_of params) = param_of params CONTENT_TYPE ∧
  rq_cookie (request_of params) = param_of params HTTP_COOKIE ∧
  ∀ k, rq_params (request_of params) !! k =
    if bool_decide (k ∈ [QUERY_STRING; CONTENT_TYPE; HTTP_COOKIE]) then Some (param_of params k) else params !! k.
Proof.
unfold request_of. destruct (map_at_spec params QUERY_STRING) as [E1 H1]. destruct (map_at params QUERY_STRING) as [q m1]. cbn [fst snd] in *.
destruct (map_at_spec m1 CONTENT_TYPE) as [E2 H2]. destruct (map_at m1 CONTENT_TYPE) as [t m2]. cbn [fst snd] in *.
destruct (map_at_spec m2 HTTP_COOKIE) as [E3 H3]. destruct (map_at m2 HTTP_COOKIE) as [c m3]. cbn [fst snd rq_query rq_type rq_cookie rq_params] in *.
assert (param_of m1 CONTENT_TYPE = param_of params CONTENT_TYPE) as P1 by (unfold param_of; by rewrite H1).
assert (param_of m2 HTTP_COOKIE = param_of params HTTP_COOKIE) as P2 by (unfold param_of; by rewrite H2, H1).
split_and!; [done|congruence|congruence|]. intros k. rewrite H3, H2, H1, P2, P1.
repeat case_bool_decide; subst; try done; exfalso; rewrite !elem_of_cons, elem_of_nil in *; tauto.
Qed.

Lemma cgi_of_form params body : cgi_of params body = form_of params body.
Proof. unfold cgi_of, form_of. by destruct (request_of_spec params) as (-> & -> & -> & _). Qed.

Lemma request_header_spec params cgi k : request_header (rq_params (request_of params)) cgi !! k = header_value params cgi k.
Proof.
unfold request_header, header_value, cookie_values. rewrite (insert_last HTTPCookie.fName). destruct (request_of_spec params) as (_ & _ & _ & H). by rewrite H.
Qed.

(** ** The event server's handler *)

(** C38: What [onRequest] sends, for every request and backend.  If the form (query string,
    cookies, body and content type of the request, a missing one counting as empty) parses,
    [conn->send] gets one well-formed response: standard output records that carry exactly
    the page the backend makes of two maps, the "Empty Result!" page if that is empty, then
    the closing records and nothing else.  The first map holds, for each name of a form
    element in lower case or of a file, the first value submitted, elements before files;
    the second the request's parameters, with cookies replacing parameters of their name.
    The input is consumed.  If the form does not parse, the exception leaves [onRequest] and
    nothing is sent. *)
Theorem mucgi_answers `{Endian} backend params inb :
  wf inb →
  match form_of params (content inb) with
  | Ok cgi =>
      ∃ qmap header params' inb' wire, onRequest backend params inb = Ok (params', inb', wire) ∧
        (∀ k, qmap !! k = first_value (submitted (fmap tolower) cgi) k) ∧ (∀ k, header !! k = header_value params cgi k) ∧
        answers wire (shown (backend qmap header)) ∧ content inb' = []
  | Fault e => onRequest backend params inb = Fault e
  end.
Proof.
intros Hwf. rewrite <- cgi_of_form. unfold cgi_of, onRequest.
destruct (request_body inb Hwf) as (inb' & -> & Hw' & Hc'). cbn [mbind res_bind].
destruct (Cgicc_ctor _ _ _ _) as [cgi|e]; [|done]. cbn [mbind res_bind].
destruct (Buffer_ctor_holds kInitialSize) as (r0 & -> & Hr0 & Hcr0). cbn [mbind res_bind].
exists (mucgi_qmap cgi), (request_header (rq_params (request_of params)) cgi), (rq_params (request_of params)), inb'.
set (out := backend _ _).
destruct (respond_holds out r0 Hr0) as (r1 & rs & wire & -> & Hr1 & Hcr1 & Hsp & Hrs & Hpage).
cbn [mbind res_bind]. exists wire. rewrite Hcr1, Hcr0.
split_and!; [done|apply mucgi_qmap_spec|apply request_header_spec| |done].
exists rs. split_and!; [done..|]. by rewrite Hpage.
Qed.

(** The query string submits [A] and then [a], and a cookie replaces the server's
    name. *)
Definition demo_request : ParamMap :=
  list_to_map [(QUERY_STRING, list_byte_of_string "A=1&a=2"); (HTTP_COOKIE, list_byte_of_string "SERVER=x"); (list_byte_of_string "SERVER", [x73])].
Definition echo (qmap header : ParamMap) : bytes := param_of qmap [x61] ++ param_of header (list_byte_of_string "SERVER").

Definition demo_form : Cgicc :=
  mkCgicc (list_byte_of_string "A=1&a=2") (list_byte_of_string "SERVER=x") [] [] [FormEntry.mk [x41] [x31]; FormEntry.mk [x61] [x32]] []
    [HTTPCookie.ctor2 (list_byte_of_string "SERVER") [x78]].

Lemma mucgi_answers_witness :
  ∃ params' inb' wire, onRequest (H := MuduoEndian) echo demo_request fresh_buf = Ok (params', inb', wire) ∧
    answers wire (list_byte_of_string "1x") ∧ content inb' = [].
Proof.
assert (form_of demo_request (content fresh_buf) = Ok demo_form) as E by (vm_compute; reflexivity).
pose proof (mucgi_answers (H := MuduoEndian) echo demo_request fresh_buf fresh_buf_wf) as Hm. rewrite E in Hm.
destruct Hm as (qmap & header & params' & inb' & wire & Ho & Hq & Hh & Ha & Hc). exists params', inb', wire. split_and!; [done| |done].
assert (echo qmap header = list_byte_of_string "1x") as Ee by (unfold echo, param_of; rewrite Hq, Hh; vm_compute; reflexivity).
by rewrite Ee in Ha.
Defined.

(** The length field of the backend's page is the octet 4, which is not a
    digit. *)
Lemma print_page_length :
  extractBetween print_page (list_byte_of_string "Content-Length: ") CRLF = Ok [x04] ∧
  isdigit x04 = false.
Proof. split; vm_compute; reflexivity. Qed.
