(* ===== verification/CocgiCodec.v ===== *)
(** [FastCgiCodec] of the coroutine server ([cocgi/cocgi_lib/fastcgi.cpp],
    [fastcgi.h]).  Its record parser and response writer are the functions of
    [Codec] at the byte order of [type.h]; on top of them it owns its input buffer,
    reads the socket, runs the callback and writes the response.

    [read(2)] is the parameter of [Buffer.readFd]; the results of the successive
    [write(2)] calls are a list, and a list that runs out stands for a call that
    never returns ([OutOfFuel]).  [int errno;] at the head of [readData] declares
    nothing new ([errno] is a macro for an lvalue of the thread), so the function
    tests the thread's error number, which a successful or end-of-file read leaves
    as it was; it is the argument [errno]. *)

From Stdlib Require Import ZArith Lia Bool.
From Stdlib.Strings Require Import Byte String.
From stdpp Require Import base numbers list gmap option.
From S2P Require Import Prelude Endian Buffer Codec CxxString CgiForms Cgicc Backend.
Local Open Scope Z_scope.

(** ** The shared functions at this byte order *)
#[local] Existing Instance CocgiEndian.

Definition readInt16 := readInt16_at.
Definition readLen := Codec.readLen.
Definition parseAllParams := Codec.parseAllParams.
Definition onParams := Codec.onParams.
Definition onStdin := Codec.onStdin.
Definition onBeginRequest := Codec.onBeginRequest.
Definition endStdout := Codec.endStdout.
Definition endRequest := Codec.endRequest.
Definition respond := Codec.respond.

(** ** State *)

(** [codec] holds the members shared with the other server. *)
Record FastCgiCodec := mkCocgi { m_buf : Buffer; codec : Codec.FastCgiCodec }.

Definition m_gotRequest (c : FastCgiCodec) := gotRequest_ (codec c).
Definition m_keepConn (c : FastCgiCodec) := keepConn_ (codec c).
Definition m_stdin (c : FastCgiCodec) := stdin_ (codec c).
Definition m_paramsStream (c : FastCgiCodec) := paramsStream_ (codec c).
Definition m_params (c : FastCgiCodec) := params_ (codec c).

Definition FastCgiCodec_ctor : res FastCgiCodec :=
  b ← Buffer_ctor kInitialSize;
  k ← Codec.FastCgiCodec_ctor;
  Ok (mkCocgi b k).

Definition clear (c : FastCgiCodec) : FastCgiCodec :=
  mkCocgi (retrieveAll (m_buf c))
    (mkCodec false false (retrieveAll (m_stdin c)) (retrieveAll (m_paramsStream c)) ∅).

Inductive error_code_e :=
  | ERR_OK
  | ERR_SOCKET_READ
  | ERR_SOCKET_WRITE
  | ERR_SOCKET_FINISH
  | ERR_SOCKET_EAGAIN.

#[export] Instance error_code_eq_dec : EqDecision error_code_e.
Proof. solve_decision. Defined.

Definition EAGAIN : Z := 11.

(** ** Parsing *)

Definition parseFcgiPackage (c : FastCgiCodec) : res (bool * FastCgiCodec) :=
  '(k, b) ← parseRequest (codec c) (m_buf c);
  Ok (true, mkCocgi b k).

(** ** Running the callback and writing the response *)

Inductive write_result := Wrote (n : nat) | WriteError.

(** Returns the code and the bytes that reached the socket. *)
Fixpoint write_loop (writes : list write_result) (response : Buffer) :
    res (error_code_e * bytes) :=
  if (0 <? readableBytes response)%nat then
    match writes with
    | [] => Fault OutOfFuel
    | Wrote n :: writes =>
        data ← mem_read response (peek response) (Nat.min n (readableBytes response));
        response ← (if (0 <? length data)%nat then retrieve response (length data)
                    else Ok response);
        '(e, wire) ← write_loop writes response;
        Ok (e, data ++ wire)
    | WriteError :: _ => Ok (ERR_SOCKET_WRITE, [])
    end
  else Ok (ERR_OK, []).

(** A callback that fills its last argument; [None] is the null pointer. *)
Abbreviation callback_t := (option (ParamMap → ParamMap → bytes → bytes)).

Definition doRequest (m_callBack : callback_t) (writes : list write_result) (c : FastCgiCodec) :
    res (error_code_e * bytes * FastCgiCodec) :=
  let rq := request_of (m_params c) in
  '(postData, stdin) ← (if (0 <? readableBytes (m_stdin c))%nat
                        then retrieveAllAsString (m_stdin c) else Ok ([], m_stdin c));
  cgi ← Cgicc_ctor (rq_query rq) (rq_cookie rq) postData (rq_type rq);
  let qmap := cocgi_qmap cgi in
  let header := request_header (rq_params rq) cgi in
  let res := match m_callBack with Some f => f qmap header [] | None => [] end in
  response ← Buffer_ctor kInitialSize;
  '(_, response) ← respond res response;
  '(e, wire) ← write_loop writes response;
  Ok (e, wire, mkCocgi (m_buf c)
    (mkCodec (m_gotRequest c) (m_keepConn c) stdin (m_paramsStream c) (rq_params rq))).

(** ** [readData] *)

(** Returns the code, the thread's error number, the bytes written and the
    codec. *)
Definition readData (m_callBack : callback_t) (sys_readv : list nat → readv_result)
    (writes : list write_result) (errno : Z) (c : FastCgiCodec) :
    res (error_code_e * Z * bytes * FastCgiCodec) :=
  '(ret, saved, b) ← readFd sys_readv (m_buf c);
  let c := mkCocgi b (codec c) in
  let errno := default errno saved in
  if 0 <? ret then
    '(_, c) ← parseFcgiPackage c;
    if m_gotRequest c then
      '(ret, wire, c) ← doRequest m_callBack writes c;
      let c := mkCocgi (m_buf c)
        (mkCodec false (m_keepConn c) (retrieveAll (m_stdin c))
                 (retrieveAll (m_paramsStream c)) ∅) in
      if negb (m_keepConn c) && bool_decide (ret = ERR_OK)
      then Ok (ERR_SOCKET_FINISH, errno, wire, c)
      else Ok (ERR_OK, errno, wire, c)
    else Ok (ERR_OK, errno, [], c)
  else if errno =? EAGAIN then Ok (ERR_SOCKET_EAGAIN, errno, [], c)
  else Ok (ERR_SOCKET_READ, errno, [], c).
