(* ===== verification/CocgiSpec.v ===== *)
(** The coroutine server's codec end to end: a request that arrives in any pieces
    is answered with exactly the backend's page, however the socket takes the
    response; and what [readData] does on each kind of error. *)

From Stdlib Require Import ZArith Lia Bool.
From Stdlib.Strings Require Import Byte String.
From stdpp Require Import base numbers list gmap option.
From S2P Require Import Prelude Endian Buffer Codec CodecSpec CodecRespond.
From S2P Require Import CxxString CgiUtils CgiForms Cgicc CgiccSpec CgiccMultipart.
From S2P Require Import Backend BackendSpec CocgiCodec.
Local Open Scope Z_scope.
#[local] Existing Instance CocgiEndian.
Abbreviation cgi_codec := CocgiCodec.FastCgiCodec.

(** ** Reference definitions *)

Definition cocgi_wf (c : cgi_codec) : Prop := wf (m_buf c) ∧ cwf (codec c).

(** What the socket accepts of [l]: the code of the loop and the bytes sent;
    [None] if the calls run out first. *)
Fixpoint sent (ws : list write_result) (l : bytes) : option (error_code_e * bytes) :=
  match l, ws with
  | [], _ => Some (ERR_OK, [])
  | _, [] => None
  | _, Wrote n :: ws => (λ r, (r.1, take n l ++ r.2)) <$> sent ws (drop n l)
  | _, WriteError :: _ => Some (ERR_SOCKET_WRITE, [])
  end.

Definition accepted (ws : list write_result) : nat :=
  sum_list_with (λ w, match w with Wrote n => n | WriteError => 0 end)%nat ws.

Definition no_error (ws : list write_result) : Prop := Forall (λ w, w ≠ WriteError) ws.

(** The page the callback makes of its two arguments. *)
Definition cocgi_page (cb : callback_t) (qmap header : ParamMap) : bytes :=
  shown match cb with Some f => f qmap header [] | None => [] end.

(** The page for a parsed request. *)
Definition page_of (cb : callback_t) (params : ParamMap) (cgi : Cgicc) : bytes :=
  cocgi_page cb (cocgi_qmap cgi) (request_header (rq_params (request_of params)) cgi).

(** ** Writing *)

Lemma write_loop_holds ws b :
  wf b →
  write_loop ws b = match sent ws (content b) with
                    | Some r => Ok r | None => Fault OutOfFuel end.
Proof.
revert b. induction ws as [|w ws IH]; intros b Hwf; cbn [write_loop sent];
  pose proof (length_content b Hwf) as Hl;
  destruct (content b) as [|x l] eqn:E; cbn [length] in Hl;
  destruct (Nat.ltb_spec 0 (readableBytes b)); try lia; try done.
destruct w as [n|]; [|done].
set (k := Nat.min n (readableBytes b)).
rewrite mem_read_peek by (done || lia). rewrite E. cbn [mbind res_bind].
assert (take k (x :: l) = take n (x :: l)) as ->.
{ unfold k. destruct (decide (n ≤ readableBytes b)%nat); [by rewrite Nat.min_l|].
  rewrite Nat.min_r by lia. rewrite !take_ge; [done|cbn [length]; lia..]. }
destruct (Nat.ltb_spec 0 (length (take n (x :: l)))) as [Hpos|Hz].
- destruct (retrieve_holds b (length (take n (x :: l)))) as (b' & -> & Hw' & Hc');
    [done|rewrite length_take; cbn [length]; lia|]. cbn [mbind res_bind].
  rewrite IH, Hc', E by done.
  assert (drop (length (take n (x :: l))) (x :: l) = drop n (x :: l)) as ->.
  { rewrite length_take. destruct (decide (n ≤ length (x :: l))%nat);
      [by rewrite Nat.min_l|]. rewrite Nat.min_r by lia.
    rewrite !drop_ge; [done|lia..]. }
  by destruct (sent ws _) as [[e w]|].
- cbn [mbind res_bind]. rewrite length_take in Hz. cbn [length] in Hz.
  replace n with 0%nat by lia. rewrite drop_0, take_0, IH, E by done.
  by destruct (sent ws _) as [[e w]|].
Qed.

Lemma sent_all ws l :
  no_error ws → (length l ≤ accepted ws)%nat → sent ws l = Some (ERR_OK, l).
Proof.
intros Hn. revert l. induction Hn as [|w ws Hw _ IH]; intros [|x l] Hl; try done; cbn [sent].
{ cbn in Hl. lia. }
destruct w as [n|]; [|done]. cbn [accepted sum_list_with] in Hl.
rewrite IH by (rewrite length_drop; unfold accepted; lia). cbn. by rewrite take_drop.
Qed.

Lemma sent_error ws ws' l :
  no_error ws → (accepted ws < length l)%nat →
  sent (ws ++ WriteError :: ws') l = Some (ERR_SOCKET_WRITE, take (accepted ws) l).
Proof.
intros Hn. revert l. induction Hn as [|w ws Hw _ IH]; intros l Hl; cbn [app].
{ destruct l; [cbn in Hl; lia|]. done. }
destruct l as [|x l]; [cbn in Hl; lia|]. cbn [sent]. destruct w as [n|]; [|done].
cbn [accepted sum_list_with] in *. rewrite IH by (rewrite length_drop; unfold accepted; lia).
cbn [fmap option_fmap option_map fst snd]. f_equal. f_equal.
fold (accepted ws). rewrite <- take_take_drop. done.
Qed.

(** ** Reading *)

(** A read of [d], at most the 64 KiB that always fit. *)
Definition read_of (d : bytes) (vec : list nat) : readv_result := ReadData (take (sum_list vec) d).

Definition piece_ok (d : bytes) : Prop := d ≠ [] ∧ Z.of_nat (length d) ≤ 65536.

Lemma read_of_ok d : readv_ok (read_of d).
Proof. intros vec d' [= <-]. rewrite length_take. lia. Qed.

Lemma read_of_fits d b : piece_ok d → read_of d (readFd_vec b) = ReadData d.
Proof.
intros [_ Hd]. unfold read_of. rewrite take_ge; [done|].
assert (Z.of_nat extrabuf_size = 65536) as He by (unfold extrabuf_size; lia).
unfold readFd_vec. destruct (Nat.ltb_spec (writableBytes b) extrabuf_size).
- change (sum_list [writableBytes b; extrabuf_size])
    with (writableBytes b + (extrabuf_size + 0))%nat. lia.
- change (sum_list [writableBytes b]) with (writableBytes b + 0)%nat. lia.
Qed.

Lemma after_read c d :
  cocgi_wf c → piece_ok d →
  ∃ b k, readFd (read_of d) (m_buf c) = Ok (Z.of_nat (length d), None, b) ∧
    (0 <? Z.of_nat (length d)) = true ∧
    parseFcgiPackage (mkCocgi b (codec c)) = Ok (true, k) ∧ cocgi_wf k ∧
    abs (codec k) = fold_left step (split_records (content (m_buf c) ++ d)).1 (abs (codec c)) ∧
    content (m_buf k) = (split_records (content (m_buf c) ++ d)).2.
Proof.
intros [Hwf Hc] Hd. destruct (readFd_data (read_of d) (m_buf c) d) as (b & E & Hw & Hcb);
  [apply read_of_ok|done|by apply read_of_fits|].
destruct (parseRequest_loop_holds (S (readableBytes b)) (codec c) b)
  as (k & b' & E' & Hk & Ha & Hb'); [done..|lia|].
exists b, (mkCocgi b' k). rewrite Hcb in *. unfold parseFcgiPackage, parseRequest.
cbn [m_buf codec]. rewrite E'. split_and!; [done| |done| |done|by destruct Hb'].
- apply Z.ltb_lt. destruct d; [by destruct Hd|]. cbn [length]. lia.
- split; [by destruct Hb'|done].
Qed.

(** A piece that completes no request is stored. *)
Lemma readData_stores c d a l :
  cocgi_wf c → piece_ok d → message (abs (codec c)) (content (m_buf c) ++ d) = (a, l, []) →
  ∃ c', (∀ cb ws errno, readData cb (read_of d) ws errno c = Ok (ERR_OK, errno, [], c')) ∧
    cocgi_wf c' ∧ abs (codec c') = a ∧ content (m_buf c') = l.
Proof.
intros Hwf Hd Hm. destruct (after_read c d Hwf Hd) as (b & k & E1 & E2 & E3 & Hk & Ha & Hl).
unfold message in Hm. destruct (split_records _) as [rs rest]. cbn [fst snd] in *.
rewrite <- Ha in Hm. cbn [a_got abs] in Hm.
destruct (gotRequest_ (codec k)) eqn:Eg; [done|]. injection Hm as <- <-.
exists k. split; [|done]. intros cb ws errno.
unfold readData. rewrite E1. cbn [mbind res_bind]. rewrite E2, E3. cbn [mbind res_bind].
unfold m_gotRequest. by rewrite Eg.
Qed.

(** A piece that completes a request runs the callback on it; the response goes
    to the socket as the socket takes it. *)
Lemma readData_request cb errno c d a l params body es cgi :
  cocgi_wf c → piece_ok d →
  message (abs (codec c)) (content (m_buf c) ++ d) = (a, l, Callback params body :: es) →
  cgi_of params body = Ok cgi →
  ∃ wire c', answers wire (page_of cb params cgi) ∧ cocgi_wf c' ∧
    abs (codec c') = a ∧ content (m_buf c') = l ∧
    ∀ ws, readData cb (read_of d) ws errno c =
      match sent ws wire with
      | Some (e, w) =>
          Ok (if negb (a_keep a) && bool_decide (e = ERR_OK) then ERR_SOCKET_FINISH else ERR_OK,
              errno, w, c')
      | None => Fault OutOfFuel
      end.
Proof.
intros Hwf Hd Hm Hcgi.
destruct (after_read c d Hwf Hd) as (b & k & E1 & E2 & E3 & [Hwk Hck] & Ha & Hl).
unfold message in Hm. destruct (split_records _) as [rs rest]. cbn [fst snd] in *.
rewrite <- Ha in Hm. cbn [a_got abs a_keep a_params a_stdin] in Hm.
destruct (gotRequest_ (codec k)) eqn:Eg; [|done]. injection Hm as <- <- <- <- <-.
destruct Hck as [Hs Hp]. destruct (request_body (stdin_ (codec k)) Hs) as (st' & Est & Hst & Hcst).
destruct (Buffer_ctor_holds kInitialSize) as (r0 & Er0 & Hr0 & Hcr0).
set (rq := request_of (params_ (codec k))) in *.
set (out := match cb with Some f => f (cocgi_qmap cgi) (request_header (rq_params rq) cgi) []
            | None => [] end).
destruct (respond_holds out r0 Hr0) as (r1 & rs' & wire & Er & Hr1 & Hcr1 & Hsp & Hrs & Hpage).
exists wire. eexists (mkCocgi (m_buf k) (mkCodec false (keepConn_ (codec k))
  (retrieveAll st') (retrieveAll (paramsStream_ (codec k))) ∅)).
split; [|split; [|split; [|split]]].
- exists rs'. split_and!; [done..|]. rewrite Hpage. unfold page_of, cocgi_page. fold rq out. done.
- split; [done|]. split; by apply wf_retrieveAll.
- done.
- done.
- intros ws. unfold readData. rewrite E1. cbn [mbind res_bind]. rewrite E2, E3.
  cbn [mbind res_bind]. unfold m_gotRequest. rewrite Eg. unfold doRequest.
  fold (m_params k). unfold m_stdin, m_params. fold rq. rewrite Est. cbn [mbind res_bind].
  unfold cgi_of in Hcgi. fold rq in Hcgi. rewrite Hcgi. cbn [mbind res_bind]. fold out.
  rewrite Er0. cbn [mbind res_bind]. unfold respond. rewrite Er. cbn [mbind res_bind].
  rewrite write_loop_holds by done. rewrite Hcr1, Hcr0. cbn [app].
  destruct (sent ws wire) as [[e w]|]; [|done]. cbn [mbind res_bind default].
  unfold m_keepConn. cbn [codec keepConn_ m_buf a_keep].
  by destruct (negb (keepConn_ (codec k)) && bool_decide (e = ERR_OK)).
Qed.

(** When the form parser throws, nothing between it and the caller of [readData] catches
    the exception. *)
Lemma readData_throws cb ws errno c d a l params body es e :
  cocgi_wf c → piece_ok d →
  message (abs (codec c)) (content (m_buf c) ++ d) = (a, l, Callback params body :: es) →
  cgi_of params body = Fault e → readData cb (read_of d) ws errno c = Fault e.
Proof.
intros Hwf Hd Hm Hcgi. destruct (after_read c d Hwf Hd) as (b0 & k & E1 & E2 & E3 & [Hwk [Hs Hp]] & Ha & Hl).
unfold message in Hm. destruct (split_records _) as [rs rest']. cbn [fst snd] in *.
rewrite <- Ha in Hm. cbn [a_got abs a_keep a_params a_stdin] in Hm.
destruct (gotRequest_ (codec k)) eqn:Eg; [|done]. injection Hm as _ _ Hparams Hstdin _.
unfold readData. rewrite E1. cbn [mbind res_bind]. rewrite E2, E3.
cbn [mbind res_bind]. unfold m_gotRequest. rewrite Eg. unfold doRequest, m_params, m_stdin.
destruct (request_body (stdin_ (codec k)) Hs) as (st' & -> & _). cbn [mbind res_bind].
unfold cgi_of in Hcgi. rewrite Hparams, Hstdin, Hcgi. done.
Qed.

(** ** A whole request *)

(** The successive reads of one connection, until a read does not end in
    [ERR_OK]; returns the last code, everything written, and the codec. *)
Fixpoint serve (cb : callback_t) (ws : list write_result) (errno : Z) (c : cgi_codec)
    (pieces : list bytes) : res (error_code_e * bytes * cgi_codec) :=
  match pieces with
  | [] => Ok (ERR_OK, [], c)
  | d :: pieces =>
      '(e, errno, w, c) ← readData cb (read_of d) ws errno c;
      if bool_decide (e = ERR_OK) then
        '(e, w', c) ← serve cb ws errno c pieces;
        Ok (e, w ++ w', c)
      else Ok (e, w, c)
  end.

Lemma message_effects a l :
  (message a l).2 = [] ∨
  ∃ params body, (message a l).2 =
    Callback params body :: (if negb (a_keep (message a l).1.1) then [Shutdown] else []).
Proof.
unfold message. destruct (split_records l). destruct (a_got _); [right; eauto|by left].
Qed.

Lemma afeed_effects a l pieces es : (afeed a l pieces).2 ≠ Shutdown :: es.
Proof.
revert a l es. induction pieces as [|d pieces IH]; intros a l es; [done|]. cbn [afeed].
pose proof (message_effects a (l ++ d)) as Hm.
destruct (message a (l ++ d)) as [[a1 l1] e1]. cbn [fst snd] in Hm.
specialize (IH a1 l1 es). destruct (afeed a1 l1 pieces) as [[a2 l2] e2]. cbn [snd] in *.
destruct Hm as [->|(? & ? & ->)]; [done|]. done.
Qed.

Lemma serve_idle cb ws errno c pieces :
  cocgi_wf c → Forall piece_ok pieces →
  (afeed (abs (codec c)) (content (m_buf c)) pieces).2 = [] →
  ∃ c', serve cb ws errno c pieces = Ok (ERR_OK, [], c').
Proof.
intros Hwf Hp. revert c Hwf. induction Hp as [|d pieces Hd _ IH]; intros c Hwf He; [by eexists|].
cbn [afeed] in He. destruct (message _ _) as [[a l] es] eqn:Em.
destruct (afeed a l pieces) as [[a' l'] es'] eqn:Ef. cbn [snd] in He.
apply app_eq_nil in He as [-> ->].
destruct (readData_stores c d a l Hwf Hd Em) as (c1 & E1 & Hw1 & Ha1 & Hl1).
cbn [serve]. rewrite E1. cbn [mbind res_bind].
destruct (IH c1 Hw1) as (c' & ->); [by rewrite Ha1, Hl1, Ef|]. by eexists.
Qed.

Lemma serve_callback cb errno c pieces params body keep cgi :
  cocgi_wf c → Forall piece_ok pieces →
  (afeed (abs (codec c)) (content (m_buf c)) pieces).2 =
    Callback params body :: (if keep : bool then [] else [Shutdown]) →
  cgi_of params body = Ok cgi →
  ∃ wire, answers wire (page_of cb params cgi) ∧
    ∀ ws, no_error ws → (length wire ≤ accepted ws)%nat →
    ∃ c', serve cb ws errno c pieces =
      Ok (if keep then ERR_OK else ERR_SOCKET_FINISH, wire, c').
Proof.
intros Hwf Hp. revert c Hwf. induction Hp as [|d pieces Hd Hp IH]; intros c Hwf He Hcgi; [done|].
cbn [afeed] in He. pose proof (message_effects (abs (codec c)) (content (m_buf c) ++ d)) as Hme.
destruct (message _ _) as [[a l] es] eqn:Em. cbn [fst snd] in Hme.
pose proof (afeed_effects a l pieces []) as Hhd.
destruct (afeed a l pieces) as [[a' l'] es'] eqn:Ef. cbn [snd] in He, Hhd.
destruct Hme as [->|(ps & bd & ->)].
- destruct (readData_stores c d a l Hwf Hd Em) as (c1 & E1 & Hw1 & Ha1 & Hl1).
  destruct (IH c1 Hw1) as (wire & Hans & Hws); [by rewrite Ha1, Hl1, Ef|done|].
  exists wire. split; [done|]. intros ws Hn Hle.
  cbn [serve]. rewrite E1. cbn [mbind res_bind].
  destruct (Hws ws Hn Hle) as (c' & ->). by eexists.
- cbn [app] in He. injection He as -> -> He.
  destruct (readData_request cb errno c d a l params body
    (if negb (a_keep a) then [Shutdown] else []) cgi)
    as (wire & c1 & Hans & Hw1 & Ha1 & Hl1 & Hrd); [done..|].
  exists wire. split; [done|]. intros ws Hn Hle. cbn [serve]. rewrite Hrd, sent_all by done.
  cbn [mbind res_bind]. rewrite andb_true_r. destruct (a_keep a); cbn [negb app] in *.
  + destruct keep; [|done]. subst es'.
    destruct (serve_idle cb ws errno c1 pieces) as (c' & Es); [done|done|by rewrite Ha1, Hl1, Ef|].
    cbn. rewrite Es. cbn. rewrite app_nil_r. by eexists.
  + destruct keep; [done|]. by eexists.
Qed.

(** The same when the form does not parse. *)
Lemma serve_throws cb ws errno c pieces params body es e :
  cocgi_wf c → Forall piece_ok pieces →
  (afeed (abs (codec c)) (content (m_buf c)) pieces).2 = Callback params body :: es →
  cgi_of params body = Fault e → serve cb ws errno c pieces = Fault e.
Proof.
intros Hwf Hp. revert c Hwf. induction Hp as [|d pieces Hd Hp IH]; intros c Hwf He Hcgi; [done|].
cbn [afeed] in He. pose proof (message_effects (abs (codec c)) (content (m_buf c) ++ d)) as Hme.
destruct (message _ _) as [[a l] es1] eqn:Em. cbn [fst snd] in Hme. destruct (afeed a l pieces) as [[a' l'] es'] eqn:Ef. cbn [snd] in He.
cbn [serve]. destruct Hme as [->|(ps & bd & ->)].
- destruct (readData_stores c d a l Hwf Hd Em) as (c1 & E1 & Hw1 & Ha1 & Hl1). rewrite E1. cbn [mbind res_bind].
  rewrite bool_decide_true by done. rewrite (IH c1); [done|done|by rewrite Ha1, Hl1, Ef|done].
- cbn [app] in He. injection He as -> -> He. by rewrite (readData_throws cb ws errno c d a l params body _ e Hwf Hd Em Hcgi).
Qed.

(** C32: One responder request that reaches the coroutine server on a fresh codec, cut into
    records, and these into reads of at most 64 KiB, in any way, and alone in its reads.
    If its form (query string, cookies, body and content type, a missing one counting as
    empty) parses, and no [write] to the socket fails, what is written is exactly one
    well-formed FastCGI response that carries the page the callback makes of two maps, the
    "Empty Result!" page if that is empty, whatever part of the data each [write] accepts.
    The first map holds, for each name of a form element or file, the last value submitted,
    files after elements; the second the request's parameters, with cookies replacing
    parameters of their name.  The codec then reports the end of the connection iff the
    flags octet is not 1.  If the form does not parse, the exception leaves [readData]. *)
Theorem cocgi_answers cb errno id flags kvs ps ss pieces c :
  Forall frec_ok (request_records id flags ps ss) →
  pieces_ok ps → pieces_ok ss → Forall pair_ok kvs → concat ps.*1 = enc_pairs kvs →
  concat pieces = concat (encode_rec <$> request_records id flags ps ss) →
  Forall piece_ok pieces →
  cocgi_wf c → abs (codec c) = a0 → content (m_buf c) = [] →
  match form_of (assign_all kvs ∅) (concat ss.*1) with
  | Ok cgi =>
      ∃ qmap header wire, (∀ k, qmap !! k = last_value (submitted Datatypes.id cgi) k) ∧
        (∀ k, header !! k = header_value (assign_all kvs ∅) cgi k) ∧
        answers wire (cocgi_page cb qmap header) ∧
        ∀ ws, no_error ws → (length wire ≤ accepted ws)%nat →
        ∃ c', serve cb ws errno c pieces = Ok (if b2z flags =? 1 then ERR_OK else ERR_SOCKET_FINISH, wire, c')
  | Fault e => ∀ ws, serve cb ws errno c pieces = Fault e
  end.
Proof.
intros Hok Hps Hss Hkv Hcat Hw Hpc Hwf Ha Hb. destruct Hwf as [Hwb Hck].
destruct (request_delivery id flags kvs ps ss pieces (codec c) (m_buf c))
  as (k & b & Ef & _); [done..|].
destruct (feed_afeed (codec c) (m_buf c) pieces Hck Hwb) as (k' & b' & Ef' & _).
rewrite Ef in Ef'. injection Ef' as _ _ He. rewrite <- cgi_of_form. destruct (cgi_of _ _) as [cgi|e] eqn:Hcgi.
- destruct (serve_callback cb errno c pieces (assign_all kvs ∅) (concat ss.*1) (b2z flags =? 1) cgi) as (wire & Hans & Hws);
    [done|done|by rewrite <- He|done|].
  eexists (cocgi_qmap cgi), (request_header _ cgi), wire. split_and!; [apply cocgi_qmap_spec|apply request_header_spec|exact Hans|exact Hws].
- intros ws. by eapply serve_throws; [|done|by rewrite <- He|done].
Qed.

(** ** Concrete requests *)

Definition fresh_cocgi : cgi_codec := mkCocgi fresh_buf fresh_codec.

Lemma fresh_cocgi_wf : cocgi_wf fresh_cocgi.
Proof. split; [apply fresh_buf_wf|apply fresh_codec_cwf]. Qed.

Definition demo_wire : bytes := concat (encode_rec <$> request_records 1 x00 demo_ps demo_ss).

Definition demo_cgi : Cgicc := mkCgicc [] [] [x68; x69] [] [] [] [].

Lemma cocgi_answers_witness :
  form_of (assign_all demo_pairs ∅) (concat demo_ss.*1) = Ok demo_cgi ∧
  ∃ wire, answers wire print_page ∧
    ∀ ws, no_error ws → (length wire ≤ accepted ws)%nat →
    ∃ c', serve (Some PrintRequest) ws 0 fresh_cocgi [take 9 demo_wire; drop 9 demo_wire] =
      Ok (ERR_SOCKET_FINISH, wire, c').
Proof.
assert (form_of (assign_all demo_pairs ∅) (concat demo_ss.*1) = Ok demo_cgi) as E by (vm_compute; reflexivity).
split; [exact E|].
pose proof (cocgi_answers (Some PrintRequest) 0 1 x00 demo_pairs demo_ps demo_ss [take 9 demo_wire; drop 9 demo_wire] fresh_cocgi) as Hm.
rewrite E in Hm. destruct Hm as (qmap & header & wire & _ & _ & Ha & Hs);
  [apply demo_ok|apply demo_pieces_ok|apply demo_pieces_ok|apply demo_pairs_ok
  |vm_compute; reflexivity|vm_compute; reflexivity|repeat constructor; vm_compute; done|apply fresh_cocgi_wf
  |vm_compute; reflexivity|vm_compute; reflexivity|].
exists wire. split; [exact Ha|exact Hs].
Defined.

(** ** Errors *)

(** A failed [write] is not reported.  When the socket refuses the response
    after part of it, the part is on the wire, and [readData] still returns
    [ERR_OK] with the request forgotten, so the caller keeps the connection
    although the response was cut off. *)
Theorem write_failure_ignored cb errno c d a l params body es cgi :
  cocgi_wf c → piece_ok d →
  message (abs (codec c)) (content (m_buf c) ++ d) = (a, l, Callback params body :: es) →
  cgi_of params body = Ok cgi →
  ∃ wire c', answers wire (page_of cb params cgi) ∧ abs (codec c') = a ∧
    ∀ ws ws', no_error ws → (accepted ws < length wire)%nat →
    readData cb (read_of d) (ws ++ WriteError :: ws') errno c =
      Ok (ERR_OK, errno, take (accepted ws) wire, c').
Proof.
intros Hwf Hd Hm Hcgi.
destruct (readData_request cb errno c d a l params body es cgi)
  as (wire & c' & Hans & _ & Ha & _ & Hrd); [done..|].
exists wire, c'. split_and!; [done..|]. intros ws ws' Hn Hlt.
rewrite Hrd, sent_error by done. by rewrite andb_false_r.
Qed.

Lemma write_failure_ignored_witness :
  ∃ wire c', answers wire (page_of None (assign_all demo_pairs ∅) demo_cgi) ∧
    (∀ ws ws', no_error ws → (accepted ws < length wire)%nat →
     readData None (read_of demo_wire) (ws ++ WriteError :: ws') 0 fresh_cocgi =
       Ok (ERR_OK, 0, take (accepted ws) wire, c')).
Proof.
destruct (write_failure_ignored None 0 fresh_cocgi demo_wire
  (mkConn false false [] [] ∅) [] (assign_all demo_pairs ∅) [x68; x69] [Shutdown] demo_cgi)
  as (wire & c' & H1 & _ & H2); [apply fresh_cocgi_wf|split; vm_compute; done
  |vm_compute; reflexivity|vm_compute; reflexivity|]. by exists wire, c'.
Defined.

(** Reads that deliver nothing.  A failed read reports [ERR_SOCKET_EAGAIN]
    iff the error is [EAGAIN], and a read error otherwise.  At end of file the
    code is decided by the error number an earlier call left behind: if that is
    [EAGAIN] the closed connection is reported as one to be retried.  In no case
    is anything written or the codec's state changed. *)
Theorem read_nothing cb sys_readv ws errno c :
  readv_ok sys_readv → cocgi_wf c →
  match sys_readv (readFd_vec (m_buf c)) with
  | ReadError e =>
      readData cb sys_readv ws errno c =
      Ok (if e =? EAGAIN then ERR_SOCKET_EAGAIN else ERR_SOCKET_READ, e, [], c)
  | ReadData [] =>
      ∃ b, readData cb sys_readv ws errno c =
      Ok (if errno =? EAGAIN then ERR_SOCKET_EAGAIN else ERR_SOCKET_READ, errno, [],
          mkCocgi b (codec c)) ∧ content b = content (m_buf c)
  | ReadData _ => True
  end.
Proof.
intros Hrv [Hwf _]. destruct (sys_readv (readFd_vec (m_buf c))) as [[|x d]|e] eqn:E; [|done|].
- destruct (readFd_data sys_readv (m_buf c) [] Hrv Hwf E) as (b & Eb & _ & Hcb).
  exists b. rewrite app_nil_r in Hcb. split; [|done].
  unfold readData. rewrite Eb. cbn. by destruct (errno =? EAGAIN).
- unfold readData, readFd. fold (readFd_vec (m_buf c)). rewrite E.
  cbn [mbind res_bind default]. cbn. destruct c. by destruct (e =? EAGAIN).
Qed.

Lemma read_nothing_witness :
  ∃ b, readData None (λ _, ReadData []) [] EAGAIN fresh_cocgi =
  Ok (ERR_SOCKET_EAGAIN, EAGAIN, [], mkCocgi b fresh_codec) ∧ content b = [].
Proof.
apply (read_nothing None (λ _, ReadData []) [] EAGAIN fresh_cocgi);
  [intros vec d [= <-]; apply Nat.le_0_l|apply fresh_cocgi_wf].
Defined.

(** A malformed upload ends the worker.  When the form parser throws - as it
    does for every multipart body whose first item is empty - nothing between it
    and the coroutine's entry catches the exception: [readData] does not return,
    and no response is sent. *)
Theorem malformed_upload_throws cb ws errno c d a l params body es b rest :
  cocgi_wf c → piece_ok d →
  message (abs (codec c)) (content (m_buf c) ++ d) = (a, l, Callback params body :: es) →
  params !! CONTENT_TYPE = Some (multipart_content_type b) →
  body = sep1 b ++ sep1 b ++ rest →
  size (multipart_content_type b) < npos → size body < npos →
  readData cb (read_of d) ws errno c = Fault RuntimeError.
Proof.
intros Hwf Hd Hm Hct Hbody Hs1 Hs2. eapply readData_throws; [done..|]. by eapply cgi_of_malformed.
Qed.

Definition bad_upload : list (bytes * bytes) :=
  [(CONTENT_TYPE, multipart_content_type [x62])].
Definition bad_wire : bytes :=
  concat (encode_rec <$> request_records 1 x01 [(enc_pairs bad_upload, [])]
    [(sep1 [x62] ++ sep1 [x62], [])]).

Lemma malformed_upload_throws_witness :
  readData (Some PrintRequest) (read_of bad_wire) [] 0 fresh_cocgi = Fault RuntimeError.
Proof.
apply (malformed_upload_throws (Some PrintRequest) [] 0 fresh_cocgi bad_wire
  (mkConn false true [] [] ∅) [] (assign_all bad_upload ∅) (sep1 [x62] ++ sep1 [x62]) [] [x62] []);
  [apply fresh_cocgi_wf|split; vm_compute; done|vm_compute; reflexivity..].
Defined.
