(* ===== verification/CocgiServer.v ===== *)
(** [CCocgiServer] ([cocgi/cocgi_lib/cocgi.cpp], [cocgi.h]): the pool of coroutines
    of one worker process.  libco runs one coroutine at a time and switches only
    where a coroutine polls, yields or resumes another, so the state changes in
    segments: one iteration of the accept loop, which resumes the coroutine it
    hands a connection to and gets control back when that one polls; and the part
    of a connection's coroutine from one [co_poll] to the next.

    Tasks are named by [uCoId].  [heap] holds the [CocgiTask] objects; [fds] is not
    a member of the class but the set of accepted sockets that are not closed yet.
    A segment that throws (see [CocgiSpec.malformed_upload_throws]) ends the
    process, so it has no successor state. *)

From Stdlib Require Import ZArith Lia Bool.
From Stdlib.Strings Require Import Byte.
From stdpp Require Import base numbers list gmap option.
From S2P Require Import Prelude Endian Buffer Codec CodecSpec CocgiCodec CocgiSpec.
Local Open Scope Z_scope.

(** ** State *)

Definition MAX_RECYCLE_COUNT : Z := 60.
(** The value the constructor gives [m_usMaxCoroutineCount]. *)
Definition m_usMaxCoroutineCount : nat := 50.

(** Where a connection's coroutine is suspended: not yet resumed, in
    [co_yield_ct] of the idle branch, in [co_poll] on a socket with the count of
    consecutive empty reads, or returned. *)
Inductive position :=
  | Fresh
  | Yielded
  | Polling (fd : Z) (recycle : Z)
  | Returned.

Record CocgiTask := mkTask { iFd : Z; pFastCgiCodec : cgi_codec; at_ : position }.

Record CCocgiServer := mkServer {
  m_lIdleTask : list nat;
  m_usRunTask : gset nat;
  m_umTask : gset nat;
  m_uCoIndex : nat;
  heap : gmap nat CocgiTask;
  fds : gset Z;
}.

Definition server0 : CCocgiServer := mkServer [] ∅ ∅ 0 ∅ ∅.

(** ** Tasks *)

(** Allocation succeeds ([make_shared] throws otherwise, it never returns null). *)
Definition CreateCocgiTask (st : CCocgiServer) : res CCocgiServer :=
  codec ← FastCgiCodec_ctor;
  let uCoId := m_uCoIndex st in
  Ok (mkServer (uCoId :: m_lIdleTask st) (m_usRunTask st) ({[uCoId]} ∪ m_umTask st)
        (S (m_uCoIndex st)) (<[uCoId := mkTask (-1) codec Fresh]> (heap st)) (fds st)).

(** The loop in [Run] that fills the pool of a new worker. *)
Fixpoint create_tasks (usCoroutineCount : nat) (st : CCocgiServer) : res CCocgiServer :=
  match usCoroutineCount with
  | O => Ok st
  | S n => st ← CreateCocgiTask st; create_tasks n st
  end.

(** The idle branch of [RealReadwriteRoutine]: with more tasks than the maximum
    the coroutine leaves the pool and returns, otherwise it waits for work. *)
Definition task_idle (id : nat) (t : CocgiTask) (st : CCocgiServer) : CCocgiServer :=
  if (m_usMaxCoroutineCount <? size (m_umTask st))%nat then
    mkServer (m_lIdleTask st) (m_usRunTask st ∖ {[id]}) (m_umTask st ∖ {[id]}) (m_uCoIndex st)
      (<[id := mkTask (iFd t) (pFastCgiCodec t) Returned]> (heap st)) (fds st)
  else
    mkServer (id :: m_lIdleTask st) (m_usRunTask st ∖ {[id]}) (m_umTask st) (m_uCoIndex st)
      (<[id := mkTask (iFd t) (clear (pFastCgiCodec t)) Yielded]> (heap st)) (fds st).

(** The top of the outer loop, up to the next suspension. *)
Definition task_top (id : nat) (t : CocgiTask) (st : CCocgiServer) : CCocgiServer :=
  if iFd t =? -1 then task_idle id t st
  else
    let t' := mkTask (-1) (clear (pFastCgiCodec t)) (Polling (iFd t) 0) in
    mkServer (m_lIdleTask st) (m_usRunTask st) (m_umTask st) (m_uCoIndex st)
      (<[id := t']> (heap st)) (fds st).

Definition close_fd (fd : Z) (st : CCocgiServer) : CCocgiServer :=
  mkServer (m_lIdleTask st) (m_usRunTask st) (m_umTask st) (m_uCoIndex st)
    (heap st) (fds st ∖ {[fd]}).

Definition set_task (id : nat) (t : CocgiTask) (st : CCocgiServer) : CCocgiServer :=
  mkServer (m_lIdleTask st) (m_usRunTask st) (m_umTask st) (m_uCoIndex st)
    (<[id := t]> (heap st)) (fds st).

(** A connection's coroutine after [co_poll] returned, by an event or after its
    1000 ms.  Returns the bytes written to the socket too. *)
Definition task_resumed (cb : callback_t) (sys_readv : list nat → readv_result)
    (writes : list write_result) (errno : Z) (id : nat) (st : CCocgiServer) :
    res (CCocgiServer * bytes) :=
  match heap st !! id with
  | Some (mkTask f codec (Polling fd recycle)) =>
      '(ret, _, wire, codec) ← readData cb sys_readv writes errno codec;
      match ret with
      | ERR_OK => Ok (set_task id (mkTask f codec (Polling fd 0)) st, wire)
      | ERR_SOCKET_EAGAIN =>
          if MAX_RECYCLE_COUNT <=? recycle
          then Ok (task_top id (mkTask f codec (Polling fd (recycle + 1))) (close_fd fd st), wire)
          else Ok (set_task id (mkTask f codec (Polling fd (recycle + 1))) st, wire)
      | _ => Ok (task_top id (mkTask f codec (Polling fd recycle)) (close_fd fd st), wire)
      end
  | _ => Ok (st, [])
  end.

(** ** The accept loop *)

(** How an iteration ends: [continue] without having called anything that
    switches, suspended in [co_poll], or a connection handed over. *)
Inductive iteration := Continue | Suspended | Accepted.

(** One iteration; [accepted] is what [co_accept] returns if it is reached. *)
Definition accept_iteration (accepted : Z) (st : CCocgiServer) : res (iteration * CCocgiServer) :=
  st ← (if bool_decide (m_lIdleTask st = []) &&
           (size (m_umTask st) <? m_usMaxCoroutineCount)%nat
        then CreateCocgiTask st else Ok st);
  match m_lIdleTask st with
  | [] => Ok (Continue, st)
  | id :: idle =>
      if accepted <? 0 then Ok (Suspended, st) else
      match heap st !! id with
      | None => Fault OutOfBounds
      | Some t =>
          let t := mkTask accepted (pFastCgiCodec t) (at_ t) in
          let st := mkServer idle ({[id]} ∪ m_usRunTask st) (m_umTask st) (m_uCoIndex st)
                      (<[id := t]> (heap st)) ({[accepted]} ∪ fds st) in
          Ok (Accepted, task_top id t st)
      end
  end.

(** The loop until it suspends; [accs] are the results of the successive calls of
    [co_accept], after which no connection is pending. *)
Fixpoint AcceptRoutine (fuel : nat) (accs : list Z) (st : CCocgiServer) : res CCocgiServer :=
  match fuel with
  | O => Fault OutOfFuel
  | S fuel =>
      let accepted := match accs with [] => -1 | a :: _ => a end in
      '(it, st) ← accept_iteration accepted st;
      match it with
      | Suspended => Ok st
      | Accepted => AcceptRoutine fuel (tail accs) st
      | Continue => AcceptRoutine fuel accs st
      end
  end.
