(* ===== verification/CocgiPool.v ===== *)
(** The coroutine pool: what holds in every state a worker can reach, what a new
    connection starts from, when a silent connection is dropped, and what happens
    when the pool is exhausted. *)

From Stdlib Require Import ZArith Lia Bool.
From Stdlib.Strings Require Import Byte.
From stdpp Require Import base numbers list gmap option sets relations.
From S2P Require Import Prelude Endian Buffer Codec CodecSpec CodecRespond.
From S2P Require Import Backend BackendSpec CocgiCodec CocgiSpec CocgiServer.
Local Open Scope Z_scope.
#[local] Existing Instance CocgiEndian.

(** ** Codecs *)

Lemma clear_wf c : cocgi_wf c → cocgi_wf (clear c).
Proof. intros [? [? ?]]. split; [by apply wf_retrieveAll|]. split; by apply wf_retrieveAll. Qed.

Lemma ctor_wf : ∃ c, CocgiCodec.FastCgiCodec_ctor = Ok c ∧ cocgi_wf c.
Proof.
unfold CocgiCodec.FastCgiCodec_ctor, Codec.FastCgiCodec_ctor.
destruct (Buffer_ctor_holds kInitialSize) as (b & -> & Hb & _). cbn [mbind res_bind].
eexists. split; [done|]. by split.
Qed.

Lemma readData_wf cb sys_readv ws errno c r :
  readv_ok sys_readv → cocgi_wf c → readData cb sys_readv ws errno c = Ok r → cocgi_wf r.2.
Proof.
intros Hrv [Hwf Hc] E. unfold readData in E.
destruct (sys_readv (readFd_vec (m_buf c))) as [d|e] eqn:Er.
2: { unfold readFd in E. fold (readFd_vec (m_buf c)) in E. rewrite Er in E.
     cbn [mbind res_bind default] in E. cbn in E.
     destruct (e =? EAGAIN); injection E as <-; by destruct c. }
destruct (readFd_data sys_readv (m_buf c) d Hrv Hwf Er) as (b & Eb & Hb & _).
rewrite Eb in E. cbn [mbind res_bind] in E.
destruct (0 <? Z.of_nat (length d)).
2: { destruct (default errno None =? EAGAIN); injection E as <-; by split. }
unfold parseFcgiPackage, parseRequest in E. cbn [m_buf codec] in E.
destruct (parseRequest_loop_holds (S (readableBytes b)) (codec c) b)
  as (k & b' & Ep & [Hs Hp] & _ & [Hb' _]); [done..|lia|].
rewrite Ep in E. cbn [mbind res_bind] in E. unfold m_gotRequest in E. cbn [codec] in E.
destruct (gotRequest_ k); [|injection E as <-; by split].
unfold doRequest, m_stdin in E. cbn [codec] in E.
destruct (request_body (stdin_ k) Hs) as (st' & Est & Hst & _). rewrite Est in E.
cbn [mbind res_bind] in E.
destruct (Cgicc.Cgicc_ctor _ _ _ _); [|done]. cbn [mbind res_bind] in E.
destruct (Buffer_ctor _); [|done]. cbn [mbind res_bind] in E.
destruct (respond _ _) as [[? ?]|]; [|done]. cbn [mbind res_bind] in E.
destruct (write_loop _ _) as [[? ?]|]; [|done]. cbn [mbind res_bind] in E.
destruct (negb _ && _); injection E as <-; (split; [done|]; split; by apply wf_retrieveAll).
Qed.

(** ** The invariant *)

Record pool_ok (st : CCocgiServer) : Prop := {
  ok_nodup : NoDup (m_lIdleTask st);
  ok_idle : ∀ id, id ∈ m_lIdleTask st → (id ∉ m_usRunTask st) ∧
    ∃ c p, heap st !! id = Some (mkTask (-1) c p) ∧ (p = Fresh ∨ p = Yielded) ∧ cocgi_wf c;
  ok_run : ∀ id, id ∈ m_usRunTask st →
    ∃ c fd n, heap st !! id = Some (mkTask (-1) c (Polling fd n)) ∧ cocgi_wf c ∧
      fd ∈ fds st ∧ 0 ≤ fd ∧ 0 ≤ n ≤ MAX_RECYCLE_COUNT;
  ok_all : ∀ id, id ∈ m_umTask st ↔ id ∈ m_lIdleTask st ∨ id ∈ m_usRunTask st;
  ok_index : ∀ id, id ∈ m_umTask st → (id < m_uCoIndex st)%nat;
  ok_owned : ∀ fd, fd ∈ fds st → ∃ id c n,
    id ∈ m_usRunTask st ∧ heap st !! id = Some (mkTask (-1) c (Polling fd n));
  ok_own : ∀ id1 id2 c1 c2 fd n1 n2, id1 ∈ m_usRunTask st → id2 ∈ m_usRunTask st →
    heap st !! id1 = Some (mkTask (-1) c1 (Polling fd n1)) →
    heap st !! id2 = Some (mkTask (-1) c2 (Polling fd n2)) → id1 = id2;
}.

Lemma server0_ok : pool_ok server0.
Proof. split; cbn; try set_solver. constructor. Qed.

Lemma create_ok st :
  pool_ok st → ∃ st', CreateCocgiTask st = Ok st' ∧ pool_ok st' ∧
    m_lIdleTask st' = m_uCoIndex st :: m_lIdleTask st ∧ m_usRunTask st' = m_usRunTask st ∧
    m_umTask st' = {[m_uCoIndex st]} ∪ m_umTask st ∧ m_uCoIndex st' = S (m_uCoIndex st) ∧
    fds st' = fds st.
Proof.
intros [H1 H2 H3 H4 H5 H6 H7]. unfold CreateCocgiTask.
destruct ctor_wf as (c & -> & Hc). cbn [mbind res_bind].
eexists. split; [done|]. split; [|done]. set (u := m_uCoIndex st) in *.
assert (u ∉ m_umTask st) as Hu by (intros Hin; apply H5 in Hin; unfold u in *; lia).
assert (∀ id, id ∈ m_lIdleTask st → id ≠ u) as Hi.
{ intros id Hin ->. apply Hu, H4. by left. }
assert (∀ id, id ∈ m_usRunTask st → id ≠ u) as Hr.
{ intros id Hin ->. apply Hu, H4. by right. }
split; cbn [m_lIdleTask m_usRunTask m_umTask m_uCoIndex heap fds].
- constructor; [|done]. intros Hin. by apply Hi in Hin.
- intros id [->|Hin]%elem_of_cons.
  + split; [intros Hin; by apply Hr in Hin|]. exists c, Fresh.
    rewrite lookup_insert_eq. auto.
  + destruct (H2 id Hin) as (? & c' & p & E & ?). split; [done|]. exists c', p.
    rewrite lookup_insert_ne by (symmetry; by apply Hi). done.
- intros id Hin. rewrite lookup_insert_ne by (symmetry; by apply Hr). by apply H3.
- intros id. rewrite elem_of_union, elem_of_singleton, elem_of_cons, H4. tauto.
- intros id. rewrite elem_of_union, elem_of_singleton. intros [->|Hin]; [lia|].
  apply H5 in Hin. lia.
- intros fd Hfd. destruct (H6 fd Hfd) as (id & c' & n & Hin & E). exists id, c', n.
  split; [done|]. rewrite lookup_insert_ne by (symmetry; by apply Hr). done.
- intros id1 id2 c1 c2 fd n1 n2 Hin1 Hin2.
  rewrite !lookup_insert_ne by (symmetry; by apply Hr). by apply H7.
Qed.

Lemma create_tasks_ok k st :
  pool_ok st → ∃ st', create_tasks k st = Ok st' ∧ pool_ok st'.
Proof.
revert st. induction k as [|k IH]; intros st Hst; cbn [create_tasks]; [by exists st|].
destruct (create_ok st Hst) as (st1 & -> & Hst1 & _). cbn [mbind res_bind]. by apply IH.
Qed.

(** Handing [fd] to an idle task. *)
Lemma hand_over_ok st id idle c p fd :
  pool_ok st → m_lIdleTask st = id :: idle → heap st !! id = Some (mkTask (-1) c p) →
  fd ∉ fds st → 0 ≤ fd → cocgi_wf c →
  pool_ok (mkServer idle ({[id]} ∪ m_usRunTask st) (m_umTask st) (m_uCoIndex st)
    (<[id := mkTask (-1) (clear c) (Polling fd 0)]> (<[id := mkTask fd c p]> (heap st)))
    ({[fd]} ∪ fds st)).
Proof.
intros [H1 H2 H3 H4 H5 H6 H7] Hi Hid Hfd Hpos Hc. rewrite insert_insert_eq.
rewrite Hi in *. apply NoDup_cons in H1 as [Hni H1].
assert (id ∉ m_usRunTask st) as Hnr by (apply (H2 id); apply elem_of_cons; by left).
split; cbn [m_lIdleTask m_usRunTask m_umTask m_uCoIndex heap fds].
- done.
- intros id' Hin. destruct (H2 id') as (? & c' & p' & ? & ?); [apply elem_of_cons; by right|].
  assert (id' ≠ id) by (by intros ->).
  split; [set_solver|]. exists c', p'. by rewrite lookup_insert_ne.
- intros id'. rewrite elem_of_union, elem_of_singleton. intros [->|Hin].
  + exists (clear c), fd, 0. rewrite lookup_insert_eq.
    split_and!; [done|by apply clear_wf|set_solver|done|done|done].
  + destruct (H3 id' Hin) as (c' & fd' & n & ? & ? & ? & ?). assert (id' ≠ id) by (by intros ->).
    exists c', fd', n. rewrite lookup_insert_ne by done. split_and!; [done..|set_solver|tauto|tauto|tauto].
- intros id'. rewrite H4, elem_of_cons, elem_of_union, elem_of_singleton. tauto.
- done.
- intros fd'. rewrite elem_of_union, elem_of_singleton. intros [->|Hin].
  + exists id, (clear c), 0. rewrite lookup_insert_eq. split; [set_solver|done].
  + destruct (H6 fd' Hin) as (id' & c' & n & Hr & ?). assert (id' ≠ id) by (by intros ->).
    exists id', c', n. rewrite lookup_insert_ne by done. split; [set_solver|done].
- assert (∀ id' c' n, id' ∈ m_usRunTask st →
    heap st !! id' = Some (mkTask (-1) c' (Polling fd n)) → False) as Hnew.
  { intros id' c' n Hin E. destruct (H3 id' Hin) as (c2 & fd2 & n2 & E2 & _ & Hf & _).
    rewrite E in E2. injection E2 as _ <- _. done. }
  intros id1 id2 c1 c2 fd' n1 n2. rewrite !elem_of_union, !elem_of_singleton.
  destruct (decide (id1 = id)) as [->|N1], (decide (id2 = id)) as [->|N2]; [done|..].
  + intros _ [?|Hin2]; [done|]. rewrite lookup_insert_eq, lookup_insert_ne by done.
    intros [= <- <- <-] E2. by exfalso; eapply Hnew.
  + intros [?|Hin1] _; [done|]. rewrite lookup_insert_eq, lookup_insert_ne by done.
    intros E1 [= <- <- <-]. by exfalso; eapply Hnew.
  + intros [?|Hin1] [?|Hin2]; try done. rewrite !lookup_insert_ne by done. by apply H7.
Qed.

(** An iteration of the accept loop, its outcome by cases. *)
Lemma accept_iteration_ok accepted st :
  pool_ok st → accepted ∉ fds st →
  ∃ it st', accept_iteration accepted st = Ok (it, st') ∧ pool_ok st'.
Proof.
intros Hst Hfd. unfold accept_iteration.
assert (∃ st1, (if bool_decide (m_lIdleTask st = []) &&
    (size (m_umTask st) <? m_usMaxCoroutineCount)%nat
  then CreateCocgiTask st else Ok st) = Ok st1 ∧ pool_ok st1 ∧ fds st1 = fds st)
  as (st1 & -> & Hst1 & Hf1).
{ case_match; [|by exists st]. destruct (create_ok st Hst) as (st1 & ? & ? & _ & _ & _ & _ & ?).
  by exists st1. }
cbn [mbind res_bind]. destruct (m_lIdleTask st1) as [|id idle] eqn:Ei; [by eexists _, _|].
destruct (Z.ltb_spec accepted 0); [by eexists _, _|].
destruct (ok_idle st1 Hst1 id) as (_ & c & p & Eid & _ & Hc); [rewrite Ei; apply elem_of_cons; by left|].
rewrite Eid. eexists _, _. split; [done|]. unfold task_top. cbn [iFd pFastCgiCodec].
rewrite (proj2 (Z.eqb_neq _ _)) by lia. cbn [m_lIdleTask m_usRunTask m_umTask m_uCoIndex heap fds].
rewrite <- Hf1 in Hfd. by eapply hand_over_ok.
Qed.

(** A running task that goes on polling its socket. *)
Lemma keep_polling_ok st id c c' fd n n' :
  pool_ok st → id ∈ m_usRunTask st → heap st !! id = Some (mkTask (-1) c (Polling fd n)) →
  cocgi_wf c' → 0 ≤ n' ≤ MAX_RECYCLE_COUNT →
  pool_ok (set_task id (mkTask (-1) c' (Polling fd n')) st).
Proof.
intros [H1 H2 H3 H4 H5 H6 H7] Hin Hid Hc' Hn'.
split; unfold set_task; cbn [m_lIdleTask m_usRunTask m_umTask m_uCoIndex heap fds]; try done.
- intros id' Hi. destruct (H2 id' Hi) as (Hnr & ?). split; [done|].
  rewrite lookup_insert_ne by (intros ->; done). done.
- intros id' Hr. destruct (decide (id' = id)) as [->|Hne].
  + destruct (H3 id Hr) as (c0 & fd0 & n0 & E & ? & ? & ? & ?).
    rewrite E in Hid. injection Hid as -> -> ->. exists c', fd, n'. by rewrite lookup_insert_eq.
  + rewrite lookup_insert_ne by done. by apply H3.
- intros fd' Hf. destruct (H6 fd' Hf) as (id' & c0 & n0 & Hr & E).
  destruct (decide (id' = id)) as [->|Hne].
  + rewrite E in Hid. injection Hid as -> -> ->. exists id, c', n'. by rewrite lookup_insert_eq.
  + exists id', c0, n0. by rewrite lookup_insert_ne.
- intros id1 id2 c1 c2 fd' n1 n2 R1 R2 E1 E2.
  assert (∀ i ci ni, <[id := mkTask (-1) c' (Polling fd n')]> (heap st) !! i =
    Some (mkTask (-1) ci (Polling fd' ni)) →
    ∃ cj nj, heap st !! i = Some (mkTask (-1) cj (Polling fd' nj))) as Hback.
  { intros i ci ni. destruct (decide (i = id)) as [->|].
    - rewrite lookup_insert_eq. intros [= _ <- _]. eauto.
    - rewrite lookup_insert_ne by done. eauto. }
  apply Hback in E1 as (? & ? & E1). apply Hback in E2 as (? & ? & E2). by eapply H7.
Qed.

(** A running task that closed its socket and goes idle or leaves. *)
Lemma finish_ok st id c c' fd n n' :
  pool_ok st → id ∈ m_usRunTask st → heap st !! id = Some (mkTask (-1) c (Polling fd n)) →
  cocgi_wf c' →
  pool_ok (task_top id (mkTask (-1) c' (Polling fd n')) (close_fd fd st)).
Proof.
intros [H1 H2 H3 H4 H5 H6 H7] Hin Hid Hc'. unfold task_top, task_idle, close_fd.
cbn [iFd pFastCgiCodec m_lIdleTask m_usRunTask m_umTask m_uCoIndex heap fds].
change (-1 =? -1) with true. cbn iota.
assert (id ∉ m_lIdleTask st) as Hni by (intros Hi; by apply H2 in Hi as [? _]).
assert (∀ id', id' ∈ m_usRunTask st → id' ≠ id → ∀ t, ∃ c0 fd0 n0,
  <[id := t]> (heap st) !! id' = Some (mkTask (-1) c0 (Polling fd0 n0)) ∧ cocgi_wf c0 ∧
  fd0 ∈ fds st ∖ {[fd]} ∧ 0 ≤ fd0 ∧ 0 ≤ n0 ≤ MAX_RECYCLE_COUNT) as Hrun.
{ intros id' Hr Hne t. destruct (H3 id' Hr) as (c0 & fd0 & n0 & E & ? & ? & ? & ?).
  exists c0, fd0, n0. rewrite lookup_insert_ne by done. split_and!; [done|done| |tauto..].
  apply elem_of_difference. split; [done|]. rewrite elem_of_singleton. intros ->.
  apply Hne. by eapply H7. }
assert (∀ t fd', fd' ∈ fds st ∖ {[fd]} → ∃ id' c0 n0, id' ∈ m_usRunTask st ∖ {[id]} ∧
  <[id := t]> (heap st) !! id' = Some (mkTask (-1) c0 (Polling fd' n0))) as Howned.
{ intros t fd' [Hf Hne]%elem_of_difference. destruct (H6 fd' Hf) as (id' & c0 & n0 & Hr & E).
  assert (id' ≠ id) as Hid'.
  { intros ->. rewrite E in Hid. injection Hid as _ -> _. set_solver. }
  exists id', c0, n0. rewrite lookup_insert_ne by done. split; [set_solver|done]. }
assert (∀ t id1 id2 c1 c2 fd' n1 n2, id1 ∈ m_usRunTask st ∖ {[id]} →
  id2 ∈ m_usRunTask st ∖ {[id]} →
  <[id := t]> (heap st) !! id1 = Some (mkTask (-1) c1 (Polling fd' n1)) →
  <[id := t]> (heap st) !! id2 = Some (mkTask (-1) c2 (Polling fd' n2)) → id1 = id2) as Hown.
{ intros t id1 id2 c1 c2 fd' n1 n2 [R1 D1]%elem_of_difference [R2 D2]%elem_of_difference.
  rewrite elem_of_singleton in D1, D2. rewrite !lookup_insert_ne by done. by apply H7. }
assert (∀ t id', id' ∈ m_lIdleTask st → id' ∉ m_usRunTask st ∖ {[id]} ∧
  ∃ c0 p, <[id := t]> (heap st) !! id' = Some (mkTask (-1) c0 p) ∧
    (p = Fresh ∨ p = Yielded) ∧ cocgi_wf c0) as Hidle.
{ intros t id' Hi. destruct (H2 id' Hi) as (? & c0 & p & ?). split; [set_solver|].
  exists c0, p. rewrite lookup_insert_ne by (by intros ->). done. }
destruct (m_usMaxCoroutineCount <? size (m_umTask st))%nat;
  split; cbn [m_lIdleTask m_usRunTask m_umTask m_uCoIndex heap fds]; try by eauto.
- intros id' [Hr Hne]%elem_of_difference. rewrite elem_of_singleton in Hne. by apply Hrun.
- intros id'. rewrite !elem_of_difference, H4, elem_of_singleton. split; [tauto|].
  intros [Hi|[? ?]]; [|tauto]. split; [tauto|]. by intros ->.
- intros id' [Ha _]%elem_of_difference. by apply H5.
- by constructor.
- intros id' [->|Hi]%elem_of_cons; [|by apply Hidle]. split; [set_solver|].
  exists (clear c'), Yielded. rewrite lookup_insert_eq.
  split_and!; [done|by right|by apply clear_wf].
- intros id' [Hr Hne]%elem_of_difference. rewrite elem_of_singleton in Hne. by apply Hrun.
- intros id'. rewrite H4, elem_of_cons, elem_of_difference, elem_of_singleton.
  destruct (decide (id' = id)) as [->|]; tauto.
Qed.

Lemma task_resumed_ok cb sys_readv ws errno id st r :
  pool_ok st → readv_ok sys_readv → id ∈ m_usRunTask st →
  task_resumed cb sys_readv ws errno id st = Ok r → pool_ok r.1.
Proof.
intros Hst Hrv Hin E. unfold task_resumed in E.
destruct (ok_run st Hst id Hin) as (c & fd & n & Hid & Hc & _ & _ & Hn). rewrite Hid in E.
destruct (readData cb sys_readv ws errno c) as [[[[e er] w] c']|] eqn:Er; [|done].
pose proof (readData_wf _ _ _ _ _ _ Hrv Hc Er) as Hc'. cbn [mbind res_bind snd] in *.
destruct e; [|by injection E as <-; eapply finish_ok ..|].
- injection E as <-. by eapply keep_polling_ok.
- destruct (Z.leb_spec MAX_RECYCLE_COUNT n); injection E as <-; [by eapply finish_ok|].
  eapply keep_polling_ok; try done. lia.
Qed.

(** ** The size of the pool *)

Lemma pool_size st :
  pool_ok st → size (m_umTask st) = (length (m_lIdleTask st) + size (m_usRunTask st))%nat.
Proof.
intros [H1 H2 _ H4 _ _ _].
replace (m_umTask st) with (list_to_set (m_lIdleTask st) ∪ m_usRunTask st : gset nat).
- rewrite size_union.
  + by rewrite size_list_to_set.
  + intros id Hi Hr. rewrite elem_of_list_to_set in Hi. by apply H2 in Hi as [? _].
- apply set_eq. intros id. rewrite elem_of_union, elem_of_list_to_set, H4. done.
Qed.

(** How many tasks a worker that started with [k] of them has. *)
Record sized (k : nat) (st : CCocgiServer) : Prop := {
  sz_index : (m_uCoIndex st ≤ Nat.max m_usMaxCoroutineCount k)%nat;
  sz_small : (m_uCoIndex st ≤ m_usMaxCoroutineCount)%nat → size (m_umTask st) = m_uCoIndex st;
  sz_large : (m_usMaxCoroutineCount < m_uCoIndex st)%nat →
             (m_usMaxCoroutineCount ≤ size (m_umTask st) ≤ m_uCoIndex st)%nat;
}.

Lemma create_size st st' :
  pool_ok st → CreateCocgiTask st = Ok st' →
  m_uCoIndex st' = S (m_uCoIndex st) ∧ size (m_umTask st') = S (size (m_umTask st)).
Proof.
intros Hst E. destruct (create_ok st Hst) as (st1 & E1 & _ & _ & _ & Ha & Hi & _).
rewrite E in E1. injection E1 as <-. split; [done|]. rewrite Ha, size_union, size_singleton; [done|].
intros id Hid Hin. apply elem_of_singleton in Hid as ->. apply (ok_index st Hst) in Hin. lia.
Qed.

Lemma create_tasks_sized k st st' :
  pool_ok st → size (m_umTask st) = m_uCoIndex st → create_tasks k st = Ok st' →
  m_uCoIndex st' = (m_uCoIndex st + k)%nat ∧ size (m_umTask st') = m_uCoIndex st' ∧
  m_usRunTask st' = m_usRunTask st ∧ fds st' = fds st.
Proof.
revert st. induction k as [|k IH]; intros st Hst Hs E; cbn [create_tasks] in E.
{ injection E as <-. split_and!; [lia|done..]. }
destruct (create_ok st Hst) as (st1 & E1 & Hst1 & _ & Hr & _ & _ & Hf).
destruct (create_size st st1 Hst E1) as [Hi1 Hs1]. rewrite E1 in E. cbn [mbind res_bind] in E.
destruct (IH st1 Hst1) as (? & ? & ? & ?); [lia|done|]. split_and!; [lia|lia|congruence..].
Qed.

Lemma iteration_sized k accepted st it st' :
  pool_ok st → sized k st → accept_iteration accepted st = Ok (it, st') → sized k st'.
Proof.
intros Hst [S1 S2 S3] E. unfold accept_iteration in E.
assert (∀ s t id st2, sized k s → st2 = task_top id t s → iFd t ≠ -1 → sized k st2) as Htop.
{ intros s t id st2 [? ? ?] -> Hf. unfold task_top. rewrite (proj2 (Z.eqb_neq _ _)) by done.
  by split. }
destruct (bool_decide (m_lIdleTask st = []) && _) eqn:Ec.
- apply andb_true_iff in Ec as [_ Ec]. apply Nat.ltb_lt in Ec.
  destruct (create_ok st Hst) as (st1 & E1 & _). rewrite E1 in E. cbn [mbind res_bind] in E.
  destruct (create_size st st1 Hst E1) as [Hi1 Hs1].
  assert (sized k st1) as Hsz1.
  { destruct (decide (m_uCoIndex st ≤ m_usMaxCoroutineCount)%nat).
    - rewrite S2 in Ec by done. split; lia.
    - lia. }
  destruct (m_lIdleTask st1); [by injection E as <- <-|].
  destruct (Z.ltb_spec accepted 0); [by injection E as <- <-|].
  destruct (heap st1 !! _); [|done]. injection E as <- <-.
  eapply Htop; [|done|cbn; lia]. by destruct Hsz1.
- cbn [mbind res_bind] in E. destruct (m_lIdleTask st); [by injection E as <- <-|].
  destruct (Z.ltb_spec accepted 0); [by injection E as <- <-|].
  destruct (heap st !! _); [|done]. injection E as <- <-.
  eapply Htop; [|done|cbn; lia]. by split.
Qed.

Lemma resumed_sized k cb sys_readv ws errno id st r :
  pool_ok st → sized k st → id ∈ m_usRunTask st →
  task_resumed cb sys_readv ws errno id st = Ok r → sized k r.1.
Proof.
intros Hst [S1 S2 S3] Hin E. unfold task_resumed in E.
destruct (ok_run st Hst id Hin) as (c & fd & n & Hid & _). rewrite Hid in E.
destruct (readData cb sys_readv ws errno c) as [[[[e er] w] c']|]; [|done].
cbn [mbind res_bind] in E.
assert (∀ p, sized k (task_top id (mkTask (-1) c' p) (close_fd fd st))) as Hfin.
{ intros p. unfold task_top. cbn [iFd]. change (-1 =? -1) with true. cbn iota.
  unfold task_idle. cbn [m_umTask close_fd].
  destruct (Nat.ltb_spec m_usMaxCoroutineCount (size (m_umTask st))) as [Hlt|]; [|by split].
  assert (id ∈ m_umTask st) as Ha by (apply (ok_all st Hst); by right).
  assert (size (m_umTask st ∖ {[id]}) = (size (m_umTask st) - 1)%nat) as Hsz.
  { rewrite size_difference, size_singleton; [done|]. set_solver. }
  split; cbn [m_umTask m_uCoIndex close_fd]; [done| |]; rewrite ?Hsz.
  - intros Hle. rewrite S2 in Hlt by done. lia.
  - intros Hgt. destruct (S3 Hgt). lia. }
destruct e; try (injection E as <-; apply Hfin).
- injection E as <-. by split.
- destruct (Z.leb MAX_RECYCLE_COUNT n); injection E as <-; [apply Hfin|by split].
Qed.

(** ** Reachable states *)

Inductive pool_step (cb : callback_t) : CCocgiServer → CCocgiServer → Prop :=
  | step_accept accepted it st st' :
      (* the kernel returns a descriptor that is not in use *)
      accepted ∉ fds st →
      accept_iteration accepted st = Ok (it, st') → pool_step cb st st'
  | step_task sys_readv ws errno id st st' wire :
      readv_ok sys_readv → id ∈ m_usRunTask st →
      task_resumed cb sys_readv ws errno id st = Ok (st', wire) → pool_step cb st st'.

(** The states of a worker that was started with [k] coroutines. *)
Definition reachable (cb : callback_t) (k : nat) (st : CCocgiServer) : Prop :=
  ∃ st0, create_tasks k server0 = Ok st0 ∧ rtc (pool_step cb) st0 st.

Lemma start_ok k :
  ∃ st0, create_tasks k server0 = Ok st0 ∧ pool_ok st0 ∧ sized k st0 ∧
    m_usRunTask st0 = ∅ ∧ size (m_umTask st0) = k.
Proof.
destruct (create_tasks_ok k server0 server0_ok) as (st0 & E & Hok). exists st0.
destruct (create_tasks_sized k server0 st0 server0_ok) as (Hi & Hs & Hr & _); [done..|].
cbn in Hi. split_and!; [done|done| |done|lia]. split; lia.
Qed.

Lemma pool_step_ok cb k st st' :
  pool_step cb st st' → pool_ok st ∧ sized k st → pool_ok st' ∧ sized k st'.
Proof.
intros Hstep [Hok Hsz].
destruct Hstep as [acc it st st' Hf Ei|rv ws errno id st st' w Hrv Hin Er].
- split; [|by eapply iteration_sized].
  destruct (accept_iteration_ok acc st Hok Hf) as (it' & st1 & Ei' & ?).
  rewrite Ei in Ei'. by injection Ei' as <- <-.
- split; [exact (task_resumed_ok _ _ _ _ _ _ _ Hok Hrv Hin Er)|].
  exact (resumed_sized _ _ _ _ _ _ _ _ Hok Hsz Hin Er).
Qed.

Lemma reachable_ok cb k st : reachable cb k st → pool_ok st ∧ sized k st.
Proof.
intros (st0 & E & Hrtc). destruct (start_ok k) as (st1 & E1 & Hok & Hsz & _).
rewrite E in E1. injection E1 as <-.
assert (pool_ok st0 ∧ sized k st0) as H by done. clear -H Hrtc.
induction Hrtc; [done|]. eauto using pool_step_ok.
Qed.

(** C35: The pool is consistent in every state a worker reaches, whatever the
    connections do: idle and running coroutines are disjoint and together are
    the pool; every running coroutine polls one open accepted socket, and every
    such socket is served by exactly one running coroutine, so no socket is
    leaked or closed twice; and the pool never holds more coroutines than the
    larger of 50 and the number it was started with. *)
Theorem pool_invariant cb k st :
  reachable cb k st →
  (∀ id, id ∈ m_umTask st ↔ id ∈ m_lIdleTask st ∨ id ∈ m_usRunTask st) ∧
  (∀ id, id ∈ m_lIdleTask st → id ∉ m_usRunTask st) ∧
  (∀ id, id ∈ m_usRunTask st → ∃ c fd n,
     heap st !! id = Some (mkTask (-1) c (Polling fd n)) ∧ fd ∈ fds st) ∧
  (∀ fd, fd ∈ fds st → ∃ id, ∀ id',
     id' = id ↔ id' ∈ m_usRunTask st ∧
       ∃ c n, heap st !! id' = Some (mkTask (-1) c (Polling fd n))) ∧
  (size (m_umTask st) ≤ Nat.max 50 k)%nat.
Proof.
intros Hr. destruct (reachable_ok cb k st Hr) as [[H1 H2 H3 H4 H5 H6 H7] [S1 S2 S3]].
split_and!; [done| | | |].
- intros id Hi. by apply H2 in Hi as [? _].
- intros id Hi. destruct (H3 id Hi) as (c & fd & n & E & _ & Hf & _). eauto.
- intros fd Hf. destruct (H6 fd Hf) as (id & c & n & Hi & E). exists id. intros id'.
  split; [intros ->; eauto|]. intros (Hi' & c' & n' & E'). by eapply H7.
- unfold m_usMaxCoroutineCount in *. destruct (decide (m_uCoIndex st ≤ 50)%nat).
  + rewrite S2 by done. lia.
  + destruct S3; lia.
Qed.

Lemma pool_invariant_witness :
  ∃ st0, reachable None 2 st0 ∧ (size (m_umTask st0) ≤ Nat.max 50 2)%nat.
Proof.
destruct (start_ok 2) as (st0 & E & _). exists st0.
assert (reachable None 2 st0) as Hr by (exists st0; split; [done|apply rtc_refl]).
split; [done|]. by apply (pool_invariant None 2 st0).
Defined.

(** Connections do not see each other's data.  In every reachable state, the
    coroutine an accepted socket is handed to starts polling it with an idle
    codec: no buffered input, no parameters, no body, no pending request. *)
Theorem connection_starts_clean cb k st fd it st' :
  reachable cb k st → fd ∉ fds st → 0 ≤ fd →
  accept_iteration fd st = Ok (it, st') → fds st' ≠ fds st →
  ∃ id c, id ∈ m_usRunTask st' ∧ heap st' !! id = Some (mkTask (-1) c (Polling fd 0)) ∧
    abs (codec c) = a0 ∧ content (m_buf c) = [].
Proof.
intros Hr Hf Hpos E Hne. destruct (reachable_ok cb k st Hr) as [Hok _].
unfold accept_iteration in E. destruct (if _ && _ then _ else _) as [st1|] eqn:E1; [|done].
cbn [mbind res_bind] in E.
assert (fds st1 = fds st) as Hf1.
{ destruct (_ && _); [|by injection E1 as <-].
  destruct (create_ok st Hok) as (s & Es & _ & _ & _ & _ & _ & Hfs). rewrite E1 in Es.
  by injection Es as <-. }
destruct (m_lIdleTask st1) as [|id idle]; [injection E as <- <-; congruence|].
destruct (Z.ltb_spec fd 0); [lia|].
destruct (heap st1 !! id) as [t|]; [|done]. injection E as <- <-.
exists id, (clear (pFastCgiCodec t)). unfold task_top. cbn [iFd].
rewrite (proj2 (Z.eqb_neq _ _)) by lia. cbn [m_usRunTask heap pFastCgiCodec].
rewrite lookup_insert_eq. split_and!; [set_solver|done|done|done].
Qed.

Lemma connection_starts_clean_witness :
  ∃ st0 st', reachable None 1 st0 ∧ accept_iteration 7 st0 = Ok (Accepted, st') ∧
  ∃ id c, id ∈ m_usRunTask st' ∧ heap st' !! id = Some (mkTask (-1) c (Polling 7 0)) ∧
    abs (codec c) = a0 ∧ content (m_buf c) = [].
Proof.
destruct (create_tasks 1 server0) as [st0|] eqn:E; [|vm_compute in E; discriminate E].
assert (reachable None 1 st0) as Hr by (exists st0; split; [exact E|apply rtc_refl]).
vm_compute in E. injection E as <-. eexists _, _. split; [exact Hr|].
split; [vm_compute; reflexivity|].
eapply (connection_starts_clean None 1 _ 7); [exact Hr|vm_compute; intros H; inversion H|lia
  |vm_compute; reflexivity|vm_compute; discriminate].
Defined.

(** ** Silent connections *)

(** [n] polls in a row that find nothing to read. *)
Fixpoint silent_polls (cb : callback_t) (n id : nat) (st : CCocgiServer) : res CCocgiServer :=
  match n with
  | O => Ok st
  | S n =>
      '(st, _) ← task_resumed cb (λ _, ReadError EAGAIN) [] EAGAIN id st;
      silent_polls cb n id st
  end.

Lemma silent_read cb c : readData cb (λ _, ReadError EAGAIN) [] EAGAIN c =
  Ok (ERR_SOCKET_EAGAIN, EAGAIN, [], c).
Proof. unfold readData, readFd. cbn [mbind res_bind default]. cbn. by destruct c. Qed.

Lemma silent_polls_count cb n id st c fd r :
  heap st !! id = Some (mkTask (-1) c (Polling fd r)) →
  r + Z.of_nat n ≤ MAX_RECYCLE_COUNT →
  ∃ st', silent_polls cb n id st = Ok st' ∧ fds st' = fds st ∧
    m_usRunTask st' = m_usRunTask st ∧ m_lIdleTask st' = m_lIdleTask st ∧
    m_umTask st' = m_umTask st ∧
    heap st' !! id = Some (mkTask (-1) c (Polling fd (r + Z.of_nat n))).
Proof.
revert st r. induction n as [|n IH]; intros st r E Hn; cbn [silent_polls].
{ exists st. by rewrite Z.add_0_r. }
unfold task_resumed. rewrite E, silent_read. cbn [mbind res_bind].
rewrite (proj2 (Z.leb_gt _ _)) by lia. cbn [mbind res_bind].
destruct (IH (set_task id (mkTask (-1) c (Polling fd (r + 1))) st) (r + 1))
  as (st' & -> & Hf & Hr & Hi & Ha & Eh); [cbn; by rewrite lookup_insert_eq|lia|].
exists st'. split_and!; [done..|]. rewrite Eh. do 3 f_equal. lia.
Qed.

(** A connection on which nothing arrives is dropped at its 61st empty poll,
    not earlier: after up to 60 polls in a row without data its coroutine still
    polls the open socket; the next one closes the socket and takes the
    coroutine out of the running set. *)
Theorem silent_connection_dropped cb k st id c fd n :
  reachable cb k st → id ∈ m_usRunTask st →
  heap st !! id = Some (mkTask (-1) c (Polling fd 0)) → (n ≤ 60)%nat →
  (∃ st', silent_polls cb n id st = Ok st' ∧ fd ∈ fds st' ∧ id ∈ m_usRunTask st') ∧
  (∃ st', silent_polls cb 61 id st = Ok st' ∧ fds st' = fds st ∖ {[fd]} ∧
     m_usRunTask st' = m_usRunTask st ∖ {[id]}).
Proof.
intros Hr Hin E Hn. destruct (reachable_ok cb k st Hr) as [Hok _].
destruct (ok_run st Hok id Hin) as (c0 & fd0 & n0 & E0 & _ & Hf & _).
rewrite E in E0. injection E0 as <- <- <-. split.
- destruct (silent_polls_count cb n id st c fd 0) as (st' & -> & Hfd & Hrun & _);
    [done|unfold MAX_RECYCLE_COUNT; lia|]. exists st'. by rewrite Hfd, Hrun.
- assert (∀ a b s, silent_polls cb (a + b) id s = (s ← silent_polls cb a id s; silent_polls cb b id s))
    as Hsplit.
  { induction a as [|a IH]; intros b s; cbn [Nat.add silent_polls]; [done|].
    destruct (task_resumed _ _ _ _ _ s) as [[s1 ?]|]; [|done]. cbn [mbind res_bind]. apply IH. }
  rewrite (Hsplit 60%nat 1%nat).
  destruct (silent_polls_count cb 60 id st c fd 0) as (st' & -> & Hfd & Hrun & Hi & Ha & Eh);
    [done|done|]. cbn [mbind res_bind silent_polls]. unfold task_resumed.
  rewrite Eh, silent_read. cbn [mbind res_bind]. change (MAX_RECYCLE_COUNT <=? _) with true.
  cbn [mbind res_bind]. eexists. split; [done|]. unfold task_top, task_idle, close_fd.
  cbn [iFd]. change (-1 =? -1) with true. cbn iota. rewrite Hfd, Hrun. by case_match.
Qed.

(** ** Exhaustion *)

Lemma exhausted_iteration accepted st :
  m_lIdleTask st = [] → (m_usMaxCoroutineCount ≤ size (m_umTask st))%nat →
  accept_iteration accepted st = Ok (Continue, st).
Proof.
intros Hi Hs. unfold accept_iteration.
rewrite (proj2 (Nat.ltb_ge _ _)), andb_false_r by done. cbn [mbind res_bind]. by rewrite Hi.
Qed.

Lemma exhausted_spins fuel accs st :
  m_lIdleTask st = [] → (m_usMaxCoroutineCount ≤ size (m_umTask st))%nat →
  AcceptRoutine fuel accs st = Fault OutOfFuel.
Proof.
intros Hi Hs. induction fuel as [|fuel IH]; cbn [AcceptRoutine]; [done|].
rewrite exhausted_iteration by done. cbn [mbind res_bind]. done.
Qed.

(** Accepting while the pool is not exhausted. *)
Lemma accept_progress k fd st :
  pool_ok st → sized k st → (size (m_usRunTask st) < m_usMaxCoroutineCount)%nat →
  0 ≤ fd → fd ∉ fds st →
  ∃ st', accept_iteration fd st = Ok (Accepted, st') ∧ pool_ok st' ∧ sized k st' ∧
    size (m_usRunTask st') = S (size (m_usRunTask st)) ∧ fds st' = {[fd]} ∪ fds st.
Proof.
intros Hok Hsz Hlt Hpos Hf.
destruct (accept_iteration_ok fd st Hok Hf) as (it & st' & E & Hok').
pose proof (iteration_sized k fd st it st' Hok Hsz E) as Hsz'.
pose proof E as E'. unfold accept_iteration in E.
destruct (if _ && _ then _ else _) as [st1|] eqn:E1; [|done]. cbn [mbind res_bind] in E.
assert (fds st1 = fds st ∧ m_usRunTask st1 = m_usRunTask st ∧ pool_ok st1 ∧ m_lIdleTask st1 ≠ [])
  as (Hf1 & Hr1 & Hok1 & Hi1).
{ destruct (bool_decide_reflect (m_lIdleTask st = [])) as [Hi|Hi]; cbn [andb] in E1.
  - pose proof (pool_size st Hok) as Hps. rewrite Hi in Hps. cbn [length] in Hps.
    rewrite (proj2 (Nat.ltb_lt _ _)) in E1 by lia.
    destruct (create_ok st Hok) as (s & Es & ? & Hid & ? & _ & _ & ?). rewrite E1 in Es.
    injection Es as <-. split_and!; [done..|]. by rewrite Hid.
  - by injection E1 as <-. }
destruct (m_lIdleTask st1) as [|id idle] eqn:Ei; [done|].
destruct (Z.ltb_spec fd 0); [lia|].
destruct (ok_idle st1 Hok1 id) as (Hnr & c & p & Eid & _); [rewrite Ei; apply elem_of_cons; by left|].
rewrite Eid in E. injection E as <- <-. eexists. split; [exact E'|]. split; [done|].
split; [done|]. unfold task_top in *. cbn [iFd] in *.
rewrite (proj2 (Z.eqb_neq _ _)) by lia. cbn [m_usRunTask fds]. rewrite Hr1 in *. split.
- rewrite size_union, size_singleton; [done|]. intros x Hx ?. apply elem_of_singleton in Hx as ->. done.
- by rewrite Hf1.
Qed.

Lemma pending_exhaust k accs n st fuel rest :
  pool_ok st → sized k st → (k ≤ m_usMaxCoroutineCount)%nat →
  (size (m_usRunTask st) + n = m_usMaxCoroutineCount)%nat → length accs = n →
  Forall (λ fd, 0 ≤ fd) accs → NoDup accs → Forall (λ fd, fd ∉ fds st) accs →
  AcceptRoutine fuel (accs ++ rest) st = Fault OutOfFuel.
Proof.
intros Hok Hsz Hk. revert st fuel accs Hok Hsz.
induction n as [|n IH]; intros st fuel accs Hok Hsz Hn Hl Hpos Hnd Hfresh.
- apply nil_length_inv in Hl as ->. pose proof (pool_size st Hok) as Hps.
  destruct Hsz as [S1 S2 _]. assert (m_lIdleTask st = []) as Hi.
  { apply nil_length_inv. rewrite S2 in Hps by lia. lia. }
  apply exhausted_spins; [done|lia].
- destruct accs as [|fd accs]; [done|]. cbn [length] in Hl.
  apply Forall_cons_1 in Hpos as [Hp Hpos]. apply NoDup_cons in Hnd as [Hni Hnd].
  apply Forall_cons_1 in Hfresh as [Hf Hfresh].
  destruct fuel as [|fuel]; [done|]. cbn [AcceptRoutine app].
  destruct (accept_progress k fd st) as (st' & -> & Hok' & Hsz' & Hr' & Hf'); [done|done|lia|done|done|].
  cbn [mbind res_bind tail]. apply IH; [done|done|lia|lia|done|done|].
  rewrite Hf'. apply list.Forall_forall. intros x Hx. rewrite list.Forall_forall in Hfresh.
  specialize (Hfresh x Hx). rewrite elem_of_union, elem_of_singleton. intros [->|?]; done.
Qed.

(** C36: Fifty connections hang the worker.  When as many connections are pending
    as the pool may hold, the accept loop takes the fifty of them and then
    repeats [continue] without ever polling or yielding: for no number of
    iterations does it reach a point where another coroutine could run, so none
    of the accepted connections is served either. *)
Theorem exhausted_pool_hangs k st0 accs rest fuel :
  (k ≤ 50)%nat → create_tasks k server0 = Ok st0 →
  length accs = 50%nat → Forall (λ fd, 0 ≤ fd) accs → NoDup accs →
  AcceptRoutine fuel (accs ++ rest) st0 = Fault OutOfFuel.
Proof.
intros Hk E Hl Hpos Hnd. destruct (start_ok k) as (st & E' & Hok & Hsz & Hr & _).
rewrite E in E'. injection E' as <-.
apply (pending_exhaust k accs 50); [done|done|done| |done|done|done|].
- by rewrite Hr, size_empty.
- destruct (create_tasks_sized k server0 st0 server0_ok) as (_ & _ & _ & ->); [done..|].
  cbn. apply list.Forall_forall. intros fd _. apply not_elem_of_empty.
Qed.

Lemma exhausted_pool_hangs_witness :
  ∃ st0, create_tasks 5 server0 = Ok st0 ∧
  ∀ fuel, AcceptRoutine fuel (seqZ 10 50 ++ []) st0 = Fault OutOfFuel.
Proof.
destruct (start_ok 5) as (st0 & E & _). exists st0. split; [exact E|]. intros fuel.
apply (exhausted_pool_hangs 5 st0); [lia|exact E|reflexivity| |apply NoDup_seqZ].
apply list.Forall_forall. intros x Hx. apply elem_of_seqZ in Hx. lia.
Defined.

Lemma silent_connection_dropped_witness :
  ∃ st0 st1, create_tasks 1 server0 = Ok st0 ∧ accept_iteration 7 st0 = Ok (Accepted, st1) ∧
  ∃ st', silent_polls None 61 0 st1 = Ok st' ∧ fds st' = fds st1 ∖ {[7]}.
Proof.
destruct (create_tasks 1 server0) as [st0|] eqn:E; [|vm_compute in E; discriminate E].
destruct (accept_iteration 7 st0) as [[it st1]|] eqn:Ea;
  [|vm_compute in E; injection E as <-; vm_compute in Ea; discriminate Ea].
assert (reachable None 1 st1) as Hr.
{ exists st0. split; [exact E|]. apply rtc_once. eapply step_accept; [|exact Ea].
  vm_compute in E. injection E as <-. vm_compute. intros H. inversion H. }
assert (it = Accepted ∧ ∃ c, heap st1 !! 0%nat = Some (mkTask (-1) c (Polling 7 0)) ∧
  0%nat ∈ m_usRunTask st1) as (-> & c & Hh & Hin).
{ vm_compute in E. injection E as <-. vm_compute in Ea. injection Ea as <- <-.
  split; [reflexivity|]. eexists. split; vm_compute; reflexivity. }
exists st0, st1. split; [reflexivity|]. split; [exact Ea|].
destruct (silent_connection_dropped None 1 st1 0 c 7 0 Hr Hin Hh) as [_ (st' & H1 & H2 & _)];
  [lia|]. exists st'. split; [exact H1|exact H2].
Defined.
