(* ===== verification/Fcgx.v ===== *)
(** [fastcgi/fastcgi_lib/fcgiapp.cpp]: the FastCGI application library.  A stream
    is a buffer with four pointers into it; a writer wraps what it holds into one
    record per flush, a reader takes records apart.

    Pointers into [data->buff] are offsets from it.  The socket of the request is
    the record [Net]: what the successive reads return (when the list ends, the
    peer has closed), how much the successive writes accept (when the list ends,
    writes accept everything), and the bytes written so far.  The function pointer
    [fillBuffProc] is an argument of the functions that call through it. *)

From Stdlib Require Import ZArith Lia Bool.
From Stdlib.Strings Require Import Byte String.
From stdpp Require Import base numbers list option.
From S2P Require Import Prelude CxxString.
Local Open Scope Z_scope.

(** ** Constants of [fastcgi.h] and [fcgiapp.h] *)

Definition FCGI_MAX_LENGTH : Z := 0xffff.
Definition FCGI_HEADER_LEN : nat := 8.
Definition FCGI_VERSION_1 : Z := 1.
Definition FCGI_BEGIN_REQUEST : Z := 1.
Definition FCGI_END_REQUEST : Z := 3.
Definition FCGI_PARAMS : Z := 4.
Definition FCGI_STDIN : Z := 5.
Definition FCGI_STDOUT : Z := 6.
Definition FCGI_STDERR : Z := 7.
Definition FCGI_DATA : Z := 8.
Definition FCGI_GET_VALUES : Z := 9.
Definition FCGI_GET_VALUES_RESULT : Z := 10.
Definition FCGI_UNKNOWN_TYPE : Z := 11.
Definition FCGI_NULL_REQUEST_ID : Z := 0.
Definition FCGI_KEEP_CONN : Z := 1.
Definition FCGI_RESPONDER : Z := 1.
Definition FCGI_AUTHORIZER : Z := 2.
Definition FCGI_FILTER : Z := 3.
Definition FCGI_REQUEST_COMPLETE : Z := 0.
Definition FCGI_CANT_MPX_CONN : Z := 1.
Definition FCGX_UNSUPPORTED_VERSION : Z := -2.
Definition FCGX_PROTOCOL_ERROR : Z := -3.
Definition FCGX_PARAMS_ERROR : Z := -4.
Definition FCGX_CALL_SEQ_ERROR : Z := -5.
Definition EOF : Z := -1.
Definition FCGI_MAX_CONNS : bytes := list_byte_of_string "FCGI_MAX_CONNS".
Definition FCGI_MAX_REQS : bytes := list_byte_of_string "FCGI_MAX_REQS".
Definition FCGI_MPXS_CONNS : bytes := list_byte_of_string "FCGI_MPXS_CONNS".

(** ** State *)

(** [FCGX_Stream_Data], less the allocation [mBuff] and the back pointer. *)
Record FCGX_Stream_Data := mkData {
  buff : bytes;
  bufflen : nat;
  buffStop : nat;
  type : Z;
  eorStop : bool;
  skip : bool;
  contentLen : nat;
  paddingLen : nat;
  isAnythingWritten : bool;
  rawWrite : bool;
}.

Record FCGX_Stream := mkStream {
  rdNext : nat;
  wrNext : nat;
  stop : nat;
  stopUnget : nat;
  isReader : bool;
  isClosed : bool;
  wasFCloseCalled : bool;
  FCGI_errno : Z;
  data : FCGX_Stream_Data;
}.

(** The members of [FCGX_Request] a stream reaches through [reqDataPtr]. *)
Record ReqData := mkReq {
  requestId : Z;
  role : Z;
  isBeginProcessed : bool;
  keepConnection : Z;
  appStatus : Z;
  nWriters : Z;
}.

Inductive os_read := Chunk (d : bytes) | ReadErr (errno : Z).
Inductive os_write := Wrote (n : nat) | WriteErr (errno : Z).

Record Net := mkNet { reads : list os_read; writes : list os_write; sent : bytes }.

(** A stream with its request and socket. *)
Record St := mkSt { str : FCGX_Stream; req : ReqData; net : Net }.

(** *** Assignments *)

Definition set_data (f : FCGX_Stream_Data → FCGX_Stream_Data) (s : FCGX_Stream) : FCGX_Stream :=
  mkStream (rdNext s) (wrNext s) (stop s) (stopUnget s) (isReader s) (isClosed s)
           (wasFCloseCalled s) (FCGI_errno s) (f (data s)).
Definition set_rdNext v (s : FCGX_Stream) : FCGX_Stream :=
  mkStream v (wrNext s) (stop s) (stopUnget s) (isReader s) (isClosed s)
           (wasFCloseCalled s) (FCGI_errno s) (data s).
Definition set_wrNext v (s : FCGX_Stream) : FCGX_Stream :=
  mkStream (rdNext s) v (stop s) (stopUnget s) (isReader s) (isClosed s)
           (wasFCloseCalled s) (FCGI_errno s) (data s).
Definition set_stop v (s : FCGX_Stream) : FCGX_Stream :=
  mkStream (rdNext s) (wrNext s) v (stopUnget s) (isReader s) (isClosed s)
           (wasFCloseCalled s) (FCGI_errno s) (data s).
Definition set_stopUnget v (s : FCGX_Stream) : FCGX_Stream :=
  mkStream (rdNext s) (wrNext s) (stop s) v (isReader s) (isClosed s)
           (wasFCloseCalled s) (FCGI_errno s) (data s).
Definition set_isClosed v (s : FCGX_Stream) : FCGX_Stream :=
  mkStream (rdNext s) (wrNext s) (stop s) (stopUnget s) (isReader s) v
           (wasFCloseCalled s) (FCGI_errno s) (data s).
Definition set_wasFCloseCalled v (s : FCGX_Stream) : FCGX_Stream :=
  mkStream (rdNext s) (wrNext s) (stop s) (stopUnget s) (isReader s) (isClosed s)
           v (FCGI_errno s) (data s).
Definition set_errno v (s : FCGX_Stream) : FCGX_Stream :=
  mkStream (rdNext s) (wrNext s) (stop s) (stopUnget s) (isReader s) (isClosed s)
           (wasFCloseCalled s) v (data s).

Definition set_buff v (d : FCGX_Stream_Data) : FCGX_Stream_Data :=
  mkData v (bufflen d) (buffStop d) (type d) (eorStop d) (skip d) (contentLen d)
         (paddingLen d) (isAnythingWritten d) (rawWrite d).
Definition set_buffStop v (d : FCGX_Stream_Data) : FCGX_Stream_Data :=
  mkData (buff d) (bufflen d) v (type d) (eorStop d) (skip d) (contentLen d)
         (paddingLen d) (isAnythingWritten d) (rawWrite d).
Definition set_eorStop v (d : FCGX_Stream_Data) : FCGX_Stream_Data :=
  mkData (buff d) (bufflen d) (buffStop d) (type d) v (skip d) (contentLen d)
         (paddingLen d) (isAnythingWritten d) (rawWrite d).
Definition set_skip v (d : FCGX_Stream_Data) : FCGX_Stream_Data :=
  mkData (buff d) (bufflen d) (buffStop d) (type d) (eorStop d) v (contentLen d)
         (paddingLen d) (isAnythingWritten d) (rawWrite d).
Definition set_contentLen v (d : FCGX_Stream_Data) : FCGX_Stream_Data :=
  mkData (buff d) (bufflen d) (buffStop d) (type d) (eorStop d) (skip d) v
         (paddingLen d) (isAnythingWritten d) (rawWrite d).
Definition set_paddingLen v (d : FCGX_Stream_Data) : FCGX_Stream_Data :=
  mkData (buff d) (bufflen d) (buffStop d) (type d) (eorStop d) (skip d) (contentLen d)
         v (isAnythingWritten d) (rawWrite d).
Definition set_isAnythingWritten v (d : FCGX_Stream_Data) : FCGX_Stream_Data :=
  mkData (buff d) (bufflen d) (buffStop d) (type d) (eorStop d) (skip d) (contentLen d)
         (paddingLen d) v (rawWrite d).
Definition set_rawWrite v (d : FCGX_Stream_Data) : FCGX_Stream_Data :=
  mkData (buff d) (bufflen d) (buffStop d) (type d) (eorStop d) (skip d) (contentLen d)
         (paddingLen d) (isAnythingWritten d) v.

Definition on_str (f : FCGX_Stream → FCGX_Stream) (st : St) : St := mkSt (f (str st)) (req st) (net st).
Definition on_data (f : FCGX_Stream_Data → FCGX_Stream_Data) (st : St) : St := on_str (set_data f) st.

(** ** Errors *)

Definition SetError (e : Z) (s : FCGX_Stream) : FCGX_Stream :=
  let s := if FCGI_errno s =? 0 then set_errno e s else s in
  set_isClosed true s.

Definition FCGX_GetError (s : FCGX_Stream) : Z := FCGI_errno s.
Definition FCGX_ClearError (s : FCGX_Stream) : FCGX_Stream := set_errno 0 s.
Definition FCGX_HasSeenEOF (s : FCGX_Stream) : Z := if isClosed s then EOF else 0.

(** ** Records *)

Definition octet (x : Z) : byte := z2b (Z.land x 0xff).

(** The object representation of an [FCGI_Header]. *)
Definition MakeHeader (t requestId contentLength paddingLength : Z) : res bytes :=
  assert_ ((0 <=? contentLength) && (contentLength <=? FCGI_MAX_LENGTH)) ;;
  assert_ ((0 <=? paddingLength) && (paddingLength <=? 0xff)) ;;
  Ok [octet FCGI_VERSION_1; octet t;
      octet (Z.shiftr requestId 8); octet requestId;
      octet (Z.shiftr contentLength 8); octet contentLength;
      octet paddingLength; x00].

Definition MakeEndRequestBody (appStatus protocolStatus : Z) : bytes :=
  [octet (Z.shiftr appStatus 24); octet (Z.shiftr appStatus 16);
   octet (Z.shiftr appStatus 8); octet appStatus; octet protocolStatus; x00; x00; x00].

Definition MakeUnknownTypeBody (t : Z) : bytes := octet t :: replicate 7 x00.

Definition AlignInt8 (n : Z) : Z := s32 (Z.land (u32 (n + 7)) (2 ^ 32 - 1 - 7)).

(** ** Writers *)

(** [write_it_all]: returns 0 or the error, the remaining write results, and what
    was sent. *)
Fixpoint write_it_all (ws : list os_write) (buf : bytes) : (option Z * list os_write * bytes) :=
  match buf with
  | [] => (None, ws, [])
  | _ =>
      match ws with
      | [] => (None, [], buf)
      | Wrote n :: ws =>
          let '(e, ws, out) := write_it_all ws (drop n buf) in (e, ws, take n buf ++ out)
      | WriteErr e :: ws => (Some e, ws, [])
      end
  end.

(** The call on the request's socket. *)
Definition net_write (n : Net) (buf : bytes) : option Z * Net :=
  let '(e, ws, out) := write_it_all (writes n) buf in
  (e, mkNet (reads n) ws (sent n ++ out)).

(** First part of [EmptyBuffProc]: the header and padding of the record, or
    nothing. *)
Definition fill_header (st : St) : res St :=
  let s := str st in
  if negb (rawWrite (data s)) then
    let cLen := Z.of_nat (wrNext s) - Z.of_nat FCGI_HEADER_LEN in
    if 0 <? cLen then
      let eLen := AlignInt8 cLen in
      let pad := Z.to_nat (eLen - cLen) in
      if (wrNext s + pad <=? length (buff (data s)))%nat then
        hd ← MakeHeader (type (data s)) (requestId (req st)) cLen (eLen - cLen);
        let b := overwrite (wrNext s) (replicate pad x00) (buff (data s)) in
        let b := overwrite 0 hd b in
        Ok (on_str (λ s, set_wrNext (wrNext s + pad)%nat (set_data (set_buff b) s)) st)
      else Fault OutOfBounds
    else Ok (on_str (set_wrNext 0%nat) st)
  else Ok st.

(** Last part: the write. *)
Definition flush (st : St) : St :=
  let s := str st in
  let leave st :=
    if negb (rawWrite (data (str st)))
    then on_str (λ s, set_wrNext (wrNext s + FCGI_HEADER_LEN)%nat s) st else st in
  if negb (wrNext s =? 0)%nat then
    let '(e, n) := net_write (net st) (take (wrNext s) (buff (data s))) in
    let st := mkSt (set_data (set_isAnythingWritten true) s) (req st) n in
    match e with
    | Some errno => on_str (SetError errno) st
    | None => leave (on_str (set_wrNext 0%nat) st)
    end
  else leave st.

(** [EmptyBuffProc(stream, FALSE)] *)
Definition EmptyBuffProc_keep (st : St) : res St := st ← fill_header st; Ok (flush st).

(** [memcpy] to [wrNext] and the advance of it. *)
Definition put (d : bytes) (st : St) : St :=
  let s := str st in
  on_str (λ s, set_wrNext (wrNext s + length d)%nat
                 (set_data (set_buff (overwrite (wrNext s) d (buff (data s)))) s)) st.

Fixpoint PutStr_loop (fuel : nat) (s0 : bytes) (n : nat) (bytesMoved : nat) (st : St) :
    res (Z * St) :=
  match fuel with
  | O => Fault OutOfFuel
  | S fuel =>
      let room := (stop (str st) - wrNext (str st))%nat in
      let m := if negb (wrNext (str st) =? stop (str st))%nat then Nat.min (n - bytesMoved) room else 0%nat in
      let st := put (take m s0) st in
      if negb (m =? 0)%nat && (bytesMoved + m =? n)%nat then Ok (Z.of_nat (bytesMoved + m), st) else
      if isClosed (str st) || isReader (str st) then Ok (-1, st) else
      st ← EmptyBuffProc_keep st;
      PutStr_loop fuel (drop m s0) n (bytesMoved + m) st
  end.

Definition FCGX_PutStr (s0 : bytes) (st : St) : res (Z * St) :=
  let n := length s0 in
  if (n <=? stop (str st) - wrNext (str st))%nat
  then Ok (Z.of_nat n, put s0 st)
  else PutStr_loop (2 * n + 2) s0 n 0 st.

Definition FCGX_PutChar (c : Z) (st : St) : res (Z * St) :=
  let store st := Ok (b2z (octet c), put [octet c] st) in
  if negb (wrNext (str st) =? stop (str st))%nat then store st else
  if isClosed (str st) || isReader (str st) then Ok (EOF, st) else
  st ← EmptyBuffProc_keep st;
  if negb (wrNext (str st) =? stop (str st))%nat then store st else
  assert_ (isClosed (str st)) ;;
  Ok (EOF, st).

(** A C string is what precedes the first null character. *)
Definition c_string (s0 : bytes) : bytes := (span (λ b, negb (bool_decide (b = x00))) s0).1.

(** A length passed to [FCGX_PutStr] is converted to [int]; a negative one satisfies the
    first test of [FCGX_PutStr] and is the length of its [memcpy]. *)
Definition as_int {S} (putStr : bytes → S → res (Z * S)) (s0 : bytes) (st : S) : res (Z * S) :=
  let n := s32 (Z.of_nat (length s0)) in
  if n <? 0 then Fault OutOfBounds else putStr (take (Z.to_nat n) s0) st.

Definition FCGX_PutS (s0 : bytes) (st : St) : res (Z * St) := as_int FCGX_PutStr (c_string s0) st.

Lemma as_int_fits {S} (putStr : bytes → S → res (Z * S)) s0 st :
  Z.of_nat (length s0) < 2 ^ 31 → as_int putStr s0 st = putStr s0 st.
Proof.
intros H. unfold as_int. rewrite s32_id by lia. rewrite (proj2 (Z.ltb_ge _ _)) by lia. by rewrite Nat2Z.id, firstn_all.
Qed.

Definition WriteCloseRecords (st : St) : res St :=
  let st := on_data (set_rawWrite true) st in
  let s := str st in
  st ← (if negb ((type (data s) =? FCGI_STDERR) && (wrNext s =? 0)%nat &&
                 negb (isAnythingWritten (data s)))
        then hd ← MakeHeader (type (data s)) (requestId (req st)) 0 0;
             '(_, st) ← FCGX_PutStr hd st; Ok st
        else Ok st);
  st ← (if nWriters (req st) =? 1 then
          hd ← MakeHeader FCGI_END_REQUEST (requestId (req st)) 8 0;
          let body := MakeEndRequestBody (appStatus (req st)) FCGI_REQUEST_COMPLETE in
          '(_, st) ← FCGX_PutStr (hd ++ body) st; Ok st
        else Ok st);
  let q := req st in
  Ok (mkSt (str st) (mkReq (requestId q) (role q) (isBeginProcessed q) (keepConnection q)
                           (appStatus q) (nWriters q - 1)) (net st)).

Definition EmptyBuffProc (doClose : bool) (st : St) : res St :=
  st ← fill_header st;
  st ← (if doClose then WriteCloseRecords st else Ok st);
  Ok (flush st).

Definition FCGX_FFlush (st : St) : res (Z * St) :=
  if isClosed (str st) || isReader (str st) then Ok (0, st) else
  st ← EmptyBuffProc false st;
  Ok ((if isClosed (str st) then -1 else 0), st).

Definition FCGX_FClose (st : St) : res (Z * St) :=
  st ← (if negb (wasFCloseCalled (str st)) then
          st ← (if negb (isReader (str st)) then EmptyBuffProc true st else Ok st);
          let s := set_isClosed true (set_wasFCloseCalled true (str st)) in
          let s := if isReader s
                   then set_wrNext (rdNext s) (set_stop (rdNext s) s)
                   else set_rdNext (wrNext s) (set_stop (wrNext s) s) in
          Ok (mkSt s (req st) (net st))
        else Ok st);
  Ok ((if FCGI_errno (str st) =? 0 then 0 else EOF), st).

Definition FCGX_SetExitStatus (status : Z) (q : ReqData) : ReqData :=
  mkReq (requestId q) (role q) (isBeginProcessed q) (keepConnection q) status (nWriters q).

(** ** Construction *)

(** [NewStream]; [aligned] tells whether [malloc] returned a multiple of 8, and
    [junk] is what the memory holds. *)
Definition NewStream (aligned : bool) (junk : byte) (bufflen : Z) (isReader : bool)
    (streamType : Z) : FCGX_Stream :=
  let len := Z.to_nat (AlignInt8 (Z.min (Z.max bufflen 32) (FCGI_MAX_LENGTH + 1))) in
  let len := if aligned then len else (len - 8)%nat in
  let d := mkData (replicate len junk) len (if isReader then 0%nat else len) streamType
             false false 0 0 false false in
  if isReader
  then mkStream 0 0 0 0 true false false 0 d
  else mkStream len FCGI_HEADER_LEN len 0 false false false 0 d.

Definition NewReader aligned junk (bufflen streamType : Z) := NewStream aligned junk bufflen true streamType.
Definition NewWriter aligned junk (bufflen streamType : Z) := NewStream aligned junk bufflen false streamType.

(** The new request structure of [FCGX_CreateWriter]; its other members are not
    used by a writer. *)
Definition FCGX_CreateWriter aligned junk (id bufflen streamType : Z) (n : Net) : St :=
  mkSt (NewWriter aligned junk bufflen streamType) (mkReq id 0 false 0 0 2) n.
