(* ===== verification/FcgxWriter.v ===== *)
(** The output streams of [fcgiapp.cpp]: whatever is written to a stream, in
    whatever portions, reaches the socket as well-formed records that carry exactly
    those bytes, and closing the stream ends it as the protocol requires. *)

From Stdlib Require Import ZArith Lia Bool.
From Stdlib.Strings Require Import Byte.
From stdpp Require Import base numbers list option.
From S2P Require Import Prelude Endian CodecSpec CxxString Fcgx.
Local Open Scope Z_scope.

(** ** Reference definitions *)

Definition is_wrote (w : os_write) : Prop := match w with Wrote _ => True | WriteErr _ => False end.
Definition no_fail (n : Net) : Prop := Forall is_wrote (writes n).

(** The record for a full or flushed buffer: padded to a multiple of eight. *)
Definition pad8 (n : nat) : nat := Z.to_nat ((- Z.of_nat n) mod 8).
Definition data_rec (t id : Z) (d : bytes) : frec :=
  mkRec x01 (octet t) id d (replicate (pad8 (length d)) x00) x00.
Definition stream_end (t id : Z) : frec := mkRec x01 (octet t) id [] [] x00.
Definition request_end (id status : Z) : frec :=
  mkRec x01 x03 id (MakeEndRequestBody status FCGI_REQUEST_COMPLETE) [] x00.

(** The records that close a stream on which [d] was written. *)
Definition closing (t : Z) (q : ReqData) (d : bytes) : list frec :=
  (if (t =? FCGI_STDERR) && bool_decide (d = []) then [] else [stream_end t (requestId q)]) ++
  (if nWriters q =? 1 then [request_end (requestId q) (appStatus q)] else []).

(** ** Alignment and headers *)

Lemma land_shiftl_ones x k n :
  0 ≤ k → 0 ≤ n → 0 ≤ x < 2 ^ (k + n) →
  Z.land x (Z.shiftl (Z.ones n) k) = x / 2 ^ k * 2 ^ k.
Proof.
intros Hk Hn Hx.
assert (Z.land x (Z.shiftl (Z.ones n) k) = Z.shiftl (Z.land (Z.shiftr x k) (Z.ones n)) k) as ->.
{ apply Z.bits_inj'. intros i Hi. rewrite Z.land_spec, !Z.shiftl_spec, Z.land_spec by done.
  destruct (decide (k ≤ i)).
  - rewrite Z.shiftr_spec by lia. by replace (i - k + k) with i by lia.
  - rewrite (Z.testbit_neg_r (Z.ones n)), !andb_false_r by lia. done. }
rewrite Z.land_ones, Z.shiftr_div_pow2, Z.shiftl_mul_pow2 by done.
rewrite Z.mod_small; [done|]. split; [apply Z.div_pos; lia|].
apply Z.div_lt_upper_bound; [lia|]. rewrite <- Z.pow_add_r by done. lia.
Qed.

Lemma AlignInt8_spec n : 0 ≤ n < 2 ^ 31 - 8 → AlignInt8 n = n + (- n) mod 8.
Proof.
intros Hn. unfold AlignInt8. unfold u32. rewrite Z.mod_small by lia.
change (2 ^ 32 - 1 - 7) with (Z.shiftl (Z.ones 29) 3).
rewrite land_shiftl_ones by lia. change (2 ^ 3) with 8. unfold s32.
assert ((n + 7) / 8 * 8 = n + (- n) mod 8) as ->.
{ pose proof (Z.div_mod (n + 7) 8 ltac:(lia)). pose proof (Z.mod_pos_bound (n + 7) 8 ltac:(lia)).
  pose proof (Z.div_mod (- n) 8 ltac:(lia)). pose proof (Z.mod_pos_bound (- n) 8 ltac:(lia)). lia. }
apply swrap_small; [lia|]. pose proof (Z.mod_pos_bound (- n) 8 ltac:(lia)). lia.
Qed.

Lemma octet_mod x : octet x = z2b (x mod 256).
Proof. unfold octet. change 0xff with 255. by rewrite land_255. Qed.

Lemma be_store_octets x : be_store 2 x = [octet (Z.shiftr x 8); octet x].
Proof. reflexivity. Qed.

(** [MakeHeader] builds the first eight octets of the record. *)
Lemma MakeHeader_rec t id content padding :
  Z.of_nat (length content) ≤ FCGI_MAX_LENGTH → Z.of_nat (length padding) ≤ 255 →
  MakeHeader t id (Z.of_nat (length content)) (Z.of_nat (length padding)) =
  Ok (take 8 (encode_rec (mkRec x01 (octet t) id content padding x00))) ∧
  encode_rec (mkRec x01 (octet t) id content padding x00) =
  take 8 (encode_rec (mkRec x01 (octet t) id content padding x00)) ++ content ++ padding.
Proof.
intros Hc Hp. unfold MakeHeader. unfold assert_.
rewrite !(proj2 (Z.leb_le _ _)) by (done || lia). cbn [andb mbind res_bind].
unfold encode_rec. cbn [f_version f_type f_id f_content f_padding f_reserved].
rewrite !be_store_octets. cbn [app take]. split; [|done].
do 7 f_equal. rewrite octet_mod, Z.mod_small by lia. done.
Qed.

(** ** The write loop, for any invariant of the stream *)

Section put.
Variable I : bytes → St → Prop.
Hypothesis I_open : ∀ d st, I d st →
  isClosed (str st) = false ∧ isReader (str st) = false ∧ (wrNext (str st) ≤ stop (str st))%nat.
Hypothesis I_put : ∀ d st x, I d st → (length x ≤ stop (str st) - wrNext (str st))%nat →
  I (d ++ x) (put x st).
Hypothesis I_empty : ∀ d st, I d st → ∃ st', EmptyBuffProc_keep st = Ok st' ∧ I d st' ∧
  (wrNext (str st') < stop (str st'))%nat.

Lemma PutStr_loop_ok fuel s0 n moved d st :
  I d st → (moved < n)%nat → length s0 = (n - moved)%nat →
  (length s0 + (if wrNext (str st) =? stop (str st) then 1 else 0) < fuel)%nat →
  ∃ st', PutStr_loop fuel s0 n moved st = Ok (Z.of_nat n, st') ∧ I (d ++ s0) st'.
Proof.
revert s0 moved d st. induction fuel as [|fuel IH]; intros s0 moved d st HI Hm Hl Hf; [lia|].
cbn [PutStr_loop]. destruct (I_open d st HI) as (_ & _ & Hle).
set (m := if negb _ then _ else _).
assert (m ≤ stop (str st) - wrNext (str st) ∧ m ≤ n - moved ∧
  (m = 0 → wrNext (str st) = stop (str st)))%nat as (Hm1 & Hm2 & Hm3).
{ unfold m. destruct (Nat.eqb_spec (wrNext (str st)) (stop (str st))); cbn [negb]; lia. }
assert (I (d ++ take m s0) (put (take m s0) st)) as HI1.
{ apply I_put; [done|]. rewrite length_take. lia. }
destruct (I_open _ _ HI1) as (-> & -> & _). cbn [orb].
destruct (Nat.eqb_spec m 0) as [Hz|Hz]; cbn [negb andb].
- rewrite Hz in *. rewrite Hm3, Nat.eqb_refl in Hf by done.
  destruct (I_empty _ _ HI1) as (st2 & -> & HI2 & Hroom). cbn [mbind res_bind].
  rewrite drop_0, Nat.add_0_r. cbn [take] in HI2. rewrite app_nil_r in HI2.
  apply IH; [done|done|done|]. destruct (Nat.eqb_spec (wrNext (str st2)) (stop (str st2))); lia.
- destruct (Nat.eqb_spec (moved + m) n) as [He|He].
  + exists (put (take m s0) st). rewrite He. split; [done|]. by rewrite take_ge in HI1 |- * by lia.
  + destruct (I_empty _ _ HI1) as (st2 & -> & HI2 & Hroom). cbn [mbind res_bind].
    destruct (IH (drop m s0) (moved + m)%nat (d ++ take m s0) st2) as (st' & E & HI');
      [done|lia|rewrite length_drop; lia| |].
    { destruct (Nat.eqb_spec (wrNext (str st2)) (stop (str st2))); [lia|]. rewrite length_drop. lia. }
    exists st'. split; [done|]. by rewrite <- app_assoc, take_drop in HI'.
Qed.

Lemma PutStr_ok s0 d st :
  I d st → ∃ st', FCGX_PutStr s0 st = Ok (Z.of_nat (length s0), st') ∧ I (d ++ s0) st'.
Proof.
intros HI. unfold FCGX_PutStr. destruct (Nat.leb_spec (length s0) (stop (str st) - wrNext (str st))).
- eexists. split; [done|]. by apply I_put.
- apply PutStr_loop_ok; [done|lia|lia|]. destruct (_ =? _)%nat; lia.
Qed.

Lemma PutChar_ok c d st :
  I d st → ∃ st', FCGX_PutChar c st = Ok (b2z (octet c), st') ∧ I (d ++ [octet c]) st'.
Proof.
intros HI. unfold FCGX_PutChar. destruct (I_open d st HI) as (-> & -> & Hle).
destruct (Nat.eqb_spec (wrNext (str st)) (stop (str st))) as [E|E]; cbn [negb orb].
- destruct (I_empty _ _ HI) as (st' & -> & HI' & Hroom). cbn [mbind res_bind].
  rewrite (proj2 (Nat.eqb_neq _ _)) by lia. cbn [negb]. eexists. split; [done|].
  apply I_put; [done|]. cbn [length]. lia.
- eexists. split; [done|]. apply I_put; [done|]. cbn [length]. lia.
Qed.
End put.

(** ** The socket *)

Lemma write_it_all_ok ws buf :
  Forall is_wrote ws → ∃ ws', write_it_all ws buf = (None, ws', buf) ∧ Forall is_wrote ws'.
Proof.
intros Hw. revert buf. induction Hw as [|w ws Hw Hws IH]; intros [|b buf]; cbn [write_it_all];
  try by eexists.
- eexists. split; [done|]. by constructor.
- destruct w as [n|]; [|done]. destruct (IH (drop n (b :: buf))) as (ws' & -> & ?).
  exists ws'. by rewrite take_drop.
Qed.

Lemma net_write_ok n buf :
  no_fail n → ∃ n', net_write n buf = (None, n') ∧ no_fail n' ∧ sent n' = sent n ++ buf ∧
    reads n' = reads n.
Proof.
intros Hn. unfold net_write. destruct (write_it_all_ok (writes n) buf Hn) as (ws' & -> & ?).
by eexists.
Qed.

(** ** An open writer *)

Record writer (st : St) : Prop := {
  w_reader : isReader (str st) = false;
  w_open : isClosed (str st) = false;
  w_notclosed : wasFCloseCalled (str st) = false;
  w_errno : FCGI_errno (str st) = 0;
  w_raw : rawWrite (data (str st)) = false;
  w_len : length (buff (data (str st))) = stop (str st);
  w_mod : Z.of_nat (stop (str st)) mod 8 = 0;
  w_min : (24 ≤ stop (str st))%nat;
  w_max : Z.of_nat (stop (str st)) ≤ 65536;
  w_next : (8 ≤ wrNext (str st) ≤ stop (str st))%nat;
  w_net : no_fail (net st);
}.

Definition pending (st : St) : bytes := slice 8 (wrNext (str st) - 8) (buff (data (str st))).

(** The bytes a flush sends. *)
Definition flushed (st : St) : bytes :=
  match pending st with
  | [] => []
  | _ => encode_rec (data_rec (type (data (str st))) (requestId (req st)) (pending st))
  end.

Lemma length_pending st : writer st → length (pending st) = (wrNext (str st) - 8)%nat.
Proof. intros [? ? ? ? ? ? ? ? ? [? ?] ?]. unfold pending. apply length_slice. lia. Qed.

Lemma length_encode r :
  length (encode_rec r) = (8 + length (f_content r) + length (f_padding r))%nat.
Proof. unfold encode_rec. rewrite be_store_octets. cbn. rewrite length_app. lia. Qed.

Lemma pad8_spec n : (pad8 n < 8)%nat ∧ (Z.of_nat n + Z.of_nat (pad8 n)) mod 8 = 0.
Proof.
unfold pad8. pose proof (Z.mod_pos_bound (- Z.of_nat n) 8 ltac:(lia)). split; [lia|].
rewrite Z2Nat.id by lia. rewrite Z.add_mod_idemp_r by lia. by rewrite Z.add_opp_diag_r.
Qed.

(** The whole record fits the buffer. *)
Lemma record_fits st : writer st → (wrNext (str st) + pad8 (wrNext (str st) - 8) ≤ stop (str st))%nat.
Proof.
intros [_ _ _ _ _ _ Hmod Hmin _ [Hn1 Hn2] _].
destruct (pad8_spec (wrNext (str st) - 8)) as [Hp Hpm].
rewrite Nat2Z.inj_sub in Hpm by lia.
set (a := Z.of_nat (wrNext (str st))) in *. set (p := Z.of_nat (pad8 _)) in *.
set (z := Z.of_nat (stop (str st))) in *.
assert ((a + p) mod 8 = 0).
{ replace (a + p) with (a - 8 + p + 1 * 8) by lia. rewrite Z.mod_add by lia. done. }
pose proof (Z.div_mod (a + p) 8 ltac:(lia)). pose proof (Z.div_mod z 8 ltac:(lia)).
assert (a ≤ z) by lia. assert (p < 8) by lia.
assert (a + p ≤ z) by lia. lia.
Qed.

Lemma take_record b w k hd :
  length hd = 8%nat → (8 ≤ w)%nat → (w + k ≤ length b)%nat →
  take (w + k) (overwrite 0 hd (overwrite w (replicate k x00) b)) =
  hd ++ slice 8 (w - 8) b ++ replicate k x00.
Proof.
intros Hh Hw Hk. unfold overwrite. cbn [take Nat.add app]. rewrite Hh, length_replicate.
rewrite take_0. cbn [app]. rewrite take_app, Hh. rewrite (take_ge hd) by lia. f_equal.
rewrite drop_app_le by (rewrite length_take; lia).
rewrite skipn_firstn_comm. fold (slice 8 (w - 8) b).
rewrite take_app, length_slice by lia.
rewrite take_ge by (rewrite length_slice by lia; lia). f_equal.
replace (w + k - 8 - (w - 8))%nat with k by lia.
rewrite take_app_le by (rewrite length_replicate; lia). by rewrite take_ge by (rewrite length_replicate; lia).
Qed.

Lemma fill_header_ok st :
  writer st →
  ∃ b, fill_header st =
    Ok (on_str (λ s, set_wrNext (length (flushed st)) (set_data (set_buff b) s)) st) ∧
    length b = stop (str st) ∧ take (length (flushed st)) b = flushed st ∧
    (length (flushed st) ≤ stop (str st))%nat.
Proof.
intros Hw. pose proof (length_pending st Hw) as Hlp. pose proof (record_fits st Hw) as Hfit.
destruct Hw as [H1 H2 H3 H4 H5 H6 H7 H8 H9 [Hn1 Hn2] H10].
unfold fill_header. rewrite H5. cbn [negb].
set (w := wrNext (str st)) in *.
replace (Z.of_nat w - Z.of_nat FCGI_HEADER_LEN) with (Z.of_nat (w - 8)) by (unfold FCGI_HEADER_LEN; lia).
destruct (Z.ltb_spec 0 (Z.of_nat (w - 8))) as [Hpos|Hz].
2: { assert (pending st = []) as E by (apply nil_length_inv; lia).
     exists (buff (data (str st))). unfold flushed. rewrite E. cbn [length]. rewrite take_0.
     split_and!; [|done|done|lia]. f_equal. destruct st as [[? ? ? ? ? ? ? ? []] ? ?]; done. }
rewrite AlignInt8_spec by lia.
replace (Z.of_nat (w - 8) + (- Z.of_nat (w - 8)) mod 8 - Z.of_nat (w - 8))
  with (Z.of_nat (pad8 (w - 8)))
  by (unfold pad8; rewrite Z2Nat.id by (apply Z.mod_pos_bound; lia); lia).
rewrite Nat2Z.id. rewrite (proj2 (Nat.leb_le _ _)) by lia.
destruct (pending st) as [|x p] eqn:Ep; [cbn in Hlp; lia|].
assert (flushed st = encode_rec (data_rec (type (data (str st))) (requestId (req st)) (pending st)))
  as Ef by (unfold flushed; by rewrite Ep).
rewrite <- Ep in *. clear x p Ep.
destruct (MakeHeader_rec (type (data (str st))) (requestId (req st)) (pending st)
  (replicate (pad8 (w - 8)) x00)) as [Eh Ee].
{ unfold FCGI_MAX_LENGTH. lia. }
{ rewrite length_replicate. destruct (pad8_spec (w - 8)). lia. }
rewrite length_replicate, Hlp in Eh. rewrite Eh. cbn [mbind res_bind].
assert (length (flushed st) = (w + pad8 (w - 8))%nat) as El.
{ rewrite Ef, length_encode. cbn [data_rec f_content f_padding]. rewrite length_replicate, Hlp. lia. }
set (hd := take 8 _) in *.
assert (length hd = 8%nat) as Hhd by (unfold hd; rewrite length_take, length_encode; lia).
exists (overwrite 0 hd (overwrite w (replicate (pad8 (w - 8)) x00) (buff (data (str st))))).
rewrite El. split; [done|]. rewrite length_overwrite, length_overwrite;
  [|rewrite length_replicate; lia|rewrite length_overwrite; rewrite ?length_replicate; lia].
split; [done|]. split; [|lia]. rewrite take_record by (done || lia).
rewrite Ef. unfold data_rec. rewrite Hlp, Ee. done.
Qed.

(** What a writer of type [t] has done since the socket had sent [s0]: [d] was
    written to it, some of it has left in records, the rest is pending. *)
Record wrote (t : Z) (q : ReqData) (rd : list os_read) (s0 d : bytes) (st : St) : Prop := {
  wr_writer : writer st;
  wr_type : type (data (str st)) = t;
  wr_req : req st = q;
  wr_reads : reads (net st) = rd;
  wr_log : ∃ ds, Forall (λ x, x ≠ [] ∧ Z.of_nat (length x) ≤ FCGI_MAX_LENGTH) ds ∧
    sent (net st) = s0 ++ concat (encode_rec <$> (data_rec t (requestId q) <$> ds)) ∧
    concat ds ++ pending st = d ∧
    (isAnythingWritten (data (str st)) = false ↔ ds = []);
}.

Lemma pending_bound st : writer st → Z.of_nat (length (pending st)) ≤ FCGI_MAX_LENGTH.
Proof.
intros Hw. rewrite length_pending by done. destruct Hw. unfold FCGI_MAX_LENGTH. lia.
Qed.

(** The log with the pending bytes as one more record, if there are any. *)
Lemma log_flushed t q rd s0 d st :
  wrote t q rd s0 d st →
  ∃ ds, Forall (λ x, x ≠ [] ∧ Z.of_nat (length x) ≤ FCGI_MAX_LENGTH) ds ∧
    sent (net st) ++ flushed st = s0 ++ concat (encode_rec <$> (data_rec t (requestId q) <$> ds)) ∧
    concat ds = d ∧
    (isAnythingWritten (data (str st)) || negb (bool_decide (flushed st = [])) = false ↔ ds = []).
Proof.
intros [Hw Ht Hq Hr (ds & Hds & Hs & Hd & Ha)]. unfold flushed.
destruct (pending st) as [|x p] eqn:Ep.
- exists ds. rewrite app_nil_r in Hd. rewrite app_nil_r. split_and!; [done..|].
  by rewrite bool_decide_true, orb_false_r by done.
- exists (ds ++ [x :: p]). split_and!.
  + apply Forall_app. split; [done|]. repeat constructor; [done|]. rewrite <- Ep. by apply pending_bound.
  + rewrite Hs, !fmap_app, concat_app. cbn [fmap list_fmap concat]. by rewrite Ht, Hq, app_nil_r, <- app_assoc.
  + rewrite concat_app. cbn [concat]. by rewrite app_nil_r.
  + unfold encode_rec. rewrite bool_decide_false by done. rewrite orb_true_r.
    split; [done|]. intros E. by destruct ds.
Qed.

Lemma keep_ok t q rd s0 d st :
  wrote t q rd s0 d st →
  ∃ st', EmptyBuffProc_keep st = Ok st' ∧ wrote t q rd s0 d st' ∧
    pending st' = [] ∧ (wrNext (str st') < stop (str st'))%nat.
Proof.
intros Hwr. pose proof (log_flushed _ _ _ _ _ _ Hwr) as (ds & Hds & Hs & Hd & Ha).
destruct Hwr as [Hw Ht Hq Hr _].
destruct (fill_header_ok st Hw) as (b & E & Hlb & Htb & Hle).
unfold EmptyBuffProc_keep. rewrite E. cbn [mbind res_bind].
destruct Hw as [W1 W2 W3 W4 W5 W6 W7 W8 W9 W10 W11].
unfold flush. cbn [str on_str wrNext set_wrNext set_data data set_buff buff req net].
destruct (Nat.eqb_spec (length (flushed st)) 0) as [Ez|Ez]; cbn [negb].
- apply nil_length_inv in Ez. rewrite Ez, app_nil_r in *. rewrite bool_decide_true, orb_false_r in Ha by done.
  eexists. split; [done|].
  cbn [str on_str wrNext set_wrNext set_data data set_buff buff req net rawWrite]. rewrite W5.
  cbn [negb length Nat.add]. unfold FCGI_HEADER_LEN. split_and!.
  + split; [split; cbn; (done || lia)|done..|]. exists ds. split_and!; [done|done| |done].
    unfold pending. cbn. by rewrite ?slice_0, ?take_0, app_nil_r.
  + done.
  + cbn. lia.
- destruct (net_write_ok (net st) (flushed st) W11) as (n' & En & Hn' & Hsn & Hrn).
  rewrite Htb, En. eexists. split; [done|].
  cbn [str on_str wrNext set_wrNext set_data data set_buff buff req net rawWrite set_isAnythingWritten].
  rewrite W5. cbn [negb Nat.add]. unfold FCGI_HEADER_LEN.
  rewrite bool_decide_false, orb_true_r in Ha by (intros X; by rewrite X in Ez). split_and!.
  + split; [split; cbn; (done || lia)|done|done|cbn; congruence|]. exists ds. cbn.
    rewrite Hsn. split_and!; [done|done| |done]. unfold pending. cbn. by rewrite ?slice_0, ?take_0, app_nil_r.
  + done.
  + cbn. lia.
Qed.

Lemma put_ok t q rd s0 d st x :
  wrote t q rd s0 d st → (length x ≤ stop (str st) - wrNext (str st))%nat →
  wrote t q rd s0 (d ++ x) (put x st).
Proof.
intros [[W1 W2 W3 W4 W5 W6 W7 W8 W9 W10 W11] Ht Hq Hr (ds & Hds & Hs & Hd & Ha)] Hx.
assert (length (overwrite (wrNext (str st)) x (buff (data (str st)))) = stop (str st)) as Hl.
{ rewrite length_overwrite; [done|]. lia. }
split; [split; cbn; (done || lia)|done|done|done|].
exists ds. split_and!; [done|done| |done]. rewrite <- Hd, <- app_assoc. f_equal.
unfold pending, put. cbn [str on_str wrNext set_wrNext set_data data set_buff buff].
replace (wrNext (str st) + length x - 8)%nat with (wrNext (str st) - 8 + length x)%nat by lia.
apply slice_overwrite_adj; lia.
Qed.

Lemma wrote_open t q rd s0 d st :
  wrote t q rd s0 d st →
  isClosed (str st) = false ∧ isReader (str st) = false ∧ (wrNext (str st) ≤ stop (str st))%nat.
Proof. intros [[? ? ? ? ? ? ? ? ? [? ?] ?] ? ? ? ?]. done. Qed.

Lemma keep_room t q rd s0 d st :
  wrote t q rd s0 d st → ∃ st', EmptyBuffProc_keep st = Ok st' ∧ wrote t q rd s0 d st' ∧
    (wrNext (str st') < stop (str st'))%nat.
Proof. intros H. destruct (keep_ok _ _ _ _ _ _ H) as (st' & ? & ? & _ & ?). by exists st'. Qed.

(** ** Closing *)

(** A writer in raw mode: nothing is wrapped any more. *)
Record raw (t : Z) (q : ReqData) (rd : list os_read) (out : bytes) (st : St) : Prop := {
  r_reader : isReader (str st) = false;
  r_open : isClosed (str st) = false;
  r_errno : FCGI_errno (str st) = 0;
  r_raw : rawWrite (data (str st)) = true;
  r_len : length (buff (data (str st))) = stop (str st);
  r_min : (24 ≤ stop (str st))%nat;
  r_next : (wrNext (str st) ≤ stop (str st))%nat;
  r_net : no_fail (net st);
  r_type : type (data (str st)) = t;
  r_req : req st = q;
  r_reads : reads (net st) = rd;
  r_out : sent (net st) ++ take (wrNext (str st)) (buff (data (str st))) = out;
}.

Lemma raw_put t q rd out st x :
  raw t q rd out st → (length x ≤ stop (str st) - wrNext (str st))%nat →
  raw t q rd (out ++ x) (put x st).
Proof.
intros [R1 R2 R3 R4 R5 R6 R7 R8 R9 R10 R11 R12] Hx.
assert (length (overwrite (wrNext (str st)) x (buff (data (str st)))) = stop (str st)) as Hl.
{ rewrite length_overwrite; [done|]. lia. }
split; try (cbn; (done || lia)). cbn. rewrite <- R12, <- app_assoc. f_equal.
pose proof (slice_overwrite_adj (wrNext (str st)) x (buff (data (str st))) 0 (wrNext (str st)))
  as Hsl. unfold slice in Hsl. rewrite !drop_0 in Hsl. apply Hsl; lia.
Qed.

Lemma raw_flush t q rd out st :
  raw t q rd out st →
  raw t q rd out (flush st) ∧ wrNext (str (flush st)) = 0%nat ∧
  wasFCloseCalled (str (flush st)) = wasFCloseCalled (str st).
Proof.
intros [R1 R2 R3 R4 R5 R6 R7 R8 R9 R10 R11 R12]. unfold flush.
destruct (Nat.eqb_spec (wrNext (str st)) 0) as [E|E]; cbn [negb].
{ rewrite R4. cbn [negb]. by split_and!. }
destruct (net_write_ok (net st) (take (wrNext (str st)) (buff (data (str st)))) R8)
  as (n' & -> & Hn & Hs & Hr).
cbn [str on_str set_data set_isAnythingWritten data rawWrite set_wrNext]. rewrite R4. cbn [negb].
split_and!; [|done|done]. split; cbn; try (done || lia).
- congruence.
- by rewrite take_0, app_nil_r, Hs.
Qed.

Lemma raw_keep t q rd out st :
  raw t q rd out st → ∃ st', EmptyBuffProc_keep st = Ok st' ∧ raw t q rd out st' ∧
    (wrNext (str st') < stop (str st'))%nat.
Proof.
intros HR. exists (flush st). destruct (raw_flush _ _ _ _ _ HR) as (HR' & Hw & _).
split; [|split; [done|]].
- unfold EmptyBuffProc_keep, fill_header. destruct HR as [_ _ _ -> _ _ _ _ _ _ _ _]. done.
- rewrite Hw. destruct HR'. lia.
Qed.

Lemma raw_open t q rd out st :
  raw t q rd out st →
  isClosed (str st) = false ∧ isReader (str st) = false ∧ (wrNext (str st) ≤ stop (str st))%nat.
Proof. intros []. done. Qed.

Lemma raw_PutStr t q rd out st x :
  raw t q rd out st →
  ∃ st', FCGX_PutStr x st = Ok (Z.of_nat (length x), st') ∧ raw t q rd (out ++ x) st'.
Proof.
apply (PutStr_ok (raw t q rd)); [apply raw_open|apply raw_put|apply raw_keep].
Qed.

Lemma stream_end_header t id : MakeHeader t id 0 0 = Ok (encode_rec (stream_end t id)).
Proof.
destruct (MakeHeader_rec t id [] []) as [E E']; [done..|]. cbn [app] in E'.
rewrite app_nil_r in E'. change (Z.of_nat (length (@nil byte))) with 0 in E.
unfold stream_end. rewrite E. by rewrite <- E'.
Qed.

Lemma request_end_record id status :
  ∃ hd, MakeHeader FCGI_END_REQUEST id 8 0 = Ok hd ∧
    hd ++ MakeEndRequestBody status FCGI_REQUEST_COMPLETE = encode_rec (request_end id status).
Proof.
destruct (MakeHeader_rec FCGI_END_REQUEST id (MakeEndRequestBody status FCGI_REQUEST_COMPLETE) [])
  as [E E']; [done..|]. eexists. split; [exact E|]. by rewrite app_nil_r in E'.
Qed.

(** The first half of [WriteCloseRecords]. *)
Lemma close_stream st t q rd out (omit : bool) :
  raw t q rd out st →
  ∃ st', (if negb omit
          then hd ← MakeHeader (type (data (str st))) (requestId (req st)) 0 0;
               '(_, st) ← FCGX_PutStr hd st; Ok st
          else Ok st) = Ok st' ∧
    raw t q rd (out ++ (if omit then [] else encode_rec (stream_end t (requestId q)))) st'.
Proof.
intros HR. destruct omit; cbn [negb]; [exists st; by rewrite app_nil_r|].
assert (type (data (str st)) = t ∧ req st = q) as [-> ->] by (by destruct HR).
rewrite stream_end_header. cbn [mbind res_bind].
destruct (raw_PutStr _ _ _ _ _ (encode_rec (stream_end t (requestId q))) HR) as (st1 & -> & HR1).
by exists st1.
Qed.

(** The second half. *)
Lemma close_request st t q rd out :
  raw t q rd out st →
  ∃ st', (if nWriters (req st) =? 1 then
            hd ← MakeHeader FCGI_END_REQUEST (requestId (req st)) 8 0;
            '(_, st) ← FCGX_PutStr
              (hd ++ MakeEndRequestBody (appStatus (req st)) FCGI_REQUEST_COMPLETE) st;
            Ok st
          else Ok st) = Ok st' ∧
    raw t q rd (out ++ (if nWriters q =? 1 then encode_rec (request_end (requestId q) (appStatus q))
                        else [])) st'.
Proof.
intros HR. assert (req st = q) as -> by (by destruct HR).
destruct (nWriters q =? 1); [|exists st; by rewrite app_nil_r].
destruct (request_end_record (requestId q) (appStatus q)) as (hd & -> & Eb).
cbn [mbind res_bind]. rewrite Eb.
destruct (raw_PutStr _ _ _ _ _ (encode_rec (request_end (requestId q) (appStatus q))) HR)
  as (st1 & -> & HR1). by exists st1.
Qed.

(** One writer less. *)
Definition less_writer (q : ReqData) : ReqData :=
  mkReq (requestId q) (role q) (isBeginProcessed q) (keepConnection q) (appStatus q) (nWriters q - 1).

Lemma WriteCloseRecords_ok st t q rd out :
  raw t q rd out (on_data (set_rawWrite true) st) →
  ∃ st', WriteCloseRecords st = Ok st' ∧
    raw t (less_writer q) rd
      (out ++ (if (t =? FCGI_STDERR) && (wrNext (str st) =? 0)%nat &&
                  negb (isAnythingWritten (data (str st)))
               then [] else encode_rec (stream_end t (requestId q))) ++
       (if nWriters q =? 1 then encode_rec (request_end (requestId q) (appStatus q)) else [])) st'.
Proof.
intros HR. unfold WriteCloseRecords. set (st0 := on_data _ st) in *.
assert (type (data (str st0)) = t) as Ht by (by destruct HR).
destruct (close_stream _ _ _ _ _ ((type (data (str st0)) =? FCGI_STDERR) &&
  (wrNext (str st0) =? 0)%nat && negb (isAnythingWritten (data (str st0)))) HR) as (st1 & -> & HR1).
cbn [mbind res_bind]. destruct (close_request _ _ _ _ _ HR1) as (st2 & -> & HR2).
cbn [mbind res_bind]. rewrite Ht in HR2. eexists. split; [done|].
rewrite <- app_assoc in HR2. destruct HR2 as [? ? ? ? ? ? ? ? ? Hq ? ?]. unfold less_writer.
rewrite Hq. by split.
Qed.

Lemma FClose_ok t q rd s0 d st :
  wrote t q rd s0 d st →
  ∃ st' ds, FCGX_FClose st = Ok (0, st') ∧
    Forall (λ x, x ≠ [] ∧ Z.of_nat (length x) ≤ FCGI_MAX_LENGTH) ds ∧ concat ds = d ∧
    sent (net st') =
      s0 ++ concat (encode_rec <$> ((data_rec t (requestId q) <$> ds) ++ closing t q d)) ∧
    isClosed (str st') = true ∧ FCGI_errno (str st') = 0 ∧
    wasFCloseCalled (str st') = true ∧
    req st' = less_writer q ∧ no_fail (net st') ∧ reads (net st') = rd.
Proof.
intros Hwr. pose proof (log_flushed _ _ _ _ _ _ Hwr) as (ds & Hds & Hs & Hd & Ha).
destruct Hwr as [Hw Ht Hq Hr _].
destruct (fill_header_ok st Hw) as (b & Ef & Hlb & Htb & Hle).
destruct Hw as [W1 W2 W3 W4 W5 W6 W7 W8 W9 W10 W11].
unfold FCGX_FClose. rewrite W3, W1. cbn [negb]. unfold EmptyBuffProc. rewrite Ef.
cbn [mbind res_bind].
set (st1 := on_str _ st).
assert (raw t q rd (sent (net st) ++ flushed st) (on_data (set_rawWrite true) st1)) as HR.
{ split; cbn; try (done || lia). by rewrite Htb. }
destruct (WriteCloseRecords_ok st1 t q rd _ HR) as (st2 & -> & HR2). cbn [mbind res_bind].
destruct (raw_flush _ _ _ _ _ HR2) as (HR3 & Hw0 & _).
assert (isReader (str (flush st2)) = false) as HrF by (by destruct HR3).
cbn [isReader set_isClosed set_wasFCloseCalled]. rewrite HrF.
destruct HR3 as [F1 F2 F3 F4 F5 F6 F7 F8 F9 F10 F11 F12].
eexists _, ds. cbn [str FCGI_errno set_rdNext set_stop set_isClosed set_wasFCloseCalled]. rewrite F3.
split; [done|]. cbn [str net req isClosed wasFCloseCalled set_rdNext set_stop set_isClosed
  set_wasFCloseCalled FCGI_errno].
split_and!; try done. rewrite Hw0, take_0, app_nil_r in F12. rewrite F12, Hs, fmap_app, concat_app, <- app_assoc.
f_equal. f_equal. unfold closing. rewrite fmap_app, concat_app.
assert ((wrNext (str st1) =? 0)%nat && negb (isAnythingWritten (data (str st1))) =
  bool_decide (d = [])) as Hcond.
{ change (wrNext (str st1)) with (length (flushed st)).
  change (isAnythingWritten (data (str st1))) with (isAnythingWritten (data (str st))).
  destruct (bool_decide_reflect (d = [])) as [->|Hne].
  - assert (ds = []) as ->.
    { destruct ds as [|x ds]; [done|]. apply Forall_cons_1 in Hds as [[Hx _] _].
      cbn in Hd. apply app_eq_nil in Hd as [-> _]. done. }
    pose proof (proj2 Ha eq_refl) as E. apply orb_false_iff in E as [-> E].
    apply negb_false_iff, bool_decide_eq_true in E. by rewrite E.
  - apply not_true_iff_false. intros E. apply andb_true_iff in E as [E1 E2].
    apply Nat.eqb_eq, nil_length_inv in E1. apply negb_true_iff in E2. apply Hne.
    rewrite E1, bool_decide_true, E2 in Ha by done. by rewrite <- Hd, (proj1 Ha eq_refl). }
rewrite <- andb_assoc, Hcond.
destruct ((t =? FCGI_STDERR) && bool_decide (d = [])), (nWriters q =? 1);
  cbn [fmap list_fmap concat]; by rewrite ?app_nil_r.
Qed.

(** ** A whole stream *)

Lemma NewWriter_ok aligned junk len t q n :
  no_fail n → wrote t q (reads n) (sent n) [] (mkSt (NewWriter aligned junk len t) q n).
Proof.
intros Hn. unfold NewWriter, NewStream.
set (z := Z.min (Z.max len 32) (FCGI_MAX_LENGTH + 1)).
assert (32 ≤ z ≤ 65536) as Hz by (unfold z, FCGI_MAX_LENGTH; lia).
rewrite AlignInt8_spec by lia. pose proof (Z.mod_pos_bound (- z) 8 ltac:(lia)) as Hp.
assert ((z + (- z) mod 8) mod 8 = 0) as Hm
  by (rewrite Z.add_mod_idemp_r by lia; by rewrite Z.add_opp_diag_r).
assert (z + (- z) mod 8 ≤ 65536) as Hle.
{ pose proof (Z.div_mod (z + (- z) mod 8) 8 ltac:(lia)). lia. }
set (k := Z.to_nat _). assert (Z.of_nat k = z + (- z) mod 8) as Hk by (unfold k; lia).
assert (∀ l, (24 ≤ l)%nat → Z.of_nat l mod 8 = 0 → Z.of_nat l ≤ 65536 →
  wrote t q (reads n) (sent n) [] (mkSt (mkStream l FCGI_HEADER_LEN l 0 false false false 0
    (mkData (replicate l junk) l l t false false 0 0 false false)) q n)) as Hgen.
{ intros l Hl Hlm Hl2. split; [|done|done|done|].
  - split; cbn; try done; [by rewrite length_replicate|unfold FCGI_HEADER_LEN; lia].
  - exists []. split_and!; [constructor|cbn; by rewrite app_nil_r| |done].
    unfold pending. cbn. by rewrite ?slice_0, ?take_0. }
destruct aligned; apply Hgen; rewrite ?Nat2Z.inj_sub, ?Hk by lia; try lia.
change (Z.of_nat 8) with (1 * 8). by rewrite Zminus_mod, Z.mod_mul, Hm by lia.
Qed.

(** Calls of an application on an output stream. *)
Inductive wcall := PutChar (c : Z) | PutStr (s : bytes) | PutS (s : bytes) | Flush.

Definition call (c : wcall) (st : St) : res (Z * St) :=
  match c with
  | PutChar c => FCGX_PutChar c st
  | PutStr s => FCGX_PutStr s st
  | PutS s => FCGX_PutS s st
  | Flush => FCGX_FFlush st
  end.

Fixpoint calls (cs : list wcall) (st : St) : res St :=
  match cs with
  | [] => Ok st
  | c :: cs => '(_, st) ← call c st; calls cs st
  end.

(** The bytes a call means to write. *)
Definition meant (c : wcall) : bytes :=
  match c with
  | PutChar c => [octet c]
  | PutStr s => s
  | PutS s => c_string s
  | Flush => []
  end.

(** The length of the text of [FCGX_PutS] is an [int]. *)
Definition wcall_fits (c : wcall) : Prop :=
  match c with PutS s => Z.of_nat (length (c_string s)) < 2 ^ 31 | _ => True end.

Lemma wcall_ok t q rd s0 d st c :
  wrote t q rd s0 d st → wcall_fits c → ∃ r st', call c st = Ok (r, st') ∧ wrote t q rd s0 (d ++ meant c) st'.
Proof.
intros Hw Hf. destruct c as [c|s|s|]; cbn [call meant].
- destruct (PutChar_ok (wrote t q rd s0) (wrote_open t q rd s0) (put_ok t q rd s0)
    (keep_room t q rd s0) c d st Hw) as (st' & -> & ?). by eexists _, _.
- destruct (PutStr_ok (wrote t q rd s0) (wrote_open t q rd s0) (put_ok t q rd s0)
    (keep_room t q rd s0) s d st Hw) as (st' & -> & ?). by eexists _, _.
- destruct (PutStr_ok (wrote t q rd s0) (wrote_open t q rd s0) (put_ok t q rd s0)
    (keep_room t q rd s0) (c_string s) d st Hw) as (st' & E & ?). unfold FCGX_PutS. rewrite as_int_fits, E by done.
  by eexists _, _.
- unfold FCGX_FFlush. destruct (wrote_open _ _ _ _ _ _ Hw) as (-> & -> & _). cbn [orb].
  destruct (keep_ok _ _ _ _ _ _ Hw) as (st' & E & Hw' & _). unfold EmptyBuffProc_keep in E.
  unfold EmptyBuffProc. destruct (fill_header st) as [st1|]; [|done]. cbn [mbind res_bind] in *.
  injection E as ->. eexists _, _. split; [done|]. by rewrite app_nil_r.
Qed.

Lemma calls_ok t q rd s0 d st cs :
  wrote t q rd s0 d st → Forall wcall_fits cs →
  ∃ st', calls cs st = Ok st' ∧ wrote t q rd s0 (d ++ concat (meant <$> cs)) st'.
Proof.
revert d st. induction cs as [|c cs IH]; intros d st Hw Hf; cbn [calls fmap list_fmap concat].
{ exists st. by rewrite app_nil_r. }
apply Forall_cons_1 in Hf as [Hc Hf]. destruct (wcall_ok _ _ _ _ _ _ c Hw Hc) as (r & st1 & -> & Hw1). cbn [mbind res_bind].
destruct (IH _ _ Hw1 Hf) as (st' & -> & ?). exists st'. by rewrite app_assoc.
Qed.

Lemma data_rec_ok t id d :
  0 ≤ id < 2 ^ 16 → Z.of_nat (length d) ≤ FCGI_MAX_LENGTH → frec_ok (data_rec t id d).
Proof.
intros Hid Hd. unfold frec_ok, data_rec. cbn. rewrite length_replicate.
destruct (pad8_spec (length d)). unfold FCGI_MAX_LENGTH in Hd. lia.
Qed.

Lemma closing_ok t q d : 0 ≤ requestId q < 2 ^ 16 → Forall frec_ok (closing t q d).
Proof.
intros Hid. unfold closing. apply Forall_app. split; case_match; repeat constructor;
  unfold frec_ok; cbn; lia.
Qed.

(** Splitting what a closed writer sent. *)
Lemma split_closed t q ds d :
  0 ≤ requestId q < 2 ^ 16 → Forall (λ x, x ≠ [] ∧ Z.of_nat (length x) ≤ FCGI_MAX_LENGTH) ds →
  split_records (concat (encode_rec <$> ((data_rec t (requestId q) <$> ds) ++ closing t q d))) =
  ((data_rec t (requestId q) <$> ds) ++ closing t q d, []).
Proof.
intros Hid Hds. rewrite <- (app_nil_r (concat _)), split_encode.
- change (split_records []) with (@nil frec, @nil byte). cbn iota. by rewrite app_nil_r.
- apply Forall_app. split; [|by apply closing_ok]. apply Forall_fmap.
  eapply Forall_impl; [|exact Hds]. intros x [_ Hx]. by apply data_rec_ok.
Qed.

(** C7: An output stream delivers exactly what was written to it.  For a new
    writer of any type and buffer size, any sequence of writes and flushes, and
    a socket that accepts the data in any portions, the bytes sent up to and
    including the close are a sequence of records of the stream, each non-empty,
    within the protocol's limit and padded to a multiple of eight, whose contents
    concatenated are the written bytes, followed by the end-of-stream record
    (omitted for an error stream that was never used) and, for the last writer of
    the request, by the end-request record with the exit status.  A text written with
    [FCGX_PutS] is shorter than 2 GiB, its length being passed on as an [int]. *)
Theorem writer_stream aligned junk len t q n cs :
  0 ≤ requestId q < 2 ^ 16 → no_fail n → Forall wcall_fits cs →
  ∃ st st' ds wire,
    calls cs (mkSt (NewWriter aligned junk len t) q n) = Ok st ∧
    FCGX_FClose st = Ok (0, st') ∧ sent (net st') = sent n ++ wire ∧
    split_records wire =
      ((data_rec t (requestId q) <$> ds) ++ closing t q (concat (meant <$> cs)), []) ∧
    concat ds = concat (meant <$> cs) ∧
    Forall (λ x, x ≠ [] ∧ Z.of_nat (length x) ≤ FCGI_MAX_LENGTH) ds.
Proof.
intros Hid Hn Hf. pose proof (NewWriter_ok aligned junk len t q n Hn) as Hw.
destruct (calls_ok _ _ _ _ _ _ cs Hw Hf) as (st & E & Hw'). cbn [app] in Hw'.
destruct (FClose_ok _ _ _ _ _ _ Hw') as (st' & ds & Ec & Hds & Hd & Hs & _).
exists st, st', ds. eexists. split_and!; [done|done|exact Hs| |done|done].
by apply split_closed.
Qed.

Lemma writer_stream_witness :
  ∃ st st' ds wire,
    calls [PutStr [x61; x62]; Flush; PutChar 99]
      (mkSt (NewWriter true x00 8192 FCGI_STDOUT) (mkReq 1 1 true 0 7 1)
        (mkNet [] [Wrote 3; Wrote 0] [])) = Ok st ∧
    FCGX_FClose st = Ok (0, st') ∧ sent (net st') = [] ++ wire ∧
    split_records wire =
      ((data_rec FCGI_STDOUT 1 <$> ds) ++ [stream_end FCGI_STDOUT 1; request_end 1 7], []) ∧
    concat ds = [x61; x62; x63] ∧
    Forall (λ x, x ≠ [] ∧ Z.of_nat (length x) ≤ FCGI_MAX_LENGTH) ds.
Proof.
apply (writer_stream true x00 8192 FCGI_STDOUT (mkReq 1 1 true 0 7 1)
  (mkNet [] [Wrote 3; Wrote 0] []) [PutStr [x61; x62]; Flush; PutChar 99]);
  [cbn; lia|repeat constructor|repeat constructor].
Defined.
