(* ===== verification/FcgxRead.v ===== *)
(** [fastcgi/fastcgi_lib/fcgiapp.cpp], input side: reading from a stream, the
    parameter array, and the procedure that takes records off the connection.

    [FillBuffProc] and the functions it calls for a record it has to interpret are
    mutually recursive through [stream->fillBuffProc].  The functions take that
    pointer as the argument [fill]; the recursion is tied at the end, to the depth
    the code can reach: while a record is being interpreted [eorStop] is set, and
    then [FillBuffProc] stops at the end of the record instead of interpreting
    another header. *)

From Stdlib Require Import ZArith Lia Bool.
From Stdlib.Strings Require Import Byte String.
From stdpp Require Import base numbers list option.
From S2P Require Import Prelude CxxString Fcgx.
Local Open Scope Z_scope.

(** ** Reading memory and the socket *)

Definition mem_read (off m : nat) (b : bytes) : res bytes :=
  if (off + m <=? length b)%nat then Ok (slice off m b) else Fault OutOfBounds.

(** [OS_Read]: the error, or the octets read (none at the end of the connection). *)
Definition OS_Read (n : Net) (len : nat) : (Z + bytes) * Net :=
  match reads n with
  | [] => (inr [], n)
  | ReadErr e :: rs => (inl e, mkNet rs (writes n) (sent n))
  | Chunk d :: rs =>
      (inr (take len d),
       mkNet (if (length d <=? len)%nat then rs else Chunk (drop len d) :: rs) (writes n) (sent n))
  end.

Definition read_size (r : os_read) : nat := match r with Chunk d => length d | ReadErr _ => 0 end.

(** An upper bound of the octets a stream can still take in. *)
Definition backlog (st : St) : nat :=
  (buffStop (data (str st)) - rdNext (str st)) + sum_list (read_size <$> reads (net st)).

Section reading.
Context (fill : St → res St).

(** [return *stream->rdNext++;] *)
Definition take_octet (st : St) : res (Z * St) :=
  d ← mem_read (rdNext (str st)) 1 (buff (data (str st)));
  Ok (b2z (hd x00 d), on_str (λ s, set_rdNext (S (rdNext s)) s) st).

Definition FCGX_GetChar (st : St) : res (Z * St) :=
  if isClosed (str st) || negb (isReader (str st)) then Ok (EOF, st) else
  if negb (rdNext (str st) =? stop (str st))%nat then take_octet st else
  st ← fill st;
  if isClosed (str st) then Ok (EOF, st) else
  let st := on_str (λ s, set_stopUnget (rdNext s) s) st in
  if negb (rdNext (str st) =? stop (str st))%nat then take_octet st else
  assert_ (isClosed (str st)) ;;
  Ok (EOF, st).

(** The [memcpy] from [rdNext] and the advance of it. *)
Definition move (m : Z) (st : St) : res (bytes * St) :=
  if m <? 0 then Fault OutOfBounds else
  d ← mem_read (rdNext (str st)) (Z.to_nat m) (buff (data (str st)));
  Ok (d, on_str (λ s, set_rdNext (rdNext s + Z.to_nat m)%nat s) st).

Definition ready (st : St) : Z := Z.of_nat (stop (str st)) - Z.of_nat (rdNext (str st)).

Fixpoint GetStr_loop (fuel : nat) (n : Z) (got : bytes) (st : St) : res (bytes * St) :=
  match fuel with
  | O => Fault OutOfFuel
  | S fuel =>
      '(d, st) ← (if negb (rdNext (str st) =? stop (str st))%nat
                  then move (Z.min (n - Z.of_nat (length got)) (ready st)) st
                  else Ok ([], st));
      let got := got ++ d in
      if Z.of_nat (length got) =? n then Ok (got, st) else
      if isClosed (str st) || negb (isReader (str st)) then Ok (got, st) else
      st ← fill st;
      if isClosed (str st) then Ok (got, st) else
      GetStr_loop fuel n got (on_str (λ s, set_stopUnget (rdNext s) s) st)
  end.

(** The octets stored at [str]; their number is the result. *)
Definition FCGX_GetStr (n : Z) (st : St) : res (bytes * St) :=
  if isClosed (str st) || negb (isReader (str st)) || (n <=? 0) then Ok ([], st) else
  if n <=? ready st then move n st
  else GetStr_loop (backlog st + 2) n [] st.

(** [None] is the null pointer. *)
Fixpoint GetLine_loop (k : nat) (p : bytes) (st : St) : res (option bytes * St) :=
  match k with
  | O => Ok (Some p, st)
  | S k =>
      '(c, st) ← FCGX_GetChar st;
      if c =? EOF then Ok (match p with [] => None | _ => Some p end, st) else
      let p := p ++ [z2b c] in
      if c =? 10 then Ok (Some p, st) else GetLine_loop k p st
  end.

(** The line without the terminating null, which takes one octet of the [n]. *)
Definition FCGX_GetLine (n : Z) (st : St) : res (option bytes * St) :=
  GetLine_loop (Z.to_nat (n - 1)) [] st.

Definition FCGX_UnGetChar (c : Z) (st : St) : res (Z * St) :=
  let s := str st in
  if (c =? EOF) || isClosed s || negb (isReader s) || (rdNext s =? stopUnget s)%nat
  then Ok (EOF, st)
  else match rdNext s with
       | O => Fault OutOfBounds
       | S r => Ok (c, on_str (λ s, set_rdNext r
                          (set_data (set_buff (overwrite r [octet c] (buff (data s)))) s)) st)
       end.
End reading.

(** ** Parameters *)

(** [vec] holds what is stored before [cur]; each entry is the allocated block
    without the null written at its end. *)
Record Params := mkParams { vec : list bytes; capacity : Z }.

Definition cur (p : Params) : Z := Z.of_nat (length (vec p)).

Definition NewParams (length : Z) : res Params :=
  if 0 <? length then Ok (mkParams [] length) else Fault OutOfBounds.

Definition PutParam (nameValue : bytes) (p : Params) : res Params :=
  if capacity p <=? cur p then Fault OutOfBounds else
  let p := mkParams (vec p ++ [nameValue]) (capacity p) in
  let size := cur p in
  let p := if capacity p <=? size then mkParams (vec p) (s32 (capacity p * 2)) else p in
  if capacity p <=? size then Fault OutOfBounds else Ok p.

Definition FreeParams (p : option Params) : option Params := None.

(** [strncmp(name, entry, len) == 0 && entry[len] == '='] *)
Definition binds (name entry : bytes) : bool :=
  bool_decide (take (length name) (c_string entry) = name) &&
  bool_decide (drop (length name) (c_string entry) !! 0%nat = Some x3d).

Fixpoint GetParam_loop (name : bytes) (envp : list bytes) : option bytes :=
  match envp with
  | [] => None
  | p :: envp => if binds name p then Some (drop (length name + 1) (c_string p))
                 else GetParam_loop name envp
  end.

(** [None] is the null pointer. *)
Definition FCGX_GetParam (name : option bytes) (envp : option (list bytes)) : option bytes :=
  match name, envp with
  | Some name, Some envp => GetParam_loop (c_string name) envp
  | _, _ => None
  end.

Section records.
Context (fill : St → res St).

(** The rest of a length whose first octet is [first]: [None] when the stream ends
    within it. *)
Definition param_length (first : Z) (st : St) : res (option Z * St) :=
  if negb (Z.land first 0x80 =? 0) then
    '(d, st) ← FCGX_GetStr fill 3 st;
    match d with
    | [b2; b1; b0] =>
        Ok (Some (Z.shiftl (Z.land first 0x7f) 24 + Z.shiftl (b2z b2) 16 + Z.shiftl (b2z b1) 8 + b2z b0), st)
    | _ => Ok (None, st)
    end
  else Ok (Some first, st).

(** [Malloc(size)] for a signed [size]: a negative one is a huge [size_t]. *)
Definition Malloc (size : Z) : res Z := assert_ (0 <=? size) ;; Ok size.

(** One pass of the loop after the lengths are known: the block, or [None]. *)
Definition param_block (nameLen valueLen : Z) (st : St) : res (option bytes * St) :=
  size ← Malloc (s32 (nameLen + valueLen + 2));
  '(name, st) ← FCGX_GetStr fill nameLen st;
  if size <? Z.of_nat (length name) then Fault OutOfBounds else
  if negb (Z.of_nat (length name) =? nameLen) then Ok (None, st) else
  if size <=? nameLen then Fault OutOfBounds else
  '(value, st) ← FCGX_GetStr fill valueLen st;
  if size <? nameLen + 1 + Z.of_nat (length value) then Fault OutOfBounds else
  if negb (Z.of_nat (length value) =? valueLen) then Ok (None, st) else
  if size <=? nameLen + valueLen + 1 then Fault OutOfBounds else
  Ok (Some (name ++ [x3d] ++ value), st).

Definition params_error (p : Params) (st : St) : res (Z * Params * St) :=
  Ok (-1, p, on_str (SetError FCGX_PARAMS_ERROR) st).

Fixpoint ReadParams_loop (fuel : nat) (p : Params) (st : St) : res (Z * Params * St) :=
  match fuel with
  | O => Fault OutOfFuel
  | S fuel =>
      '(c, st) ← FCGX_GetChar fill st;
      if c =? EOF then Ok (0, p, st) else
      '(nameLen, st) ← param_length c st;
      match nameLen with
      | None => params_error p st
      | Some nameLen =>
          '(c, st) ← FCGX_GetChar fill st;
          if c =? EOF then params_error p st else
          '(valueLen, st) ← param_length c st;
          match valueLen with
          | None => params_error p st
          | Some valueLen =>
              '(nameValue, st) ← param_block nameLen valueLen st;
              match nameValue with
              | None => params_error p st
              | Some nameValue => p ← PutParam nameValue p; ReadParams_loop fuel p st
              end
          end
      end
  end.

Definition ReadParams (p : Params) (st : St) : res (Z * Params * St) :=
  ReadParams_loop (S (backlog st)) p st.

(** ** Records that are not stream data *)

Definition STREAM_RECORD : Z := 0.
Definition SKIP : Z := 1.
Definition BEGIN_RECORD : Z := 2.
Definition MGMT_RECORD : Z := 3.

(** What [response] holds when [ProcessManagementRecord] is entered: the array is
    not initialised. *)
Context (uninit : bytes).

(** The entries known to the library, from the name before the ['=']. *)
Definition known_value (name : bytes) : option byte :=
  if bool_decide (name = FCGI_MAX_CONNS) then Some x31 else
  if bool_decide (name = FCGI_MAX_REQS) then Some x31 else
  if bool_decide (name = FCGI_MPXS_CONNS) then Some x30 else None.

(** [*(strchr(name, '=')) = '\0']: the name, unless there is no ['='] in the
    string. *)
Definition split_name (nameValue : bytes) : res bytes :=
  match search [x3d] (c_string nameValue) with
  | Some i => Ok (take i nameValue)
  | None => Fault OutOfBounds
  end.

(** The loop over the parameters; [at_] is [responseP]. *)
Fixpoint respond_values (entries : list bytes) (at_ : nat) (response : bytes) :
    res (nat * bytes) :=
  match entries with
  | [] => Ok (at_, response)
  | e :: entries =>
      name ← split_name e;
      match known_value name with
      | None => respond_values entries at_ response
      | Some v =>
          let text := [octet (Z.of_nat (length name)); x01] ++ name ++ [v; x00] in
          if (at_ + length text <=? length response)%nat
          then respond_values entries (at_ + length name + 3) (overwrite at_ text response)
          else Fault OutOfBounds
      end
  end.

Definition ProcessManagementRecord (t : Z) (st : St) : res (Z * St) :=
  let respond response paddedLen st :=
    let '(e, n) := net_write (net st) (take (FCGI_HEADER_LEN + paddedLen) response) in
    let st := mkSt (str st) (req st) n in
    match e with
    | Some errno => Ok (-1, on_str (SetError errno) st)
    | None => Ok (MGMT_RECORD, st)
    end in
  p ← NewParams 3;
  if t =? FCGI_GET_VALUES then
    '(_, p, st) ← ReadParams p st;
    if negb (FCGX_GetError (str st) =? 0) || negb (contentLen (data (str st)) =? 0)%nat
    then Ok (FCGX_PROTOCOL_ERROR, st)
    else
      '(at_, response) ← respond_values (vec p) FCGI_HEADER_LEN uninit;
      let len := Z.of_nat at_ - Z.of_nat FCGI_HEADER_LEN in
      let paddedLen := AlignInt8 len in
      hd ← MakeHeader FCGI_GET_VALUES_RESULT FCGI_NULL_REQUEST_ID len (paddedLen - len);
      if (FCGI_HEADER_LEN + Z.to_nat paddedLen <=? length response)%nat
      then respond (overwrite 0 hd response) (Z.to_nat paddedLen) st
      else Fault OutOfBounds
  else
    hd ← MakeHeader FCGI_UNKNOWN_TYPE FCGI_NULL_REQUEST_ID 8 0;
    respond (overwrite 0 (hd ++ MakeUnknownTypeBody t) uninit) 8%nat st.

(** The assignments to [*data->reqDataPtr]. *)
Definition set_requestId v (q : ReqData) : ReqData :=
  mkReq v (role q) (isBeginProcessed q) (keepConnection q) (appStatus q) (nWriters q).
Definition begun (r k : Z) (q : ReqData) : ReqData :=
  mkReq (requestId q) r true k (appStatus q) (nWriters q).
Definition on_req (f : ReqData → ReqData) (st : St) : St := mkSt (str st) (f (req st)) (net st).

Definition ProcessBeginRecord (requestId : Z) (st : St) : res (Z * St) :=
  if (requestId =? 0) || negb (contentLen (data (str st)) =? 8)%nat
  then Ok (FCGX_PROTOCOL_ERROR, st) else
  if isBeginProcessed (req st) then
    hd ← MakeHeader FCGI_END_REQUEST requestId 8 0;
    let '(e, n) := net_write (net st) (hd ++ MakeEndRequestBody 0 FCGI_CANT_MPX_CONN) in
    let st := mkSt (str st) (req st) n in
    match e with
    | Some errno => Ok (-1, on_str (SetError errno) st)
    | None => Ok (SKIP, st)
    end
  else
    let st := on_req (set_requestId requestId) st in
    '(body, st) ← FCGX_GetStr fill 8 st;
    match body with
    | roleB1 :: roleB0 :: flags :: _ =>
        if negb (length body =? 8)%nat then Ok (FCGX_PROTOCOL_ERROR, st) else
        Ok (BEGIN_RECORD,
            on_req (begun (Z.shiftl (b2z roleB1) 8 + b2z roleB0)
                          (Z.land (b2z flags) FCGI_KEEP_CONN)) st)
    | _ => Ok (FCGX_PROTOCOL_ERROR, st)
    end.

(** [header] is the eight octets read into the [FCGI_Header]. *)
Definition ProcessHeader (header : bytes) (st : St) : res (Z * St) :=
  match header with
  | [version; t; requestIdB1; requestIdB0; contentLengthB1; contentLengthB0; paddingLength; _] =>
      if negb (b2z version =? FCGI_VERSION_1) then Ok (FCGX_UNSUPPORTED_VERSION, st) else
      let id := Z.shiftl (b2z requestIdB1) 8 + b2z requestIdB0 in
      let cLen := Z.shiftl (b2z contentLengthB1) 8 + b2z contentLengthB0 in
      let st := on_data (λ d, set_paddingLen (Z.to_nat (b2z paddingLength))
                                (set_contentLen (Z.to_nat cLen) d)) st in
      if b2z t =? FCGI_BEGIN_REQUEST then ProcessBeginRecord id st else
      if id =? FCGI_NULL_REQUEST_ID then ProcessManagementRecord (b2z t) st else
      if negb (id =? requestId (req st)) then Ok (SKIP, st) else
      if negb (b2z t =? type (data (str st))) then Ok (FCGX_PROTOCOL_ERROR, st) else
      Ok (STREAM_RECORD, st)
  | _ => Fault OutOfBounds
  end.
End records.

(** ** Taking records off the connection *)

Section fill.
Context (process : bytes → St → res (Z * St)).

(** How one part of the loop's body ends. *)
Inductive next := Return (st : St) | Continue (header : bytes) (st : St) | Proceed (st : St).

(** The buffer is empty: read from the connection. *)
Definition refill (st : St) : next :=
  let s := str st in
  if (rdNext s =? buffStop (data s))%nat then
    match OS_Read (net st) (bufflen (data s)) with
    | (inl e, n) => Return (mkSt (SetError e s) (req st) n)
    | (inr [], n) => Return (mkSt (SetError FCGX_PROTOCOL_ERROR s) (req st) n)
    | (inr d, n) =>
        Proceed (mkSt (set_rdNext 0%nat (set_data (λ x, set_buffStop (length d)
                         (set_buff (overwrite 0 d (buff x)) x)) s)) (req st) n)
    end
  else Proceed st.

(** Content of the current record. *)
Definition content_part (header : bytes) (st : St) : next :=
  let s := str st in
  let count := Nat.min (contentLen (data s)) (buffStop (data s) - rdNext s) in
  if (0 <? contentLen (data s))%nat then
    let left := (contentLen (data s) - count)%nat in
    if negb (skip (data s)) then
      Return (on_str (λ s, set_stop (rdNext s + count)%nat (set_wrNext (rdNext s + count)%nat
                (set_data (set_contentLen left) s))) st)
    else
      let st := on_str (λ s, set_rdNext (rdNext s + count)%nat (set_data (set_contentLen left) s)) st in
      if (0 <? left)%nat then Continue header st else Proceed (on_data (set_skip false) st)
  else Proceed st.

(** Padding of the current record. *)
Definition padding_part (header : bytes) (st : St) : next :=
  let s := str st in
  let count := Nat.min (paddingLen (data s)) (buffStop (data s) - rdNext s) in
  if (0 <? paddingLen (data s))%nat then
    let left := (paddingLen (data s) - count)%nat in
    let st := on_str (λ s, set_rdNext (rdNext s + count)%nat (set_data (set_paddingLen left) s)) st in
    if (0 <? left)%nat then Continue header st else Proceed st
  else Proceed st.

(** A complete header: interpret the record. *)
Definition dispatch (header : bytes) (st : St) : res next :=
  let st := on_str (λ s, set_stop (rdNext s) (set_data (set_eorStop true) s)) st in
  '(status, st) ← process header st;
  let st := on_str (λ s, set_isClosed false (set_data (set_eorStop false) s)) st in
  if status =? STREAM_RECORD then
    if (contentLen (data (str st)) =? 0)%nat
    then Ok (Return (on_str (λ s, set_isClosed true (set_wrNext (rdNext s) (set_stop (rdNext s) s))) st))
    else Ok (Continue [] st)
  else if status =? SKIP then Ok (Continue [] (on_data (set_skip true) st))
  else if status =? BEGIN_RECORD then Ok (Return st)
  else if status =? MGMT_RECORD then Ok (Continue [] st)
  else assert_ (status <? 0) ;; Ok (Return (on_str (SetError status) st)).

(** The header of the next record. *)
Definition header_part (header : bytes) (st : St) : res next :=
  let s := str st in
  if eorStop (data s) then Ok (Return (on_str (λ s, set_isClosed true (set_stop (rdNext s) s)) st)) else
  let count := Nat.min (8 - length header) (buffStop (data s) - rdNext s) in
  d ← mem_read (rdNext s) count (buff (data s));
  let header := header ++ d in
  let st := on_str (λ s, set_rdNext (rdNext s + count)%nat s) st in
  if (length header <? 8)%nat then Ok (Continue header st) else dispatch header st.

(** The body of the loop. *)
Definition fill_body (header : bytes) (st : St) : res next :=
  match refill st with
  | Proceed st =>
      match content_part header st with
      | Proceed st =>
          match padding_part header st with
          | Proceed st => header_part header st
          | r => Ok r
          end
      | r => Ok r
      end
  | r => Ok r
  end.

Fixpoint fill_loop (fuel : nat) (header : bytes) (st : St) : res St :=
  match fuel with
  | O => Fault OutOfFuel
  | S fuel =>
      r ← fill_body header st;
      match r with
      | Return st => Ok st
      | Continue header st => fill_loop fuel header st
      | Proceed st => fill_loop fuel header st
      end
  end.

Definition fill_all (st : St) : res St := fill_loop (S (backlog st)) [] st.
End fill.

(** [FillBuffProc] with at most [depth] nested calls. *)
Fixpoint FillBuffProc_depth (uninit : bytes) (depth : nat) (st : St) : res St :=
  match depth with
  | O => Fault OutOfFuel
  | S depth => fill_all (ProcessHeader (FillBuffProc_depth uninit depth) uninit) st
  end.

Definition FillBuffProc (uninit : bytes) (st : St) : res St := FillBuffProc_depth uninit 2 st.

(** ** The reader of the next stream *)

Definition set_type v (d : FCGX_Stream_Data) : FCGX_Stream_Data :=
  mkData (buff d) (bufflen d) (buffStop d) v (eorStop d) (skip d) (contentLen d)
         (paddingLen d) (isAnythingWritten d) (rawWrite d).

Definition SetReaderType (t : Z) (s : FCGX_Stream) : res FCGX_Stream :=
  assert_ (isReader s) ;;
  let s := set_data (λ d, set_paddingLen 0 (set_contentLen 0 (set_skip false
             (set_eorStop false (set_type t d))))) s in
  Ok (set_isClosed false (set_wrNext (rdNext s) (set_stop (rdNext s) s))).

Definition FCGX_StartFilterData (st : St) : res (Z * St) :=
  let s := str st in
  if negb (role (req st) =? FCGI_FILTER) || negb (isReader s) || negb (isClosed s) ||
     negb (type (data s) =? FCGI_STDIN)
  then Ok (-1, on_str (SetError FCGX_CALL_SEQ_ERROR) st)
  else s ← SetReaderType FCGI_DATA s; Ok (0, mkSt s (req st) (net st)).
