(* ===== verification/FcgxReader.v ===== *)
(** Correctness of the input side of [fcgiapp.cpp]: a reader delivers the content
    of its stream's records, whatever the portions in which the connection hands
    over the octets, and the parameters read from a stream are the pairs encoded in
    it. *)

From Stdlib Require Import ZArith Lia Bool.
From Stdlib.Strings Require Import Byte String.
From stdpp Require Import base numbers list option.
From S2P Require Import Prelude CxxString Endian Buffer Codec CodecSpec Fcgx FcgxRead FcgxWriter.
Local Open Scope Z_scope.

(** ** Reader states *)

Definition chunk (r : os_read) : bytes := match r with Chunk d => d | ReadErr _ => [] end.
Definition has_data (r : os_read) : Prop := chunk r ≠ [].

(** The octets buffered and still to come. *)
Definition ahead (st : St) : bytes :=
  slice (rdNext (str st)) (buffStop (data (str st)) - rdNext (str st)) (buff (data (str st))) ++
  concat (chunk <$> reads (net st)).

(** A reader of the stream [t]: [eor], [sk], [cl], [c] and [p] are [eorStop],
    [skip], [isClosed], [contentLen] and [paddingLen]; [out] has been sent and [w]
    is ahead. *)
Record reader (t : Z) (eor sk cl : bool) (c p : nat) (q : ReqData) (out w : bytes) (st : St) : Prop := {
  rd_reader : isReader (str st) = true;
  rd_closed : isClosed (str st) = cl;
  rd_errno : FCGI_errno (str st) = 0;
  rd_type : type (data (str st)) = t;
  rd_eor : eorStop (data (str st)) = eor;
  rd_skip : skip (data (str st)) = sk;
  rd_c : contentLen (data (str st)) = c;
  rd_p : paddingLen (data (str st)) = p;
  rd_req : req st = q;
  rd_fail : no_fail (net st);
  rd_sent : sent (net st) = out;
  rd_len : length (buff (data (str st))) = bufflen (data (str st));
  rd_pos : (0 < bufflen (data (str st)))%nat;
  rd_next : (rdNext (str st) ≤ buffStop (data (str st)))%nat;
  rd_stop : (buffStop (data (str st)) ≤ bufflen (data (str st)))%nat;
  rd_reads : Forall has_data (reads (net st));
  rd_ahead : ahead st = w;
}.

Lemma backlog_ahead st t eor sk cl c p q out w :
  reader t eor sk cl c p q out w st → backlog st = length w.
Proof.
intros [_ _ _ _ _ _ _ _ _ _ _ Hl _ H1 H2 Hr <-]. unfold backlog, ahead.
rewrite length_app, length_slice by lia. f_equal.
clear -Hr. induction Hr as [|r rs Hr _ IH]; [done|].
cbn [fmap list_fmap sum_list concat]. rewrite length_app, <- IH. by destruct r.
Qed.

(** The buffered part of what is ahead. *)
Lemma buffered st t eor sk cl c p q out w m :
  reader t eor sk cl c p q out w st → (m ≤ buffStop (data (str st)) - rdNext (str st))%nat →
  mem_read (rdNext (str st)) m (buff (data (str st))) = Ok (take m w) ∧ (m ≤ length w)%nat.
Proof.
intros [_ _ _ _ _ _ _ _ _ _ _ Hl _ H1 H2 _ <-] Hm. unfold mem_read, ahead.
rewrite (proj2 (Nat.leb_le _ _)) by lia. rewrite take_app_le by (rewrite length_slice; lia).
rewrite <- slice_take by done. split; [done|]. rewrite length_app, length_slice; lia.
Qed.

Lemma advance st t eor sk cl c p q out w m :
  reader t eor sk cl c p q out w st → (m ≤ buffStop (data (str st)) - rdNext (str st))%nat →
  reader t eor sk cl c p q out (drop m w) (on_str (λ s, set_rdNext (rdNext s + m)%nat s) st).
Proof.
intros [R1 R2 R3 R4 R5 R6 R7 R8 R9 R10 R11 R12 R13 R14 R15 R16 R17] Hm.
split; cbn; try done; try lia. rewrite <- R17. unfold ahead. cbn.
rewrite drop_app_le by (rewrite length_slice; lia). f_equal.
rewrite <- slice_drop by done. f_equal. lia.
Qed.

Lemma refill_ok st t eor sk cl c p q out w :
  reader t eor sk cl c p q out w st → w ≠ [] →
  ∃ st', refill st = Proceed st' ∧ reader t eor sk cl c p q out w st' ∧
    (rdNext (str st') < buffStop (data (str st')))%nat.
Proof.
intros R Hw. unfold refill. destruct (Nat.eqb_spec (rdNext (str st)) (buffStop (data (str st)))) as [E|E].
2:{ exists st. destruct R. split_and!; [done|by split|lia]. }
destruct R as [R1 R2 R3 R4 R5 R6 R7 R8 R9 R10 R11 R12 R13 R14 R15 R16 R17].
unfold ahead in R17. rewrite E, Nat.sub_diag, slice_0 in R17. cbn [app] in R17.
unfold OS_Read. destruct (reads (net st)) as [|[d|] rs] eqn:Er; [by subst| |].
2:{ apply Forall_cons_1 in R16 as [H _]. by destruct H. }
cbn [fmap list_fmap concat chunk] in R17. apply Forall_cons_1 in R16 as [Hd Hrs].
set (B := bufflen (data (str st))) in *.
destruct (take B d) as [|b l] eqn:Et.
{ exfalso. destruct d; [done|]. destruct B; [lia|discriminate]. }
rewrite <- Et. assert (length (take B d) ≤ B)%nat as Hlt by (rewrite length_take; lia).
assert (0 < length (take B d))%nat as Hpos by (rewrite Et; cbn; lia).
eexists. split; [done|]. split; [|by cbn].
split; cbn -[ahead]; try done; try lia.
- rewrite length_overwrite; [done|]. cbn. lia.
- case_match; [done|]. constructor; [|done]. unfold has_data. cbn [chunk].
  intros Hn. apply (f_equal length) in Hn. apply Nat.leb_gt in H. rewrite length_drop in Hn. cbn in Hn. lia.
- unfold ahead. cbn -[slice]. rewrite Nat.sub_0_r, slice_overwrite by lia. rewrite <- R17.
  destruct (Nat.leb_spec (length d) B).
  + by rewrite take_ge by lia.
  + cbn [fmap list_fmap concat chunk]. by rewrite app_assoc, take_drop.
Qed.

(** ** The loop up to the next header *)

(** Changes of the control fields. *)
Lemma reader_ctl st st' t eor sk cl c p q out w t' eor' sk' cl' c' p' q' :
  reader t eor sk cl c p q out w st →
  isReader (str st') = true → rdNext (str st') = rdNext (str st) →
  FCGI_errno (str st') = 0 → isClosed (str st') = cl' →
  buff (data (str st')) = buff (data (str st)) → bufflen (data (str st')) = bufflen (data (str st)) →
  buffStop (data (str st')) = buffStop (data (str st)) → type (data (str st')) = t' →
  eorStop (data (str st')) = eor' → skip (data (str st')) = sk' → contentLen (data (str st')) = c' →
  paddingLen (data (str st')) = p' → req st' = q' → net st' = net st →
  reader t' eor' sk' cl' c' p' q' out w st'.
Proof.
intros [R1 R2 R3 R4 R5 R6 R7 R8 R9 R10 R11 R12 R13 R14 R15 R16 R17] H1 H2 H3 H4 H5 H6 H7 H8 H9 H10 H11 H12 H13 H14.
split; rewrite ?H5, ?H6, ?H7, ?H2, ?H14; try done.
rewrite <- R17. unfold ahead. by rewrite H2, H5, H7, H14.
Qed.

Ltac ctl R :=
  eapply reader_ctl; [exact R|..]; try done; cbn;
  by destruct R as [? ? ? ? ? ? ? ? ? ? ? ? ? ? ? ? ?].

(** The state after part of the content of a skipped record. *)
Lemma content_skipped st t eor q out a w c p h :
  reader t eor true false c p q out (a ++ w) st → length a = c → (0 < c)%nat →
  (rdNext (str st) < buffStop (data (str st)))%nat →
  ∃ k st', (0 < k ≤ c)%nat ∧
    content_part h st = (if (k <? c)%nat then Continue h st' else Proceed st') ∧
    reader t eor (k <? c)%nat false (c - k) p q out (drop k a ++ w) st'.
Proof.
intros R Hl Hc Hlt. unfold content_part.
rewrite (rd_c _ _ _ _ _ _ _ _ _ _ R), (rd_skip _ _ _ _ _ _ _ _ _ _ R).
rewrite (proj2 (Nat.ltb_lt 0 c)) by done. cbn [negb].
set (k := Nat.min c _). exists k. assert (0 < k ≤ c)%nat as Hk by lia.
pose proof (advance _ _ _ _ _ _ _ _ _ _ k R ltac:(lia)) as R'.
rewrite drop_app_le in R' by lia.
destruct (Nat.ltb_spec k c) as [E|E]; [rewrite (proj2 (Nat.ltb_lt 0 (c - k))) by lia
  |rewrite (proj2 (Nat.ltb_ge 0 (c - k))) by lia]; eexists; (split; [done|split; [done|]]).
all: ctl R'.
Qed.

Lemma padding_skipped st t eor sk q out a w p h :
  reader t eor sk false 0 p q out (a ++ w) st → length a = p →
  ∃ k st', (k ≤ p)%nat ∧
    (rdNext (str st) < buffStop (data (str st)) → 0 < p → 0 < k)%nat ∧
    padding_part h st = (if (k <? p)%nat then Continue h st' else Proceed st') ∧
    reader t eor sk false 0 (p - k) q out (drop k a ++ w) st' ∧
    (p = 0%nat → st' = st).
Proof.
intros R Hl. unfold padding_part. rewrite (rd_p _ _ _ _ _ _ _ _ _ _ R).
destruct (Nat.ltb_spec 0 p) as [Hp|Hp].
2:{ exists 0%nat, st. replace p with 0%nat in * by lia. by split_and!; try lia. }
set (k := Nat.min p _). exists k. assert (k ≤ p)%nat as Hk by lia.
pose proof (advance _ _ _ _ _ _ _ _ _ _ k R ltac:(lia)) as R'.
rewrite drop_app_le in R' by lia.
destruct (Nat.ltb_spec k p) as [E|E]; [rewrite (proj2 (Nat.ltb_lt 0 (p - k))) by lia
  |rewrite (proj2 (Nat.ltb_ge 0 (p - k))) by lia]; eexists; split_and!; try done; try lia.
all: ctl R'.
Qed.

Section loop.
Context (process : bytes → St → res (Z * St)).

(** What the loop does with the outcome of one pass. *)
Definition resume (fuel : nat) (hdr : bytes) (r : next) : res St :=
  match r with
  | Return st => Ok st
  | Continue hdr st => fill_loop process fuel hdr st
  | Proceed st => fill_loop process fuel hdr st
  end.

Lemma fill_loop_S fuel hdr st :
  fill_loop process (S fuel) hdr st = fill_body process hdr st ≫= resume fuel hdr.
Proof. reflexivity. Qed.

(** Padding and header of the next record: the pass ends early, having taken at
    least one octet if there was one in the buffer, or the header is complete. *)
Lemma header_pass st t sk q out a h w p hdr :
  reader t false sk false 0 p q out (a ++ h ++ w) st → length a = p →
  (length hdr + length h)%nat = 8%nat → h ≠ [] →
  (∃ a' h' st', (match padding_part hdr st with
      | Proceed st => header_part process hdr st | r => Ok r end) =
        Ok (Continue (hdr ++ h') st') ∧
      reader t false sk false 0 (length a') q out (a' ++ drop (length h') h ++ w) st' ∧
      h' = take (length h') h ∧ (length h' < length h)%nat ∧
      (length a' ≤ length a)%nat ∧
      (rdNext (str st) < buffStop (data (str st)) → length a' < length a + length h')%nat) ∨
  (∃ st', (match padding_part hdr st with
      | Proceed st => header_part process hdr st | r => Ok r end) = dispatch process (hdr ++ h) st' ∧
      reader t false sk false 0 0 q out w st').
Proof.
intros R Ha Hh Hne. destruct (padding_skipped _ _ _ _ _ _ _ _ _ hdr R Ha)
  as (k & st1 & Hk & Hprog & -> & R1 & Hsame).
assert (length h ≠ 0%nat) by (by destruct h).
destruct (Nat.ltb_spec k p) as [E|E].
{ left. exists (drop k a), [], st1. rewrite app_nil_r. cbn [length]. rewrite drop_0.
  rewrite length_drop, Ha. split_and!; [done|done|done|lia|lia|]. intros H1. specialize (Hprog H1). lia. }
replace k with (length a) in R1 by lia. rewrite drop_all, Ha, Nat.sub_diag in R1. cbn [app] in R1.
unfold header_part. rewrite (rd_eor _ _ _ _ _ _ _ _ _ _ R1).
set (m := Nat.min (8 - length hdr) _). assert (m ≤ length h)%nat as Hm by lia.
destruct (buffered _ _ _ _ _ _ _ _ _ _ m R1 ltac:(lia)) as [-> Hmw]. cbn [mbind res_bind].
pose proof (advance _ _ _ _ _ _ _ _ _ _ m R1 ltac:(lia)) as R2.
rewrite drop_app_le in R2 by lia. rewrite (take_app_le h) by lia.
destruct (Nat.ltb_spec (length (hdr ++ take m h)) 8) as [E8|E8]; rewrite length_app, length_take in E8.
- left. eexists [], (take m h), _. split; [done|].
  rewrite length_take, Nat.min_l by lia. cbn [length app]. split_and!; [exact R2|done|lia|lia|].
  intros H1. destruct (decide (p = 0%nat)) as [Hp|]; [|lia].
  specialize (Hsame Hp). subst st1. lia.
- right. eexists. replace m with (length h) in * by lia. rewrite firstn_all, drop_all in *.
  split; [done|exact R2].
Qed.

(** From the middle of a record that is skipped, or from its padding, to the header
    of the next one. *)
Lemma fill_to_header fuel hdr st t sk q out c p a h w :
  reader t false sk false c p q out (a ++ h ++ w) st → (0 < c → sk = true)%nat →
  length a = (c + p)%nat →
  (length hdr + length h)%nat = 8%nat → h ≠ [] → (length (a ++ h ++ w) < fuel)%nat →
  ∃ st' fuel' hdr', fill_loop process fuel hdr st =
      dispatch process (hdr ++ h) st' ≫= resume fuel' hdr' ∧
    reader t false (sk && (c =? 0)%nat) false 0 0 q out w st' ∧ (length w < fuel')%nat.
Proof.
revert hdr st sk c p a h. induction fuel as [|fuel IH]; intros hdr st sk c p a h R Hsk Ha Hh Hne Hf; [lia|].
rewrite fill_loop_S. unfold fill_body.
destruct (refill_ok _ _ _ _ _ _ _ _ _ _ R) as (st1 & -> & R1 & Hlt); [by destruct a, h|]. clear R st.
assert (length h ≠ 0%nat) as Hh0 by (by destruct h). rewrite !length_app in Hf.
assert (∀ st2 a2, reader t false (sk && (c =? 0)%nat) false 0 p q out (a2 ++ h ++ w) st2 →
  length a2 = p → (c = 0%nat → st2 = st1) →
  ∃ st' fuel' hdr', (match padding_part hdr st2 with
      | Proceed st => header_part process hdr st | r => Ok r end) ≫= resume fuel hdr =
      dispatch process (hdr ++ h) st' ≫= resume fuel' hdr' ∧
    reader t false (sk && (c =? 0)%nat) false 0 0 q out w st' ∧ (length w < fuel')%nat) as Hrest.
{ intros st2 a2 R2 Ha2 Hsame.
  destruct (header_pass _ _ _ _ _ _ _ _ _ _ R2 Ha2 Hh Hne)
    as [(a' & h' & st' & -> & R' & Eh' & Hh' & Ha' & Hprog)|(st' & -> & R')].
  2:{ exists st', fuel, hdr. split_and!; [done|done|lia]. }
  cbn [mbind res_bind resume].
  assert (hdr ++ h = (hdr ++ h') ++ drop (length h') h) as ->.
  { rewrite <- app_assoc. f_equal. rewrite Eh' at 1. by rewrite take_drop. }
  assert (drop (length h') h ≠ []) as Hd.
  { intros Hn. apply (f_equal length) in Hn. rewrite length_drop in Hn. cbn in Hn. lia. }
  assert (length h' + length (drop (length h') h) = length h)%nat as Hlen by (rewrite length_drop; lia).
  rewrite <- (andb_true_r (sk && _)).
  apply (IH _ _ _ 0%nat (length a') a' _ R'); [lia|done|rewrite length_app; lia|done|].
  rewrite !length_app. destruct (decide (c = 0%nat)) as [Hc|Hc]; [|lia].
  specialize (Hsame Hc). subst st2. specialize (Hprog Hlt). lia. }
destruct (Nat.ltb_spec 0 c) as [Hc|Hc].
- rewrite (Hsk Hc) in R1, Hrest |- *. rewrite <- (take_drop c a), <- app_assoc in R1.
  rewrite (proj2 (Nat.eqb_neq c 0)) in Hrest |- * by lia. cbn [andb] in *.
  destruct (content_skipped _ _ _ _ _ _ _ _ _ hdr R1) as (k & st2 & Hk & -> & R2);
    [rewrite length_take; lia|done|done|].
  destruct (Nat.ltb_spec k c) as [E|E]; cbn [mbind res_bind resume].
  + rewrite app_assoc in R2. pose proof (IH hdr _ _ _ _ _ _ R2) as IH'.
    rewrite (proj2 (Nat.eqb_neq (c - k) 0)) in IH' by lia. apply IH'; [done| |done|done|]; rewrite !length_app, !length_drop, length_take; lia.
  + rewrite drop_ge in R2 by (rewrite length_take; lia). cbn [app] in R2.
    replace (c - k)%nat with 0%nat in R2 by lia.
    apply (Hrest st2 (drop c a)); [done|rewrite length_drop; lia|lia].
- replace c with 0%nat in * by lia. cbn [Nat.eqb] in *. rewrite andb_true_r in *. unfold content_part.
  rewrite (rd_c _ _ _ _ _ _ _ _ _ _ R1). cbn [Nat.ltb Nat.leb].
  apply (Hrest st1 a); [done|lia|done].
Qed.
End loop.

(** ** The functions that read, against what a stream promises them *)

Definition advanced (m : nat) (st : St) : St := on_str (λ s, set_rdNext (rdNext s + m)%nat s) st.
Definition marked (st : St) : St := on_str (λ s, set_stopUnget (rdNext s) s) st.
Definition pushed (b : byte) (st : St) : St :=
  on_str (λ s, set_rdNext (rdNext s - 1)%nat
    (set_data (set_buff (overwrite (rdNext s - 1) [b] (buff (data s)))) s)) st.

(** [holds_ d st]: the stream in state [st] is open and will deliver [d];
    [ends st]: it has delivered everything and is closed. *)
Class Source (fill : St → res St) (holds_ : bytes → St → Prop) (ends : St → Prop) := {
  src_open d st : holds_ d st → isClosed (str st) = false ∧ isReader (str st) = true;
  src_ready d st : holds_ d st →
    (rdNext (str st) ≤ stop (str st))%nat ∧ (stop (str st) - rdNext (str st) ≤ length d)%nat;
  src_move d st m : holds_ d st → (m ≤ stop (str st) - rdNext (str st))%nat →
    mem_read (rdNext (str st)) m (buff (data (str st))) = Ok (take m d) ∧
    holds_ (drop m d) (advanced m st);
  src_backlog d st : holds_ d st → (length d ≤ backlog st)%nat;
  src_mark d st : holds_ d st → rdNext (str st) ≠ stop (str st) → (stopUnget (str st) ≤ rdNext (str st))%nat;
  src_push b d st : holds_ d st → (stopUnget (str st) < rdNext (str st))%nat → holds_ (b :: d) (pushed b st);
  src_fill d st : holds_ d st → rdNext (str st) = stop (str st) →
    ∃ st', fill st = Ok st' ∧
      if decide (d = []) then ends st'
      else isClosed (str st') = false ∧ holds_ d (marked st') ∧ rdNext (str st') ≠ stop (str st');
  src_ends st : ends st → isClosed (str st) = true;
}.

Section source.
Context {fill : St → res St} {holds_ : bytes → St → Prop} {ends : St → Prop}.
Context {Hsrc : Source fill holds_ ends}.

Lemma take_octet_ok b d st :
  holds_ (b :: d) st → rdNext (str st) ≠ stop (str st) →
  take_octet st = Ok (b2z b, advanced 1 st) ∧ holds_ d (advanced 1 st).
Proof.
intros H Hne. destruct (src_ready _ _ H) as [Hr _].
destruct (src_move _ _ 1%nat H ltac:(lia)) as [E H1]. unfold take_octet. rewrite E. cbn [mbind res_bind].
split; [|exact H1]. cbn. unfold advanced, on_str. cbn.
do 3 f_equal. unfold set_rdNext. f_equal. lia.
Qed.

(** The character, and the state from which it can be pushed back. *)
Lemma GetChar_next b d st :
  holds_ (b :: d) st →
  ∃ st', FCGX_GetChar fill st = Ok (b2z b, st') ∧ holds_ d st' ∧
    (stopUnget (str st') < rdNext (str st'))%nat.
Proof.
intros H. unfold FCGX_GetChar. destruct (src_open _ _ H) as [-> ->]. cbn [orb negb].
destruct (Nat.eqb_spec (rdNext (str st)) (stop (str st))) as [E|E]; cbn [negb].
- destruct (src_fill _ _ H E) as (st' & -> & Hst). rewrite decide_False in Hst by done.
  destruct Hst as (Hc & H' & Hne). cbn [mbind res_bind]. rewrite Hc. fold (marked st').
  rewrite (proj2 (Nat.eqb_neq _ _)) by done. cbn [negb].
  destruct (take_octet_ok _ _ _ H' Hne) as [-> H2]. eexists. split_and!; [done|done|cbn; lia].
- destruct (take_octet_ok _ _ _ H E) as [-> H2]. eexists. split_and!; [done|done|].
  pose proof (src_mark _ _ H E). cbn. lia.
Qed.

Lemma GetChar_end st :
  holds_ [] st → ∃ st', FCGX_GetChar fill st = Ok (EOF, st') ∧ ends st'.
Proof.
intros H. unfold FCGX_GetChar. destruct (src_open _ _ H) as [-> ->]. cbn [orb negb].
destruct (src_ready _ _ H) as [Hr Hl]. cbn in Hl.
rewrite (proj2 (Nat.eqb_eq _ _)) by lia. cbn [negb].
destruct (src_fill _ _ H ltac:(lia)) as (st' & -> & Hst). rewrite decide_True in Hst by done.
cbn [mbind res_bind]. rewrite (src_ends _ Hst). by eexists.
Qed.

Lemma move_ok d st m :
  holds_ d st → 0 ≤ m ≤ ready st →
  move m st = Ok (take (Z.to_nat m) d, advanced (Z.to_nat m) st) ∧
  holds_ (drop (Z.to_nat m) d) (advanced (Z.to_nat m) st).
Proof.
intros H Hm. unfold move, ready in *. rewrite (proj2 (Z.ltb_ge _ _)) by lia.
destruct (src_move _ _ (Z.to_nat m) H) as [-> H1]; [lia|]. done.
Qed.

Lemma GetStr_loop_ok fuel n got d st :
  holds_ d st → Z.of_nat (length got) < n →
  (length d + (if (rdNext (str st) =? stop (str st))%nat then 1 else 0) < fuel)%nat →
  let want := Z.to_nat (n - Z.of_nat (length got)) in
  ∃ st', GetStr_loop fill fuel n got st = Ok (got ++ take want d, st') ∧
    if (want <=? length d)%nat then holds_ (drop want d) st' else ends st'.
Proof.
revert got d st. induction fuel as [|fuel IH]; intros got d st H Hn Hf want; [lia|].
cbn [GetStr_loop]. destruct (src_ready _ _ H) as [Hr Hl].
assert (∃ m, (if negb (rdNext (str st) =? stop (str st))%nat
    then move (Z.min (n - Z.of_nat (length got)) (ready st)) st else Ok ([], st)) =
    Ok (take m d, advanced m st) ∧ holds_ (drop m d) (advanced m st) ∧
    m = Nat.min want (stop (str st) - rdNext (str st))) as (m & -> & H1 & Em).
{ destruct (Nat.eqb_spec (rdNext (str st)) (stop (str st))) as [E|E]; cbn [negb].
  - exists 0%nat. destruct (src_move _ _ 0%nat H ltac:(lia)) as [_ H0].
    rewrite take_0. split_and!; [|done|lia]. do 2 f_equal. unfold advanced, on_str.
    destruct st as [[] ? ?]. cbn. unfold set_rdNext. cbn. by rewrite Nat.add_0_r.
  - eexists. destruct (move_ok _ _ (Z.min (n - Z.of_nat (length got)) (ready st)) H) as [-> H0].
    { unfold ready. lia. }
    split_and!; [done|done|]. unfold ready, want. lia. }
cbn [mbind res_bind]. assert (length (take m d) = m) as Hm by (rewrite length_take; lia).
destruct (src_open _ _ H1) as [-> ->]. cbn [orb negb].
rewrite length_app, Hm. destruct (Z.eqb_spec (Z.of_nat (length got + m)) n) as [E|E].
{ exists (advanced m st). assert (want = m) as -> by lia. split; [done|].
  rewrite (proj2 (Nat.leb_le _ _)) by lia. done. }
assert (rdNext (str (advanced m st)) = stop (str (advanced m st))) as Hemp by (cbn; lia).
destruct (src_fill _ _ H1 Hemp) as (st' & -> & Hst). cbn [mbind res_bind].
case_decide as Hd.
- rewrite (src_ends _ Hst). exists st'. apply (f_equal length) in Hd. rewrite length_drop in Hd. cbn in Hd.
  rewrite (take_ge d m), (take_ge d want) by lia. rewrite (proj2 (Nat.leb_gt _ _)) by lia. done.
- destruct Hst as (-> & H2 & Hne). fold (marked st').
  destruct (IH (got ++ take m d) (drop m d) (marked st') H2) as (st2 & -> & Hst2).
  + rewrite length_app, Hm. lia.
  + rewrite length_drop. rewrite (proj2 (Nat.eqb_neq _ _)) by done.
    destruct (Nat.eqb_spec (rdNext (str st)) (stop (str st))); lia.
  + rewrite length_app, Hm in *. replace (Z.to_nat (n - Z.of_nat (length got + m))) with (want - m)%nat in * by lia.
    exists st2. split.
    * do 2 f_equal. rewrite <- app_assoc. f_equal. rewrite take_take_drop. f_equal. lia.
    * rewrite length_drop, drop_drop in Hst2. replace (m + (want - m))%nat with want in Hst2 by lia.
      destruct (Nat.leb_spec (want - m) (length d - m)), (Nat.leb_spec want (length d)); done || lia.
Qed.

(** [FCGX_GetStr] returns the next [n] octets, or all there are. *)
Lemma GetStr_ok n d st :
  holds_ d st → 0 ≤ n →
  ∃ st', FCGX_GetStr fill n st = Ok (take (Z.to_nat n) d, st') ∧
    if n <=? Z.of_nat (length d) then holds_ (drop (Z.to_nat n) d) st' else ends st'.
Proof.
intros H Hn. unfold FCGX_GetStr. destruct (src_open _ _ H) as [-> ->]. cbn [orb negb].
destruct (Z.leb_spec n 0).
{ replace n with 0 by lia. exists st. rewrite (proj2 (Z.leb_le _ _)) by lia.
  change (Z.to_nat 0) with 0%nat. by rewrite take_0, drop_0. }
destruct (src_ready _ _ H) as [Hr Hl].
destruct (Z.leb_spec n (ready st)) as [E|E].
- destruct (move_ok _ _ n H) as [-> H1]; [lia|]. eexists. split; [done|].
  unfold ready in E. rewrite (proj2 (Z.leb_le _ _)) by lia. done.
- destruct (GetStr_loop_ok (backlog st + 2) n [] d st H) as (st' & -> & Hst); [cbn; lia| |].
  { pose proof (src_backlog _ _ H). case_match; lia. }
  cbn [length app] in *. rewrite Z.sub_0_r in *. exists st'. split; [done|].
  destruct (Nat.leb_spec (Z.to_nat n) (length d)), (Z.leb_spec n (Z.of_nat (length d))); done || lia.
Qed.
End source.

(** ** Parameters *)

(** The array never fills up: an entry and the null after it fit. *)
Definition params_wf (p : Params) : Prop :=
  cur p < capacity p ∧ (capacity p ≤ 30 ∨ capacity p ≤ 2 * cur p).

Lemma PutParam_ok e p :
  params_wf p → cur p + 1 < 2 ^ 30 →
  ∃ p', PutParam e p = Ok p' ∧ vec p' = vec p ++ [e] ∧ params_wf p'.
Proof.
intros [H1 H2] Hb. unfold PutParam. rewrite (proj2 (Z.leb_gt _ _)) by done.
unfold params_wf, cur in *. cbn [vec capacity]. rewrite length_app. cbn [length].
destruct (Z.leb_spec (capacity p) (Z.of_nat (length (vec p) + 1))).
- cbn [capacity vec]. unfold s32. rewrite swrap_small by lia. rewrite (proj2 (Z.leb_gt _ _)) by lia.
  eexists. split_and!; try done; cbn [vec capacity]; rewrite length_app; cbn [length]; lia.
- cbn [capacity vec]. rewrite (proj2 (Z.leb_gt _ _)) by lia.
  eexists. split_and!; try done; cbn [vec capacity]; rewrite length_app; cbn [length]; lia.
Qed.

(** The reading of a parameter stream: the entries [name=value] of the complete
    pairs, and whether the stream ended after a pair. *)
Fixpoint params_fuel (fuel : nat) (d : bytes) : res (list bytes * bool) :=
  match fuel, d with
  | _, [] => Ok ([], true)
  | O, _ => Fault OutOfFuel
  | S fuel, _ =>
      match dec_len d with
      | None => Ok ([], false)
      | Some (n, d) =>
          match dec_len d with
          | None => Ok ([], false)
          | Some (v, d) =>
              if n + v + 2 =? 2 ^ 32 then
                match d with [] => Ok ([], false) | _ => Fault OutOfBounds end
              else if 2 ^ 31 <=? n + v + 2 then Fault AssertFail
              else if n + v <=? Z.of_nat (length d) then
                '(es, ok) ← params_fuel fuel (drop (Z.to_nat v) (drop (Z.to_nat n) d));
                Ok ((take (Z.to_nat n) d ++ [x3d] ++ take (Z.to_nat v) (drop (Z.to_nat n) d)) :: es, ok)
              else Ok ([], false)
          end
      end
  end.

Definition params_of (d : bytes) : res (list bytes * bool) := params_fuel (S (length d)) d.

Lemma dec_len_shrinks d n d' : dec_len d = Some (n, d') → 0 ≤ n < 2 ^ 31 ∧ (length d' < length d)%nat.
Proof.
unfold dec_len. destruct d as [|b d]; [done|]. pose proof (b2z_range b).
destruct (Z.ltb_spec (b2z b) 128).
- intros [= <- <-]. cbn [length]. lia.
- destruct (Nat.leb_spec 4 (length (b :: d))) as [Hl|]; [|done]. intros [= <- <-].
  destruct d as [|b2 [|b1 [|b0 d]]]; try (cbn [length] in Hl; lia). cbn [take drop length].
  rewrite take_0, drop_0. pose proof (be_load_cons b [b2; b1; b0]) as E.
  pose proof (be_load_range [b2; b1; b0]). cbn [length] in *. lia.
Qed.

Lemma length_top_bit b : negb (Z.land (b2z b) 0x80 =? 0) = negb (b2z b <? 128).
Proof. by destruct b. Qed.

Lemma low_bits b : 128 ≤ b2z b → Z.land (b2z b) 0x7f = b2z b - 128.
Proof. destruct b; intros H; first [reflexivity|by destruct H]. Qed.

Section params.
Context {fill : St → res St} {holds_ : bytes → St → Prop} {ends : St → Prop}.
Context {Hsrc : Source fill holds_ ends}.

Lemma param_length_ok b d st :
  holds_ d st →
  ∃ st', param_length fill (b2z b) st = Ok (fst <$> dec_len (b :: d), st') ∧
    match dec_len (b :: d) with Some (_, d') => holds_ d' st' | None => ends st' end.
Proof.
intros H. unfold param_length. rewrite length_top_bit. cbn [dec_len].
destruct (Z.ltb_spec (b2z b) 128) as [E|E]; cbn [negb]; [by eexists|].
destruct (GetStr_ok 3 d st H ltac:(lia)) as (st' & -> & Hst). cbn [mbind res_bind].
exists st'. change (Z.to_nat 3) with 3%nat in *.
destruct d as [|b2 [|b1 [|b0 d]]]; try done.
assert ((3 <=? Z.of_nat (length (b2 :: b1 :: b0 :: d))) = true) as H3
  by (apply Z.leb_le; cbn [length]; lia). rewrite H3 in Hst.
cbn [take drop length Nat.leb fmap option_fmap option_map fst] in *. rewrite ?take_0, ?drop_0 in *.
split; [|done]. do 3 f_equal. rewrite low_bits, !Z.shiftl_mul_pow2 by lia.
rewrite !be_load_cons. cbn [length]. change (be_load []) with 0. lia.
Qed.

Lemma param_block_ok n v d st :
  holds_ d st → 0 ≤ n < 2 ^ 31 → 0 ≤ v < 2 ^ 31 →
  if n + v + 2 =? 2 ^ 32 then
    match d with
    | [] => ∃ st', param_block fill n v st = Ok (None, st') ∧ ends st'
    | _ => param_block fill n v st = Fault OutOfBounds
    end
  else if 2 ^ 31 <=? n + v + 2 then param_block fill n v st = Fault AssertFail
  else if n + v <=? Z.of_nat (length d) then
    ∃ st', param_block fill n v st =
        Ok (Some (take (Z.to_nat n) d ++ [x3d] ++ take (Z.to_nat v) (drop (Z.to_nat n) d)), st') ∧
      holds_ (drop (Z.to_nat v) (drop (Z.to_nat n) d)) st'
  else ∃ st', param_block fill n v st = Ok (None, st') ∧ ends st'.
Proof.
intros H Hn Hv. unfold param_block, Malloc, assert_.
destruct (GetStr_ok n d st H ltac:(lia)) as (st1 & E1 & Hst1).
destruct (Z.eqb_spec (n + v + 2) (2 ^ 32)) as [E|E].
{ rewrite E. change (s32 (2 ^ 32)) with 0. cbn [Z.leb Z.compare mbind res_bind]. rewrite E1. cbn [mbind res_bind].
  destruct d as [|b d].
  - exists st1. rewrite take_nil. cbn [length]. change (0 <? Z.of_nat 0) with false.
    cbn [length] in Hst1. rewrite (proj2 (Z.leb_gt _ _)) in Hst1 by lia.
    rewrite (proj2 (Z.eqb_neq _ _)) by lia. done.
  - assert (length (take (Z.to_nat n) (b :: d)) ≠ 0%nat).
    { rewrite length_take. cbn [length]. lia. }
    by rewrite (proj2 (Z.ltb_lt _ _)) by lia. }
destruct (Z.leb_spec (2 ^ 31) (n + v + 2)) as [E'|E'].
{ assert (s32 (n + v + 2) < 0) as Hneg; [|by rewrite (proj2 (Z.leb_gt _ _)) by lia].
  unfold s32, swrap. rewrite Z.mod_small by lia. rewrite (proj2 (Z.ltb_ge _ _)) by lia. lia. }
unfold s32. rewrite swrap_small by lia. rewrite (proj2 (Z.leb_le 0 _)) by lia. cbn [mbind res_bind].
rewrite E1. cbn [mbind res_bind]. rewrite length_take.
rewrite (proj2 (Z.ltb_ge _ _)) by lia.
destruct (Z.leb_spec n (Z.of_nat (length d))) as [Hl|Hl].
2:{ rewrite (proj2 (Z.leb_gt _ _)) by lia. exists st1.
    by rewrite (proj2 (Z.eqb_neq _ _)) by lia. }
rewrite (proj2 (Z.eqb_eq _ n)) by lia. cbn [negb]. rewrite (proj2 (Z.leb_gt _ n)) by lia.
destruct (GetStr_ok v _ st1 Hst1 ltac:(lia)) as (st2 & -> & Hst2). cbn [mbind res_bind].
rewrite length_drop in Hst2. rewrite length_take, length_drop.
rewrite (proj2 (Z.ltb_ge _ _)) by lia.
destruct (Z.leb_spec (n + v) (Z.of_nat (length d))) as [Hl2|Hl2]; exists st2.
- rewrite (proj2 (Z.leb_le _ _)) in Hst2 by lia. rewrite (proj2 (Z.eqb_eq _ v)) by lia. cbn [negb].
  by rewrite (proj2 (Z.leb_gt _ _)) by lia.
- rewrite (proj2 (Z.leb_gt _ _)) in Hst2 by lia. by rewrite (proj2 (Z.eqb_neq _ v)) by lia.
Qed.

(** How [ReadParams] leaves the stream. *)
Definition params_done (ok : bool) (st : St) : Prop :=
  if ok then ends st else ∃ st', ends st' ∧ st = on_str (SetError FCGX_PARAMS_ERROR) st'.

Lemma ReadParams_loop_ok fuel fuel' p d st :
  holds_ d st → params_wf p → cur p + Z.of_nat (length d) < 2 ^ 30 → (length d < fuel)%nat →
  (length d < fuel')%nat →
  match params_fuel fuel' d with
  | Fault f => ReadParams_loop fill fuel p st = Fault f
  | Ok (es, ok) => ∃ p' st', ReadParams_loop fill fuel p st = Ok (if ok then 0 else -1, p', st') ∧
      vec p' = vec p ++ es ∧ params_wf p' ∧ params_done ok st'
  end.
Proof.
revert fuel' p d st. induction fuel as [|fuel IH]; intros fuel' p d st H Hp Hc Hf Hf'; [lia|].
destruct fuel' as [|fuel']; [lia|].
destruct d as [|b d]; cbn [params_fuel ReadParams_loop].
{ destruct (GetChar_end _ H) as (st' & -> & He). exists p, st'.
  cbn [mbind res_bind]. by rewrite app_nil_r. }
assert (∀ b, (b2z b =? EOF) = false) as Hne.
{ intros x. apply Z.eqb_neq. pose proof (b2z_range x). unfold EOF. lia. }
assert (∀ st1, ends st1 → ∃ p' st', params_error p st1 = Ok (-1, p', st') ∧
  vec p' = vec p ++ [] ∧ params_wf p' ∧ params_done false st') as Hbad.
{ intros st1 He. exists p, (on_str (SetError FCGX_PARAMS_ERROR) st1).
  split_and!; [done|by rewrite app_nil_r|done|]. by exists st1. }
destruct (GetChar_next _ _ _ H) as (st1 & -> & H1 & _). cbn [mbind res_bind]. rewrite Hne.
destruct (param_length_ok b d st1 H1) as (st2 & -> & H2). cbn [mbind res_bind].
destruct (dec_len (b :: d)) as [[n d2]|] eqn:E; cbn [fmap option_fmap option_map fst]; [|by apply Hbad].
destruct (dec_len_shrinks _ _ _ E) as [Hn Hl2]. cbn [length] in *.
destruct d2 as [|b2 d2].
{ destruct (GetChar_end _ H2) as (st3 & -> & He). cbn [mbind res_bind dec_len]. by apply Hbad. }
destruct (GetChar_next _ _ _ H2) as (st3 & -> & H3 & _). cbn [mbind res_bind]. rewrite Hne.
destruct (param_length_ok b2 d2 st3 H3) as (st4 & -> & H4). cbn [mbind res_bind].
destruct (dec_len (b2 :: d2)) as [[v d4]|] eqn:E4; cbn [fmap option_fmap option_map fst]; [|by apply Hbad].
destruct (dec_len_shrinks _ _ _ E4) as [Hv Hl4]. cbn [length] in *.
pose proof (param_block_ok n v d4 st4 H4 Hn Hv) as HB.
destruct (n + v + 2 =? 2 ^ 32).
{ destruct d4; [|by rewrite HB]. destruct HB as (st5 & -> & He). by apply Hbad. }
destruct (2 ^ 31 <=? n + v + 2); [by rewrite HB|].
destruct (Z.leb_spec (n + v) (Z.of_nat (length d4))).
2:{ destruct HB as (st5 & -> & He). by apply Hbad. }
destruct HB as (st5 & -> & H5). cbn [mbind res_bind].
set (e := _ ++ [x3d] ++ _). destruct (PutParam_ok e p Hp) as (p1 & -> & Hv1 & Hp1); [lia|].
cbn [mbind res_bind]. set (d5 := drop (Z.to_nat v) _) in *.
assert (length d5 ≤ length d4)%nat by (unfold d5; rewrite !length_drop; lia).
assert (cur p1 = cur p + 1) as Hc1 by (unfold cur; rewrite Hv1, length_app; cbn [length]; lia).
specialize (IH fuel' p1 d5 st5 H5 Hp1 ltac:(lia) ltac:(lia) ltac:(lia)).
destruct (params_fuel fuel' d5) as [[es ok]|f]; cbn [mbind res_bind]; [|done].
destruct IH as (p' & st' & -> & Hv' & ? & ?). exists p', st'.
split_and!; [done| |done|done]. by rewrite Hv', Hv1, <- app_assoc.
Qed.

Lemma ReadParams_ok p d st :
  holds_ d st → params_wf p → cur p + Z.of_nat (length d) < 2 ^ 30 →
  match params_of d with
  | Fault f => ReadParams fill p st = Fault f
  | Ok (es, ok) => ∃ p' st', ReadParams fill p st = Ok (if ok then 0 else -1, p', st') ∧
      vec p' = vec p ++ es ∧ params_wf p' ∧ params_done ok st'
  end.
Proof.
intros H Hp Hc. pose proof (src_backlog _ _ H). apply ReadParams_loop_ok; try done; lia.
Qed.
End params.

(** ** The records of a stream *)

Definition header_of (r : frec) : bytes := take 8 (encode_rec r).

Lemma encode_header r : encode_rec r = header_of r ++ f_content r ++ f_padding r.
Proof. unfold header_of, encode_rec. by rewrite !be_store_octets. Qed.

Lemma length_header r : length (header_of r) = 8%nat.
Proof. unfold header_of. rewrite length_take, length_encode. lia. Qed.

Lemma be2 x : 0 ≤ x < 2 ^ 16 → Z.shiftl (b2z (octet (Z.shiftr x 8))) 8 + b2z (octet x) = x.
Proof.
intros Hx. rewrite !octet_mod, !b2z_z2b, !Z.mod_mod by lia.
rewrite Z.shiftl_mul_pow2, Z.shiftr_div_pow2 by lia. change (2 ^ 8) with 256.
rewrite (Z.mod_small (x / 256)) by (split; [apply Z.div_pos|apply Z.div_lt_upper_bound]; lia).
pose proof (Z.div_mod x 256 ltac:(lia)). lia.
Qed.

(** [ProcessHeader] on the header of a record. *)
Lemma ProcessHeader_rec nested uninit r st :
  frec_ok r → f_version r = x01 →
  ProcessHeader nested uninit (header_of r) st =
  let st := on_data (λ d, set_paddingLen (length (f_padding r))
                            (set_contentLen (length (f_content r)) d)) st in
  if b2z (f_type r) =? FCGI_BEGIN_REQUEST then ProcessBeginRecord nested (f_id r) st else
  if f_id r =? FCGI_NULL_REQUEST_ID then ProcessManagementRecord nested uninit (b2z (f_type r)) st else
  if negb (f_id r =? requestId (req st)) then Ok (SKIP, st) else
  if negb (b2z (f_type r) =? type (data (str st))) then Ok (FCGX_PROTOCOL_ERROR, st) else
  Ok (STREAM_RECORD, st).
Proof.
intros (Hid & Hc & Hp) Hv. unfold header_of, encode_rec. rewrite !be_store_octets, Hv. cbn [app take].
unfold ProcessHeader. change (b2z x01) with 1. unfold FCGI_VERSION_1. cbn [Z.eqb Pos.eqb negb].
rewrite !be2 by lia. rewrite b2z_z2b_small by lia. by rewrite !Nat2Z.id.
Qed.

Definition refuse (id : Z) : frec := mkRec x01 x03 id (MakeEndRequestBody 0 FCGI_CANT_MPX_CONN) [] x00.

(** The records a reader of the stream [t] of the request [id] can meet before the
    end of the stream: records of the stream, records of other requests, and
    requests that begin while this one is served. *)
Inductive passing (t id : Z) (r : frec) : Prop :=
  | pass_mine : f_type r = octet t → f_id r = id → f_content r ≠ [] → passing t id r
  | pass_other : f_type r ≠ x01 → f_id r ≠ 0 → f_id r ≠ id → f_content r ≠ [] → passing t id r
  | pass_begin : f_type r = x01 → f_id r ≠ 0 → length (f_content r) = 8%nat → passing t id r.

Definition delivered (t id : Z) (r : frec) : bytes :=
  if decide (f_type r = octet t ∧ f_id r = id) then f_content r else [].
Definition refusal (r : frec) : bytes :=
  if decide (f_type r = x01) then encode_rec (refuse (f_id r)) else [].

(** [c] octets of content, [p] of padding and records up to the end of the stream:
    [d] is to be delivered and [reply] to be sent; [rest] follows. *)
Definition feeds (t id : Z) (c p : nat) (w d reply rest : bytes) : Prop :=
  ∃ a pad rs, length a = c ∧ length pad = p ∧
    Forall (λ r, frec_ok r ∧ f_version r = x01 ∧ passing t id r) rs ∧
    w = a ++ pad ++ concat (encode_rec <$> rs) ++ encode_rec (stream_end t id) ++ rest ∧
    d = a ++ concat (delivered t id <$> rs) ∧ reply = concat (refusal <$> rs).

Definition stream_holds (t : Z) (q : ReqData) (out rest d : bytes) (st : St) : Prop :=
  ∃ k c p w now d' reply, reader t false false false c p q now w st ∧
    stop (str st) = (rdNext (str st) + k)%nat ∧ (stop (str st) ≤ buffStop (data (str st)))%nat ∧
    (k = 0 ∨ stopUnget (str st) ≤ rdNext (str st))%nat ∧
    d = take k w ++ d' ∧ feeds t (requestId q) c p (drop k w) d' reply rest ∧ out = now ++ reply.

Definition stream_ends (t : Z) (q : ReqData) (out rest : bytes) (st : St) : Prop :=
  reader t false false true 0 0 q out rest st.

(** What [FillBuffProc] leaves: the stream's end, or something to deliver. *)
Definition filled (t : Z) (q : ReqData) (out rest d : bytes) (st : St) : Prop :=
  if decide (d = []) then stream_ends t q out rest st
  else isClosed (str st) = false ∧ stream_holds t q out rest d (marked st) ∧
       rdNext (str st) ≠ stop (str st).

(** Content of a record that is not skipped is delivered at once. *)
Lemma fill_content process fuel hdr st t eor c p q out w :
  reader t eor false false c p q out w st → (0 < c ≤ length w)%nat → (0 < fuel)%nat →
  ∃ k st', fill_loop process fuel hdr st = Ok st' ∧ (0 < k ≤ c)%nat ∧
    reader t eor false false (c - k) p q out w st' ∧
    stop (str st') = (rdNext (str st') + k)%nat ∧ (stop (str st') ≤ buffStop (data (str st')))%nat.
Proof.
intros R Hc Hf. destruct fuel as [|fuel]; [lia|]. rewrite fill_loop_S. unfold fill_body.
destruct (refill_ok _ _ _ _ _ _ _ _ _ _ R) as (st1 & -> & R1 & Hlt).
{ intros ->. cbn in Hc. lia. }
unfold content_part. rewrite (rd_c _ _ _ _ _ _ _ _ _ _ R1), (rd_skip _ _ _ _ _ _ _ _ _ _ R1).
rewrite (proj2 (Nat.ltb_lt 0 c)) by lia. cbn [negb mbind res_bind resume].
set (k := Nat.min c _). eexists k, _. split; [done|]. split; [lia|].
split; [|cbn; split; [done|lia]].
ctl R1.
Qed.

Lemma filled_content t q now w st k c p d reply rest :
  reader t false false false c p q now w st →
  stop (str st) = (rdNext (str st) + k)%nat → (stop (str st) ≤ buffStop (data (str st)))%nat →
  (0 < k)%nat → feeds t (requestId q) c p (drop k w) d reply rest → (k ≤ length w)%nat →
  filled t q (now ++ reply) rest (take k w ++ d) st.
Proof.
intros R Hs Hb Hk Hf Hl. unfold filled. rewrite decide_False.
2:{ intros H. apply (f_equal length) in H. rewrite length_app, length_take in H. cbn in H. lia. }
split_and!; [by destruct R| |lia]. exists k, c, p, w, now, d, reply.
split_and!; try done; [|by cbn; right].
ctl R.
Qed.

(** An octet put back in front of what is ahead. *)
Lemma reader_push b st t eor sk cl c p q out w :
  reader t eor sk cl c p q out w st → (0 < rdNext (str st))%nat →
  reader t eor sk cl c p q out (b :: w) (pushed b st).
Proof.
intros [R1 R2 R3 R4 R5 R6 R7 R8 R9 R10 R11 R12 R13 R14 R15 R16 R17] Hpos.
split; cbn -[ahead]; try done; try lia.
- rewrite length_overwrite; [done|]. cbn. lia.
- unfold ahead in *. cbn -[slice].
  replace (buffStop (data (str st)) - (rdNext (str st) - 1))%nat
    with (1 + (buffStop (data (str st)) - rdNext (str st)))%nat by lia.
  rewrite <- R17. set (n := (buffStop _ - _)%nat). unfold slice, overwrite.
  rewrite drop_app_length' by (rewrite length_take; lia). cbn [length app take Nat.add].
  by replace (rdNext (str st) - 1 + 1)%nat with (rdNext (str st)) by lia.
Qed.

Section stream.
Context (nested : St → res St) (uninit : bytes) (t : Z) (q : ReqData).
Context (Ht : 0 ≤ t < 256) (Ht1 : t ≠ FCGI_BEGIN_REQUEST) (Hid : 0 < requestId q < 2 ^ 16).
Context (Hbegun : isBeginProcessed q = true).

#[local] Abbreviation process := (ProcessHeader nested uninit).

Lemma octet_t : b2z (octet t) = t.
Proof. rewrite octet_mod, b2z_z2b, Z.mod_mod by lia. by apply Z.mod_small. Qed.

Lemma not_begin r : f_type r = octet t → (b2z (f_type r) =? FCGI_BEGIN_REQUEST) = false.
Proof. intros ->. rewrite octet_t. by apply Z.eqb_neq. Qed.

Lemma octet_t_begin : octet t ≠ x01.
Proof. intros E. apply (f_equal b2z) in E. by rewrite octet_t in E. Qed.

Lemma delivered_mine r :
  f_type r = octet t → f_id r = requestId q → delivered t (requestId q) r = f_content r.
Proof. intros. unfold delivered. by rewrite decide_True. Qed.

Lemma delivered_none r : ¬ (f_type r = octet t ∧ f_id r = requestId q) → delivered t (requestId q) r = [].
Proof. intros. unfold delivered. by rewrite decide_False. Qed.

Lemma refusal_none r : f_type r ≠ x01 → refusal r = [].
Proof. intros. unfold refusal. by rewrite decide_False. Qed.

(** A record of the stream: its content is next, or the stream ends. *)
Lemma dispatch_mine sk r now w st :
  reader t false sk false 0 0 q now w st → frec_ok r → f_version r = x01 →
  f_type r = octet t → f_id r = requestId q →
  ∃ st', dispatch process (header_of r) st =
      Ok (if (length (f_content r) =? 0)%nat then Return st' else Continue [] st') ∧
    reader t false sk (length (f_content r) =? 0)%nat (length (f_content r))
      (length (f_padding r)) q now w st'.
Proof.
intros R Hok Hv Hty Hi. unfold dispatch. rewrite ProcessHeader_rec by done. cbn zeta.
rewrite not_begin by done. rewrite (proj2 (Z.eqb_neq (f_id r) _)) by (unfold FCGI_NULL_REQUEST_ID; lia).
cbn [on_str on_data str req net]. rewrite (rd_req _ _ _ _ _ _ _ _ _ _ R), Hi, Z.eqb_refl. cbn [negb].
rewrite Hty, octet_t. cbn [data set_data type set_paddingLen set_contentLen set_stop set_eorStop].
rewrite (rd_type _ _ _ _ _ _ _ _ _ _ R), Z.eqb_refl. cbn [negb mbind res_bind].
unfold STREAM_RECORD. cbn [Z.eqb]. cbn [on_str on_data str set_data data set_isClosed contentLen
  set_eorStop set_paddingLen set_contentLen set_stop].
destruct (length (f_content r) =? 0)%nat; eexists; (split; [done|]); ctl R.
Qed.

(** A record of another request is skipped. *)
Lemma dispatch_other r now w st :
  reader t false false false 0 0 q now w st → frec_ok r → f_version r = x01 →
  f_type r ≠ x01 → f_id r ≠ 0 → f_id r ≠ requestId q →
  ∃ st', dispatch process (header_of r) st = Ok (Continue [] st') ∧
    reader t false true false (length (f_content r)) (length (f_padding r)) q now w st'.
Proof.
intros R Hok Hv Hty H0 Hi. unfold dispatch. rewrite ProcessHeader_rec by done. cbn zeta.
rewrite (proj2 (Z.eqb_neq (b2z _) _)) by (intros E; by apply (b2z_inj _ x01) in E).
rewrite (proj2 (Z.eqb_neq (f_id r) _)) by done.
cbn [on_str on_data str req net]. rewrite (rd_req _ _ _ _ _ _ _ _ _ _ R), (proj2 (Z.eqb_neq _ _)) by done.
cbn [negb mbind res_bind]. unfold SKIP, STREAM_RECORD. cbn [Z.eqb Pos.eqb].
eexists. split; [done|]. ctl R.
Qed.

Lemma refuse_record id :
  ∃ hd, MakeHeader FCGI_END_REQUEST id 8 0 = Ok hd ∧
    hd ++ MakeEndRequestBody 0 FCGI_CANT_MPX_CONN = encode_rec (refuse id).
Proof.
destruct (MakeHeader_rec FCGI_END_REQUEST id (MakeEndRequestBody 0 FCGI_CANT_MPX_CONN) [])
  as [E E']; [done..|]. eexists. split; [exact E|]. by rewrite app_nil_r in E'.
Qed.

(** A request that begins while another is served is refused. *)
Lemma dispatch_begin r now w st :
  reader t false false false 0 0 q now w st → frec_ok r → f_version r = x01 →
  f_type r = x01 → f_id r ≠ 0 → length (f_content r) = 8%nat →
  ∃ st', dispatch process (header_of r) st = Ok (Continue [] st') ∧
    reader t false true false (length (f_content r)) (length (f_padding r)) q
      (now ++ encode_rec (refuse (f_id r))) w st'.
Proof.
intros R Hok Hv Hty H0 Hl. unfold dispatch. rewrite ProcessHeader_rec by done. cbn zeta.
rewrite Hty. change (b2z x01 =? FCGI_BEGIN_REQUEST) with true. unfold ProcessBeginRecord.
rewrite (proj2 (Z.eqb_neq _ _)) by done. cbn [on_str on_data str req net].
rewrite (rd_req _ _ _ _ _ _ _ _ _ _ R), Hbegun.
cbn [data set_data contentLen set_paddingLen set_contentLen set_stop set_eorStop]. rewrite Hl.
cbn [Nat.eqb negb orb]. destruct (refuse_record (f_id r)) as (hd & -> & E). cbn [mbind res_bind]. rewrite E.
destruct (net_write_ok (net st) (encode_rec (refuse (f_id r)))) as (n & -> & Hn1 & Hn2 & Hn3);
  [by destruct R|].
cbn [mbind res_bind]. unfold SKIP, STREAM_RECORD. cbn [Z.eqb Pos.eqb].
eexists. split; [done|].
destruct R as [R1 R2 R3 R4 R5 R6 R7 R8 R9 R10 R11 R12 R13 R14 R15 R16 R17].
split; cbn [str req net on_data on_str data set_data set_isClosed set_stop set_eorStop set_skip
  set_paddingLen set_contentLen isReader isClosed FCGI_errno type eorStop skip contentLen paddingLen
  buff bufflen buffStop rdNext]; try done; [by rewrite Hn2, R11|by rewrite Hn3|].
rewrite <- R17. unfold ahead. cbn. by rewrite Hn3.
Qed.

(** The next header ahead is reached. *)
Lemma reach_skip sk r fuel st c p now a pad w :
  reader t false sk false c p q now (a ++ pad ++ header_of r ++ w) st → (0 < c → sk = true)%nat →
  length a = c → length pad = p → (backlog st < fuel)%nat →
  ∃ st' fuel' hdr', fill_loop process fuel [] st =
      dispatch process (header_of r) st' ≫= resume process fuel' hdr' ∧
    reader t false (sk && (c =? 0)%nat) false 0 0 q now w st' ∧ (length w < fuel')%nat.
Proof.
intros R Hsk Ha Hp Hf. rewrite (backlog_ahead _ _ _ _ _ _ _ _ _ _ R) in Hf. rewrite app_assoc in R, Hf.
apply (fill_to_header process fuel [] st _ _ _ _ _ _ _ _ _ R Hsk); [rewrite length_app; lia| | |done].
- by rewrite length_header.
- intros E. apply (f_equal length) in E. by rewrite length_header in E.
Qed.

Lemma reach r fuel st c p now a pad w :
  reader t false (0 <? c)%nat false c p q now (a ++ pad ++ header_of r ++ w) st →
  length a = c → length pad = p → (backlog st < fuel)%nat →
  ∃ st' fuel' hdr', fill_loop process fuel [] st =
      dispatch process (header_of r) st' ≫= resume process fuel' hdr' ∧
    reader t false false false 0 0 q now w st' ∧ (length w < fuel')%nat.
Proof.
intros R Ha Hp Hf.
destruct (reach_skip _ _ fuel _ _ _ _ _ _ _ R) as (st' & fuel' & hdr' & E & R' & Hw); try done.
{ intros Hc. by apply Nat.ltb_lt. }
exists st', fuel', hdr'. split_and!; try done.
by replace ((0 <? c)%nat && (c =? 0)%nat) with false in R' by (by destruct c).
Qed.

(** After the header of a record of the stream. *)
Lemma fill_mine a pad rs fuel st now rest :
  reader t false false false (length a) (length pad) q now
    (a ++ pad ++ concat (encode_rec <$> rs) ++ encode_rec (stream_end t (requestId q)) ++ rest) st →
  a ≠ [] → Forall (λ r, frec_ok r ∧ f_version r = x01 ∧ passing t (requestId q) r) rs → (0 < fuel)%nat →
  ∃ st', fill_loop process fuel [] st = Ok st' ∧
    filled t q (now ++ concat (refusal <$> rs)) rest (a ++ concat (delivered t (requestId q) <$> rs)) st'.
Proof.
intros R Ha Hrs Hf. assert (0 < length a)%nat by (destruct a; [done|cbn; lia]).
destruct (fill_content process fuel [] _ _ _ _ _ _ _ _ R) as (k & st' & -> & Hk & R' & Hs & Hb);
  [rewrite length_app; lia|lia|].
exists st'. split; [done|]. set (w := a ++ _) in R'.
assert (take k w = take k a) as E1 by (unfold w; by rewrite take_app_le by lia).
rewrite <- (take_drop k a) at 1. rewrite <- E1, <- app_assoc.
eapply filled_content; try done; [lia| |unfold w; rewrite length_app; lia].
exists (drop k a), pad, rs. split_and!; try done; [by rewrite length_drop|].
unfold w. by rewrite drop_app_le by lia.
Qed.

(** The records ahead, from the end of the current record or from the middle of one
    that is skipped. *)
Lemma fill_records rs fuel st c p now a pad rest :
  reader t false (0 <? c)%nat false c p q now
    (a ++ pad ++ concat (encode_rec <$> rs) ++ encode_rec (stream_end t (requestId q)) ++ rest) st →
  length a = c → length pad = p →
  Forall (λ r, frec_ok r ∧ f_version r = x01 ∧ passing t (requestId q) r) rs →
  (backlog st < fuel)%nat →
  ∃ st', fill_loop process fuel [] st = Ok st' ∧
    filled t q (now ++ concat (refusal <$> rs)) rest (concat (delivered t (requestId q) <$> rs)) st'.
Proof.
revert fuel st c p now a pad. induction rs as [|r rs IH]; intros fuel st c p now a pad R Ha Hp Hrs Hf.
- cbn [fmap list_fmap concat app] in R |- *. rewrite encode_header in R. cbn [f_content f_padding stream_end] in R.
  rewrite <- !app_assoc in R. destruct (reach _ _ _ _ _ _ _ _ _ R Ha Hp Hf) as (st1 & fuel' & hdr' & -> & R1 & _).
  destruct (dispatch_mine _ (stream_end t (requestId q)) _ _ _ R1) as (st2 & -> & R2);
    [unfold frec_ok; cbn; lia|done..|].
  cbn [f_content stream_end length Nat.eqb mbind res_bind resume] in *. exists st2. split; [done|].
  unfold filled. rewrite decide_True by done. by rewrite app_nil_r.
- apply Forall_cons_1 in Hrs as [(Hok & Hv & Hpass) Hrs].
  cbn [fmap list_fmap concat] in R |- *. rewrite encode_header in R. rewrite <- !app_assoc in R.
  destruct (reach _ _ _ _ _ _ _ _ _ R Ha Hp Hf) as (st1 & fuel' & hdr' & -> & R1 & Hf').
  destruct Hpass as [Hty Hi Hne|Hty H0 Hi Hne|Hty H0 Hl].
  + rewrite delivered_mine, refusal_none by (done || (rewrite Hty; apply octet_t_begin)).
    destruct (dispatch_mine _ _ _ _ _ R1 Hok Hv Hty Hi) as (st2 & -> & R2). cbn [app].
    rewrite (proj2 (Nat.eqb_neq (length _) _)) in * by (by destruct (f_content r)).
    cbn [mbind res_bind resume]. eapply fill_mine; [exact R2|done|done|lia].
  + rewrite delivered_none, refusal_none by (done || by intros [_ ?]). cbn [app].
    destruct (dispatch_other _ _ _ _ R1 Hok Hv Hty H0 Hi) as (st2 & -> & R2). cbn [mbind res_bind resume].
    replace true with (0 <? length (f_content r))%nat in R2
      by (apply Nat.ltb_lt; destruct (f_content r); [done|cbn; lia]).
    eapply IH; [exact R2|done|done|done|]. by rewrite (backlog_ahead _ _ _ _ _ _ _ _ _ _ R2).
  + rewrite delivered_none by (intros [E _]; rewrite Hty in E; symmetry in E; by apply octet_t_begin in E).
    unfold refusal at 1. rewrite decide_True by done. cbn [app].
    destruct (dispatch_begin _ _ _ _ R1 Hok Hv Hty H0 Hl) as (st2 & -> & R2). cbn [mbind res_bind resume].
    replace true with (0 <? length (f_content r))%nat in R2 by (apply Nat.ltb_lt; lia).
    rewrite app_assoc. eapply IH; [exact R2|done|done|done|].
    by rewrite (backlog_ahead _ _ _ _ _ _ _ _ _ _ R2).
Qed.

(** A stream of records delivers their content. *)
#[export] Instance stream_source out rest :
  Source (fill_all process) (stream_holds t q out rest) (stream_ends t q out rest).
Proof.
split.
- intros d st (k & c & p & w & now & d' & reply & R & _). by destruct R.
- intros d st (k & c & p & w & now & d' & reply & R & Hs & Hb & _ & -> & _). rewrite Hs.
  split; [lia|]. destruct (buffered _ _ _ _ _ _ _ _ _ _ k R) as [_ Hk]; [lia|].
  rewrite length_app, length_take. lia.
- intros d st m (k & c & p & w & now & d' & reply & R & Hs & Hb & Hu & -> & Hf & ->) Hm.
  destruct (buffered _ _ _ _ _ _ _ _ _ _ k R) as [_ Hk]; [lia|].
  destruct (buffered _ _ _ _ _ _ _ _ _ _ m R) as [-> Hmw]; [lia|].
  assert (length (take k w) = k) as Hlk by (rewrite length_take; lia).
  rewrite take_app_le, drop_app_le by lia. rewrite take_take, Nat.min_l by lia. split; [done|].
  exists (k - m)%nat, c, p, (drop m w), now, d', reply.
  split_and!; [apply (advance _ _ _ _ _ _ _ _ _ _ m R); lia|cbn; lia|done|cbn; lia| | |done].
  + by rewrite skipn_firstn_comm.
  + rewrite drop_drop. by replace (m + (k - m))%nat with k by lia.
- intros d st (k & c & p & w & now & d' & reply & R & Hs & Hb & Hu & -> & Hf & ->).
  rewrite (backlog_ahead _ _ _ _ _ _ _ _ _ _ R). destruct Hf as (a & pad & rs & _ & _ & _ & E & -> & _).
  apply (f_equal length) in E. revert E. rewrite !length_app, !length_drop, length_take.
  assert (∀ l, length (concat (delivered t (requestId q) <$> l)) ≤ length (concat (encode_rec <$> l)))%nat as Hle.
  { intros l. induction l as [|r l IHl]; [done|]. cbn [fmap list_fmap concat].
    rewrite !length_app, length_encode. unfold delivered at 1. case_decide; cbn [length]; lia. }
  specialize (Hle rs). lia.
- intros d st (k & c & p & w & now & d' & reply & R & Hs & Hb & Hu & -> & Hf & ->) Hne. lia.
- intros b d st (k & c & p & w & now & d' & reply & R & Hs & Hb & Hu & -> & Hf & ->) Hlt.
  exists (S k), c, p, (b :: w), now, d', reply. cbn [take drop].
  split_and!; [|cbn; lia|done|cbn; lia|done|done|done]. by apply reader_push; [|lia].
- intros d st (k & c & p & w & now & d' & reply & R & Hs & Hb & Hu & -> & Hf & ->) He.
  assert (k = 0%nat) as -> by lia. rewrite take_0, drop_0 in *. cbn [app].
  destruct Hf as (a & pad & rs & Ha & Hp & Hrs & -> & -> & ->). unfold fill_all.
  destruct a as [|b a].
  + cbn [length app] in *. subst c. destruct (fill_records rs (S (backlog st)) st 0 p now [] pad rest)
      as (st' & -> & Hst); try done; [lia|]. exists st'. split; [done|]. exact Hst.
  + subst c p. destruct (fill_mine (b :: a) pad rs (S (backlog st)) st now rest)
      as (st' & -> & Hst); try done; [lia|]. exists st'. split; [done|]. exact Hst.
- intros st R. by destruct R.
Qed.
End stream.
