(* ===== verification/FcgxAccept.v ===== *)
(** [fastcgi/fastcgi_lib/fcgiapp.cpp]: the life of a request.  [FCGX_Accept_r]
    finishes the previous request, takes a connection, reads the begin record and
    the parameters, and opens the three streams; [FCGX_Finish_r] closes them.

    The three streams, the request structure and the connection they share are one
    state here, [FCGX_Request] with its [World]; an operation on a stream takes the
    stream, the request's common members and the connection out of it and puts them
    back. *)

From Stdlib Require Import ZArith Lia Bool.
From Stdlib.Strings Require Import Byte String.
From stdpp Require Import base numbers list option.
From S2P Require Import Prelude CxxString Fcgx FcgxRead.
Local Open Scope Z_scope.

Definition FCGI_FAIL_ACCEPT_ON_INTR : Z := 1.
Definition FCGI_LISTENSOCK_FILENO : Z := 0.

(** ** State *)

(** [FCGX_Request]; [None] is the null pointer. *)
Record FCGX_Request := mkRequest {
  reqData : ReqData;
  in_ : option FCGX_Stream;
  out_ : option FCGX_Stream;
  err_ : option FCGX_Stream;
  paramsPtr : option Params;
  envp : option (list bytes);
  ipcFd : Z;
  flags : Z;
  listen_sock : Z;
}.

(** What [OS_Accept] returns. *)
Inductive os_accept := Accepted (fd : Z) (n : Net) | AcceptErr (errno : Z).

(** The connections to come (when the list ends, the wait for one is broken off with
    [errno] 0), the one that is open, and those that were closed. *)
Record World := mkWorld { accepts : list os_accept; conn : Net; closed : list Net }.

(** The library's static variables. *)
Record Lib := mkLib {
  libInitialized : bool;
  isFastCGI : Z;
  webServerAddressList : option bytes;
  the_request : FCGX_Request;
}.

Definition set_in s (r : FCGX_Request) : FCGX_Request :=
  mkRequest (reqData r) s (out_ r) (err_ r) (paramsPtr r) (envp r) (ipcFd r) (flags r) (listen_sock r).
Definition set_out s (r : FCGX_Request) : FCGX_Request :=
  mkRequest (reqData r) (in_ r) s (err_ r) (paramsPtr r) (envp r) (ipcFd r) (flags r) (listen_sock r).
Definition set_err s (r : FCGX_Request) : FCGX_Request :=
  mkRequest (reqData r) (in_ r) (out_ r) s (paramsPtr r) (envp r) (ipcFd r) (flags r) (listen_sock r).
Definition set_reqData q (r : FCGX_Request) : FCGX_Request :=
  mkRequest q (in_ r) (out_ r) (err_ r) (paramsPtr r) (envp r) (ipcFd r) (flags r) (listen_sock r).
Definition set_paramsPtr p (r : FCGX_Request) : FCGX_Request :=
  mkRequest (reqData r) (in_ r) (out_ r) (err_ r) p (envp r) (ipcFd r) (flags r) (listen_sock r).
Definition set_envp e (r : FCGX_Request) : FCGX_Request :=
  mkRequest (reqData r) (in_ r) (out_ r) (err_ r) (paramsPtr r) e (ipcFd r) (flags r) (listen_sock r).
Definition set_ipcFd fd (r : FCGX_Request) : FCGX_Request :=
  mkRequest (reqData r) (in_ r) (out_ r) (err_ r) (paramsPtr r) (envp r) fd (flags r) (listen_sock r).

Definition set_conn n (w : World) : World := mkWorld (accepts w) n (closed w).

Definition set_isBeginProcessed b (q : ReqData) : ReqData :=
  mkReq (requestId q) (role q) b (keepConnection q) (appStatus q) (nWriters q).
Definition set_nWriters n (q : ReqData) : ReqData :=
  mkReq (requestId q) (role q) (isBeginProcessed q) (keepConnection q) (appStatus q) n.

(** ** Finishing *)

Definition FCGX_FreeStream (s : option FCGX_Stream) : option FCGX_Stream := None.

Definition OS_IpcClose (fd : Z) (w : World) : World :=
  if fd =? -1 then w else mkWorld (accepts w) (mkNet [] [] []) (closed w ++ [conn w]).

Definition FCGX_Free (r : FCGX_Request) (close : bool) (w : World) : FCGX_Request * World :=
  let r := set_in (FCGX_FreeStream (in_ r)) r in
  let r := set_out (FCGX_FreeStream (out_ r)) r in
  let r := set_err (FCGX_FreeStream (err_ r)) r in
  let r := set_paramsPtr (FreeParams (paramsPtr r)) r in
  if close then (set_ipcFd (-1) r, OS_IpcClose (ipcFd r) w) else (r, w).

(** [FCGX_FClose] of one of the request's streams. *)
Definition close_stream_of (s : option FCGX_Stream) (r : FCGX_Request) (w : World) :
    res (Z * FCGX_Stream * FCGX_Request * World) :=
  match s with
  | None => Fault OutOfBounds
  | Some s =>
      '(z, st) ← FCGX_FClose (mkSt s (reqData r) (conn w));
      Ok (z, str st, set_reqData (req st) r, set_conn (net st) w)
  end.

Definition FCGX_Finish_r (r : FCGX_Request) (w : World) : res (FCGX_Request * World) :=
  let close := keepConnection (reqData r) =? 0 in
  '(close, r, w) ←
    (match in_ r with
     | Some s =>
         '(e, serr, r, w) ← close_stream_of (err_ r) r w;
         let r := set_err (Some serr) r in
         '(o, sout, r, w) ← close_stream_of (out_ r) r w;
         let r := set_out (Some sout) r in
         Ok (close || negb (e =? 0) || negb (o =? 0) || negb (FCGX_GetError s =? 0), r, w)
     | None => Ok (close, r, w)
     end);
  Ok (FCGX_Free r close w).

(** ** Accepting *)

Definition FCGX_InitRequest (sock fl : Z) : FCGX_Request :=
  mkRequest (mkReq 0 0 false 0 0 0) None None None None None (-1) fl sock.

Definition role_string (role : Z) : option bytes :=
  if role =? FCGI_RESPONDER then Some (list_byte_of_string "FCGI_ROLE=RESPONDER") else
  if role =? FCGI_AUTHORIZER then Some (list_byte_of_string "FCGI_ROLE=AUTHORIZER") else
  if role =? FCGI_FILTER then Some (list_byte_of_string "FCGI_ROLE=FILTER") else None.

Section accept.
(** What memory holds when it is allocated, and whether it is aligned. *)
Context (aligned : bool) (junk : byte) (uninit : bytes).

(** An open connection: the begin record and the parameters.  Returns whether the
    request is accepted. *)
Definition read_request (r : FCGX_Request) (w : World) : res (bool * FCGX_Request * World) :=
  let r := set_reqData (set_isBeginProcessed false (reqData r)) r in
  st ← FillBuffProc uninit (mkSt (NewReader aligned junk 8192 0) (reqData r) (conn w));
  let r := set_reqData (req st) (set_in (Some (str st)) r) in
  let w := set_conn (net st) w in
  if negb (isBeginProcessed (reqData r)) then Ok (false, r, w) else
  match role_string (role (reqData r)) with
  | None => Ok (false, r, w)
  | Some roleStr =>
      p ← NewParams 30;
      p ← PutParam roleStr p;
      s ← SetReaderType FCGI_PARAMS (str st);
      '(z, p, st) ← ReadParams (FillBuffProc uninit) p (mkSt s (reqData r) (conn w));
      let r := set_reqData (req st) (set_in (Some (str st)) (set_paramsPtr (Some p) r)) in
      Ok (0 <=? z, r, set_conn (net st) w)
  end.

(** The streams of an accepted request. *)
Definition open_streams (r : FCGX_Request) (w : World) : res (Z * FCGX_Request * World) :=
  match in_ r, paramsPtr r with
  | Some s, Some p =>
      s ← SetReaderType FCGI_STDIN s;
      let r := set_in (Some s) r in
      let r := set_out (Some (NewWriter aligned junk 8192 FCGI_STDOUT)) r in
      let r := set_err (Some (NewWriter aligned junk 512 FCGI_STDERR)) r in
      let r := set_reqData (set_nWriters 2 (reqData r)) r in
      Ok (0, set_envp (Some (vec p)) r, w)
  | _, _ => Fault OutOfBounds
  end.

Fixpoint accept_loop (fuel : nat) (r : FCGX_Request) (w : World) :
    res (Z * FCGX_Request * World) :=
  match fuel with
  | O => Fault OutOfFuel
  | S fuel =>
      let serve r w :=
        '(ok, r, w) ← read_request r w;
        if (ok : bool) then open_streams r w else
        let '(r, w) := FCGX_Free r true w in accept_loop fuel r w in
      if ipcFd r <? 0 then
        match accepts w with
        | Accepted fd n :: acs => serve (set_ipcFd fd r) (mkWorld acs n (closed w))
        | AcceptErr e :: acs =>
            Ok (if 0 <? e then 0 - e else -9999, set_ipcFd (-1) r, mkWorld acs (conn w) (closed w))
        | [] => Ok (-9999, set_ipcFd (-1) r, w)
        end
      else serve r w
  end.

Definition FCGX_Accept_r (initialized : bool) (r : FCGX_Request) (w : World) :
    res (Z * FCGX_Request * World) :=
  if negb initialized then Ok (-9998, r, w) else
  '(r, w) ← FCGX_Finish_r r w;
  accept_loop (length (accepts w) + 2) r w.

(** ** The request of a single-threaded application *)

(** [FCGX_Init]: [init] is the result of [OS_LibInit] with [errno], [addrs] the
    environment variable. *)
Definition FCGX_Init (init : Z * Z) (addrs : option bytes) (l : Lib) : Z * Lib :=
  if libInitialized l then (0, l) else
  let l := mkLib (libInitialized l) (isFastCGI l) (webServerAddressList l)
             (FCGX_InitRequest FCGI_LISTENSOCK_FILENO 0) in
  if init.1 =? -1 then ((if init.2 =? 0 then -9997 else init.2), l)
  else (0, mkLib true (isFastCGI l) (c_string <$> addrs) (the_request l)).

Definition FCGX_Accept (init : Z * Z) (addrs : option bytes) (l : Lib) (w : World) :
    res (Z * Lib * World) :=
  let '(rc, l) := FCGX_Init init addrs l in
  if negb (rc =? 0) then Ok (rc, l, w) else
  '(rc, r, w) ← FCGX_Accept_r (libInitialized l) (the_request l) w;
  Ok (rc, mkLib (libInitialized l) (isFastCGI l) (webServerAddressList l) r, w).

Definition FCGX_Finish (l : Lib) (w : World) : res (Lib * World) :=
  '(r, w) ← FCGX_Finish_r (the_request l) w;
  Ok (mkLib (libInitialized l) (isFastCGI l) (webServerAddressList l) r, w).
End accept.
