(* ===== verification/FcgxLife.v ===== *)
(** Correctness of the request life cycle of [fcgiapp.cpp]: a request sent as the
    protocol prescribes is accepted with its role, flags and parameters, its input
    is delivered, and finishing it sends what was written and ends the request; and
    the cases the library does not handle. *)

From Stdlib Require Import ZArith Lia Bool.
From Stdlib.Strings Require Import Byte String.
From stdpp Require Import base numbers list option.
From S2P Require Import Prelude CxxString Endian Buffer Codec CodecSpec Fcgx FcgxWriter FcgxRead FcgxReader FcgxAccept.
Local Open Scope Z_scope.

(** ** Reading within one record *)

(** While a record is interpreted [eorStop] is set: the reader delivers the rest [d]
    of its content, and its end takes the padding. *)
Definition record_holds (t : Z) (q : ReqData) (out pad rest d : bytes) (st : St) : Prop :=
  ∃ k c, reader t true false false c (length pad) q out (d ++ pad ++ rest) st ∧
    stop (str st) = (rdNext (str st) + k)%nat ∧ (stop (str st) ≤ buffStop (data (str st)))%nat ∧
    (k = 0 ∨ stopUnget (str st) ≤ rdNext (str st))%nat ∧
    length d = (k + c)%nat ∧ pad ++ rest ≠ [].

Definition record_ends (t : Z) (q : ReqData) (out rest : bytes) (st : St) : Prop :=
  reader t true false true 0 0 q out rest st.

Lemma fill_record_end process fuel st t q out pad rest hdr :
  reader t true false false 0 (length pad) q out (pad ++ rest) st → pad ++ rest ≠ [] →
  (length pad < fuel)%nat →
  ∃ st', fill_loop process fuel hdr st = Ok st' ∧ record_ends t q out rest st'.
Proof.
revert st pad. induction fuel as [|fuel IH]; intros st pad R Hne Hf; [lia|].
rewrite fill_loop_S. unfold fill_body.
destruct (refill_ok _ _ _ _ _ _ _ _ _ _ R Hne) as (st1 & -> & R1 & Hlt).
unfold content_part. rewrite (rd_c _ _ _ _ _ _ _ _ _ _ R1). cbn [Nat.ltb Nat.leb].
destruct (padding_skipped _ _ _ _ _ _ _ _ _ hdr R1 eq_refl) as (k & st2 & Hk & Hprog & -> & R2 & _).
destruct (Nat.ltb_spec k (length pad)) as [E|E].
- cbn [mbind res_bind resume]. rewrite <- length_drop in R2.
  assert (0 < length (drop k pad))%nat by (rewrite length_drop; lia).
  apply IH with (drop k pad); [done| |rewrite length_drop; specialize (Hprog Hlt); lia].
  by destruct (drop k pad); [cbn in *; lia|].
- rewrite drop_ge in R2 by done. replace (length pad - k)%nat with 0%nat in R2 by lia. cbn [app] in R2.
  unfold header_part. rewrite (rd_eor _ _ _ _ _ _ _ _ _ _ R2). cbn [mbind res_bind resume].
  eexists. split; [done|]. unfold record_ends. ctl R2.
Qed.

#[export] Instance record_source process t q out pad rest :
  Source (fill_all process) (record_holds t q out pad rest) (record_ends t q out rest).
Proof.
split.
- intros d st (k & c & R & _). by destruct R.
- intros d st (k & c & R & Hs & Hb & Hu & Hl & Hne). lia.
- intros d st m (k & c & R & Hs & Hb & Hu & Hl & Hne) Hm.
  destruct (buffered _ _ _ _ _ _ _ _ _ _ m R) as [-> _]; [lia|]. rewrite take_app_le by lia.
  split; [done|]. exists (k - m)%nat, c. pose proof (advance _ _ _ _ _ _ _ _ _ _ m R ltac:(lia)) as R'.
  rewrite drop_app_le in R' by lia.
  split_and!; [exact R'|cbn; lia|done|cbn; lia|rewrite length_drop; lia|done].
- intros d st (k & c & R & _). rewrite (backlog_ahead _ _ _ _ _ _ _ _ _ _ R), length_app. lia.
- intros d st (k & c & R & Hs & Hb & Hu & Hl & Hne) ?. lia.
- intros b d st (k & c & R & Hs & Hb & Hu & Hl & Hne) Hlt.
  exists (S k), c.
  split_and!; [|cbn; lia|done|cbn; lia|cbn; lia|done]. apply (reader_push b); [done|lia].
- intros d st (k & c & R & Hs & Hb & Hu & Hl & Hne) He. assert (k = 0%nat) as -> by lia.
  unfold fill_all. rewrite (backlog_ahead _ _ _ _ _ _ _ _ _ _ R). case_decide as Hd.
  + subst d. replace c with 0%nat in R by (cbn in Hl; lia). cbn [app] in *.
    apply (fill_record_end _ _ _ _ _ _ _ _ _ R Hne). rewrite length_app. lia.
  + assert (0 < c)%nat by (destruct d; [done|cbn in Hl; lia]).
    destruct (fill_content process (S (length (d ++ pad ++ rest))) [] _ _ _ _ _ _ _ _ R)
      as (k & st' & -> & Hk & R' & Hs' & Hb'); [rewrite length_app; lia|lia|].
    exists st'. split; [done|]. split_and!; [by destruct R'| |lia].
    exists k, (c - k)%nat. split_and!; try done; [ctl R'|cbn; lia|lia].
- intros st R. by destruct R.
Qed.

(** ** The begin record *)

Definition begin_rec (id : Z) (r1 r0 fl : byte) (more pad : bytes) : frec :=
  mkRec x01 x01 id ([r1; r0; fl] ++ more) pad x00.

(** The request after its begin record. *)
Definition begun_by (id : Z) (r1 r0 fl : byte) (q : ReqData) : ReqData :=
  begun (Z.shiftl (b2z r1) 8 + b2z r0) (Z.land (b2z fl) FCGI_KEEP_CONN) (set_requestId id q).

Lemma reader_req st t eor sk cl c p q out w f :
  reader t eor sk cl c p q out w st → reader t eor sk cl c p (f q) out w (on_req f st).
Proof.
intros R. eapply reader_ctl; [exact R|..]; try by destruct R.
cbn. by rewrite (rd_req _ _ _ _ _ _ _ _ _ _ R).
Qed.

(** A new reader meets the begin record: the request is filled in, and the reader is
    at the record's padding. *)
Lemma fill_begin uninit id r1 r0 fl more pad rest q out st :
  let r := begin_rec id r1 r0 fl more pad in
  reader 0 false false false 0 0 q out (encode_rec r ++ rest) st →
  frec_ok r → 0 < id → length more = 5%nat → isBeginProcessed q = false → pad ++ rest ≠ [] →
  ∃ st', FillBuffProc uninit st = Ok st' ∧
    reader 0 false false false 0 (length pad) (begun_by id r1 r0 fl q) out (pad ++ rest) st'.
Proof.
intros r R Hok Hid Hmore Hbeg Hne. set (nested := fill_all (ProcessHeader (FillBuffProc_depth uninit 0) uninit)).
change (FillBuffProc uninit st) with (fill_all (ProcessHeader nested uninit) st). unfold fill_all at 1.
assert (f_content r = [r1; r0; fl] ++ more) as Hc by done.
rewrite encode_header, <- !app_assoc in R.
destruct (reach nested uninit 0 q r (S (backlog st)) st 0 0 out [] [] _ R eq_refl eq_refl ltac:(lia))
  as (st1 & fuel' & hdr' & -> & R1 & _).
unfold dispatch. rewrite ProcessHeader_rec by done. cbn zeta.
change (b2z (f_type r) =? FCGI_BEGIN_REQUEST) with true. unfold ProcessBeginRecord.
change (f_id r) with id. rewrite (proj2 (Z.eqb_neq id 0)) by lia.
set (st2 := on_data _ _). change (contentLen (data (str st2))) with (length (f_content r)).
assert (length (f_content r) = 8%nat) as Hl by (rewrite Hc, length_app, Hmore; done).
rewrite Hl. cbn [Nat.eqb negb orb].
change (req st2) with (req st1). rewrite (rd_req _ _ _ _ _ _ _ _ _ _ R1), Hbeg.
assert (record_holds 0 (set_requestId id q) out pad rest (f_content r) (on_req (set_requestId id) st2)) as H2.
{ exists 0%nat, 8%nat. split_and!; [|cbn; lia| |by left|done|done].
  - apply reader_req. replace 8%nat with (length (f_content r)). ctl R1.
  - cbn. by destruct R1. }
destruct (GetStr_ok (fill := nested) 8 (f_content r) _ H2 ltac:(lia)) as (st3 & E & H3).
rewrite E. cbn [mbind res_bind]. change (Z.to_nat 8) with 8%nat in *.
rewrite Hl in H3. cbn [Z.of_nat Z.leb] in H3. change (8 <=? Z.of_nat 8) with true in H3.
rewrite take_ge by lia. rewrite drop_ge in H3 by lia. rewrite Hc. cbn [app].
replace (length (r1 :: r0 :: fl :: more)) with 8%nat by (cbn; lia).
cbn [Nat.eqb negb mbind res_bind]. unfold BEGIN_RECORD, SKIP, STREAM_RECORD.
cbn [Z.eqb Pos.eqb mbind res_bind resume]. eexists. split; [done|].
destruct H3 as (k & c & R3 & _ & _ & _ & Hkc & _). cbn [app] in R3.
replace c with 0%nat in R3 by (cbn in Hkc; lia).
apply (reader_req _ _ _ _ _ _ _ _ _ _ (begun (Z.shiftl (b2z r1) 8 + b2z r0) (Z.land (b2z fl) FCGI_KEEP_CONN))) in R3.
ctl R3.
Qed.

(** ** The streams of a request *)

Lemma NewReader_ok aligned junk len t q n :
  no_fail n → Forall has_data (reads n) →
  reader t false false false 0 0 q (sent n) (concat (chunk <$> reads n))
    (mkSt (NewReader aligned junk len t) q n).
Proof.
intros Hn Hr. unfold NewReader, NewStream.
set (z := Z.min (Z.max len 32) (FCGI_MAX_LENGTH + 1)).
assert (32 ≤ z ≤ 65536) as Hz by (unfold z, FCGI_MAX_LENGTH; lia).
rewrite AlignInt8_spec by lia. pose proof (Z.mod_pos_bound (- z) 8 ltac:(lia)) as Hp.
split; cbn; try done; try lia; [by rewrite length_replicate|destruct aligned; lia].
Qed.

Lemma SetReaderType_ok t' st t eor sk cl c p q out w :
  reader t eor sk cl c p q out w st →
  ∃ s, SetReaderType t' (str st) = Ok s ∧ stop s = rdNext s ∧
    reader t' false false false 0 0 q out w (mkSt s (req st) (net st)).
Proof.
intros R. unfold SetReaderType. rewrite (rd_reader _ _ _ _ _ _ _ _ _ _ R). cbn [assert_ mbind res_bind].
eexists. split_and!; [done|done|]. ctl R.
Qed.

Definition stream_recs (t id : Z) (rs : list frec) : Prop :=
  Forall (λ r, frec_ok r ∧ f_version r = x01 ∧ passing t id r) rs.
Definition stream_wire (t id : Z) (rs : list frec) : bytes :=
  concat (encode_rec <$> rs) ++ encode_rec (stream_end t id).
Definition content_of (t id : Z) (rs : list frec) : bytes := concat (delivered t id <$> rs).
Definition refusals (rs : list frec) : bytes := concat (refusal <$> rs).

(** A reader set to a stream holds the content of its records. *)
Lemma stream_start t q out rs rest st :
  reader t false false false 0 0 q out (stream_wire t (requestId q) rs ++ rest) st →
  stop (str st) = rdNext (str st) → stream_recs t (requestId q) rs →
  stream_holds t q (out ++ refusals rs) rest (content_of t (requestId q) rs) st.
Proof.
intros R Hs Hrs.
exists 0%nat, 0%nat, 0%nat, (stream_wire t (requestId q) rs ++ rest), out,
  (content_of t (requestId q) rs), (refusals rs).
split_and!; [done|lia|rewrite Hs; by destruct R|by left|by rewrite take_0| |done].
exists [], [], rs. rewrite drop_0. split_and!; try done. unfold stream_wire. by rewrite <- app_assoc.
Qed.

Lemma FillBuffProc_source uninit t q out rest :
  0 ≤ t < 256 → t ≠ FCGI_BEGIN_REQUEST → 0 < requestId q < 2 ^ 16 → isBeginProcessed q = true →
  Source (FillBuffProc uninit) (stream_holds t q out rest) (stream_ends t q out rest).
Proof. intros. by apply (stream_source (FillBuffProc_depth uninit 1) uninit). Qed.

(** ** Acceptance *)

(** A request on the wire: its begin record, and the records of the parameters and
    of the input. *)
Definition request_wire (id : Z) (r1 r0 fl : byte) (more : bytes) (rp rs : list frec) : bytes :=
  encode_rec (begin_rec id r1 r0 fl more []) ++
  stream_wire FCGI_PARAMS id rp ++ stream_wire FCGI_STDIN id rs.

(** The request that [FCGX_Accept_r] makes of it. *)
Record accepted (id : Z) (r1 r0 fl : byte) (entries : list bytes) (body out rest : bytes)
    (appStatus0 : Z) (r : FCGX_Request) (w : World) : Prop := {
  ac_req : reqData r =
    mkReq id (Z.shiftl (b2z r1) 8 + b2z r0) true (Z.land (b2z fl) FCGI_KEEP_CONN) appStatus0 2;
  ac_in : ∃ s, in_ r = Some s ∧ stream_holds FCGI_STDIN (reqData r) out rest body (mkSt s (reqData r) (conn w));
  ac_out : ∃ aligned junk, out_ r = Some (NewWriter aligned junk 8192 FCGI_STDOUT);
  ac_err : ∃ aligned junk, err_ r = Some (NewWriter aligned junk 512 FCGI_STDERR);
  ac_envp : envp r = Some entries;
  ac_fail : no_fail (conn w);
}.

Section accept.
Context (aligned : bool) (junk : byte) (uninit : bytes).
Context (id : Z) (r1 r0 fl : byte) (more : bytes) (rp rs : list frec) (rest : bytes).
Context (es : list bytes) (roleStr : bytes).
Context (Hid : 0 < id < 2 ^ 16) (Hmore : length more = 5%nat).
Context (Hrole : role_string (Z.shiftl (b2z r1) 8 + b2z r0) = Some roleStr).
Context (Hrp : stream_recs FCGI_PARAMS id rp) (Hrs : stream_recs FCGI_STDIN id rs).
Context (Hes : params_of (content_of FCGI_PARAMS id rp) = Ok (es, true)).
Context (Hsize : Z.of_nat (length (content_of FCGI_PARAMS id rp)) < 2 ^ 30 - 1).

Lemma read_request_ok r w :
  no_fail (conn w) → Forall has_data (reads (conn w)) →
  concat (chunk <$> reads (conn w)) = request_wire id r1 r0 fl more rp rs ++ rest →
  ∃ r' w' s p, read_request aligned junk uninit r w = Ok (true, r', w') ∧
    reqData r' = begun_by id r1 r0 fl (set_isBeginProcessed false (reqData r)) ∧
    in_ r' = Some s ∧ paramsPtr r' = Some p ∧ vec p = roleStr :: es ∧
    stream_ends FCGI_PARAMS (reqData r') (sent (conn w) ++ refusals rp)
      (stream_wire FCGI_STDIN id rs ++ rest) (mkSt s (reqData r') (conn w')).
Proof.
intros Hn Hreads Hwire. unfold read_request. cbn zeta.
set (r1' := set_reqData _ r). set (q1 := reqData r1').
pose proof (NewReader_ok aligned junk 8192 0 q1 (conn w) Hn Hreads) as R. rewrite Hwire in R.
unfold request_wire in R. rewrite <- !app_assoc in R.
destruct (fill_begin uninit id r1 r0 fl more [] _ q1 _ _ R) as (st1 & -> & R1); try done.
{ unfold frec_ok. cbn. rewrite Hmore. cbn. lia. }
{ lia. }
{ unfold stream_wire. rewrite (encode_header (stream_end _ _)).
  intros E. apply (f_equal length) in E. rewrite !length_app, length_header in E. cbn in E. lia. }
cbn [mbind res_bind app length reqData set_reqData set_in conn set_conn] in *.
set (q2 := begun_by id r1 r0 fl q1) in *. rewrite (rd_req _ _ _ _ _ _ _ _ _ _ R1).
change (isBeginProcessed q2) with true. change (role q2) with (Z.shiftl (b2z r1) 8 + b2z r0).
cbn [negb]. rewrite Hrole.
destruct (SetReaderType_ok FCGI_PARAMS _ _ _ _ _ _ _ _ _ _ R1) as (s & Es & Hs & R2).
change (NewParams 30) with (Ok (mkParams [] 30)). cbn [mbind res_bind].
destruct (PutParam_ok roleStr (mkParams [] 30)) as (p1 & -> & Hv1 & Hp1); [unfold params_wf, cur; cbn; lia..|].
rewrite Es. cbn [mbind res_bind]. rewrite (rd_req _ _ _ _ _ _ _ _ _ _ R1) in R2.
change id with (requestId q2) in Hrp, R2 |- * at 1.
apply stream_start in R2; [|done|done].
pose proof (FillBuffProc_source uninit FCGI_PARAMS q2 (sent (conn w) ++ refusals rp)
  (stream_wire FCGI_STDIN id rs ++ rest) ltac:(done) ltac:(done) Hid eq_refl) as Hsrc.
change (requestId q2) with id in R2.
pose proof (ReadParams_ok p1 _ _ R2 Hp1) as HP. rewrite Hes in HP.
destruct HP as (p & st3 & -> & Hv & _ & Hend).
{ unfold cur. rewrite Hv1. cbn [vec app length]. lia. }
cbn [mbind res_bind]. change (0 <=? 0) with true.
eexists _, _, (str st3), p. cbn [reqData set_reqData set_in set_paramsPtr in_ paramsPtr conn set_conn].
assert (req st3 = q2) as Eq by (by destruct Hend). rewrite Eq.
split_and!; try done; [by rewrite Hv, Hv1|]. unfold params_done in Hend.
destruct st3 as [s3 q3 n3]. cbn [req str net] in *. by rewrite Eq in Hend.
Qed.

Lemma open_streams_ok r w s p q out :
  in_ r = Some s → paramsPtr r = Some p → vec p = roleStr :: es → requestId (reqData r) = id →
  stream_ends FCGI_PARAMS (reqData r) out (stream_wire FCGI_STDIN id rs ++ rest) (mkSt s (reqData r) (conn w)) →
  set_nWriters 2 (reqData r) = q → q = mkReq id (Z.shiftl (b2z r1) 8 + b2z r0) true
    (Z.land (b2z fl) FCGI_KEEP_CONN) (appStatus q) 2 →
  ∃ r', open_streams aligned junk r w = Ok (0, r', w) ∧ ipcFd r' = ipcFd r ∧
    accepted id r1 r0 fl (roleStr :: es) (content_of FCGI_STDIN id rs) (out ++ refusals rs) rest
      (appStatus q) r' w.
Proof.
intros Hin Hp Hv Hi Hend Hq Hq'. unfold open_streams. rewrite Hin, Hp.
destruct (SetReaderType_ok FCGI_STDIN _ _ _ _ _ _ _ _ _ _ Hend) as (s' & Es & Hs & R).
cbn [str req net] in *. rewrite Es. cbn [mbind res_bind]. eexists. split; [done|]. split; [done|].
assert (no_fail (conn w)) by (by destruct Hend).
split; cbn [reqData in_ out_ err_ envp set_envp set_reqData set_err set_out set_in conn];
  [by rewrite Hq| |by eexists _, _|by eexists _, _|by rewrite Hv|done].
exists s'. split; [done|]. assert (requestId (set_nWriters 2 (reqData r)) = id) as Hi' by done.
rewrite <- Hi' in R, Hrs |- * at 1. apply stream_start; [|done|by rewrite Hi' in *].
rewrite Hi'. rewrite Hi' in R. ctl R.
Qed.

(** An open or the next connection brings the request. *)
Lemma accept_loop_ok fuel r w n :
  no_fail n → Forall has_data (reads n) →
  concat (chunk <$> reads n) = request_wire id r1 r0 fl more rp rs ++ rest →
  (0 ≤ ipcFd r ∧ conn w = n ∨
   ipcFd r < 0 ∧ ∃ fd acs, 0 ≤ fd ∧ accepts w = Accepted fd n :: acs) →
  ∃ r' w', accept_loop aligned junk uninit (S fuel) r w = Ok (0, r', w') ∧ 0 ≤ ipcFd r' ∧
    closed w' = closed w ∧ accepts w' = (if ipcFd r <? 0 then tail (accepts w) else accepts w) ∧
    sent (conn w') = sent n ++ refusals rp ∧
    accepted id r1 r0 fl (roleStr :: es) (content_of FCGI_STDIN id rs)
      (sent n ++ refusals rp ++ refusals rs) rest (appStatus (reqData r)) r' w'.
Proof.
intros Hn Hreads Hwire Hconn. cbn [accept_loop].
assert (∀ r0' w0, conn w0 = n → 0 ≤ ipcFd r0' → closed w0 = closed w →
  appStatus (reqData r0') = appStatus (reqData r) →
  ∃ r' w', ('(ok, r, w) ← read_request aligned junk uninit r0' w0;
        if (ok : bool) then open_streams aligned junk r w else
        let '(r, w) := FCGX_Free r true w in accept_loop aligned junk uninit fuel r w) = Ok (0, r', w') ∧
    0 ≤ ipcFd r' ∧ closed w' = closed w ∧ accepts w' = accepts w0 ∧
    sent (conn w') = sent n ++ refusals rp ∧
    accepted id r1 r0 fl (roleStr :: es) (content_of FCGI_STDIN id rs)
      (sent n ++ refusals rp ++ refusals rs) rest (appStatus (reqData r)) r' w') as Hserve.
{ intros r0' w0 Hc Hfd Hcl Happ.
  destruct (read_request_ok r0' w0) as (r2 & w2 & s & p & E & Hq & Hin & Hp & Hv & Hend); [by rewrite Hc..|].
  assert (ipcFd r2 = ipcFd r0' ∧ closed w2 = closed w0 ∧ accepts w2 = accepts w0) as (Hf2 & Hc2 & Hac2).
  { revert E. unfold read_request. intros E. inv_res. repeat case_match; inv_res; try done.
    all: repeat case_match; inv_res; simplify_eq; done. }
  rewrite E. cbn [mbind res_bind].
  destruct (open_streams_ok r2 w2 s p _ _ Hin Hp Hv ltac:(by rewrite Hq) Hend eq_refl) as (r3 & -> & Hf3 & Hac).
  { by rewrite Hq. }
  exists r3, w2. split_and!; [done|lia|congruence|done| |].
  { rewrite <- Hc. by destruct Hend. }
  rewrite Hc, <- app_assoc in Hac. rewrite Hq in Hac. cbn in Hac. by rewrite Happ in Hac. }
destruct Hconn as [[Hfd Hc]|[Hfd (fd & acs & Hfd' & Hac)]].
- rewrite (proj2 (Z.ltb_ge _ _)) by done. by apply Hserve.
- rewrite (proj2 (Z.ltb_lt _ _)) by done. rewrite Hac. by apply Hserve.
Qed.
End accept.

Lemma land_1_testbit x : (Z.land x 1 =? 0) = negb (Z.testbit x 0).
Proof. change 1 with (Z.ones 1) at 1. rewrite (Z.land_ones x 1) by lia. change (2 ^ 1) with 2. rewrite Z.bit0_odd, Zmod_odd. by destruct (Z.odd x). Qed.

(** ** Finishing *)

(** The records that leave when a request whose error stream was not used ends. *)
Definition response_records (id status : Z) (ds : list bytes) : list frec :=
  (data_rec FCGI_STDOUT id <$> ds) ++ [stream_end FCGI_STDOUT id; request_end id status].

Lemma wrote_other q' t q rd s0 d s n n' :
  wrote t q rd s0 d (mkSt s q n) → requestId q' = requestId q → sent n' = sent n → reads n' = reads n →
  no_fail n' → wrote t q' rd s0 d (mkSt s q' n').
Proof.
intros [[W1 W2 W3 W4 W5 W6 W7 W8 W9 W10 W11] Ht Hq Hr Hlog] Hi Hs Hrd Hn.
cbn [str req net] in *. split; cbn [str req net]; [by split|done|done|congruence|by rewrite Hi, Hs].
Qed.

Lemma request_finish_ok r w q s so a j rd s0 d :
  reqData r = q → nWriters q = 2 → in_ r = Some s → FCGI_errno s = 0 →
  err_ r = Some (NewWriter a j 512 FCGI_STDERR) → out_ r = Some so →
  wrote FCGI_STDOUT q rd s0 d (mkSt so q (conn w)) →
  ∃ r' n' ds, FCGX_Finish_r r w =
      Ok (r', if keepConnection q =? 0 then OS_IpcClose (ipcFd r) (set_conn n' w) else set_conn n' w) ∧
    ipcFd r' = (if keepConnection q =? 0 then -1 else ipcFd r) ∧ in_ r' = None ∧
    no_fail n' ∧ reads n' = rd ∧
    Forall (λ x, x ≠ [] ∧ Z.of_nat (length x) ≤ FCGI_MAX_LENGTH) ds ∧ concat ds = d ∧
    sent n' = s0 ++ concat (encode_rec <$> response_records (requestId q) (appStatus q) ds) ∧
    appStatus (reqData r') = appStatus q.
Proof.
intros Hq Hw Hin He Herr Hout Hwr. unfold FCGX_Finish_r, close_stream_of. rewrite Hin, Herr, Hq.
destruct (FClose_ok _ _ _ _ _ _ (NewWriter_ok a j 512 FCGI_STDERR q (conn w) (w_net _ (wr_writer _ _ _ _ _ _ Hwr))))
  as (st1 & ds1 & -> & Hds1 & Hcat1 & Hs1 & _ & _ & _ & Hq1 & Hn1 & Hr1).
assert (ds1 = []) as ->.
{ destruct ds1 as [|x ds1]; [done|]. apply Forall_cons_1 in Hds1 as [[Hx _] _].
  cbn [concat] in Hcat1. by apply app_eq_nil in Hcat1 as [? _]. }
unfold closing in Hs1. rewrite Hw in Hs1. cbn in Hs1. rewrite app_nil_r in Hs1.
cbn [mbind res_bind out_ set_reqData set_err]. rewrite Hout.
cbn [reqData set_reqData set_err conn set_conn]. rewrite Hq1.
apply (wrote_other (less_writer q) _ _ _ _ _ _ _ (net st1)) in Hwr; [|done|done|done|done].
destruct (FClose_ok _ _ _ _ _ _ Hwr) as (st2 & ds & -> & Hds & Hcat & Hs2 & _ & _ & _ & Hq2 & Hn2 & Hr2).
cbn [mbind res_bind]. unfold FCGX_GetError. rewrite He. cbn [Z.eqb negb]. rewrite !orb_false_r.
exists (FCGX_Free (set_out (Some (str st2)) (set_reqData (req st2) (set_err (Some (str st1)) (set_reqData (less_writer q) r))))
  (keepConnection q =? 0) w).1, (net st2), ds.
assert (closing FCGI_STDOUT (less_writer q) d =
  [stream_end FCGI_STDOUT (requestId q); request_end (requestId q) (appStatus q)]) as Ec.
{ unfold closing. cbn [requestId appStatus nWriters less_writer]. by rewrite Hw. }
unfold response_records. rewrite Ec in Hs2.
assert (appStatus (req st2) = appStatus q) as Ha by (by rewrite Hq2).
unfold FCGX_Free. destruct (keepConnection q =? 0); by split_and!.
Qed.

(** ** An application *)

(** A call on the request's input or output stream. *)
Definition with_in {A} (f : St → res (A * St)) (r : FCGX_Request) (w : World) :
    res (A * FCGX_Request * World) :=
  match in_ r with
  | Some s => '(a, st) ← f (mkSt s (reqData r) (conn w));
              Ok (a, set_reqData (req st) (set_in (Some (str st)) r), set_conn (net st) w)
  | None => Fault OutOfBounds
  end.
Definition with_out {A} (f : St → res (A * St)) (r : FCGX_Request) (w : World) :
    res (A * FCGX_Request * World) :=
  match out_ r with
  | Some s => '(a, st) ← f (mkSt s (reqData r) (conn w));
              Ok (a, set_reqData (req st) (set_out (Some (str st)) r), set_conn (net st) w)
  | None => Fault OutOfBounds
  end.

(** It reads its input with one call and answers with a sequence of writes. *)
Definition application (uninit : bytes) (n : Z) (cs : list wcall) (r : FCGX_Request) (w : World) :
    res (bytes * FCGX_Request * World) :=
  '(body, r, w) ← with_in (FCGX_GetStr (FillBuffProc uninit) n) r w;
  '(_, r, w) ← with_out (λ st, st ← calls cs st; Ok ((), st)) r w;
  Ok (body, r, w).

Lemma application_ok uninit n cs id r1 r0 fl es body out rest app0 r w :
  0 < id < 2 ^ 16 → Z.of_nat (length body) < n → Forall wcall_fits cs →
  accepted id r1 r0 fl es body out rest app0 r w →
  ∃ r' w' s so a j rd, application uninit n cs r w = Ok (body, r', w') ∧
    reqData r' = reqData r ∧ ipcFd r' = ipcFd r ∧ closed w' = closed w ∧
    in_ r' = Some s ∧ FCGI_errno s = 0 ∧ err_ r' = Some (NewWriter a j 512 FCGI_STDERR) ∧
    out_ r' = Some so ∧ (∃ lost, rest = lost ++ concat (chunk <$> rd)) ∧
    wrote FCGI_STDOUT (reqData r) rd out (concat (meant <$> cs)) (mkSt so (reqData r) (conn w')).
Proof.
intros Hid Hn Hfits [Hq (s & Hin & Hs) (a & j & Hout) (a' & j' & Herr) _ _].
assert (requestId (reqData r) = id ∧ isBeginProcessed (reqData r) = true) as [Hi Hb] by (by rewrite Hq).
unfold application, with_in. rewrite Hin.
pose proof (FillBuffProc_source uninit FCGI_STDIN (reqData r) out rest ltac:(done) ltac:(done)
  ltac:(by rewrite Hi) Hb) as Hsrc.
destruct (GetStr_ok n _ _ Hs ltac:(lia)) as (st1 & -> & Hst). cbn [mbind res_bind].
rewrite (proj2 (Z.leb_gt _ _)) in Hst by lia. rewrite take_ge by lia.
unfold with_out. cbn [out_ set_reqData set_in reqData conn set_conn]. rewrite Hout.
pose proof Hst as [_ _ He _ _ _ _ _ Hq1 Hf1 Hs1 Hl1 _ Hn1 Hb1 _ Ha1].
pose proof (NewWriter_ok a j 8192 FCGI_STDOUT (req st1) (net st1) Hf1) as Hwr.
destruct (calls_ok _ _ _ _ _ _ cs Hwr Hfits) as (st2 & -> & Hwr2). cbn [mbind res_bind app] in *.
rewrite Hs1, Hq1 in Hwr2. pose proof (wr_req _ _ _ _ _ _ Hwr2) as Hq2.
eexists _, _, (str st1), (str st2), a', j', (reads (net st1)).
cbn [reqData ipcFd closed in_ err_ out_ conn set_reqData set_in set_out set_conn].
split_and!; try done.
- rewrite <- Ha1. by eexists.
- destruct st2 as [s2 q2 n2]. cbn [str req net] in *. by rewrite Hq2 in Hwr2.
Qed.

(** A request as a web server sends it. *)
Record good_request (id : Z) (r1 r0 : byte) (more : bytes) (rp rs : list frec) (es : list bytes)
    (roleStr : bytes) : Prop := {
  gr_id : 0 < id < 2 ^ 16;
  gr_more : length more = 5%nat;
  gr_role : role_string (Z.shiftl (b2z r1) 8 + b2z r0) = Some roleStr;
  gr_params : stream_recs FCGI_PARAMS id rp;
  gr_stdin : stream_recs FCGI_STDIN id rs;
  gr_entries : params_of (content_of FCGI_PARAMS id rp) = Ok (es, true);
  gr_size : Z.of_nat (length (content_of FCGI_PARAMS id rp)) < 2 ^ 30 - 1;
}.

(** C3: A request is served from its first octet to its last.  For every way the
    connection hands over the octets and every portion in which it takes them,
    [FCGX_Accept_r] accepts a request sent as the protocol prescribes, with the role
    and the parameters as [name=value] entries in order; reading gives exactly the
    content of the request's input records, those of other requests left out and
    requests begun meanwhile refused; and after any sequence of writes
    [FCGX_Finish_r] has sent exactly the written octets in output records, the end of
    the stream and the end of the request, closing the connection if and only if the
    keep-connection bit is not set.  A text written with [FCGX_PutS] is shorter than
    2 GiB. *)
Theorem request_served aligned junk uninit id r1 r0 fl more rp rs rest es roleStr
    fd n acs n0 cl sock fls len cs :
  good_request id r1 r0 more rp rs es roleStr →
  no_fail n → Forall has_data (reads n) → 0 ≤ fd →
  concat (chunk <$> reads n) = request_wire id r1 r0 fl more rp rs ++ rest →
  Z.of_nat (length (content_of FCGI_STDIN id rs)) < len → Forall wcall_fits cs →
  ∃ ra wa rb wb rc wc n' ds,
    FCGX_Accept_r aligned junk uninit true (FCGX_InitRequest sock fls)
      (mkWorld (Accepted fd n :: acs) n0 cl) = Ok (0, ra, wa) ∧
    envp ra = Some (roleStr :: es) ∧
    application uninit len cs ra wa = Ok (content_of FCGI_STDIN id rs, rb, wb) ∧
    FCGX_Finish_r rb wb = Ok (rc, wc) ∧
    (if Z.testbit (b2z fl) 0
     then 0 ≤ ipcFd rc ∧ conn wc = n' ∧ closed wc = cl
     else ipcFd rc = -1 ∧ closed wc = cl ++ [n']) ∧
    sent n' = sent n ++ refusals rp ++ refusals rs ++ concat (encode_rec <$> response_records id 0 ds) ∧
    concat ds = concat (meant <$> cs) ∧
    Forall (λ x, x ≠ [] ∧ Z.of_nat (length x) ≤ FCGI_MAX_LENGTH) ds.
Proof.
intros [Hid Hmore Hrole Hrp Hrs Hes Hsize] Hn Hreads Hfd Hwire Hlen Hfits.
destruct (accept_loop_ok aligned junk uninit id r1 r0 fl more rp rs rest es roleStr Hid Hmore Hrole
  Hrp Hrs Hes Hsize (length acs + 2) (FCGX_InitRequest sock fls) (mkWorld (Accepted fd n :: acs) n0 cl) n)
  as (ra & wa & Ha & Hfa & Hca & _ & _ & Hac); try done.
{ right. split; [cbn; lia|]. by exists fd, acs. }
destruct (application_ok uninit len cs _ _ _ _ _ _ _ _ _ _ _ Hid Hlen Hfits Hac)
  as (rb & wb & s & so & a & j & rd & Hb & Hqb & Hfb & Hcb & Hin & He & Herr & Hout & _ & Hwr).
pose proof (ac_req _ _ _ _ _ _ _ _ _ _ _ Hac) as Hq.
destruct (request_finish_ok rb wb (reqData ra) s so a j rd _ _ Hqb ltac:(by rewrite Hq) Hin He Herr Hout Hwr)
  as (rc & n' & ds & Hc & Hfc & _ & _ & _ & Hds & Hcat & Hsent & _).
exists ra, wa, rb, wb, rc. eexists. exists n', ds.
split_and!; [exact Ha|by apply ac_envp in Hac|exact Hb|exact Hc| | |done|done].
- rewrite Hfc, Hq. cbn [keepConnection]. unfold FCGI_KEEP_CONN. rewrite land_1_testbit.
  cbn [closed] in Hca. rewrite Hfb. unfold OS_IpcClose. destruct (Z.testbit (b2z fl) 0); cbn; [split_and!; [done|done|]; congruence|].
  split; [done|]. rewrite (proj2 (Z.eqb_neq _ _)) by lia. cbn. congruence.
- rewrite Hsent, Hq. by rewrite <- !app_assoc.
Qed.

(** A small request, cut after three octets. *)
Definition demo_params : list frec := [mkRec x01 x04 1 [x01; x01; x61; x62] [] x00].
Definition demo_stdin : list frec := [mkRec x01 x05 1 [x68; x69] [x00] x00].
Definition fcgx_demo_wire (fl : byte) : bytes :=
  request_wire 1 x00 x01 fl (replicate 5 x00) demo_params demo_stdin.
Definition demo_net : Net := mkNet [Chunk (take 3 (fcgx_demo_wire x00)); Chunk (drop 3 (fcgx_demo_wire x00))] [] [].

Lemma demo_good :
  good_request 1 x00 x01 (replicate 5 x00) demo_params demo_stdin [[x61; x3d; x62]]
    (list_byte_of_string "FCGI_ROLE=RESPONDER").
Proof.
split; try done.
- constructor; [|constructor]. split_and!; [unfold frec_ok; cbn; lia|done|by apply pass_mine].
- constructor; [|constructor]. split_and!; [unfold frec_ok; cbn; lia|done|by apply pass_mine].
Qed.

Lemma request_served_witness :
  ∃ ra wa rb wb rc wc n' ds,
    FCGX_Accept_r true x00 (replicate 64 x00) true (FCGX_InitRequest 0 0)
      (mkWorld [Accepted 4 demo_net] (mkNet [] [] []) []) = Ok (0, ra, wa) ∧
    envp ra = Some [list_byte_of_string "FCGI_ROLE=RESPONDER"; [x61; x3d; x62]] ∧
    application (replicate 64 x00) 3 [PutStr [x6f; x6b]] ra wa =
      Ok (content_of FCGI_STDIN 1 demo_stdin, rb, wb) ∧
    FCGX_Finish_r rb wb = Ok (rc, wc) ∧
    (if Z.testbit (b2z x00) 0
     then 0 ≤ ipcFd rc ∧ conn wc = n' ∧ closed wc = []
     else ipcFd rc = -1 ∧ closed wc = [] ++ [n']) ∧
    sent n' = sent demo_net ++ refusals demo_params ++ refusals demo_stdin ++
      concat (encode_rec <$> response_records 1 0 ds) ∧
    concat ds = concat (meant <$> [PutStr [x6f; x6b]]) ∧
    Forall (λ x, x ≠ [] ∧ Z.of_nat (length x) ≤ FCGI_MAX_LENGTH) ds.
Proof.
apply (request_served true x00 (replicate 64 x00) 1 x00 x01 x00 (replicate 5 x00)
  demo_params demo_stdin [] [[x61; x3d; x62]] (list_byte_of_string "FCGI_ROLE=RESPONDER") 4 demo_net []
  (mkNet [] [] []) [] 0 0 3 [PutStr [x6f; x6b]]).
- exact demo_good.
- by constructor.
- by repeat constructor.
- lia.
- reflexivity.
- reflexivity.
- repeat constructor.
Defined.

(** ** Sequences of reads *)

Inductive rcall := ReadChar | ReadStr (n : Z).

(** What a call gives to the application. *)
Definition read_call (fill : St → res St) (c : rcall) (st : St) : res (bytes * St) :=
  match c with
  | ReadChar => '(z, st) ← FCGX_GetChar fill st; Ok (if z =? EOF then [] else [z2b z], st)
  | ReadStr n => FCGX_GetStr fill n st
  end.

Fixpoint read_calls (fill : St → res St) (cs : list rcall) (st : St) : res (list bytes * St) :=
  match cs with
  | [] => Ok ([], st)
  | c :: cs =>
      '(d, st) ← read_call fill c st;
      '(ds, st) ← read_calls fill cs st;
      Ok (d :: ds, st)
  end.

(** How many octets a call asks for. *)
Definition wanted (c : rcall) : nat :=
  match c with ReadChar => 1 | ReadStr n => Z.to_nat n end.

(** The results when [d] is to be delivered. *)
Fixpoint results (cs : list rcall) (d : bytes) : list bytes :=
  match cs with
  | [] => []
  | c :: cs => take (wanted c) d :: results cs (drop (wanted c) d)
  end.

Section sequences.
Context {fill : St → res St} {holds_ : bytes → St → Prop} {ends : St → Prop}.
Context {Hsrc : Source fill holds_ ends}.

Lemma read_call_ok c d st :
  holds_ d st →
  ∃ st', read_call fill c st = Ok (take (wanted c) d, st') ∧
    (holds_ (drop (wanted c) d) st' ∨ ends st' ∧ drop (wanted c) d = []).
Proof.
intros H. destruct c as [|n]; cbn [read_call wanted].
- destruct d as [|b d].
  + destruct (GetChar_end _ H) as (st' & -> & He). exists st'. split; [done|by right].
  + destruct (GetChar_next _ _ _ H) as (st' & -> & H' & _). exists st'. cbn [mbind res_bind].
    pose proof (b2z_range b). rewrite (proj2 (Z.eqb_neq _ _)) by (unfold EOF; lia).
    rewrite z2b_b2z. cbn [take drop]. rewrite take_0, drop_0. split; [done|by left].
- destruct (Z.le_gt_cases 0 n).
  + destruct (GetStr_ok n d st H) as (st' & -> & H'); [done|]. exists st'. split; [done|].
    destruct (Z.leb_spec n (Z.of_nat (length d))); [by left|right]. split; [done|]. apply drop_ge. lia.
  + exists st. unfold FCGX_GetStr. rewrite (proj2 (Z.leb_le n 0)), orb_true_r by lia.
    replace (Z.to_nat n) with 0%nat by lia. rewrite take_0, drop_0. split; [done|by left].
Qed.

(** After the end every call finds the stream closed. *)
Lemma read_calls_closed cs d st :
  isClosed (str st) = true → d = [] →
  read_calls fill cs st = Ok (results cs d, st).
Proof.
intros Hc ->. induction cs as [|c cs IH]; [done|]. cbn [read_calls results].
assert (read_call fill c st = Ok ([], st)) as ->.
{ destruct c; cbn [read_call]; unfold FCGX_GetChar, FCGX_GetStr; by rewrite Hc. }
cbn [mbind res_bind]. rewrite drop_nil, take_nil, IH. done.
Qed.

Lemma read_calls_ok cs d st :
  holds_ d st → ∃ st', read_calls fill cs st = Ok (results cs d, st').
Proof.
revert d st. induction cs as [|c cs IH]; intros d st H; [by eexists|].
cbn [read_calls results]. destruct (read_call_ok c d st H) as (st1 & -> & [H1|[H1 Hd]]);
  cbn [mbind res_bind].
- destruct (IH _ _ H1) as (st2 & ->). by eexists.
- rewrite (read_calls_closed cs (drop (wanted c) d)); [|by apply (src_ends (Source:=Hsrc))|done]. by eexists.
Qed.

(** The last character read can be replaced by any other. *)
Lemma push_back b c d st :
  holds_ (b :: d) st →
  ∃ st1 st2, FCGX_GetChar fill st = Ok (b2z b, st1) ∧ FCGX_UnGetChar (b2z c) st1 = Ok (b2z c, st2) ∧
    holds_ (c :: d) st2.
Proof.
intros H. destruct (GetChar_next _ _ _ H) as (st1 & E & H1 & Hu). exists st1.
pose proof (src_push c _ _ H1 Hu) as H2. unfold FCGX_UnGetChar.
destruct (src_open _ _ H1) as [-> ->]. pose proof (b2z_range c).
rewrite (proj2 (Z.eqb_neq (b2z c) EOF)) by (unfold EOF; lia).
rewrite (proj2 (Nat.eqb_neq _ _)) by lia. cbn [orb negb].
destruct (rdNext (str st1)) as [|n] eqn:En; [lia|]. eexists. split_and!; [done|done|].
assert (octet (b2z c) = c) as ->.
{ apply b2z_inj. rewrite octet_mod, b2z_z2b, Z.mod_mod by lia. by apply Z.mod_small. }
unfold pushed, on_str in H2. rewrite En in H2. cbn [Nat.sub] in H2. rewrite Nat.sub_0_r in H2. exact H2.
Qed.
End sequences.

(** C6: Whatever sequence of [FCGX_GetChar] and [FCGX_GetStr] calls an application makes,
    and in whatever portions the connection hands over the octets, a reader at the start
    of a stream returns the stream's content in order: each call the next octets it asks
    for, or those that are left, and nothing once the stream has ended.  Between the
    records of the stream there may be records of other requests, which are skipped, and
    requests that begin, which are refused.  Every record before the end of the stream has
    content: an empty record of another request makes the code lose the next one of the
    stream ([FcgxParams.empty_record_loses_next]).  Management records and records of this
    request for another stream are left out. *)
Theorem input_delivered uninit t q out rs rest cs st :
  0 ≤ t < 256 → t ≠ FCGI_BEGIN_REQUEST → 0 < requestId q < 2 ^ 16 → isBeginProcessed q = true →
  stream_recs t (requestId q) rs →
  reader t false false false 0 0 q out (stream_wire t (requestId q) rs ++ rest) st →
  stop (str st) = rdNext (str st) →
  ∃ st', read_calls (FillBuffProc uninit) cs st = Ok (results cs (content_of t (requestId q) rs), st').
Proof.
intros Ht Ht1 Hid Hb Hrs R Hs.
pose proof (FillBuffProc_source uninit t q (out ++ refusals rs) rest Ht Ht1 Hid Hb) as Hsrc.
by apply read_calls_ok, stream_start.
Qed.

Lemma input_delivered_witness :
  ∃ st', read_calls (FillBuffProc []) [ReadChar; ReadStr 5; ReadChar]
    (mkSt (NewReader true x00 8192 FCGI_STDIN) (mkReq 1 1 true 0 0 0)
      (mkNet [Chunk (take 9 (stream_wire FCGI_STDIN 1 demo_stdin));
              Chunk (drop 9 (stream_wire FCGI_STDIN 1 demo_stdin))] [] [])) =
    Ok (results [ReadChar; ReadStr 5; ReadChar] (content_of FCGI_STDIN 1 demo_stdin), st').
Proof.
apply (input_delivered [] FCGI_STDIN (mkReq 1 1 true 0 0 0) [] demo_stdin []);
  [done|done|done|done|exact (gr_stdin _ _ _ _ _ _ _ _ demo_good)| |done].
apply (NewReader_ok true x00 8192 FCGI_STDIN _ (mkNet [Chunk (take 9 (stream_wire FCGI_STDIN 1 demo_stdin));
              Chunk (drop 9 (stream_wire FCGI_STDIN 1 demo_stdin))] [] [])).
- by constructor.
- by repeat constructor.
Defined.

(** A character read from a stream can be pushed back, or another one in its
    place: [FCGX_UnGetChar] right after [FCGX_GetChar] succeeds and the next reads
    deliver the pushed character followed by the rest of the stream. *)
Theorem unget_restores uninit t q out rs rest b c d cs st :
  0 ≤ t < 256 → t ≠ FCGI_BEGIN_REQUEST → 0 < requestId q < 2 ^ 16 → isBeginProcessed q = true →
  stream_recs t (requestId q) rs →
  reader t false false false 0 0 q out (stream_wire t (requestId q) rs ++ rest) st →
  stop (str st) = rdNext (str st) → content_of t (requestId q) rs = b :: d →
  ∃ st1 st2 st3, FCGX_GetChar (FillBuffProc uninit) st = Ok (b2z b, st1) ∧
    FCGX_UnGetChar (b2z c) st1 = Ok (b2z c, st2) ∧
    read_calls (FillBuffProc uninit) cs st2 = Ok (results cs (c :: d), st3).
Proof.
intros Ht Ht1 Hid Hb Hrs R Hs Hd.
pose proof (FillBuffProc_source uninit t q (out ++ refusals rs) rest Ht Ht1 Hid Hb) as Hsrc.
apply stream_start in R; [|done|done]. rewrite Hd in R.
destruct (push_back b c d st R) as (st1 & st2 & ? & ? & H2).
destruct (read_calls_ok cs _ _ H2) as (st3 & ?). by exists st1, st2, st3.
Qed.

Lemma unget_restores_witness :
  ∃ st1 st2 st3,
    FCGX_GetChar (FillBuffProc []) (mkSt (NewReader true x00 8192 FCGI_STDIN) (mkReq 1 1 true 0 0 0)
      (mkNet [Chunk (stream_wire FCGI_STDIN 1 demo_stdin)] [] [])) = Ok (b2z x68, st1) ∧
    FCGX_UnGetChar (b2z x48) st1 = Ok (b2z x48, st2) ∧
    read_calls (FillBuffProc []) [ReadStr 9] st2 = Ok (results [ReadStr 9] [x48; x69], st3).
Proof.
apply (unget_restores [] FCGI_STDIN (mkReq 1 1 true 0 0 0) [] demo_stdin [] x68 x48 [x69] [ReadStr 9]);
  [done|done|done|done|exact (gr_stdin _ _ _ _ _ _ _ _ demo_good)| |done|done].
apply (NewReader_ok true x00 8192 FCGI_STDIN _ (mkNet [Chunk (stream_wire FCGI_STDIN 1 demo_stdin)] [] [])).
- by constructor.
- by repeat constructor.
Defined.
