(* ===== verification/FcgxParams.v ===== *)
(** Parameters and management records of [fcgiapp.cpp]: the parameters a web server
    encodes are the ones [FCGX_GetParam] finds, queries for the library's limits are
    answered, and a catalogue of inputs the protocol allows and the library does not
    handle. *)

From Stdlib Require Import ZArith Lia Bool.
From Stdlib.Strings Require Import Byte String.
From stdpp Require Import base numbers list option.
From S2P Require Import Prelude CxxString Endian Buffer Codec CodecSpec Fcgx FcgxWriter FcgxRead FcgxReader FcgxAccept FcgxLife.
Local Open Scope Z_scope.

(** ** Name-value pairs *)

(** The environment entry of a pair. *)
Definition entry (kv : bytes * bytes) : bytes := kv.1 ++ [x3d] ++ kv.2.

Definition pair_small (kv : bytes * bytes) : Prop :=
  Z.of_nat (length kv.1) + Z.of_nat (length kv.2) + 2 < 2 ^ 31.

Lemma params_fuel_enc kvs fuel :
  Forall pair_small kvs → (length (enc_pairs kvs) < fuel)%nat →
  params_fuel fuel (enc_pairs kvs) = Ok (entry <$> kvs, true).
Proof.
intros Hok. revert fuel. induction Hok as [|[k v] kvs Hkv _ IH]; intros fuel Hf.
- by destruct fuel.
- unfold pair_small in Hkv. cbn [fst snd] in Hkv. unfold enc_pairs in *.
  cbn [fmap list_fmap concat] in *.
  assert (∀ x, enc_pair (k, v) ++ x = enc_len (length k) ++ enc_len (length v) ++ k ++ v ++ x)
    as Hp by (intros; unfold enc_pair; by rewrite <- !app_assoc).
  rewrite Hp in Hf |- *. destruct fuel as [|fuel]; [lia|]. cbn [params_fuel].
  assert (∀ n, length (enc_len n) ≠ 0%nat) as Hne by (intros n; unfold enc_len; by case_match).
  destruct (enc_len (length k) ++ _) eqn:El.
  { apply (f_equal length) in El. rewrite length_app in El. specialize (Hne (length k)). cbn in El. lia. }
  rewrite <- El in *. rewrite dec_enc_len, dec_enc_len by lia.
  rewrite (proj2 (Z.eqb_neq _ _)) by lia. rewrite (proj2 (Z.leb_gt _ _)) by lia.
  rewrite !Nat2Z.id, (proj2 (Z.leb_le _ _)) by lens.
  rewrite take_app_length, !drop_app_length, take_app_length.
  specialize (Hne (length k)). rewrite IH by lens. done.
Qed.

Lemma params_of_enc kvs : Forall pair_small kvs → params_of (enc_pairs kvs) = Ok (entry <$> kvs, true).
Proof. intros H. apply params_fuel_enc; [done|lia]. Qed.

(** ** Looking parameters up *)

(** A name without ['='], and no null in name or value. *)
Definition clean (kv : bytes * bytes) : Prop := (x00 ∉ fst kv) ∧ (x3d ∉ fst kv) ∧ (x00 ∉ snd kv).

Lemma c_string_clean s : x00 ∉ s → c_string s = s.
Proof.
intros H. unfold c_string. induction s as [|b s IH]; [done|]. apply not_elem_of_cons in H as [H1 H2].
cbn [span]. rewrite bool_decide_false by congruence. cbn [negb].
specialize (IH H2). destruct (span _ s) as [a c]. cbn [fst] in *. by rewrite IH.
Qed.

Lemma entry_clean kv : clean kv → c_string (entry kv) = entry kv.
Proof.
intros (H1 & _ & H2). apply c_string_clean. unfold entry.
rewrite !elem_of_app, list_elem_of_singleton. intros [?|[?|?]]; done.
Qed.

(** The first ['='] of an entry ends the name. *)
Lemma entry_inj k v name y :
  x3d ∉ k → x3d ∉ name → k ++ x3d :: v = name ++ x3d :: y → k = name ∧ v = y.
Proof.
intros Hk Hn H. revert k Hk H. induction name as [|b name IH]; intros [|c k] Hk H.
- by injection H.
- injection H as -> _. apply not_elem_of_cons in Hk as [? _]. done.
- injection H as <- _. apply not_elem_of_cons in Hn as [? _]. done.
- injection H as -> H. apply not_elem_of_cons in Hn as [_ Hn]. apply not_elem_of_cons in Hk as [_ Hk].
  destruct (IH Hn k Hk H) as [-> ->]. done.
Qed.

Lemma binds_entry name kv :
  x3d ∉ name → clean kv → binds name (entry kv) = bool_decide (kv.1 = name).
Proof.
intros Hn Hc. unfold binds. rewrite (entry_clean kv Hc). destruct kv as [k v], Hc as (_ & Hk & _).
unfold entry. cbn [fst snd app] in *. case_bool_decide as E; [|].
- cbn [andb].
  case_bool_decide as E2; case_bool_decide as E3; try done; exfalso.
  + apply E3. destruct (drop (length name) (k ++ x3d :: v)) as [|b y] eqn:Ed; [done|].
    injection E2 as ->. pose proof (take_drop (length name) (k ++ x3d :: v)) as T. rewrite E, Ed in T.
    symmetry in T. by destruct (entry_inj k v name y Hk Hn T).
  + subst k. apply E2. by rewrite drop_app_length.
- cbn [andb]. symmetry. apply bool_decide_false. intros ->. apply E. by rewrite take_app_length.
Qed.

(** The value of the first pair with the name. *)
Definition first_value (name : bytes) (kvs : list (bytes * bytes)) : option bytes :=
  snd <$> head (filter (λ kv, kv.1 = name) kvs).

Lemma GetParam_entries name kvs :
  x3d ∉ name → Forall clean kvs → GetParam_loop name (entry <$> kvs) = first_value name kvs.
Proof.
intros Hn Hc. unfold first_value. induction Hc as [|kv kvs Hkv _ IH]; [done|].
cbn [fmap list_fmap GetParam_loop]. rewrite binds_entry by done.
case_bool_decide as E.
- rewrite filter_cons_True by done. cbn [head fmap option_fmap option_map].
  rewrite entry_clean by done. unfold entry. rewrite E.
  rewrite <- drop_drop, drop_app_length. cbn [app drop]. by rewrite drop_0.
- rewrite filter_cons_False by done. exact IH.
Qed.

(** C8: The parameters a web server sends are the parameters the application sees.
    When the records of the parameter stream, cut and interleaved in any way, carry
    the encoding of the pairs [kvs], [ReadParams] succeeds, the entries are the pairs
    as [name=value] in order, and [FCGX_GetParam] finds for every name the value of
    its first pair, or nothing. *)
Theorem param_lookup uninit q out rs rest kvs name st :
  0 < requestId q < 2 ^ 16 → isBeginProcessed q = true →
  stream_recs FCGI_PARAMS (requestId q) rs →
  content_of FCGI_PARAMS (requestId q) rs = enc_pairs kvs →
  Z.of_nat (length (enc_pairs kvs)) < 2 ^ 30 → Forall pair_small kvs → Forall clean kvs →
  (x00 ∉ name) → (x3d ∉ name) →
  reader FCGI_PARAMS false false false 0 0 q out (stream_wire FCGI_PARAMS (requestId q) rs ++ rest) st →
  stop (str st) = rdNext (str st) →
  ∃ p st', ReadParams (FillBuffProc uninit) (mkParams [] 30) st = Ok (0, p, st') ∧
    vec p = entry <$> kvs ∧ FCGX_GetParam (Some name) (Some (vec p)) = first_value name kvs.
Proof.
intros Hid Hb Hrs Hc Hlen Hsm Hcl Hn0 Hn R Hs.
pose proof (FillBuffProc_source uninit FCGI_PARAMS q (out ++ refusals rs) rest ltac:(done) ltac:(done)
  Hid Hb) as Hsrc.
apply stream_start in R; [|done|done]. rewrite Hc in R.
pose proof (ReadParams_ok (mkParams [] 30) _ _ R) as HP. rewrite params_of_enc in HP by done.
destruct HP as (p & st' & E & Hv & _); [unfold params_wf, cur; cbn; lia|unfold cur; cbn [vec length]; lia|].
exists p, st'. cbn [vec app] in Hv. split_and!; [done|done|].
unfold FCGX_GetParam. rewrite Hv, (c_string_clean name) by done. by apply GetParam_entries.
Qed.

Lemma param_lookup_witness :
  ∃ p st', ReadParams (FillBuffProc []) (mkParams [] 30)
      (mkSt (NewReader true x00 8192 FCGI_PARAMS) (mkReq 1 1 true 0 0 0)
        (mkNet [Chunk (stream_wire FCGI_PARAMS 1 demo_params)] [] [])) = Ok (0, p, st') ∧
    vec p = entry <$> [([x61], [x62])] ∧
    FCGX_GetParam (Some [x61]) (Some (vec p)) = first_value [x61] [([x61], [x62])].
Proof.
apply (param_lookup [] (mkReq 1 1 true 0 0 0) [] demo_params [] [([x61], [x62])] [x61]).
- done.
- done.
- exact (gr_params _ _ _ _ _ _ _ _ demo_good).
- reflexivity.
- reflexivity.
- by repeat constructor.
- constructor; [|constructor]. unfold clean. cbn.
  rewrite !list_elem_of_singleton. done.
- by rewrite list_elem_of_singleton.
- by rewrite list_elem_of_singleton.
- apply (NewReader_ok true x00 8192 FCGI_PARAMS _ (mkNet [Chunk (stream_wire FCGI_PARAMS 1 demo_params)] [] []));
    by repeat constructor.
- done.
Defined.

(** ** Queries for the library's limits *)

(** The name-value pair that answers a query. *)
Definition answer (kv : bytes * bytes) : bytes :=
  match known_value kv.1 with
  | Some v => [octet (Z.of_nat (length kv.1)); x01] ++ kv.1 ++ [v]
  | None => []
  end.
Definition answers (kvs : list (bytes * bytes)) : bytes := concat (answer <$> kvs).

Lemma split_entry kv : clean kv → split_name (entry kv) = Ok kv.1.
Proof.
intros Hc. unfold split_name. rewrite entry_clean by done. destruct Hc as (_ & Hk & _).
destruct kv as [k v]. unfold entry. cbn [fst snd] in *.
rewrite (search_found _ _ (length k)).
- by rewrite take_app_length.
- exists v. by rewrite drop_app_length.
- intros j Hj. rewrite drop_app_le by lia. destruct (drop j k) as [|b l] eqn:E.
  { apply (f_equal length) in E. rewrite length_drop in E. cbn in E. lia. }
  cbn [app is_prefix]. rewrite decide_False; [done|]. intros <-. apply Hk.
  rewrite <- (take_drop j k), E. apply elem_of_app. right. by left.
Qed.

Lemma respond_values_ok kvs at_ response :
  Forall clean kvs → (at_ + length (answers kvs) < length response)%nat →
  ∃ response', respond_values (entry <$> kvs) at_ response =
      Ok ((at_ + length (answers kvs))%nat, response') ∧ length response' = length response ∧
    take (at_ + length (answers kvs)) response' = take at_ response ++ answers kvs.
Proof.
intros Hc. revert at_ response. induction Hc as [|kv kvs Hkv _ IH]; intros at_ response Hl.
- exists response. unfold answers. cbn [fmap list_fmap concat length respond_values].
  by rewrite Nat.add_0_r, app_nil_r.
- unfold answers in *. cbn [fmap list_fmap concat respond_values] in *. rewrite length_app in Hl |- *.
  rewrite split_entry by done. cbn [mbind res_bind]. assert (answer kv = match known_value kv.1 with
    | Some v => [octet (Z.of_nat (length kv.1)); x01] ++ kv.1 ++ [v] | None => [] end) as Ea by done.
  rewrite Ea in Hl |- *. clear Ea. destruct (known_value kv.1) as [v|] eqn:E.
  2:{ cbn [app length Nat.add] in *. apply IH. lia. }
  set (body := [octet (Z.of_nat (length kv.1)); x01] ++ kv.1 ++ [v]) in *.
  assert (length body = length kv.1 + 3)%nat as Hb by (unfold body; rewrite !length_app; cbn [length]; lia).
  assert ([octet (Z.of_nat (length kv.1)); x01] ++ kv.1 ++ [v; x00] = body ++ [x00]) as ->
    by (unfold body; by rewrite <- !app_assoc).
  rewrite (proj2 (Nat.leb_le _ _)) by (rewrite length_app; cbn [length]; lia).
  destruct (IH (at_ + length kv.1 + 3)%nat (overwrite at_ (body ++ [x00]) response)) as (resp & -> & Hr & Ht).
  { rewrite length_overwrite by (rewrite length_app; cbn [length]; lia). lia. }
  rewrite length_overwrite in Hr by (rewrite length_app; cbn [length]; lia).
  replace (at_ + length kv.1 + 3 + length (concat (answer <$> kvs)))%nat
    with (at_ + (length body + length (concat (answer <$> kvs))))%nat in * by lia.
  exists resp. split_and!; [done|done|]. rewrite Ht. rewrite app_assoc. f_equal.
  unfold overwrite. replace (at_ + length kv.1 + 3)%nat with (at_ + length body)%nat by lia.
  rewrite take_app_add' by (rewrite length_take; lia). f_equal. rewrite <- app_assoc.
  by rewrite take_app_length.
Qed.

Lemma take_header_answers (hd response : bytes) l k :
  length hd = 8%nat → (8 + l + k ≤ length response)%nat →
  take (8 + (l + k)) (overwrite 0 hd response) = hd ++ slice 8 l response ++ slice (8 + l) k response.
Proof.
intros Hh Hl. unfold overwrite. cbn [take app Nat.add]. rewrite Hh. rewrite take_0. cbn [app].
change (S (S (S (S (S (S (S (S (l + k))))))))) with (8 + (l + k))%nat.
rewrite <- Hh at 1. rewrite take_app_add. f_equal. unfold slice.
rewrite <- (take_take_drop _ l k), drop_drop. done.
Qed.

(** The reply to a [FCGI_GET_VALUES] record. *)
Lemma get_values_ok nested uninit t q out pad rest kvs holds_ st :
  Source nested holds_ (record_ends t q out rest) → holds_ (enc_pairs kvs) st →
  Forall pair_small kvs → Forall clean kvs → Z.of_nat (length (enc_pairs kvs)) < 2 ^ 29 →
  length uninit = 64%nat → (length (answers kvs) ≤ 55)%nat → pad = pad8 (length (answers kvs)) →
  ∃ st' junk, ProcessManagementRecord nested uninit FCGI_GET_VALUES st = Ok (MGMT_RECORD, st') ∧
    length junk = pad ∧
    reader t true false true 0 0 q
      (out ++ encode_rec (mkRec x01 (octet FCGI_GET_VALUES_RESULT) 0 (answers kvs) junk x00)) rest st'.
Proof.
intros Hsrc H Hsm Hcl Hlen Hun Hans ->. unfold ProcessManagementRecord.
change (NewParams 3) with (Ok (mkParams [] 3)). cbn [mbind res_bind].
change (FCGI_GET_VALUES =? FCGI_GET_VALUES) with true.
pose proof (ReadParams_ok (mkParams [] 3) _ _ H) as HP. rewrite params_of_enc in HP by done.
destruct HP as (p & st1 & E1 & Hv & _ & Hend); [unfold params_wf, cur; cbn; lia|unfold cur; cbn [vec length]; lia|].
rewrite E1. cbn [mbind res_bind]. cbn [params_done] in Hend. unfold FCGX_GetError.
rewrite (rd_errno _ _ _ _ _ _ _ _ _ _ Hend), (rd_c _ _ _ _ _ _ _ _ _ _ Hend). cbn [Z.eqb Nat.eqb negb orb].
cbn [vec app] in Hv. rewrite Hv.
destruct (respond_values_ok kvs FCGI_HEADER_LEN uninit Hcl) as (resp & -> & Hr & Ht);
  [unfold FCGI_HEADER_LEN; lia|]. cbn [mbind res_bind]. unfold FCGI_HEADER_LEN in *.
set (l := length (answers kvs)) in *. destruct (pad8_spec l) as [Hp8 _].
replace (Z.of_nat (8 + l) - Z.of_nat 8) with (Z.of_nat l) by lia.
assert (AlignInt8 (Z.of_nat l) = Z.of_nat (l + pad8 l)) as Eal.
{ rewrite AlignInt8_spec by lia. unfold pad8. pose proof (Z.mod_pos_bound (- Z.of_nat l) 8). lia. }
rewrite Eal, Nat2Z.id. replace (Z.of_nat (l + pad8 l) - Z.of_nat l) with (Z.of_nat (pad8 l)) by lia.
assert (l + pad8 l ≤ 56)%nat as H56.
{ destruct (pad8_spec l) as [_ Hm]. apply Z.mod_divide in Hm as [z Hz]; lia. }
set (junk := slice (8 + l) (pad8 l) resp).
assert (length junk = pad8 l) as Hj by (apply length_slice; lia).
destruct (MakeHeader_rec FCGI_GET_VALUES_RESULT FCGI_NULL_REQUEST_ID (answers kvs) junk) as [Eh Ee].
{ unfold FCGI_MAX_LENGTH. lia. }
{ lia. }
set (r := mkRec x01 (octet FCGI_GET_VALUES_RESULT) FCGI_NULL_REQUEST_ID (answers kvs) junk x00) in *.
fold (header_of r) in Eh, Ee. rewrite Hj in Eh. fold l in Eh. rewrite Eh. cbn [mbind res_bind].
rewrite (proj2 (Nat.leb_le _ _)) by lia.
rewrite take_header_answers by (apply length_header || lia).
assert (slice 8 l resp = answers kvs) as ->.
{ unfold slice. rewrite take_drop_commute, Ht. rewrite drop_app_length' by (rewrite length_take; lia). done. }
fold junk. rewrite <- Ee.
destruct (net_write_ok (net st1) (encode_rec r)) as (n & -> & Hn1 & Hn2 & Hn3); [by destruct Hend|].
eexists _, junk. split_and!; [done|done|].
destruct Hend as [R1 R2 R3 R4 R5 R6 R7 R8 R9 R10 R11 R12 R13 R14 R15 R16 R17].
split; cbn [str req net]; try done; [by rewrite Hn2, R11|by rewrite Hn3|].
rewrite <- R17. unfold ahead. cbn [str net]. by rewrite Hn3.
Qed.

(** A query for the library's limits is answered.  Interpreting the header of an
    [FCGI_GET_VALUES] record whose content encodes the pairs [kvs] reads exactly that
    record and sends one [FCGI_GET_VALUES_RESULT] record that holds the known names
    with their values, in the order asked, padded to a multiple of eight; it needs an
    octet after the content to be there, and room for the answers in [response]. *)
Theorem get_values_answered uninit t q out kvs pad rest st :
  let r := mkRec x01 (octet FCGI_GET_VALUES) 0 (enc_pairs kvs) pad x00 in
  frec_ok r → reader t true false false 0 0 q out (enc_pairs kvs ++ pad ++ rest) st →
  stop (str st) = rdNext (str st) → pad ++ rest ≠ [] →
  Forall pair_small kvs → Forall clean kvs → length uninit = 64%nat → (length (answers kvs) ≤ 55)%nat →
  ∃ st' junk,
    ProcessHeader (FillBuffProc_depth uninit 1) uninit (header_of r) st = Ok (MGMT_RECORD, st') ∧
    length junk = pad8 (length (answers kvs)) ∧
    reader t true false true 0 0 q
      (out ++ encode_rec (mkRec x01 (octet FCGI_GET_VALUES_RESULT) 0 (answers kvs) junk x00)) rest st'.
Proof.
intros r Hok R Hs Hne Hsm Hcl Hun Hans. rewrite ProcessHeader_rec by done. cbn zeta.
change (b2z (f_type r) =? FCGI_BEGIN_REQUEST) with false.
change (f_id r =? FCGI_NULL_REQUEST_ID) with true. change (b2z (f_type r)) with FCGI_GET_VALUES.
eapply get_values_ok; try done.
- exact (record_source (ProcessHeader (FillBuffProc_depth uninit 0) uninit) t q out pad rest).
- exists 0%nat, (length (enc_pairs kvs)). split_and!; [ctl R|cbn; lia| |by left|done|done].
  cbn. rewrite Hs. by destruct R.
- destruct Hok as (_ & Hc & _). cbn [f_content r] in Hc. lia.
Qed.

Lemma get_values_answered_witness :
  ∃ st' junk,
    ProcessHeader (FillBuffProc_depth (replicate 64 x00) 1) (replicate 64 x00)
      (header_of (mkRec x01 (octet FCGI_GET_VALUES) 0 (enc_pairs [(FCGI_MAX_REQS, [])]) [x00] x00))
      (on_data (set_eorStop true) (mkSt (NewReader true x00 8192 FCGI_STDIN) (mkReq 1 1 true 0 0 0)
        (mkNet [Chunk (enc_pairs [(FCGI_MAX_REQS, [])] ++ [x00] ++ [])] [] []))) = Ok (MGMT_RECORD, st') ∧
    length junk = pad8 (length (answers [(FCGI_MAX_REQS, [])])) ∧
    reader FCGI_STDIN true false true 0 0 (mkReq 1 1 true 0 0 0)
      ([] ++ encode_rec (mkRec x01 (octet FCGI_GET_VALUES_RESULT) 0
        (answers [(FCGI_MAX_REQS, [])]) junk x00)) [] st'.
Proof.
apply (get_values_answered (replicate 64 x00) FCGI_STDIN (mkReq 1 1 true 0 0 0) []
  [(FCGI_MAX_REQS, [])] [x00] []).
- split_and!; vm_compute; done.
- pose proof (NewReader_ok true x00 8192 FCGI_STDIN (mkReq 1 1 true 0 0 0)
    (mkNet [Chunk (enc_pairs [(FCGI_MAX_REQS, [])] ++ [x00] ++ [])] [] [])
    ltac:(by constructor) ltac:(by repeat constructor)) as R.
  cbn [concat fmap list_fmap chunk reads sent] in R. rewrite app_nil_r in R. ctl R.
- done.
- done.
- by repeat constructor.
- constructor; [|constructor]. unfold clean. split_and!; by apply (bool_decide_unpack _).
- done.
- vm_compute. lia.
Defined.

(** ** Inputs that are not handled *)

(** A record without content that belongs to another request makes the reader
    drop the next record of its own stream: [skip] is set for content that does not
    come, and stays set.  For every such record [f] and every data record [r] of the
    stream that follows it, [FillBuffProc] goes on to the content of the records after
    [r], reporting no error. *)
Theorem empty_record_loses_next uninit t q out f r rs rest st :
  0 ≤ t < 256 → t ≠ FCGI_BEGIN_REQUEST → 0 < requestId q < 2 ^ 16 → isBeginProcessed q = true →
  frec_ok f → f_version f = x01 → f_type f ≠ x01 → f_id f ≠ 0 → f_id f ≠ requestId q → f_content f = [] →
  frec_ok r → f_version r = x01 → f_type r = octet t → f_id r = requestId q → f_content r ≠ [] →
  stream_recs t (requestId q) rs →
  reader t false false false 0 0 q out
    (encode_rec f ++ encode_rec r ++ stream_wire t (requestId q) rs ++ rest) st →
  ∃ st', FillBuffProc uninit st = Ok st' ∧
    filled t q (out ++ refusals rs) rest (content_of t (requestId q) rs) st'.
Proof.
intros Ht Ht1 Hid Hb Hf1 Hf2 Hf3 Hf4 Hf5 Hf6 Hr1 Hr2 Hr3 Hr4 Hr5 Hrs R.
set (nested := FillBuffProc_depth uninit 1).
change (FillBuffProc uninit st) with (fill_all (ProcessHeader nested uninit) st). unfold fill_all.
rewrite encode_header, Hf6, encode_header in R. rewrite <- !app_assoc in R.
destruct (reach nested uninit t q f (S (backlog st)) st 0 0 out [] [] _ R eq_refl eq_refl ltac:(lia))
  as (st1 & fuel1 & h1 & -> & R1 & Hl1).
destruct (dispatch_other nested uninit t q f _ _ _ R1) as (st2 & -> & R2); try done.
cbn [mbind res_bind resume]. rewrite Hf6 in R2. cbn [app length] in R2.
destruct (reach_skip nested uninit t q true r fuel1 st2 0 (length (f_padding f)) out [] (f_padding f) _ R2)
  as (st3 & fuel2 & h2 & -> & R3 & Hl2); try done.
{ rewrite (backlog_ahead _ _ _ _ _ _ _ _ _ _ R2). exact Hl1. }
cbn [andb Nat.eqb] in R3.
destruct (dispatch_mine nested uninit t q Ht Ht1 Hid true r _ _ _ R3) as (st4 & -> & R4); try done.
rewrite (proj2 (Nat.eqb_neq (length _) _)) in * by (by destruct (f_content r)).
cbn [mbind res_bind resume].
replace true with (0 <? length (f_content r))%nat in R4
  by (apply Nat.ltb_lt; destruct (f_content r); [done|cbn; lia]).
unfold stream_wire in R4. rewrite <- !app_assoc in R4.
eapply (fill_records nested uninit t q Ht Ht1 Hid Hb rs fuel2 st4 _ _ _ _ _ _ R4); try done.
rewrite (backlog_ahead _ _ _ _ _ _ _ _ _ _ R4). unfold stream_wire in Hl2. by rewrite <- !app_assoc in Hl2.
Qed.

Lemma empty_record_loses_next_witness :
  ∃ st', FillBuffProc [] (mkSt (NewReader true x00 8192 FCGI_STDIN) (mkReq 1 1 true 0 0 0)
      (mkNet [Chunk (encode_rec (mkRec x01 x02 2 [] [] x00) ++
         encode_rec (mkRec x01 x05 1 [x68; x69] [x00] x00) ++ stream_wire FCGI_STDIN 1 [] ++ [])] [] [])) =
      Ok st' ∧
    filled FCGI_STDIN (mkReq 1 1 true 0 0 0) ([] ++ refusals []) [] (content_of FCGI_STDIN 1 []) st'.
Proof.
apply (empty_record_loses_next [] FCGI_STDIN (mkReq 1 1 true 0 0 0) [] (mkRec x01 x02 2 [] [] x00)
  (mkRec x01 x05 1 [x68; x69] [x00] x00) [] []);
  try done; try (split_and!; vm_compute; done).
- constructor.
- apply (NewReader_ok true x00 8192 FCGI_STDIN (mkReq 1 1 true 0 0 0)
    (mkNet [Chunk (encode_rec (mkRec x01 x02 2 [] [] x00) ++
         encode_rec (mkRec x01 x05 1 [x68; x69] [x00] x00) ++ stream_wire FCGI_STDIN 1 [] ++ [])] [] []));
    by repeat constructor.
Defined.

(** C9: [ReadParams] on any content of the parameter stream.  It appends the entries
    of the complete pairs; it returns 0 when the stream ends after a pair, and -1 with
    [FCGX_PARAMS_ERROR] recorded when it ends within one; and it stops where the sum
    of two lengths leaves the range of [int]: in the assertion on the allocation, or
    for two lengths of 2^31 - 1 with an octet after them by writing past an allocation
    of size 0. *)
Theorem params_exact uninit q out rs rest st :
  0 < requestId q < 2 ^ 16 → isBeginProcessed q = true →
  stream_recs FCGI_PARAMS (requestId q) rs →
  Z.of_nat (length (content_of FCGI_PARAMS (requestId q) rs)) < 2 ^ 30 →
  reader FCGI_PARAMS false false false 0 0 q out (stream_wire FCGI_PARAMS (requestId q) rs ++ rest) st →
  stop (str st) = rdNext (str st) →
  match params_of (content_of FCGI_PARAMS (requestId q) rs) with
  | Fault f => ReadParams (FillBuffProc uninit) (mkParams [] 30) st = Fault f
  | Ok (es, ok) => ∃ p st',
      ReadParams (FillBuffProc uninit) (mkParams [] 30) st = Ok (if ok then 0 else -1, p, st') ∧
      vec p = es ∧ cur p < capacity p ∧ isClosed (str st') = true ∧
      FCGX_GetError (str st') = (if ok then 0 else FCGX_PARAMS_ERROR)
  end.
Proof.
intros Hid Hb Hrs Hlen R Hs.
pose proof (FillBuffProc_source uninit FCGI_PARAMS q (out ++ refusals rs) rest ltac:(done) ltac:(done)
  Hid Hb) as Hsrc.
apply stream_start in R; [|done|done].
pose proof (ReadParams_ok (mkParams [] 30) _ _ R) as HP.
destruct (params_of _) as [[es ok]|f]; [|apply HP; unfold params_wf, cur; cbn; lia].
destruct HP as (p & st' & E & Hv & [Hp _] & Hd);
  [unfold params_wf, cur; cbn; lia|unfold cur; cbn [vec length]; lia|].
exists p, st'. split_and!; try done; destruct ok; cbn [params_done] in Hd; try by destruct Hd.
- by destruct Hd as (st1 & _ & ->).
- destruct Hd as (st1 & R1 & ->). unfold FCGX_GetError, SetError. cbn [str on_str].
  by rewrite (rd_errno _ _ _ _ _ _ _ _ _ _ R1).
Qed.

Lemma params_exact_witness :
  ReadParams (FillBuffProc []) (mkParams [] 30)
    (mkSt (NewReader true x00 8192 FCGI_PARAMS) (mkReq 1 1 true 0 0 0)
      (mkNet [Chunk (stream_wire FCGI_PARAMS 1
        [mkRec x01 x04 1 (replicate 8 xff ++ [x61]) [] x00] ++ [])] [] [])) = Fault OutOfBounds.
Proof.
apply (params_exact [] (mkReq 1 1 true 0 0 0) [] [mkRec x01 x04 1 (replicate 8 xff ++ [x61]) [] x00] []);
  try done.
- constructor; [|constructor]. split_and!; [vm_compute; done..|by apply pass_mine].
- apply (NewReader_ok true x00 8192 FCGI_PARAMS (mkReq 1 1 true 0 0 0)
    (mkNet [Chunk (stream_wire FCGI_PARAMS 1
        [mkRec x01 x04 1 (replicate 8 xff ++ [x61]) [] x00] ++ [])] [] [])); by repeat constructor.
Defined.

(** Four queries for one name write past the 64 octets of [response]. *)
Example get_values_overflow :
  FillBuffProc (replicate 64 x00)
    (mkSt (NewReader true x00 8192 0) (mkReq 0 0 false 0 0 0)
      (mkNet [Chunk (encode_rec (mkRec x01 x09 0
        (enc_pairs (replicate 4 (FCGI_MAX_CONNS, []))) [x00] x00))] [] [])) = Fault OutOfBounds.
Proof. vm_compute. reflexivity. Qed.

(** A query is not answered before an octet that follows its content has arrived. *)
Example get_values_waits :
  (sent ∘ net) <$> FillBuffProc (replicate 64 x00)
    (mkSt (NewReader true x00 8192 0) (mkReq 0 0 false 0 0 0)
      (mkNet [Chunk (encode_rec (mkRec x01 x09 0 (enc_pairs [(FCGI_MAX_CONNS, [])]) [] x00))] [] [])) =
  Ok [].
Proof. vm_compute. reflexivity. Qed.

(** The content of a management record of an unknown type is delivered as input. *)
Example unknown_management_content :
  fst <$> FCGX_GetStr (FillBuffProc (replicate 64 x00)) 9
    (mkSt (NewReader true x00 8192 FCGI_STDIN) (mkReq 1 1 true 0 0 0)
      (mkNet [Chunk (encode_rec (mkRec x01 x63 0 [x62; x61; x64] [] x00) ++
        stream_wire FCGI_STDIN 1 demo_stdin)] [] [])) = Ok [x62; x61; x64; x68; x69].
Proof. vm_compute. reflexivity. Qed.

(** Padding after the begin record is taken for the next header, and the error ends
    the parameters: the request is accepted without them. *)
Example begin_padding_loses_params :
  (λ x, (x.1.1, envp x.1.2)) <$> FCGX_Accept_r true x00 (replicate 64 x00) true (FCGX_InitRequest 0 0)
    (mkWorld [Accepted 4 (mkNet [Chunk (encode_rec (begin_rec 1 x00 x01 x00 (replicate 5 x00) (replicate 8 x00)) ++
      stream_wire FCGI_PARAMS 1 demo_params ++ stream_wire FCGI_STDIN 1 demo_stdin)] [] [])]
      (mkNet [] [] []) []) = Ok (0, Some [list_byte_of_string "FCGI_ROLE=RESPONDER"]).
Proof. vm_compute. reflexivity. Qed.

(** So is a request whose connection breaks off between two parameters. *)
Example broken_params_accepted :
  (λ x, (x.1.1, envp x.1.2)) <$> FCGX_Accept_r true x00 (replicate 64 x00) true (FCGX_InitRequest 0 0)
    (mkWorld [Accepted 4 (mkNet [Chunk (take 28 (fcgx_demo_wire x00)); ReadErr 104] [] [])]
      (mkNet [] [] []) []) =
  Ok (0, Some [list_byte_of_string "FCGI_ROLE=RESPONDER"; [x61; x3d; x62]]).
Proof. vm_compute. reflexivity. Qed.

(** Two requests on a kept connection: the input of the first is not read, and the
    second is never accepted. *)
Example unread_input_loses_connection :
  ('(_, r, w) ← FCGX_Accept_r true x00 (replicate 64 x00) true (FCGX_InitRequest 0 0)
      (mkWorld [Accepted 4 (mkNet [Chunk (take 36 (fcgx_demo_wire x01)); Chunk (drop 36 (fcgx_demo_wire x01));
         Chunk (fcgx_demo_wire x01)] [] [])] (mkNet [] [] []) []);
   '(z, _, w) ← FCGX_Accept_r true x00 (replicate 64 x00) true r w;
   Ok (z, length (closed w))) = Ok (-9999, 1%nat).
Proof. vm_compute. reflexivity. Qed.

(** The exit status of a request is also sent for the next one. *)
Example exit_status_kept :
  ('(_, r, w) ← FCGX_Accept_r true x00 (replicate 64 x00) true (FCGX_InitRequest 0 0)
      (mkWorld [Accepted 4 (mkNet [Chunk (fcgx_demo_wire x00)] [] []); Accepted 5 (mkNet [Chunk (fcgx_demo_wire x00)] [] [])]
        (mkNet [] [] []) []);
   let r := set_reqData (FCGX_SetExitStatus 7 (reqData r)) r in
   '(_, r, w) ← FCGX_Accept_r true x00 (replicate 64 x00) true r w;
   '(_, w) ← FCGX_Finish_r r w;
   Ok (sent <$> closed w)) =
  Ok (replicate 2 (concat (encode_rec <$> response_records 1 7 []))).
Proof. vm_compute. reflexivity. Qed.
