(* ===== verification/TcpConn.v ===== *)
(** [mucgi/muduo_net/TcpConnection.cc] with the parts of [Channel.cc], [EventLoop.cc]
    and [TcpServer.cc] a connection runs through: the connection state machine, its
    output buffering, and the order in which callbacks happen.

    Everything here runs on the connection's loop thread, where [runInLoop] calls and
    [queueInLoop] appends to the pending functors.  The connection's socket is the
    record [Env]: what successive [write] calls return (when the list ends, everything
    is accepted), the octets written, and whether the write side is shut down.  The
    callbacks a user installs are the record [User]: each returns what it does with the
    connection.  [log] records the calls to the user and from it, for the theorems. *)

From Stdlib Require Import ZArith Lia Bool.
From Stdlib.Strings Require Import Byte.
From stdpp Require Import base numbers list option.
From S2P Require Import Prelude Endian Buffer.
Local Open Scope Z_scope.

(** ** Channel *)

Definition POLLIN : Z := 0x001.
Definition POLLPRI : Z := 0x002.
Definition POLLOUT : Z := 0x004.
Definition POLLERR : Z := 0x008.
Definition POLLHUP : Z := 0x010.
Definition POLLNVAL : Z := 0x020.
Definition POLLRDHUP : Z := 0x2000.

Definition kNoneEvent : Z := 0.
Definition kReadEvent : Z := Z.lor POLLIN POLLPRI.
Definition kWriteEvent : Z := POLLOUT.

Record Channel := mkChannel {
  events_ : Z;
  tied_ : bool;
  eventHandling_ : bool;
  addedToLoop_ : bool;
}.

Definition Channel_ctor : Channel := mkChannel 0 false false false.
Definition isNoneEvent (ch : Channel) : bool := events_ ch =? kNoneEvent.
Definition isWriting (ch : Channel) : bool := negb (Z.land (events_ ch) kWriteEvent =? 0).
Definition isReading (ch : Channel) : bool := negb (Z.land (events_ ch) kReadEvent =? 0).
Definition tie (ch : Channel) : Channel :=
  mkChannel (events_ ch) true (eventHandling_ ch) (addedToLoop_ ch).
Definition set_eventHandling b (ch : Channel) : Channel :=
  mkChannel (events_ ch) (tied_ ch) b (addedToLoop_ ch).

(** [revents_ & m] *)
Definition has (revents m : Z) : bool := negb (Z.land revents m =? 0).

(** ** Connection *)

Inductive StateE := kDisconnected | kConnecting | kConnected | kDisconnecting.
#[export] Instance StateE_eq_dec : EqDecision StateE.
Proof. solve_decision. Defined.

(** What is queued in the loop for this connection. *)
Inductive functor :=
  | WriteComplete
  | HighWaterMark (n : Z)
  | ForceCloseInLoop
  | ConnectDestroyed.

(** What a user does with a connection. *)
Inductive action :=
  | Send (d : bytes)
  | Shutdown
  | ForceClose
  | ForceCloseWithDelay
  | StartRead
  | StopRead.

Inductive observation :=
  | Up
  | Down
  | Message
  | Sending (d : bytes)
  | Completed
  | AboveMark (n : Z).

Inductive write_outcome := Wrote (n : nat) | WriteErr (errno : Z).

Definition EWOULDBLOCK : Z := 11.
Definition EPIPE : Z := 32.
Definition ECONNRESET : Z := 104.

Record Env := mkEnv {
  pendingFunctors_ : list functor;
  delayed : nat;                  (** armed [forceClose] timers *)
  polled : option Z;              (** what the poller watches the descriptor for *)
  writes : list write_outcome;
  sent : bytes;
  writeShut : bool;
  log : list observation;
}.

Record TcpConnection (S : Type) := mkConn {
  state_ : StateE;
  reading_ : bool;
  channel_ : Channel;
  highWaterMark_ : Z;
  writeCompleteCallback_ : bool;
  highWaterMarkCallback_ : bool;
  inputBuffer_ : Buffer;
  outputBuffer_ : Buffer;
  context_ : S;
  env : Env;
}.
Arguments mkConn {S}.
Arguments state_ {S}. Arguments reading_ {S}. Arguments channel_ {S}. Arguments highWaterMark_ {S}.
Arguments writeCompleteCallback_ {S}. Arguments highWaterMarkCallback_ {S}.
Arguments inputBuffer_ {S}. Arguments outputBuffer_ {S}. Arguments context_ {S}. Arguments env {S}.

Record User (S : Type) := mkUser {
  onConnection : S → bool → S * list action;
  onMessage_ : S → Buffer → res (S * Buffer * list action);
  onWriteComplete : S → S * list action;
  onHighWaterMark : S → Z → S * list action;
}.
Arguments onConnection {S}. Arguments onMessage_ {S}. Arguments onWriteComplete {S}.
Arguments onHighWaterMark {S}.

Section connection.
Context {S : Type}.
Implicit Types (c : TcpConnection S).

(** *** Assignments *)

Definition setState s c : TcpConnection S :=
  mkConn s (reading_ c) (channel_ c) (highWaterMark_ c) (writeCompleteCallback_ c)
    (highWaterMarkCallback_ c) (inputBuffer_ c) (outputBuffer_ c) (context_ c) (env c).
Definition set_reading b c : TcpConnection S :=
  mkConn (state_ c) b (channel_ c) (highWaterMark_ c) (writeCompleteCallback_ c)
    (highWaterMarkCallback_ c) (inputBuffer_ c) (outputBuffer_ c) (context_ c) (env c).
Definition set_channel ch c : TcpConnection S :=
  mkConn (state_ c) (reading_ c) ch (highWaterMark_ c) (writeCompleteCallback_ c)
    (highWaterMarkCallback_ c) (inputBuffer_ c) (outputBuffer_ c) (context_ c) (env c).
Definition set_input b c : TcpConnection S :=
  mkConn (state_ c) (reading_ c) (channel_ c) (highWaterMark_ c) (writeCompleteCallback_ c)
    (highWaterMarkCallback_ c) b (outputBuffer_ c) (context_ c) (env c).
Definition set_output b c : TcpConnection S :=
  mkConn (state_ c) (reading_ c) (channel_ c) (highWaterMark_ c) (writeCompleteCallback_ c)
    (highWaterMarkCallback_ c) (inputBuffer_ c) b (context_ c) (env c).
Definition set_context x c : TcpConnection S :=
  mkConn (state_ c) (reading_ c) (channel_ c) (highWaterMark_ c) (writeCompleteCallback_ c)
    (highWaterMarkCallback_ c) (inputBuffer_ c) (outputBuffer_ c) x (env c).
Definition set_env e c : TcpConnection S :=
  mkConn (state_ c) (reading_ c) (channel_ c) (highWaterMark_ c) (writeCompleteCallback_ c)
    (highWaterMarkCallback_ c) (inputBuffer_ c) (outputBuffer_ c) (context_ c) e.

Definition on_env (f : Env → Env) c : TcpConnection S := set_env (f (env c)) c.
Definition queueInLoop (f : functor) c : TcpConnection S :=
  on_env (λ e, mkEnv (pendingFunctors_ e ++ [f]) (delayed e) (polled e) (writes e) (sent e)
                 (writeShut e) (log e)) c.
Definition runAfter c : TcpConnection S :=
  on_env (λ e, mkEnv (pendingFunctors_ e) (delayed e + 1) (polled e) (writes e) (sent e)
                 (writeShut e) (log e)) c.
Definition shutdownWrite c : TcpConnection S :=
  on_env (λ e, mkEnv (pendingFunctors_ e) (delayed e) (polled e) (writes e) (sent e) true (log e)) c.
Definition note (o : observation) c : TcpConnection S :=
  on_env (λ e, mkEnv (pendingFunctors_ e) (delayed e) (polled e) (writes e) (sent e)
                 (writeShut e) (log e ++ [o])) c.

(** [sockets::write]: [inl] is an error number. *)
Definition sockets_write (d : bytes) c : (Z + nat) * TcpConnection S :=
  let e := env c in
  let put n ws := mkEnv (pendingFunctors_ e) (delayed e) (polled e) ws (sent e ++ take n d)
                    (writeShut e) (log e) in
  match writes e with
  | [] => (inr (length d), set_env (put (length d) []) c)
  | Wrote n :: ws => (inr (Nat.min n (length d)), set_env (put n ws) c)
  | WriteErr errno :: ws => (inl errno, set_env (put 0%nat ws) c)
  end.

(** *** Channel operations of the connection *)

(** [Channel::update]: the poller watches the new event set. *)
Definition update c : TcpConnection S :=
  let ch := channel_ c in
  let c := set_channel (mkChannel (events_ ch) (tied_ ch) (eventHandling_ ch) true) c in
  on_env (λ e, mkEnv (pendingFunctors_ e) (delayed e) (Some (events_ ch)) (writes e) (sent e)
                 (writeShut e) (log e)) c.

Definition set_events v c : TcpConnection S :=
  let ch := channel_ c in
  set_channel (mkChannel v (tied_ ch) (eventHandling_ ch) (addedToLoop_ ch)) c.

Definition enableReading c := update (set_events (Z.lor (events_ (channel_ c)) kReadEvent) c).
Definition disableReading c := update (set_events (Z.ldiff (events_ (channel_ c)) kReadEvent) c).
Definition enableWriting c := update (set_events (Z.lor (events_ (channel_ c)) kWriteEvent) c).
Definition disableWriting c := update (set_events (Z.ldiff (events_ (channel_ c)) kWriteEvent) c).
Definition disableAll c := update (set_events kNoneEvent c).

Definition Channel_remove c : res (TcpConnection S) :=
  assert_ (isNoneEvent (channel_ c)) ;;
  let ch := channel_ c in
  let c := set_channel (mkChannel (events_ ch) (tied_ ch) (eventHandling_ ch) false) c in
  Ok (on_env (λ e, mkEnv (pendingFunctors_ e) (delayed e) None (writes e) (sent e)
                     (writeShut e) (log e)) c).

(** *** Sending *)

Definition sendInLoop (d : bytes) c : res (TcpConnection S) :=
  if decide (state_ c = kDisconnected) then Ok c else
  let '(nwrote, remaining, faultError, c) :=
    (if negb (isWriting (channel_ c)) && (readableBytes (outputBuffer_ c) =? 0)%nat then
       match sockets_write d c with
       | (inr n, c) =>
           let remaining := (length d - n)%nat in
           let c := if (remaining =? 0)%nat && writeCompleteCallback_ c
                    then queueInLoop WriteComplete c else c in
           (n, remaining, false, c)
       | (inl errno, c) =>
           (0%nat, length d, negb (errno =? EWOULDBLOCK) && ((errno =? EPIPE) || (errno =? ECONNRESET)), c)
       end
     else (0%nat, length d, false, c)) in
  assert_ (remaining <=? length d)%nat ;;
  if negb faultError && (0 <? remaining)%nat then
    let oldLen := Z.of_nat (readableBytes (outputBuffer_ c)) in
    let total := oldLen + Z.of_nat remaining in
    let c := if (highWaterMark_ c <=? total) && (oldLen <? highWaterMark_ c) && highWaterMarkCallback_ c
             then queueInLoop (HighWaterMark total) c else c in
    out ← append (outputBuffer_ c) (slice nwrote remaining d);
    let c := set_output out c in
    Ok (if negb (isWriting (channel_ c)) then enableWriting c else c)
  else Ok c.

Definition send (d : bytes) c : res (TcpConnection S) :=
  if decide (state_ c = kConnected) then sendInLoop d (note (Sending d) c) else Ok c.

(** [send] of a [Buffer]: the buffer is emptied if its octets were taken. *)
Definition send_Buffer (b : Buffer) c : res (Buffer * TcpConnection S) :=
  if decide (state_ c = kConnected) then
    d ← mem_read b (peek b) (readableBytes b);
    c ← sendInLoop d (note (Sending d) c);
    Ok (retrieveAll b, c)
  else Ok (b, c).

(** *** Closing *)

Definition shutdownInLoop c : TcpConnection S :=
  if negb (isWriting (channel_ c)) then shutdownWrite c else c.

Definition shutdown c : TcpConnection S :=
  if decide (state_ c = kConnected) then shutdownInLoop (setState kDisconnecting c) else c.

Definition open_state c : bool :=
  bool_decide (state_ c = kConnected) || bool_decide (state_ c = kDisconnecting).

Definition forceClose c : TcpConnection S :=
  if open_state c then queueInLoop ForceCloseInLoop (setState kDisconnecting c) else c.

Definition forceCloseWithDelay c : TcpConnection S :=
  if open_state c then runAfter (setState kDisconnecting c) else c.

Definition startReadInLoop c : TcpConnection S :=
  if negb (reading_ c) || negb (isReading (channel_ c))
  then set_reading true (enableReading c) else c.

Definition stopReadInLoop c : TcpConnection S :=
  if reading_ c || isReading (channel_ c) then set_reading false (disableReading c) else c.

(** What a user's callback does, in order. *)
Definition act (a : action) c : res (TcpConnection S) :=
  match a with
  | Send d => send d c
  | Shutdown => Ok (shutdown c)
  | ForceClose => Ok (forceClose c)
  | ForceCloseWithDelay => Ok (forceCloseWithDelay c)
  | StartRead => Ok (startReadInLoop c)
  | StopRead => Ok (stopReadInLoop c)
  end.

Fixpoint acts (l : list action) c : res (TcpConnection S) :=
  match l with
  | [] => Ok c
  | a :: l => c ← act a c; acts l c
  end.

Section callbacks.
Context (u : User S).

Definition connectionCallback c : res (TcpConnection S) :=
  let up := bool_decide (state_ c = kConnected) in
  let c := note (if up then Up else Down) c in
  let '(x, l) := onConnection u (context_ c) up in
  acts l (set_context x c).

(** [TcpServer::removeConnection], on the loop that owns the connection. *)
Definition removeConnection c : TcpConnection S := queueInLoop ConnectDestroyed c.

Definition connectEstablished c : res (TcpConnection S) :=
  assert_ (bool_decide (state_ c = kConnecting)) ;;
  let c := setState kConnected c in
  let c := set_channel (tie (channel_ c)) c in
  connectionCallback (enableReading c).

Definition connectDestroyed c : res (TcpConnection S) :=
  c ← (if decide (state_ c = kConnected)
       then connectionCallback (disableAll (setState kDisconnected c)) else Ok c);
  Channel_remove c.

Definition handleClose c : res (TcpConnection S) :=
  assert_ (open_state c) ;;
  let c := disableAll (setState kDisconnected c) in
  c ← connectionCallback c;
  Ok (removeConnection c).

Definition forceCloseInLoop c : res (TcpConnection S) :=
  if open_state c then handleClose c else Ok c.

Definition handleError c : TcpConnection S := c.

Definition messageCallback c : res (TcpConnection S) :=
  let c := note Message c in
  '(x, inb, l) ← onMessage_ u (context_ c) (inputBuffer_ c);
  acts l (set_context x (set_input inb c)).

Definition handleRead (sys_readv : list nat → readv_result) c : res (TcpConnection S) :=
  '(n, _, inb) ← readFd sys_readv (inputBuffer_ c);
  let c := set_input inb c in
  if 0 <? n then messageCallback c
  else if n =? 0 then handleClose c
  else Ok (handleError c).

Definition handleWrite c : res (TcpConnection S) :=
  if isWriting (channel_ c) then
    d ← mem_read (outputBuffer_ c) (peek (outputBuffer_ c)) (readableBytes (outputBuffer_ c));
    match sockets_write d c with
    | (inr n, c) =>
        if (0 <? n)%nat then
          out ← retrieve (outputBuffer_ c) n;
          let c := set_output out c in
          if (readableBytes out =? 0)%nat then
            let c := disableWriting c in
            let c := if writeCompleteCallback_ c then queueInLoop WriteComplete c else c in
            Ok (if decide (state_ c = kDisconnecting) then shutdownInLoop c else c)
          else Ok c
        else Ok c
    | (inl _, c) => Ok c
    end
  else Ok c.

(** [Channel::handleEventWithGuard] with the connection's four callbacks. *)
Definition handleEvent (revents : Z) (sys_readv : list nat → readv_result) c :
    res (TcpConnection S) :=
  let has := has revents in
  let c := set_channel (set_eventHandling true (channel_ c)) c in
  c ← (if has POLLHUP && negb (has POLLIN) then handleClose c else Ok c);
  let c := if has (Z.lor POLLERR POLLNVAL) then handleError c else c in
  c ← (if has (Z.lor POLLIN (Z.lor POLLPRI POLLRDHUP)) then handleRead sys_readv c else Ok c);
  c ← (if has POLLOUT then handleWrite c else Ok c);
  Ok (set_channel (set_eventHandling false (channel_ c)) c).

(** *** The loop's pending functors *)

Definition run_functor (f : functor) c : res (TcpConnection S) :=
  match f with
  | WriteComplete =>
      let '(x, l) := onWriteComplete u (context_ c) in acts l (set_context x (note Completed c))
  | HighWaterMark n =>
      let '(x, l) := onHighWaterMark u (context_ c) n in acts l (set_context x (note (AboveMark n) c))
  | ForceCloseInLoop => forceCloseInLoop c
  | ConnectDestroyed => connectDestroyed c
  end.

Fixpoint run_functors (fs : list functor) c : res (TcpConnection S) :=
  match fs with
  | [] => Ok c
  | f :: fs => c ← run_functor f c; run_functors fs c
  end.

(** [EventLoop::doPendingFunctors]: the functors queued so far; those they queue wait
    for the next round. *)
Definition doPendingFunctors c : res (TcpConnection S) :=
  let fs := pendingFunctors_ (env c) in
  let e := env c in
  run_functors fs (set_env (mkEnv [] (delayed e) (polled e) (writes e) (sent e) (writeShut e) (log e)) c).

(** A [forceCloseWithDelay] timer expires. *)
Definition timer_expired c : TcpConnection S :=
  let e := env c in
  forceClose (set_env (mkEnv (pendingFunctors_ e) (delayed e - 1) (polled e) (writes e) (sent e)
                         (writeShut e) (log e)) c).
End callbacks.

Definition TcpConnection_ctor (mark : Z) (wc hw : bool) (x : S) (ws : list write_outcome) :
    res (TcpConnection S) :=
  i ← Buffer_ctor kInitialSize;
  o ← Buffer_ctor kInitialSize;
  Ok (mkConn kConnecting true Channel_ctor mark wc hw i o x (mkEnv [] 0 None ws [] false [])).
End connection.

Arguments User : clear implicits.
