(* ===== verification/TcpConnSpec.v ===== *)
(** Correctness of the connection state machine of [TcpConnection.cc]: whatever the
    order of socket events, queued functors, timers and calls by the user, no
    assertion fails, callbacks come in their order, the octets on the wire are the
    octets sent, and the write side is shut down only after all of them. *)

From Stdlib Require Import ZArith Lia Bool.
From Stdlib.Strings Require Import Byte.
From stdpp Require Import base numbers list option relations.
From S2P Require Import Prelude Endian Buffer TcpConn.
Local Open Scope Z_scope.

(** ** Observations *)

(** Life of a connection as the user sees it: up, messages and sends, down. *)
Definition next_phase (o : observation) (ph : nat) : option nat :=
  match o, ph with
  | Up, 0%nat => Some 1%nat
  | Down, 1%nat => Some 2%nat
  | Message, 1%nat | Sending _, 1%nat => Some 1%nat
  | Completed, _ | AboveMark _, _ => Some ph
  | _, _ => None
  end.

Fixpoint run_log (l : list observation) (ph : nat) : option nat :=
  match l with
  | [] => Some ph
  | o :: l => next_phase o ph ≫= run_log l
  end.

Definition phase (s : StateE) : nat :=
  match s with kConnecting => 0 | kConnected | kDisconnecting => 1 | kDisconnected => 2 end.

Definition sending (o : observation) : bytes := match o with Sending d => d | _ => [] end.
(** Everything the user sent while the connection was up. *)
Definition all_sent (l : list observation) : bytes := concat (sending <$> l).

Lemma run_log_app l l' ph : run_log (l ++ l') ph = run_log l ph ≫= run_log l'.
Proof.
revert ph. induction l as [|o l IH]; intros ph; [done|]. cbn [app run_log].
destruct (next_phase o ph); [apply IH|done].
Qed.

Lemma all_sent_app l l' : all_sent (l ++ l') = all_sent l ++ all_sent l'.
Proof. unfold all_sent. by rewrite fmap_app, concat_app. Qed.

(** ** Event sets *)

Lemma isWriting_bit ch : isWriting ch = Z.testbit (events_ ch) 2.
Proof.
unfold isWriting, kWriteEvent, POLLOUT. change 4 with (2 ^ 2).
destruct (Z.testbit (events_ ch) 2) eqn:E.
- apply negb_true_iff, Z.eqb_neq. intros H. apply (f_equal (λ z, Z.testbit z 2)) in H.
  rewrite Z.land_spec, E, Z.pow2_bits_true, Z.bits_0 in H by lia. done.
- apply negb_false_iff, Z.eqb_eq. apply Z.bits_inj'. intros i Hi.
  rewrite Z.land_spec, Z.bits_0. destruct (decide (i = 2)) as [->|Hne]; [by rewrite E|].
  by rewrite Z.pow2_bits_false, andb_false_r by lia.
Qed.

(** ** The invariant *)

Definition benign (w : write_outcome) : Prop :=
  match w with Wrote _ => True | WriteErr e => e ≠ EPIPE ∧ e ≠ ECONNRESET end.

Section invariant.
Context {S : Type}.
Implicit Types (c : TcpConnection S).

Record inv (fs : list functor) c : Prop := {
  i_in : wf (inputBuffer_ c);
  i_out : wf (outputBuffer_ c);
  i_benign : Forall benign (writes (env c));
  i_polled : polled (env c) = None ∨ polled (env c) = Some (events_ (channel_ c));
  i_quiet : state_ c = kConnecting ∨ state_ c = kDisconnected → events_ (channel_ c) = 0;
  i_writing : isWriting (channel_ c) = true ↔ state_ c ≠ kDisconnected ∧ content (outputBuffer_ c) ≠ [];
  i_log : run_log (log (env c)) 0 = Some (phase (state_ c));
  i_data : if decide (state_ c = kDisconnected) then ∃ t, sent (env c) ++ t = all_sent (log (env c))
           else sent (env c) ++ content (outputBuffer_ c) = all_sent (log (env c));
  i_shut : writeShut (env c) = true →
           phase (state_ c) ≠ 0%nat ∧ state_ c ≠ kConnected ∧ sent (env c) = all_sent (log (env c));
  i_destroy : ConnectDestroyed ∈ fs ++ pendingFunctors_ (env c) → state_ c = kDisconnected;
}.

(** Changes that touch neither state, events, output nor what was sent. *)
Lemma inv_frame fs c c' :
  inv fs c → state_ c' = state_ c → events_ (channel_ c') = events_ (channel_ c) →
  outputBuffer_ c' = outputBuffer_ c → wf (inputBuffer_ c') →
  polled (env c') = polled (env c) → writes (env c') = writes (env c) → sent (env c') = sent (env c) →
  writeShut (env c') = writeShut (env c) →
  run_log (log (env c')) 0 = run_log (log (env c)) 0 → all_sent (log (env c')) = all_sent (log (env c)) →
  (ConnectDestroyed ∈ pendingFunctors_ (env c') →
   ConnectDestroyed ∈ pendingFunctors_ (env c) ∨ state_ c = kDisconnected) →
  inv fs c'.
Proof.
intros [H1 H2 H3 H4 H5 H6 H7 H8 H9 H10] Es Ee Eo Hi Ep Ew Et Eh El Ea Hf.
split; rewrite ?Es, ?Ee, ?Eo, ?Ep, ?Ew, ?Et, ?Eh, ?El, ?Ea; try done.
- rewrite isWriting_bit, Ee, <- isWriting_bit. done.
- rewrite elem_of_app. intros [?|Hp]; [apply H10, elem_of_app; by left|].
  destruct (Hf Hp); [apply H10, elem_of_app; by right|done].
Qed.

Lemma inv_queue fs c f : inv fs c → (f = ConnectDestroyed → state_ c = kDisconnected) → inv fs (queueInLoop f c).
Proof.
intros H Hf. eapply inv_frame; [exact H|..]; try done; [by destruct H|].
cbn. rewrite elem_of_app, list_elem_of_singleton. intros [?|E]; [by left|right]. by apply Hf.
Qed.

Lemma inv_context fs c x : inv fs c → inv fs (set_context x c).
Proof. intros H. eapply inv_frame; [exact H|..]; try done; [by destruct H|by left]. Qed.

Lemma inv_note fs c o :
  inv fs c → next_phase o (phase (state_ c)) = Some (phase (state_ c)) → sending o = [] →
  inv fs (note o c).
Proof.
intros H Ho Hs. eapply inv_frame; [exact H|..]; try done; [by destruct H| | |by left].
- cbn. rewrite run_log_app, (i_log _ _ H). cbn. by rewrite Ho.
- cbn [note on_env set_env env log]. rewrite all_sent_app. unfold all_sent at 2. cbn. by rewrite Hs, !app_nil_r.
Qed.

(** ** Changes of the event set *)

Lemma inv_events fs c v :
  inv fs c → (state_ c = kConnecting ∨ state_ c = kDisconnected → v = 0) →
  Z.testbit v 2 = isWriting (channel_ c) → inv fs (update (set_events v c)).
Proof.
intros [H1 H2 H3 H4 H5 H6 H7 H8 H9 H10] Hq Hb. split; cbn -[isWriting]; try done; [by right|].
rewrite isWriting_bit. cbn [events_]. by rewrite Hb.
Qed.

Lemma inv_reading fs c b : inv fs c → inv fs (set_reading b c).
Proof. intros H. eapply inv_frame; [exact H|..]; try done; [by destruct H|by left]. Qed.

Lemma stopRead_inv fs c : inv fs c → inv fs (stopReadInLoop c).
Proof.
intros H. unfold stopReadInLoop. case_match; [|done]. apply inv_reading, inv_events; [done| |].
- intros Hs. apply (i_quiet _ _ H) in Hs. by rewrite Hs.
- rewrite isWriting_bit, Z.ldiff_spec. by rewrite andb_true_r.
Qed.

Lemma startRead_inv fs c : inv fs c → open_state c = true → inv fs (startReadInLoop c).
Proof.
intros H Ho. unfold startReadInLoop. case_match; [|done]. apply inv_reading, inv_events; [done| |].
- intros [Hs|Hs]; unfold open_state in Ho; by rewrite Hs in Ho.
- rewrite isWriting_bit, Z.lor_spec. by rewrite orb_false_r.
Qed.

(** ** Sending *)

(** A connected connection on which [r] is still to be written or queued. *)
Record owing (fs : list functor) (r : bytes) c : Prop := {
  o_in : wf (inputBuffer_ c);
  o_out : wf (outputBuffer_ c);
  o_benign : Forall benign (writes (env c));
  o_polled : polled (env c) = None ∨ polled (env c) = Some (events_ (channel_ c));
  o_state : state_ c = kConnected;
  o_writing : isWriting (channel_ c) = true ↔ content (outputBuffer_ c) ≠ [];
  o_log : run_log (log (env c)) 0 = Some 1%nat;
  o_data : sent (env c) ++ content (outputBuffer_ c) ++ r = all_sent (log (env c));
  o_shut : writeShut (env c) = false;
  o_destroy : ¬ (ConnectDestroyed ∈ fs ++ pendingFunctors_ (env c));
}.

Lemma owing_inv fs c : owing fs [] c ↔ inv fs c ∧ state_ c = kConnected.
Proof.
split.
- intros [H1 H2 H3 H4 H5 H6 H7 H8 H9 H10]. split; [|done].
  rewrite app_nil_r in H8. split; try done; rewrite ?H5; try done.
  + by intros [?|?].
  + rewrite H6. split; [by intros|by intros [_ ?]].
  + by rewrite H9.
- intros [[H1 H2 H3 H4 H5 H6 H7 H8 H9 H10] Hs]. rewrite Hs in *. rewrite decide_False in H8 by done.
  split; try done.
  + rewrite H6. split; [by intros [_ ?]|by intros].
  + by rewrite app_nil_r.
  + destruct (writeShut (env c)); [|done]. by destruct (H9 eq_refl) as (_ & ? & _).
  + intros H. by apply H10 in H.
Qed.

Lemma owing_note fs d c : owing fs [] c → owing fs d (note (Sending d) c).
Proof.
intros [H1 H2 H3 H4 H5 H6 H7 H8 H9 H10].
split; try done; cbn [note on_env set_env env log state_ writes polled sent outputBuffer_ writeShut pendingFunctors_].
- by rewrite run_log_app, H7.
- rewrite all_sent_app, <- H8. unfold all_sent. cbn. by rewrite !app_nil_r, <- app_assoc.
Qed.

Lemma owing_queue fs r f c : f ≠ ConnectDestroyed → owing fs r c → owing fs r (queueInLoop f c).
Proof.
intros Hf [H1 H2 H3 H4 H5 H6 H7 H8 H9 H10]. split; try done.
cbn. rewrite app_assoc, elem_of_app, list_elem_of_singleton. intros [?|E]; [done|by symmetry in E].
Qed.

Lemma owing_write fs d c :
  owing fs d c → content (outputBuffer_ c) = [] →
  ∃ n c', (sockets_write d c = (inr n, c') ∨
           n = 0%nat ∧ ∃ e, e ≠ EPIPE ∧ e ≠ ECONNRESET ∧ sockets_write d c = (inl e, c')) ∧
    (n ≤ length d)%nat ∧ owing fs (drop n d) c' ∧ outputBuffer_ c' = outputBuffer_ c ∧
    channel_ c' = channel_ c.
Proof.
intros [H1 H2 H3 H4 H5 H6 H7 H8 H9 H10] Hc. rewrite Hc in H8. unfold sockets_write.
assert (∀ n ws, Forall benign ws → owing fs (drop n d)
  (set_env (mkEnv (pendingFunctors_ (env c)) (delayed (env c)) (polled (env c)) ws
     (sent (env c) ++ take n d) (writeShut (env c)) (log (env c))) c)) as Ho.
{ intros n ws Hws. split; try done; cbn [set_env env outputBuffer_ sent log].
  rewrite Hc, <- H8. cbn [app]. by rewrite <- app_assoc, take_drop. }
destruct (writes (env c)) as [|[n|e] ws].
- eexists _, _. split; [by left|]. split_and!; [done|by apply Ho|done|done].
- apply Forall_cons_1 in H3 as [_ H3]. eexists _, _. split; [by left|]. split_and!; [lia| |done|done].
  replace (drop (Nat.min n (length d)) d) with (drop n d); [by apply Ho|].
  destruct (Nat.le_ge_cases n (length d)); [by rewrite Nat.min_l|by rewrite !drop_ge by lia].
- apply Forall_cons_1 in H3 as [[Hb1 Hb2] H3]. eexists 0%nat, _. split; [right; split; [done|by eexists]|].
  split_and!; [lia|by apply Ho|done|done].
Qed.

(** Queueing what could not be written. *)
Lemma owing_append fs r c :
  owing fs r c → r ≠ [] →
  ∃ out, append (outputBuffer_ c) r = Ok out ∧
    owing fs [] (if negb (isWriting (channel_ (set_output out c)))
                 then enableWriting (set_output out c) else set_output out c).
Proof.
intros [H1 H2 H3 H4 H5 H6 H7 H8 H9 H10] Hr.
destruct (append_holds (outputBuffer_ c) r H2) as (out & -> & Hwf & Hc). exists out. split; [done|].
change (channel_ (set_output out c)) with (channel_ c).
assert (content out ≠ []) as Hne by (rewrite Hc; intros E; by apply app_eq_nil in E as [_ ?]).
destruct (isWriting (channel_ c)) eqn:E; cbn [negb].
- split; try done; cbn -[isWriting all_sent content].
  rewrite Hc, app_nil_r. by rewrite <- H8.
- split; try done; cbn -[isWriting all_sent content]; [by right| |].
  + rewrite isWriting_bit. cbn [events_]. rewrite Z.lor_spec. change (Z.testbit kWriteEvent 2) with true.
    by rewrite orb_true_r.
  + rewrite Hc, app_nil_r. by rewrite <- H8.
Qed.

Lemma send_inv fs d c :
  inv fs c → ∃ c', send d c = Ok c' ∧ inv fs c' ∧ state_ c' = state_ c.
Proof.
intros H. unfold send. case_decide as Hs; [|by exists c].
pose proof (owing_note fs d c (proj2 (owing_inv fs c) (conj H Hs))) as Ho.
set (c1 := note _ c) in *. unfold sendInLoop.
assert (state_ c1 = kConnected) as Hs1 by done. rewrite decide_False by (by rewrite Hs1).
assert (∀ c2 r, owing fs r c2 → r ≠ [] → ∃ c', ('out ← append (outputBuffer_ c2) r;
  Ok (if negb (isWriting (channel_ (set_output out c2)))
      then enableWriting (set_output out c2) else set_output out c2)) = Ok c' ∧ inv fs c' ∧ state_ c' = state_ c) as Happ.
{ intros c2 r Ho2 Hr. destruct (owing_append _ _ _ Ho2 Hr) as (out & -> & Ho3). eexists. split; [done|].
  apply owing_inv in Ho3 as [? ?]. split; [done|congruence]. }
assert (∀ c2 r, owing fs r c2 → ∃ c', (if (0 <? length r)%nat then
    let oldLen := Z.of_nat (readableBytes (outputBuffer_ c2)) in
    let total := oldLen + Z.of_nat (length r) in
    let c := if (highWaterMark_ c2 <=? total) && (oldLen <? highWaterMark_ c2) && highWaterMarkCallback_ c2
             then queueInLoop (HighWaterMark total) c2 else c2 in
    'out ← append (outputBuffer_ c) r;
    Ok (if negb (isWriting (channel_ (set_output out c)))
        then enableWriting (set_output out c) else set_output out c)
  else Ok c2) = Ok c' ∧ inv fs c' ∧ state_ c' = state_ c) as Hrest.
{ intros c2 r Ho2. destruct (Nat.ltb_spec 0 (length r)) as [Hr|Hr].
  - cbn zeta. apply Happ; [case_match; [by apply owing_queue|done]|destruct r; [cbn in Hr; lia|done]].
  - destruct r; [|cbn in Hr; lia]. exists c2. apply owing_inv in Ho2 as [? ?]. split_and!; [done..|congruence]. }
destruct (negb (isWriting (channel_ c1)) && (readableBytes (outputBuffer_ c1) =? 0)%nat) eqn:E.
- apply andb_true_iff in E as [_ E]. apply Nat.eqb_eq in E.
  assert (content (outputBuffer_ c1) = []) as Hc.
  { apply nil_length_inv. rewrite length_content by apply Ho. done. }
  destruct (owing_write _ _ _ Ho Hc) as (n & c2 & Hw & Hn & Ho2 & _ & _).
  assert (slice n (length d - n) d = drop n d) as Hsl by (unfold slice; apply take_ge; rewrite length_drop; lia).
  destruct Hw as [->|(-> & e & He1 & He2 & ->)].
  + cbn iota beta. rewrite (proj2 (Nat.leb_le _ _)) by lia. cbn [assert_ mbind res_bind negb andb].
    rewrite Hsl, <- (length_drop d n). apply Hrest. case_match; [by apply owing_queue|done].
  + cbn iota beta. rewrite (proj2 (Nat.leb_le _ _)) by lia.
    rewrite (proj2 (Z.eqb_neq e EPIPE)), (proj2 (Z.eqb_neq e ECONNRESET)) by done.
    rewrite andb_false_r. cbn [orb assert_ mbind res_bind negb andb].
    rewrite Nat.sub_0_r, drop_0 in Hsl. rewrite Hsl. apply Hrest. by rewrite drop_0 in Ho2.
- cbn iota beta. rewrite (proj2 (Nat.leb_le _ _)) by lia. cbn [assert_ mbind res_bind negb andb].
  replace (slice 0 (length d) d) with d by (by rewrite slice_all). by apply Hrest.
Qed.

(** Sending a buffer is sending its octets. *)
Lemma send_Buffer_send b c c' :
  wf b → send (content b) c = Ok c' →
  send_Buffer b c = Ok (if decide (state_ c = kConnected) then retrieveAll b else b, c').
Proof.
intros Hwf. unfold send, send_Buffer. case_decide; [|by intros [= ->]].
rewrite mem_read_peek by (done || lia). rewrite take_ge by (rewrite length_content by done; lia).
cbn [mbind res_bind]. by intros ->.
Qed.

(** ** The user's calls *)

(** What a call by the user can do to the state. *)
Definition evolves (s s' : StateE) : Prop := s' = s ∨ s = kConnected ∧ s' = kDisconnecting.

Lemma evolves_trans s1 s2 s3 : evolves s1 s2 → evolves s2 s3 → evolves s1 s3.
Proof. unfold evolves. intuition congruence. Qed.

Lemma open_evolves c c' : evolves (state_ c) (state_ c') → open_state c' = open_state c.
Proof. unfold open_state. by intros [->|[-> ->]]. Qed.

Lemma open_cases c : open_state c = true ↔ state_ c = kConnected ∨ state_ c = kDisconnecting.
Proof.
unfold open_state. rewrite orb_true_iff, !bool_decide_eq_true. done.
Qed.

(** [kDisconnecting] instead of [kConnected] or itself. *)
Lemma inv_disconnecting fs c : inv fs c → open_state c = true → inv fs (setState kDisconnecting c).
Proof.
intros [H1 H2 H3 H4 H5 H6 H7 H8 H9 H10] Ho. apply open_cases in Ho.
assert (state_ c ≠ kDisconnected) as Hnd by (by destruct Ho as [->| ->]).
rewrite decide_False in H8 by done. split; cbn -[isWriting all_sent content]; try done.
- by intros [?|?].
- rewrite H6. by split; intros [_ ?].
- rewrite H7. by destruct Ho as [->| ->].
- intros Hw. destruct (H9 Hw) as (? & ? & ?). done.
- intros H. by apply H10 in H.
Qed.

Lemma shutdown_inv fs c : inv fs c → inv fs (shutdown c) ∧ evolves (state_ c) (state_ (shutdown c)).
Proof.
intros H. unfold shutdown. case_decide as Hs; [|split; [done|by left]].
pose proof (inv_disconnecting fs c H) as Hd.
assert (open_state c = true) as Ho by (apply open_cases; by left). specialize (Hd Ho).
unfold shutdownInLoop. destruct (isWriting (channel_ (setState kDisconnecting c))) eqn:E; cbn [negb].
- split; [done|by right].
- split; [|by right]. destruct Hd as [H1 H2 H3 H4 H5 H6 H7 H8 H9 H10].
  split; cbn -[isWriting all_sent content] in *; try done. intros _. split_and!; try done.
  rewrite E in H6. destruct (content (outputBuffer_ c)) eqn:Ec; [by rewrite app_nil_r in H8|].
  exfalso. assert (false = true) by (by apply H6). done.
Qed.

Lemma runAfter_inv fs c : inv fs c → inv fs (runAfter c).
Proof. intros H. eapply inv_frame; [exact H|..]; try done; [by destruct H|by left]. Qed.

Definition gentle (a : action) : Prop := a ≠ StartRead.

Lemma act_inv fs a c :
  inv fs c → gentle a ∨ open_state c = true →
  ∃ c', act a c = Ok c' ∧ inv fs c' ∧ evolves (state_ c) (state_ c').
Proof.
intros H Ha. destruct a as [d| | | | |]; cbn [act].
- destruct (send_inv fs d c H) as (c' & -> & ? & Es). exists c'. split_and!; [done|done|by left].
- eexists. split; [done|]. by apply shutdown_inv.
- eexists. split; [done|]. unfold forceClose. destruct (open_state c) eqn:Ho; [|split; [done|by left]].
  split; [by apply inv_queue; [apply inv_disconnecting|]|]. apply open_cases in Ho.
  destruct Ho as [->| ->]; [by right|by left].
- eexists. split; [done|]. unfold forceCloseWithDelay.
  destruct (open_state c) eqn:Ho; [|split; [done|by left]].
  split; [by apply runAfter_inv, inv_disconnecting|]. apply open_cases in Ho.
  destruct Ho as [->| ->]; [by right|by left].
- destruct Ha as [Ha|Ha]; [done|]. eexists. split; [done|]. split; [by apply startRead_inv|].
  left. unfold startReadInLoop. by case_match.
- eexists. split; [done|]. split; [by apply stopRead_inv|]. left. unfold stopReadInLoop. by case_match.
Qed.

Lemma acts_inv fs l c :
  inv fs c → Forall gentle l ∨ open_state c = true →
  ∃ c', acts l c = Ok c' ∧ inv fs c' ∧ evolves (state_ c) (state_ c').
Proof.
revert c. induction l as [|a l IH]; intros c H Hl; cbn [acts]; [exists c; split_and!; [done|done|by left]|].
destruct (act_inv fs a c H) as (c1 & -> & H1 & E1).
{ destruct Hl as [Hl|?]; [left; by apply Forall_cons_1 in Hl as [? _]|by right]. }
cbn [mbind res_bind]. destruct (IH c1 H1) as (c2 & -> & H2 & E2).
{ destruct Hl as [Hl|?]; [left; by apply Forall_cons_1 in Hl as [_ ?]|right]. by rewrite (open_evolves c c1). }
exists c2. split_and!; [done|done|by eapply evolves_trans].
Qed.

(** ** Callbacks *)

(** What a user must respect: the message callback returns and leaves a sound buffer,
    and reading is not started by the callbacks that can find the connection down. *)
Record polite (u : User S) : Prop := {
  p_down x : Forall gentle (onConnection u x false).2;
  p_message x b : wf b → ∃ x' b' l, onMessage_ u x b = Ok (x', b', l) ∧ wf b';
  p_complete x : Forall gentle (onWriteComplete u x).2;
  p_mark x n : Forall gentle (onHighWaterMark u x n).2;
}.

Context (u : User S) (Hu : polite u).

(** The rest of a callback after the observation. *)
Lemma callback_inv fs x l c :
  inv fs c → Forall gentle l ∨ open_state c = true →
  ∃ c', acts l (set_context x c) = Ok c' ∧ inv fs c' ∧ evolves (state_ c) (state_ c').
Proof. intros H Hl. apply (acts_inv fs l (set_context x c)); [by apply inv_context|done]. Qed.

Lemma established_inv fs c :
  inv fs c → state_ c = kConnecting →
  ∃ c', connectEstablished u c = Ok c' ∧ inv fs c'.
Proof.
intros H Hs. unfold connectEstablished. rewrite Hs. cbn [assert_ bool_decide decide_rel mbind res_bind].
rewrite bool_decide_true by done. cbn [assert_ mbind res_bind].
set (c1 := enableReading _). unfold connectionCallback. change (state_ c1) with kConnected.
rewrite bool_decide_true by done.
assert (inv fs (note Up c1)) as H1.
{ destruct H as [H1 H2 H3 H4 H5 H6 H7 H8 H9 H10]. rewrite Hs in *. rewrite decide_False in H8 by done.
  assert (isWriting (channel_ c) = false) as Hw by (rewrite isWriting_bit, H5 by (by left); done).
  split; cbn -[isWriting all_sent content]; try done; [by right|by intros [?|?]| | | | |].
  - rewrite H5 by (by left). rewrite Hw in H6. split; [done|]. intros [_ Hc]. by assert (false = true) by (by apply H6).
  - by rewrite run_log_app, H7.
  - rewrite all_sent_app, <- H8. unfold all_sent. cbn. by rewrite app_nil_r.
  - intros Hsh. by destruct (H9 Hsh) as [? _].
  - intros Hd. by apply H10 in Hd. }
destruct (onConnection u (context_ (note Up c1)) true) as [x l].
destruct (callback_inv fs x l (note Up c1) H1) as (c' & -> & H' & _); [by right|]. by exists c'.
Qed.

Lemma close_inv fs c :
  inv fs c → open_state c = true →
  ∃ c', handleClose u c = Ok c' ∧ inv fs c' ∧ state_ c' = kDisconnected.
Proof.
intros H Ho. unfold handleClose. rewrite Ho. cbn [assert_ mbind res_bind].
set (c1 := disableAll _). unfold connectionCallback. change (state_ c1) with kDisconnected.
rewrite bool_decide_false by done.
assert (inv fs (note Down c1)) as H1.
{ destruct H as [H1 H2 H3 H4 H5 H6 H7 H8 H9 H10]. apply open_cases in Ho.
  assert (state_ c ≠ kDisconnected) as Hnd by (by destruct Ho as [->| ->]).
  rewrite decide_False in H8 by done.
  assert (all_sent (log (env c) ++ [Down]) = all_sent (log (env c))) as Ea
    by (rewrite all_sent_app; unfold all_sent; cbn; by rewrite !app_nil_r).
  split; cbn -[isWriting all_sent content]; try done; [by right| | | |].
  - split; [done|by intros [? _]].
  - rewrite run_log_app, H7. by destruct Ho as [->| ->].
  - exists (content (outputBuffer_ c)). by rewrite Ea.
  - intros Hsh. destruct (H9 Hsh) as (_ & _ & ?). by rewrite Ea. }
destruct (onConnection u (context_ (note Down c1)) false) as [x l] eqn:Eu.
destruct (callback_inv fs x l (note Down c1) H1) as (c2 & -> & H2 & Hev).
{ left. pose proof (p_down _ Hu (context_ (note Down c1))) as Hg. by rewrite Eu in Hg. }
cbn [mbind res_bind]. assert (state_ c2 = kDisconnected) as Hs2 by (by destruct Hev as [|[? _]]).
eexists. split; [done|]. split; [|done]. by apply inv_queue.
Qed.

Lemma handleRead_inv fs rv c :
  inv fs c → open_state c = true → readv_ok rv →
  ∃ c', handleRead u rv c = Ok c' ∧ inv fs c'.
Proof.
intros H Ho Hrv. unfold handleRead.
assert (∃ n e b, readFd rv (inputBuffer_ c) = Ok (n, e, b) ∧ wf b) as (n & e & b & -> & Hb).
{ pose proof (i_in _ _ H) as Hwf. destruct (rv (readFd_vec (inputBuffer_ c))) as [d|er] eqn:E.
  - destruct (readFd_data rv (inputBuffer_ c) d Hrv Hwf E) as (b & -> & [? _]). by eexists _, _, _.
  - unfold readFd. fold (readFd_vec (inputBuffer_ c)). rewrite E. by eexists _, _, _. }
cbn [mbind res_bind].
assert (inv fs (set_input b c)) as H1 by (eapply inv_frame; [exact H|..]; try done; by left).
destruct (0 <? n).
- unfold messageCallback.
  assert (inv fs (note Message (set_input b c))) as H2.
  { apply inv_note; [done| |done]. apply open_cases in Ho. cbn. by destruct Ho as [->| ->]. }
  destruct (p_message _ Hu (context_ (note Message (set_input b c))) b Hb) as (x & b' & l & E & Hb').
  change (inputBuffer_ (note Message (set_input b c))) with b. rewrite E. cbn [mbind res_bind].
  assert (inv fs (set_input b' (note Message (set_input b c)))) as H3
    by (eapply inv_frame; [exact H2|..]; try done; by left).
  destruct (callback_inv fs x l _ H3) as (c' & -> & ? & _); [by right|]. by exists c'.
- destruct (n =? 0); [|by eexists]. destruct (close_inv fs _ H1 Ho) as (c' & -> & ? & _). by exists c'.
Qed.

(** Only the outcomes of later writes change. *)
Lemma inv_benign fs c ws s' :
  inv fs c → Forall benign ws → s' = sent (env c) →
  inv fs (set_env (mkEnv (pendingFunctors_ (env c)) (delayed (env c)) (polled (env c)) ws
    s' (writeShut (env c)) (log (env c))) c).
Proof. intros [H1 H2 H3 H4 H5 H6 H7 H8 H9 H10] Hws ->. by split. Qed.

(** The connection after a [write] that took the first [n] octets of the output. *)
Definition after_write (n : nat) (ws : list write_outcome) (out : Buffer) c : TcpConnection S :=
  set_output out (set_env (mkEnv (pendingFunctors_ (env c)) (delayed (env c)) (polled (env c)) ws
    (sent (env c) ++ take n (content (outputBuffer_ c))) (writeShut (env c)) (log (env c))) c).

Lemma not_shut fs c : inv fs c → isWriting (channel_ c) = true → writeShut (env c) = false.
Proof.
intros [H1 H2 H3 H4 H5 H6 H7 H8 H9 H10] Hw. apply H6 in Hw as [Hnd Hne].
rewrite decide_False in H8 by done. destruct (writeShut (env c)); [|done].
destruct (H9 eq_refl) as (_ & _ & E). rewrite <- E in H8.
rewrite <- (app_nil_r (sent (env c))) in H8 at 2. by apply app_inv_head in H8.
Qed.

Lemma written_inv fs n ws out c :
  inv fs c → isWriting (channel_ c) = true → Forall benign ws → wf out →
  content out = drop n (content (outputBuffer_ c)) → content out ≠ [] →
  inv fs (after_write n ws out c).
Proof.
intros H Hw Hws Hwf Hc Hne. pose proof (not_shut _ _ H Hw) as Hsh.
destruct H as [H1 H2 H3 H4 H5 H6 H7 H8 H9 H10]. pose proof (proj1 H6 Hw) as [Hnd _].
rewrite decide_False in H8 by done.
split; cbn -[isWriting all_sent content]; try done.
- rewrite decide_False by done. by rewrite Hc, <- app_assoc, take_drop.
- by rewrite Hsh.
Qed.

Lemma drained_inv fs n ws out c :
  inv fs c → isWriting (channel_ c) = true → Forall benign ws → wf out →
  content out = drop n (content (outputBuffer_ c)) → content out = [] →
  inv fs (disableWriting (after_write n ws out c)) ∧
  isWriting (channel_ (disableWriting (after_write n ws out c))) = false.
Proof.
intros H Hw Hws Hwf Hc Hnil. pose proof (not_shut _ _ H Hw) as Hsh.
destruct H as [H1 H2 H3 H4 H5 H6 H7 H8 H9 H10]. pose proof (proj1 H6 Hw) as [Hnd _].
rewrite decide_False in H8 by done.
assert (isWriting (channel_ (disableWriting (after_write n ws out c))) = false) as Hw'.
{ rewrite isWriting_bit. cbn [channel_ disableWriting update set_events set_channel on_env set_env events_].
  rewrite Z.ldiff_spec. change (Z.testbit kWriteEvent 2) with true. by rewrite andb_false_r. }
split; [|done]. split; try done.
- by right.
- cbn. intros Hq. by rewrite H5.
- rewrite Hw'. cbn -[isWriting all_sent content]. split; [done|]. by intros [_ ?].
- cbn -[isWriting all_sent content]. rewrite decide_False by done.
  rewrite Hnil in Hc |- *. by rewrite <- H8, <- app_assoc, Hc, take_drop.
- cbn. by rewrite Hsh.
Qed.

Lemma shut_inv fs c :
  inv fs c → state_ c = kDisconnecting → isWriting (channel_ c) = false → inv fs (shutdownWrite c).
Proof.
intros [H1 H2 H3 H4 H5 H6 H7 H8 H9 H10] Hs Hw. rewrite decide_False in H8 by (by rewrite Hs).
split; cbn -[isWriting all_sent content]; rewrite ?Hs in *; try done.
intros _. split_and!; [done..|].
destruct (content (outputBuffer_ c)) eqn:Ec; [by rewrite app_nil_r in H8|].
exfalso. rewrite Hw in H6. by assert (false = true) by (by apply H6).
Qed.

Lemma handleWrite_inv fs c :
  inv fs c →
  ∃ c', handleWrite c = Ok c' ∧ inv fs c' ∧ state_ c' = state_ c ∧ log (env c') = log (env c) ∧
    (∀ n ws, isWriting (channel_ c) = true → writes (env c) = Wrote n :: ws → (0 < n)%nat →
       writes (env c') = ws ∧
       content (outputBuffer_ c') = drop n (content (outputBuffer_ c)) ∧
       (content (outputBuffer_ c') = [] → state_ c = kDisconnecting → writeShut (env c') = true)).
Proof.
intros H. unfold handleWrite. destruct (isWriting (channel_ c)) eqn:Ew; [|exists c; by split_and!].
pose proof (i_out _ _ H) as Hwf. pose proof (i_benign _ _ H) as Hb.
rewrite mem_read_peek by (done || lia).
rewrite take_ge by (rewrite length_content by done; lia). cbn [mbind res_bind].
set (d := content (outputBuffer_ c)).
assert (d ≠ []) as Hd by (by apply (i_writing _ _ H) in Ew as [_ ?]).
assert (length d ≠ 0%nat) as Hld by (by destruct d).
assert (∀ n ws, Forall benign ws → (0 < n)%nat →
  ∃ c', ('out ← retrieve (outputBuffer_ c) (Nat.min n (length d));
         let c := after_write n ws out c in
         if (readableBytes out =? 0)%nat then
            let c := disableWriting c in
            let c := if writeCompleteCallback_ c then queueInLoop WriteComplete c else c in
            Ok (if decide (state_ c = kDisconnecting) then shutdownInLoop c else c)
          else Ok c) = Ok c' ∧ inv fs c' ∧ state_ c' = state_ c ∧ log (env c') = log (env c) ∧
    writes (env c') = ws ∧ content (outputBuffer_ c') = drop n d ∧
    (content (outputBuffer_ c') = [] → state_ c = kDisconnecting → writeShut (env c') = true)) as Hgo.
{ intros n ws Hws Hn.
  destruct (retrieve_holds (outputBuffer_ c) (Nat.min n (length d))) as (out & -> & Hwo & Hc);
    [done|unfold d; rewrite length_content by done; lia|]. cbn [mbind res_bind].
  assert (content out = drop n d) as Hc'.
  { rewrite Hc. fold d. destruct (Nat.le_ge_cases n (length d)); [by rewrite Nat.min_l|by rewrite !drop_ge by lia]. }
  rewrite <- (length_content out) by done.
  destruct (Nat.eqb_spec (length (content out)) 0) as [E|E].
  - apply nil_length_inv in E. destruct (drained_inv fs n ws out c H Ew Hws Hwo Hc' E) as [Hi Hw']. cbn zeta.
    set (c1 := disableWriting _) in *.
    set (c2 := if writeCompleteCallback_ c1 then queueInLoop WriteComplete c1 else c1).
    assert (inv fs c2) as Hi2 by (unfold c2; case_match; [by apply inv_queue|done]).
    assert (state_ c2 = state_ c ∧ channel_ c2 = channel_ c1 ∧ outputBuffer_ c2 = out ∧
      writes (env c2) = ws ∧ log (env c2) = log (env c)) as (E1 & E2 & E3 & E4 & E5)
      by (unfold c2; by case_match).
    eexists. split; [done|]. unfold shutdownInLoop. rewrite E2, Hw'. cbn [negb].
    case_decide as Hdc.
    + split_and!; cbn; try done; [|by rewrite E3]. by apply shut_inv; [|done|rewrite E2].
    + rewrite E3. split_and!; try done. intros _ ?. congruence.
  - assert (content out ≠ []) as Hne by (by destruct (content out)).
    eexists. split; [done|]. split_and!; [by apply written_inv|done..]. }
unfold sockets_write. fold d. destruct (writes (env c)) as [|[n|e] ws] eqn:Ews.
- rewrite (proj2 (Nat.ltb_lt _ _)) by lia.
  destruct (Hgo (length d) [] ltac:(done) ltac:(lia)) as (c' & E & ? & ? & ? & _).
  rewrite Nat.min_id in E. exists c'. by split_and!.
- apply Forall_cons_1 in Hb as [_ Hb]. destruct (Nat.ltb_spec 0 (Nat.min n (length d))) as [Hn|Hn].
  + destruct (Hgo n ws Hb ltac:(lia)) as (c' & E & ? & ? & ? & ? & ? & ?). exists c'.
    split_and!; try done. intros n0 ws0 _ [= <- <-] _. done.
  + eexists. split; [done|]. assert (n = 0%nat) as -> by lia. split_and!; [|done..|intros n0 ws0 _ [= <- <-]; lia].
    apply inv_benign; [done|done|]. by rewrite take_0, app_nil_r.
- apply Forall_cons_1 in Hb as [_ Hb]. eexists. split; [done|]. split_and!; try done.
  apply inv_benign; [done|done|]. by rewrite take_0, app_nil_r.
Qed.

(** ** The loop *)

Lemma inv_handling fs c b : inv fs c → inv fs (set_channel (set_eventHandling b (channel_ c)) c).
Proof. intros H. eapply inv_frame; [exact H|..]; try done; [by destruct H|by left]. Qed.

Lemma handleEvent_inv fs revents rv c :
  inv fs c → open_state c = true → readv_ok rv →
  (has revents POLLHUP = true → has revents POLLIN = false →
   has revents (Z.lor POLLIN (Z.lor POLLPRI POLLRDHUP)) = false) →
  ∃ c', handleEvent u revents rv c = Ok c' ∧ inv fs c'.
Proof.
intros H Ho Hrv Hhup. unfold handleEvent. cbn zeta.
set (c0 := set_channel _ c). assert (inv fs c0) as H0 by (by apply inv_handling).
assert (∃ c1, (if has revents POLLHUP && negb (has revents POLLIN) then handleClose u c0 else Ok c0) = Ok c1 ∧
  inv fs c1 ∧ (has revents (Z.lor POLLIN (Z.lor POLLPRI POLLRDHUP)) = true → open_state c1 = true))
  as (c1 & E1 & H1 & Ho1).
{ destruct (has revents POLLHUP) eqn:Eh; [destruct (has revents POLLIN) eqn:Ei|]; cbn [andb negb].
  1,3: by exists c0.
  destruct (close_inv fs c0 H0 Ho) as (c1 & -> & H1 & _). exists c1. split_and!; [done|done|].
  by rewrite Hhup. }
rewrite E1. cbn [mbind res_bind].
replace (if has revents (Z.lor POLLERR POLLNVAL) then handleError c1 else c1) with c1 by (unfold handleError; by destruct (has revents (Z.lor POLLERR POLLNVAL))).
assert (∃ c2, (if has revents (Z.lor POLLIN (Z.lor POLLPRI POLLRDHUP)) then handleRead u rv c1 else Ok c1) = Ok c2 ∧
  inv fs c2) as (c2 & E2 & H2).
{ destruct (has revents (Z.lor POLLIN _)); [|by exists c1]. by apply handleRead_inv; [|apply Ho1|]. }
rewrite E2. cbn [mbind res_bind].
destruct (has revents POLLOUT).
- destruct (handleWrite_inv fs c2 H2) as (c3 & -> & H3 & _). cbn [mbind res_bind].
  eexists. split; [done|]. by apply inv_handling.
- cbn [mbind res_bind]. eexists. split; [done|]. by apply inv_handling.
Qed.

Lemma inv_weaken f fs c : inv (f :: fs) c → inv fs c.
Proof.
intros [H1 H2 H3 H4 H5 H6 H7 H8 H9 H10]. split; try done. intros H. apply H10. by right.
Qed.

Lemma run_functor_inv f fs c :
  inv (f :: fs) c → ∃ c', run_functor u f c = Ok c' ∧ inv fs c'.
Proof.
intros H. pose proof (inv_weaken _ _ _ H) as Hw. destruct f as [|n| |]; cbn [run_functor].
- destruct (onWriteComplete u (context_ c)) as [x l] eqn:E.
  assert (inv fs (note Completed c)) as H1 by (apply inv_note; [done| |done]; by destruct (phase _)).
  destruct (callback_inv fs x l _ H1) as (c' & -> & ? & _); [|by exists c'].
  left. pose proof (p_complete _ Hu (context_ c)) as Hg. by rewrite E in Hg.
- destruct (onHighWaterMark u (context_ c) n) as [x l] eqn:E.
  assert (inv fs (note (AboveMark n) c)) as H1 by (apply inv_note; [done| |done]; by destruct (phase _)).
  destruct (callback_inv fs x l _ H1) as (c' & -> & ? & _); [|by exists c'].
  left. pose proof (p_mark _ Hu (context_ c) n) as Hg. by rewrite E in Hg.
- unfold forceCloseInLoop. destruct (open_state c) eqn:Ho; [|by exists c].
  destruct (close_inv fs c Hw Ho) as (c' & -> & ? & _). by exists c'.
- assert (state_ c = kDisconnected) as Hs by (apply (i_destroy _ _ H); by left).
  unfold connectDestroyed. rewrite decide_False by (by rewrite Hs). cbn [mbind res_bind].
  unfold Channel_remove, isNoneEvent. rewrite (i_quiet _ _ Hw) by (by right). cbn [Z.eqb assert_ mbind res_bind].
  eexists. split; [done|]. destruct Hw as [H1 H2 H3 H4 H5 H6 H7 H8 H9 H10]. split; try done; [by left|].
  cbn -[isWriting content]. rewrite Hs. split; [done|by intros [? _]].
Qed.

Lemma run_functors_inv fs gs c :
  inv (fs ++ gs) c → ∃ c', run_functors u fs c = Ok c' ∧ inv gs c'.
Proof.
revert c. induction fs as [|f fs IH]; intros c H; cbn [run_functors]; [by exists c|].
destruct (run_functor_inv f (fs ++ gs) c H) as (c1 & -> & H1). cbn [mbind res_bind]. by apply IH.
Qed.

Lemma doPendingFunctors_inv c :
  inv [] c → ∃ c', doPendingFunctors u c = Ok c' ∧ inv [] c'.
Proof.
intros [H1 H2 H3 H4 H5 H6 H7 H8 H9 H10]. unfold doPendingFunctors. apply run_functors_inv.
split; try done. cbn. rewrite !app_nil_r. done.
Qed.

Lemma timer_inv c : inv [] c → inv [] (timer_expired c).
Proof.
intros H. unfold timer_expired. set (c1 := set_env _ c).
assert (inv [] c1) as H1 by (eapply inv_frame; [exact H|..]; try done; [by destruct H|by left]).
unfold forceClose. destruct (open_state c1) eqn:Ho; [|done]. by apply inv_queue; [apply inv_disconnecting|].
Qed.
End invariant.

(** ** Runs *)

(** What can happen to a connection. *)
Inductive op :=
  | Establish
  | Event (revents : Z) (rv : list nat → readv_result)
  | Pending
  | Timer
  | Call (a : action).

Section runs.
Context {S : Type} (u : User S).

Definition run_op (o : op) (c : TcpConnection S) : res (TcpConnection S) :=
  match o with
  | Establish => connectEstablished u c
  | Event revents rv => handleEvent u revents rv c
  | Pending => doPendingFunctors u c
  | Timer => Ok (timer_expired c)
  | Call a => act a c
  end.

(** When it can happen: the server establishes a connection once; the poller reports a
    descriptor that is watched for something, and no urgent data or half-close with a
    hang-up that leaves nothing to read; a timer that is armed; and the user starts
    reading only on a connection that is up. *)
Definition enabled (o : op) (c : TcpConnection S) : Prop :=
  match o with
  | Establish => state_ c = kConnecting
  | Event revents rv =>
      (∃ ev, polled (env c) = Some ev ∧ ev ≠ 0) ∧ readv_ok rv ∧
      (has revents POLLHUP = true → has revents POLLIN = false →
       has revents (Z.lor POLLIN (Z.lor POLLPRI POLLRDHUP)) = false)
  | Pending => True
  | Timer => (0 < delayed (env c))%nat
  | Call a => gentle a ∨ open_state c = true
  end.

Definition conn_step (c c' : TcpConnection S) : Prop := ∃ o, enabled o c ∧ run_op o c = Ok c'.

Lemma run_op_inv o c :
  polite u → inv [] c → enabled o c → ∃ c', run_op o c = Ok c' ∧ inv [] c'.
Proof.
intros Hu H He. destruct o as [|revents rv| | |a]; cbn [run_op enabled] in *.
- by apply established_inv.
- destruct He as ((ev & Hp & Hev) & Hrv & Hhup). apply handleEvent_inv; try done.
  apply open_cases. destruct (i_polled _ _ H) as [E|E]; [congruence|]. rewrite E in Hp. injection Hp as <-.
  destruct (state_ c) eqn:Es; [exfalso|exfalso|by left|by right].
  + apply Hev, (i_quiet _ _ H). by right.
  + apply Hev, (i_quiet _ _ H). by left.
- by apply doPendingFunctors_inv.
- eexists. split; [done|]. by apply timer_inv.
- destruct (act_inv [] a c H He) as (c' & ? & ? & _). by exists c'.
Qed.

Lemma ctor_inv mark wc hw x ws :
  Forall benign ws →
  ∃ c : TcpConnection S, TcpConnection_ctor mark wc hw x ws = Ok c ∧ inv [] c ∧ state_ c = kConnecting.
Proof.
intros Hws. unfold TcpConnection_ctor. destruct (Buffer_ctor_holds kInitialSize) as (b & -> & Hwf & Hc).
cbn [mbind res_bind]. eexists. split; [done|]. split; [|done].
split; cbn -[isWriting content all_sent]; try done; try (by left); try (by rewrite Hc).
- split; [done|]. rewrite Hc. by intros [_ ?].
- by intros ?%not_elem_of_nil.
Qed.

Lemma reachable_inv c0 c : polite u → inv [] c0 → rtc conn_step c0 c → inv [] c.
Proof.
intros Hu H Hr. induction Hr as [|c c1 c2 (o & He & E) _ IH]; [done|]. apply IH.
destruct (run_op_inv o c Hu H He) as (c' & E' & H'). rewrite E in E'. by injection E' as ->.
Qed.

(** Every state a constructed connection can reach. *)
Lemma built_inv mark wc hw x ws c0 c :
  polite u → Forall benign ws → TcpConnection_ctor mark wc hw x ws = Ok c0 → rtc conn_step c0 c → inv [] c.
Proof.
intros Hu Hws E Hr. destruct (ctor_inv mark wc hw x ws Hws) as (c0' & E' & H0 & _).
rewrite E in E'. injection E' as <-. by eapply reachable_inv.
Qed.
End runs.

(** C15: A connection keeps its promises in every order of events that respects its
    interface.  The user calls [startRead] only while the connection is up, and not from
    the callbacks that can find it down ([restart_after_close] fails an assertion
    otherwise), and the message callback returns and leaves a sound buffer; events are
    reported only on a descriptor that is watched, and none that reads after a hang-up
    with nothing to read; no write fails with [EPIPE] or [ECONNRESET].  Then, for every
    sequence of socket events, queued functors, timers and calls: no assertion fails and
    every further operation returns; the user sees the connection come up once, then
    messages, then go down once; the octets written to the socket, followed by the output
    buffer while the connection is not down, are exactly the octets the user sent in
    order; and the write side is shut down only when all of them have been written. *)
Theorem connection_invariant {S} (u : User S) mark wc hw x ws c0 c :
  polite u → Forall benign ws → TcpConnection_ctor mark wc hw x ws = Ok c0 → rtc (conn_step u) c0 c →
  (∀ o, enabled o c → ∃ c', run_op u o c = Ok c') ∧
  run_log (log (env c)) 0 = Some (phase (state_ c)) ∧
  (state_ c ≠ kDisconnected → sent (env c) ++ content (outputBuffer_ c) = all_sent (log (env c))) ∧
  (∃ t, sent (env c) ++ t = all_sent (log (env c))) ∧
  (writeShut (env c) = true → state_ c ≠ kConnected ∧ sent (env c) = all_sent (log (env c))).
Proof.
intros Hu Hws E Hr. pose proof (built_inv u mark wc hw x ws c0 c Hu Hws E Hr) as H.
pose proof (i_data _ _ H) as Hd. split_and!.
- intros o He. destruct (run_op_inv u o c Hu H He) as (c' & ? & _). by exists c'.
- apply (i_log _ _ H).
- intros Hs. by rewrite decide_False in Hd.
- case_decide; [done|by eexists].
- intros Hw. by destruct (i_shut _ _ H Hw) as (_ & ? & ?).
Qed.

(** A user that answers each message with its own octets and closes. *)
Definition echo_user : User () :=
  mkUser () (λ x _, (x, []))
    (λ x b, '(d, b) ← retrieveAllAsString b; Ok (x, b, [Send d; Shutdown]))
    (λ x, (x, [])) (λ x _, (x, [])).

Lemma echo_polite : polite echo_user.
Proof.
split; try (intros; cbn; constructor). intros x b Hwf. unfold echo_user. cbn [onMessage_].
destruct (retrieveAllAsString_holds b Hwf) as (b' & -> & Hb & _). by eexists _, _, _.
Qed.

Definition no_read : list nat → readv_result := λ _, ReadData [].

Lemma no_read_ok : readv_ok no_read.
Proof. intros vec d [= <-]. cbn. lia. Qed.

Definition demo_conn : res (TcpConnection ()) := TcpConnection_ctor 67108864 false false () [Wrote 1].
Definition ok_or {A} (d : A) (r : res A) : A := match r with Ok a => a | Fault _ => d end.
Definition conn0 : TcpConnection () :=
  ok_or (mkConn kConnecting true Channel_ctor 0 false false (mkBuffer [] 0 0) (mkBuffer [] 0 0) ()
    (mkEnv [] 0 None [] [] false [])) demo_conn.
Definition conn1 : TcpConnection () := ok_or conn0 (run_op echo_user Establish conn0).
Definition conn2 : TcpConnection () := ok_or conn0 (run_op echo_user (Call (Send [x61; x62; x63])) conn1).
Definition conn3 : TcpConnection () := ok_or conn0 (run_op echo_user (Call Shutdown) conn2).
Definition conn4 : TcpConnection () := ok_or conn0 (run_op echo_user (Event POLLOUT no_read) conn3).

Lemma demo_step o c c' :
  enabled o c → (if run_op echo_user o c is Ok _ then true else false) = true →
  ok_or conn0 (run_op echo_user o c) = c' → conn_step echo_user c c'.
Proof. intros He Hok <-. exists o. split; [done|]. by destruct (run_op echo_user o c). Qed.

Lemma demo_steps : rtc (conn_step echo_user) conn0 conn4.
Proof.
apply rtc_l with conn1.
{ apply (demo_step Establish); [vm_compute; reflexivity..|unfold conn1; reflexivity]. }
apply rtc_l with conn2.
{ apply (demo_step (Call (Send [x61; x62; x63]))); [left; discriminate|vm_compute; reflexivity|].
  unfold conn2. reflexivity. }
apply rtc_l with conn3.
{ apply (demo_step (Call Shutdown)); [left; discriminate|vm_compute; reflexivity|unfold conn3; reflexivity]. }
apply rtc_once, (demo_step (Event POLLOUT no_read)); [|vm_compute; reflexivity|unfold conn4; reflexivity].
split; [exists 7; split; [vm_compute; reflexivity|lia]|]. split; [exact no_read_ok|intros H; discriminate H].
Qed.

Lemma connection_invariant_witness :
  sent (env conn4) = [x61; x62; x63] ∧ writeShut (env conn4) = true ∧
  (∀ o, enabled o conn4 → ∃ c', run_op echo_user o conn4 = Ok c') ∧
  run_log (log (env conn4)) 0 = Some (phase (state_ conn4)) ∧
  (state_ conn4 ≠ kDisconnected →
   sent (env conn4) ++ content (outputBuffer_ conn4) = all_sent (log (env conn4))) ∧
  (∃ t, sent (env conn4) ++ t = all_sent (log (env conn4))) ∧
  (writeShut (env conn4) = true → state_ conn4 ≠ kConnected ∧ sent (env conn4) = all_sent (log (env conn4))).
Proof.
split; [vm_compute; reflexivity|]. split; [vm_compute; reflexivity|].
apply (connection_invariant echo_user 67108864 false false () [Wrote 1] conn0 conn4).
- exact echo_polite.
- repeat constructor.
- vm_compute. reflexivity.
- exact demo_steps.
Defined.

(** ** Output drains *)

Section drain.
Context {X : Type} (u : User X).

(** The poller reports the descriptor writable as long as the connection waits for it,
    at most [k] times. *)
Fixpoint pump (rv : list nat → readv_result) (k : nat) (c : TcpConnection X) : res (TcpConnection X) :=
  match k with
  | O => Ok c
  | S k => if isWriting (channel_ c) then c ← handleEvent u POLLOUT rv c; pump rv k c else Ok c
  end.

Definition progress (w : write_outcome) : Prop := match w with Wrote n => (0 < n)%nat | WriteErr _ => False end.

Lemma pollout_step rv c :
  inv [] c → isWriting (channel_ c) = true → Forall progress (writes (env c)) → writes (env c) ≠ [] →
  ∃ c' n ws, handleEvent u POLLOUT rv c = Ok c' ∧ inv [] c' ∧ state_ c' = state_ c ∧
    log (env c') = log (env c) ∧ (0 < n)%nat ∧ writes (env c) = Wrote n :: ws ∧ writes (env c') = ws ∧
    content (outputBuffer_ c') = drop n (content (outputBuffer_ c)) ∧
    (content (outputBuffer_ c') = [] → state_ c = kDisconnecting → writeShut (env c') = true).
Proof.
intros H Hw Hp Hne. destruct (writes (env c)) as [|[n|] ws] eqn:E; [done| |].
2:{ by apply Forall_cons_1 in Hp as [? _]. }
apply Forall_cons_1 in Hp as [Hn _]. unfold handleEvent.
change (has POLLOUT POLLHUP) with false. change (has POLLOUT POLLOUT) with true.
change (has POLLOUT (Z.lor POLLERR POLLNVAL)) with false.
change (has POLLOUT (Z.lor POLLIN (Z.lor POLLPRI POLLRDHUP))) with false.
cbn [andb mbind res_bind].
destruct (handleWrite_inv [] _ (inv_handling [] c true H)) as (c' & -> & H' & Hs & Hl & Hgo).
cbn [mbind res_bind]. destruct (Hgo n ws Hw E Hn) as (Hws & Hc & Hsh).
eexists _, n, ws. split; [done|]. split_and!; try done. by apply inv_handling.
Qed.

Lemma pump_ok rv k c :
  inv [] c → open_state c = true → Forall progress (writes (env c)) →
  (length (content (outputBuffer_ c)) ≤ k)%nat →
  (length (content (outputBuffer_ c)) ≤ length (writes (env c)))%nat →
  ∃ c', pump rv k c = Ok c' ∧ inv [] c' ∧ state_ c' = state_ c ∧ log (env c') = log (env c) ∧
    content (outputBuffer_ c') = [] ∧
    (content (outputBuffer_ c) ≠ [] ∨ writeShut (env c) = true → state_ c = kDisconnecting →
     writeShut (env c') = true).
Proof.
revert c. induction k as [|k IH]; intros c H Ho Hp Hk Hl; cbn [pump].
- exists c. assert (content (outputBuffer_ c) = []) as E by (apply nil_length_inv; lia).
  split_and!; [done..|]. by intros [?|?].
- pose proof (i_writing _ _ H) as Hiw. apply open_cases in Ho as Ho'.
  destruct (isWriting (channel_ c)) eqn:Ew.
  2:{ exists c. assert (content (outputBuffer_ c) = []) as E; [|split_and!; [done..|by intros [?|?]]].
      destruct (content (outputBuffer_ c)); [done|]. exfalso.
      assert (false = true) as HF by (apply Hiw; split; [by destruct Ho' as [->| ->]|done]). done. }
  assert (content (outputBuffer_ c) ≠ []) as Hne by (by apply Hiw).
  assert (length (content (outputBuffer_ c)) ≠ 0%nat) as Hln by (by destruct (content (outputBuffer_ c))).
  destruct (pollout_step rv c H Ew Hp) as (c1 & n & ws & -> & H1 & Hs1 & Hl1 & Hn & Ews & Ews1 & Hc1 & Hsh).
  { intros E. rewrite E in Hl. cbn in Hl. lia. }
  cbn [mbind res_bind]. rewrite Ews in Hp, Hl. apply Forall_cons_1 in Hp as [_ Hp]. cbn [length] in Hl.
  destruct (IH c1 H1) as (c2 & -> & H2 & Hs2 & Hl2 & Hc2 & Hsh2).
  + unfold open_state. by rewrite Hs1.
  + by rewrite Ews1.
  + rewrite Hc1, length_drop. lia.
  + rewrite Hc1, length_drop, Ews1. lia.
  + exists c2. split_and!; [done|done|congruence|congruence|done|]. intros _ Hd. apply Hsh2; [|congruence].
    destruct (content (outputBuffer_ c1)) as [|b l] eqn:E1; [right; by apply Hsh|by left].
Qed.
End drain.

(** C16: What was sent gets out.  From every state a connection that is up can reach, if
    each write takes at least one octet, the loop empties the output buffer within as
    many writable events as it holds octets: everything the user sent has been
    written, the channel no longer waits to write, and if the user had closed the
    connection with output pending its write side is now shut down. *)
Theorem output_drains {X} (u : User X) mark wc hw x ws c0 c rv k :
  polite u → Forall benign ws → TcpConnection_ctor mark wc hw x ws = Ok c0 → rtc (conn_step u) c0 c →
  open_state c = true → Forall progress (writes (env c)) →
  (length (content (outputBuffer_ c)) ≤ k)%nat →
  (length (content (outputBuffer_ c)) ≤ length (writes (env c)))%nat →
  ∃ c', pump u rv k c = Ok c' ∧ state_ c' = state_ c ∧ sent (env c') = all_sent (log (env c)) ∧
    isWriting (channel_ c') = false ∧
    (content (outputBuffer_ c) ≠ [] → state_ c = kDisconnecting → writeShut (env c') = true).
Proof.
intros Hu Hws E Hr Ho Hp Hk Hl. pose proof (built_inv u mark wc hw x ws c0 c Hu Hws E Hr) as H.
destruct (pump_ok u rv k c H Ho Hp Hk Hl) as (c' & -> & H' & Hs & Hlog & Hc & Hsh).
exists c'. apply open_cases in Ho.
assert (state_ c' ≠ kDisconnected) as Hnd by (rewrite Hs; by destruct Ho as [->| ->]).
split_and!; [done|done| | |auto].
- pose proof (i_data _ _ H') as Hd. rewrite decide_False, Hc, app_nil_r in Hd by done. by rewrite Hd, Hlog.
- destruct (isWriting (channel_ c')) eqn:Ew; [|done]. by apply (i_writing _ _ H') in Ew as [_ ?].
Qed.

(** A socket that takes the output octet by octet. *)
Definition slow_conn : res (TcpConnection ()) :=
  TcpConnection_ctor 67108864 false false () [Wrote 1; Wrote 1; Wrote 1; Wrote 2].
Definition slow0 : TcpConnection () := ok_or conn0 slow_conn.
Definition slow1 : TcpConnection () := ok_or conn0 (run_op echo_user Establish slow0).
Definition slow2 : TcpConnection () := ok_or conn0 (run_op echo_user (Call (Send [x61; x62; x63])) slow1).
Definition slow3 : TcpConnection () := ok_or conn0 (run_op echo_user (Call Shutdown) slow2).

Lemma slow_steps : rtc (conn_step echo_user) slow0 slow3.
Proof.
apply rtc_l with slow1.
{ apply (demo_step Establish); [vm_compute; reflexivity..|unfold slow1; reflexivity]. }
apply rtc_l with slow2.
{ apply (demo_step (Call (Send [x61; x62; x63]))); [left; discriminate|vm_compute; reflexivity|].
  unfold slow2. reflexivity. }
apply rtc_once, (demo_step (Call Shutdown)); [left; discriminate|vm_compute; reflexivity|].
unfold slow3. reflexivity.
Qed.

Lemma output_drains_witness :
  content (outputBuffer_ slow3) = [x62; x63] ∧
  ∃ c', pump echo_user no_read 3 slow3 = Ok c' ∧ state_ c' = state_ slow3 ∧
    sent (env c') = all_sent (log (env slow3)) ∧ isWriting (channel_ c') = false ∧
    (content (outputBuffer_ slow3) ≠ [] → state_ slow3 = kDisconnecting → writeShut (env c') = true).
Proof.
split; [vm_compute; reflexivity|].
apply (output_drains echo_user 67108864 false false () [Wrote 1; Wrote 1; Wrote 1; Wrote 2] slow0).
- exact echo_polite.
- repeat constructor.
- vm_compute. reflexivity.
- exact slow_steps.
- vm_compute. reflexivity.
- vm_compute. repeat constructor.
- vm_compute. lia.
- vm_compute. lia.
Defined.

(** Reading that starts again on a connection that is down makes its removal fail: the
    state is not tested, and the channel is removed with an event set that is not empty. *)
Definition seq_ops (l : list op) (c : TcpConnection ()) : res (TcpConnection ()) :=
  foldl (λ r o, c ← r; run_op echo_user o c) (Ok c) l.

Example restart_after_close :
  seq_ops [Call ForceClose; Pending; Call StartRead; Pending] conn1 = Fault AssertFail.
Proof. vm_compute. reflexivity. Qed.
