(* ===== verification/Poller.v ===== *)
(** [mucgi/muduo_net/Poller.cc], [PollPoller.cc], [EPollPoller.cc]: the two ways the
    event loop waits for descriptors.  Channels are objects reached through pointers
    ([ptr]) and both pollers keep a private number in them ([index_]), so the operations
    act on the store of channels and on the poller.

    The two pollers implement the interface [PollerOps].  The specification of what a
    poller promises, and the simulation, are in [PollerSpec]. *)

From Stdlib Require Import ZArith Lia Bool.
From Stdlib.Strings Require Import Byte.
From stdpp Require Import base numbers list gmap option.
From S2P Require Import Prelude.
Local Open Scope Z_scope.

Abbreviation ptr := nat.

(** The members of a [Channel] a poller uses. *)
Record channel := mkchannel {
  fd : Z;
  events : Z;
  revents : Z;
  index : Z;
}.

Definition channel_none (c : channel) : bool := events c =? 0.
Definition set_index i (c : channel) : channel := mkchannel (fd c) (events c) (revents c) i.
Definition set_revents r (c : channel) : channel := mkchannel (fd c) (events c) r (index c).
Definition with_events e (c : channel) : channel := mkchannel (fd c) e (revents c) (index c).

Abbreviation store := (gmap ptr channel).

(** [*p]; a pointer to no channel is a fault. *)
Definition deref (h : store) (p : ptr) : res channel :=
  match h !! p with Some c => Ok c | None => Fault OutOfBounds end.

(** [std::map<int, Channel*>] *)
Abbreviation ChannelMap := (gmap Z ptr).

(** What the base class declares, with the descriptors the kernel is asked to watch. *)
Class PollerOps (P : Type) := {
  updateChannel : ptr → store → P → res (store * P);
  removeChannel : ptr → store → P → res (store * P);
  channels_of : P → ChannelMap;
  (** the descriptor is watched for these events, which are not none *)
  watches : P → Z → Z → Prop;
}.

Definition hasChannel {P} `{PollerOps P} (p : ptr) (h : store) (st : P) : res bool :=
  c ← deref h p; Ok (bool_decide (channels_of st !! fd c = Some p)).

(** ** [poll(2)] *)

Module Poll.

Record pollfd := mkpollfd { pfd_fd : Z; pfd_events : Z; pfd_revents : Z }.

Record PollPoller := mkPoll { pollfds_ : list pollfd; channels_ : ChannelMap }.

Definition PollPoller_ctor : PollPoller := mkPoll [] ∅.

Definition updateChannel (p : ptr) (h : store) (st : PollPoller) : res (store * PollPoller) :=
  ch ← deref h p;
  if index ch <? 0 then
    assert_ (bool_decide (channels_ st !! fd ch = None)) ;;
    let fds := pollfds_ st ++ [mkpollfd (fd ch) (s16 (events ch)) 0] in
    let idx := s32 (Z.of_nat (length fds)) - 1 in
    Ok (<[p := set_index idx ch]> h, mkPoll fds (<[fd ch := p]> (channels_ st)))
  else
    assert_ (bool_decide (channels_ st !! fd ch = Some p)) ;;
    let idx := index ch in
    assert_ ((0 <=? idx) && (idx <? s32 (Z.of_nat (length (pollfds_ st))))) ;;
    match pollfds_ st !! Z.to_nat idx with
    | None => Fault OutOfBounds
    | Some pfd =>
        assert_ ((pfd_fd pfd =? fd ch) || (pfd_fd pfd =? - fd ch - 1)) ;;
        let pfd := mkpollfd (if channel_none ch then - fd ch - 1 else pfd_fd pfd) (s16 (events ch)) 0 in
        Ok (h, mkPoll (<[Z.to_nat idx := pfd]> (pollfds_ st)) (channels_ st))
    end.

(** [pop_back] *)
Definition pop_back {A} (l : list A) : list A := take (length l - 1) l.

Definition removeChannel (p : ptr) (h : store) (st : PollPoller) : res (store * PollPoller) :=
  ch ← deref h p;
  assert_ (bool_decide (channels_ st !! fd ch = Some p)) ;;
  assert_ (channel_none ch) ;;
  let idx := index ch in
  assert_ ((0 <=? idx) && (idx <? s32 (Z.of_nat (length (pollfds_ st))))) ;;
  match pollfds_ st !! Z.to_nat idx, pollfds_ st !! (length (pollfds_ st) - 1)%nat with
  | Some pfd, Some back =>
      assert_ ((pfd_fd pfd =? - fd ch - 1) && (pfd_events pfd =? events ch)) ;;
      let chs := delete (fd ch) (channels_ st) in
      if (Z.to_nat idx =? length (pollfds_ st) - 1)%nat
      then Ok (h, mkPoll (pop_back (pollfds_ st)) chs)
      else
        let channelAtEnd := pfd_fd back in
        let swapped := <[(length (pollfds_ st) - 1)%nat := pfd]> (<[Z.to_nat idx := back]> (pollfds_ st)) in
        let channelAtEnd := if channelAtEnd <? 0 then - channelAtEnd - 1 else channelAtEnd in
        match chs !! channelAtEnd with
        | None => Fault OutOfBounds
        | Some q => cq ← deref h q; Ok (<[q := set_index idx cq]> h, mkPoll (pop_back swapped) chs)
        end
  | _, _ => Fault OutOfBounds
  end.

(** [fillActiveChannels]: the channels that are ready, in the order of the array. *)
Fixpoint fillActiveChannels (fds : list pollfd) (chs : ChannelMap) (numEvents : Z) (h : store) :
    res (store * list ptr) :=
  match fds with
  | pfd :: fds =>
      if 0 <? numEvents then
        if 0 <? pfd_revents pfd then
          match chs !! pfd_fd pfd with
          | None => Fault AssertFail
          | Some q =>
              c ← deref h q;
              assert_ (fd c =? pfd_fd pfd) ;;
              '(h, l) ← fillActiveChannels fds chs (numEvents - 1) (<[q := set_revents (pfd_revents pfd) c]> h);
              Ok (h, q :: l)
          end
        else fillActiveChannels fds chs numEvents h
      else Ok (h, [])
  | [] => Ok (h, [])
  end.

Definition set_ready (e : pollfd) (r : Z) : pollfd := mkpollfd (pfd_fd e) (pfd_events e) r.

(** [poll]: the system call returns a number and, unless it failed, sets the [revents]
    of every entry. *)
Definition poll (sys_poll : list pollfd → Z * list Z) (h : store) (st : PollPoller) :
    res (store * PollPoller * list ptr) :=
  let '(numEvents, rs) := sys_poll (pollfds_ st) in
  let st := if numEvents <? 0 then st else mkPoll (zip_with set_ready (pollfds_ st) rs) (channels_ st) in
  if 0 <? numEvents then
    '(h, l) ← fillActiveChannels (pollfds_ st) (channels_ st) numEvents h; Ok (h, st, l)
  else Ok (h, st, []).

#[export] Instance poll_ops : PollerOps PollPoller := {
  updateChannel := updateChannel;
  removeChannel := removeChannel;
  channels_of := channels_;
  watches st f ev := ev ≠ 0 ∧ ∃ i e, pollfds_ st !! i = Some e ∧ pfd_fd e = f ∧ 0 ≤ f ∧ pfd_events e = ev;
}.
End Poll.

(** ** [epoll(7)] *)

Module EPoll.

Definition kNew : Z := -1.
Definition kAdded : Z := 1.
Definition kDeleted : Z := 2.
Definition kInitEventListSize : nat := 16.

Inductive operation := EPOLL_CTL_ADD | EPOLL_CTL_DEL | EPOLL_CTL_MOD.

(** [interest] is the kernel's interest list of the descriptor [epollfd_]: per
    descriptor the events and the pointer given with them. *)
Record EPollPoller := mkEPoll { nevents_ : nat; channels_ : ChannelMap; interest : gmap Z (Z * ptr) }.

Definition EPollPoller_ctor : EPollPoller := mkEPoll kInitEventListSize ∅ ∅.

(** [epoll_ctl(2)]: adding a descriptor that is there, or changing or deleting one that
    is not, is an error. *)
Definition epoll_ctl (op : operation) (f : Z) (ev : Z * ptr) (il : gmap Z (Z * ptr)) :
    option (gmap Z (Z * ptr)) :=
  match op, il !! f with
  | EPOLL_CTL_ADD, None => Some (<[f := ev]> il)
  | EPOLL_CTL_MOD, Some _ => Some (<[f := ev]> il)
  | EPOLL_CTL_DEL, Some _ => Some (delete f il)
  | _, _ => None
  end.

(** [update]: an error is logged, [LOG_SYSFATAL] included, and nothing else. *)
Definition update (op : operation) (p : ptr) (h : store) (st : EPollPoller) : res EPollPoller :=
  ch ← deref h p;
  Ok (mkEPoll (nevents_ st) (channels_ st)
        (default (interest st) (epoll_ctl op (fd ch) (events ch, p) (interest st)))).

Definition set_channels chs (st : EPollPoller) : EPollPoller := mkEPoll (nevents_ st) chs (interest st).

Definition updateChannel (p : ptr) (h : store) (st : EPollPoller) : res (store * EPollPoller) :=
  ch ← deref h p;
  if (index ch =? kNew) || (index ch =? kDeleted) then
    st ← (if index ch =? kNew then
            assert_ (bool_decide (channels_ st !! fd ch = None)) ;;
            Ok (set_channels (<[fd ch := p]> (channels_ st)) st)
          else assert_ (bool_decide (channels_ st !! fd ch = Some p)) ;; Ok st);
    let h := <[p := set_index kAdded ch]> h in
    st ← update EPOLL_CTL_ADD p h st; Ok (h, st)
  else
    assert_ (bool_decide (channels_ st !! fd ch = Some p)) ;;
    assert_ (index ch =? kAdded) ;;
    if channel_none ch then
      st ← update EPOLL_CTL_DEL p h st; Ok (<[p := set_index kDeleted ch]> h, st)
    else st ← update EPOLL_CTL_MOD p h st; Ok (h, st).

Definition removeChannel (p : ptr) (h : store) (st : EPollPoller) : res (store * EPollPoller) :=
  ch ← deref h p;
  assert_ (bool_decide (channels_ st !! fd ch = Some p)) ;;
  assert_ (channel_none ch) ;;
  assert_ ((index ch =? kAdded) || (index ch =? kDeleted)) ;;
  let st := set_channels (delete (fd ch) (channels_ st)) st in
  st ← (if index ch =? kAdded then update EPOLL_CTL_DEL p h st else Ok st);
  Ok (<[p := set_index kNew ch]> h, st).

(** [fillActiveChannels] over what the system call stored: events and pointer. *)
Fixpoint fill_active (evs : list (Z * ptr)) (chs : ChannelMap) (h : store) : res (store * list ptr) :=
  match evs with
  | [] => Ok (h, [])
  | (r, q) :: evs =>
      c ← deref h q;
      assert_ (bool_decide (chs !! fd c = Some q)) ;;
      '(h, l) ← fill_active evs chs (<[q := set_revents r c]> h);
      Ok (h, q :: l)
  end.

Definition fillActiveChannels (evs : list (Z * ptr)) (h : store) (st : EPollPoller) :
    res (store * list ptr) :=
  assert_ (length evs <=? nevents_ st)%nat ;; fill_active evs (channels_ st) h.

(** [poll]: the system call gets the room for events and returns those that happened,
    or fails. *)
Definition poll (epoll_wait : nat → gmap Z (Z * ptr) → option (list (Z * ptr))) (h : store)
    (st : EPollPoller) : res (store * EPollPoller * list ptr) :=
  match epoll_wait (nevents_ st) (interest st) with
  | None | Some [] => Ok (h, st, [])
  | Some evs =>
      '(h, l) ← fillActiveChannels evs h st;
      let n := if (length evs =? nevents_ st)%nat then (nevents_ st * 2)%nat else nevents_ st in
      Ok (h, mkEPoll n (channels_ st) (interest st), l)
  end.

#[export] Instance epoll_ops : PollerOps EPollPoller := {
  updateChannel := updateChannel;
  removeChannel := removeChannel;
  channels_of := channels_;
  watches st f ev := ev ≠ 0 ∧ ∃ p, interest st !! f = Some (ev, p);
}.
End EPoll.

#[export] Existing Instance Poll.poll_ops.
#[export] Existing Instance EPoll.epoll_ops.
