(* ===== verification/PollerSpec.v ===== *)
(** What a poller promises, and that both pollers keep the promise: the descriptors
    watched are those of the registered channels, each for the events its channel asked
    for last.  The specification is the class [PollerLaws]; the theorem about runs is
    proved from it once and holds of both pollers.  [PollPoller] needs callers whose
    first request on a channel is for some events and that never ask again for events on a
    channel that asked for none; what happens otherwise is proved at the end. *)

From Stdlib Require Import ZArith Lia Bool.
From Stdlib.Strings Require Import Byte.
From stdpp Require Import base numbers list gmap option fin_sets fin_map_dom.
From S2P Require Import Prelude Poller.
Local Open Scope Z_scope.

(** ** Specification *)

(** What a channel asks of the loop: watch it for these events ([enableReading] and the
    like set [events_] and call [updateChannel]), forget it ([remove]). *)
Inductive request := Watch (p : ptr) (ev : Z) | Forget (p : ptr).

(** The registered channels with their events, and the channels removed. *)
Record registry := mkReg { regs : gmap ptr Z; gone : gset ptr }.

Definition reg0 : registry := mkReg ∅ ∅.

Definition spec_step (r : request) (s : registry) : registry :=
  match r with
  | Watch p ev => mkReg (<[p := ev]> (regs s)) (gone s)
  | Forget p => mkReg (delete p (regs s)) ({[p]} ∪ gone s)
  end.

(** The caller's side: a channel that exists, events that fit a [short]; a channel is
    removed when it is registered for no events. *)
Definition legal (fds : gmap ptr Z) (s : registry) (r : request) : Prop :=
  match r with
  | Watch p ev => is_Some (fds !! p) ∧ (p ∉ gone s) ∧ 0 ≤ ev < 2 ^ 15
  | Forget p => regs s !! p = Some 0
  end.

(** The channels' descriptors: every channel has its own. *)
Record distinct (fds : gmap ptr Z) : Prop := {
  d_inj p q f : fds !! p = Some f → fds !! q = Some f → p = q;
  d_pos p f : fds !! p = Some f → 0 ≤ f;
  d_size : Z.of_nat (size fds) < 2 ^ 31;
}.

Definition spec_watches (fds : gmap ptr Z) (s : registry) (f ev : Z) : Prop :=
  ev ≠ 0 ∧ ∃ p, regs s !! p = Some ev ∧ fds !! p = Some f.

Definition run_request {P} `{PollerOps P} (r : request) (h : store) (st : P) : res (store * P) :=
  match r with
  | Watch p ev => c ← deref h p; updateChannel p (<[p := with_events ev c]> h) st
  | Forget p => removeChannel p h st
  end.

Fixpoint run_requests {P} `{PollerOps P} (rs : list request) (h : store) (st : P) : res (store * P) :=
  match rs with
  | [] => Ok (h, st)
  | r :: rs => '(h, st) ← run_request r h st; run_requests rs h st
  end.

Definition new_channel (f : Z) : channel := mkchannel f 0 0 (-1).

(** [admits] is what the poller needs of its callers beyond [legal]. *)
Class PollerLaws (P : Type) `{PollerOps P} (start : P) (admits : registry → request → Prop) := {
  tracks : gmap ptr Z → registry → store → P → Prop;
  tracks_start fds : distinct fds → tracks fds reg0 (new_channel <$> fds) start;
  tracks_step fds s h st r :
    distinct fds → tracks fds s h st → legal fds s r → admits s r →
    ∃ h' st', run_request r h st = Ok (h', st') ∧ tracks fds (spec_step r s) h' st';
  tracks_watches fds s h st f ev :
    distinct fds → tracks fds s h st → watches st f ev ↔ spec_watches fds s f ev;
}.

(** A run of requests each of which is in order when it is made. *)
Fixpoint orderly (fds : gmap ptr Z) (admits : registry → request → Prop) (s : registry)
    (rs : list request) : Prop :=
  match rs with
  | [] => True
  | r :: rs => legal fds s r ∧ admits s r ∧ orderly fds admits (spec_step r s) rs
  end.

Definition spec_steps (rs : list request) (s : registry) : registry := foldl (λ s r, spec_step r s) s rs.

Section client.
Context {P : Type} `{HL : PollerLaws P start admits}.

Lemma tracks_steps fds rs s h st :
  distinct fds → tracks fds s h st → orderly fds admits s rs →
  ∃ h' st', run_requests rs h st = Ok (h', st') ∧ tracks fds (spec_steps rs s) h' st'.
Proof.
intros Hd. revert s h st. induction rs as [|r rs IH]; intros s h st Ht Ho; cbn [run_requests]; [by eexists _, _|].
destruct Ho as (Hl & Ha & Ho). destruct (tracks_step fds s h st r Hd Ht Hl Ha) as (h1 & st1 & -> & Ht1).
cbn [mbind res_bind]. by apply IH.
Qed.

Lemma poller_watches fds rs :
  distinct fds → orderly fds admits reg0 rs →
  ∃ h st, run_requests rs (new_channel <$> fds) start = Ok (h, st) ∧
    ∀ f ev, watches st f ev ↔ spec_watches fds (spec_steps rs reg0) f ev.
Proof.
intros Hd Ho. destruct (tracks_steps fds rs reg0 _ _ Hd (tracks_start fds Hd) Ho) as (h & st & E & Ht).
exists h, st. split; [done|]. intros f ev. by apply (tracks_watches fds _ h).
Qed.
End client.

(** ** Facts shared by both pollers *)

Section shared.
Context (fds : gmap ptr Z) (Hd : distinct fds).

(** The store holds the channels of [fds]. *)
Definition holds_fds (h : store) : Prop := ∀ p, fd <$> h !! p = fds !! p.

Lemma holds_fds_lookup h p c : holds_fds h → h !! p = Some c → fds !! p = Some (fd c).
Proof. intros Hh E. by rewrite <- Hh, E. Qed.

Lemma holds_fds_Some h p : holds_fds h → is_Some (fds !! p) → ∃ c, h !! p = Some c.
Proof. intros Hh. rewrite <- Hh, fmap_is_Some. done. Qed.

Lemma holds_fds_insert h p c c' : holds_fds h → h !! p = Some c → fd c' = fd c → holds_fds (<[p := c']> h).
Proof.
intros Hh E Hf q. destruct (decide (p = q)) as [->|]; [|by rewrite lookup_insert_ne].
by rewrite lookup_insert_eq, <- Hh, E; cbn; rewrite Hf.
Qed.

Lemma holds_fds_new : holds_fds (new_channel <$> fds).
Proof. intros p. rewrite lookup_fmap. by destruct (fds !! p). Qed.

Lemma same_fd h p q c c' : holds_fds h → h !! p = Some c → h !! q = Some c' → fd c = fd c' → p = q.
Proof.
intros Hh E E' Hf. apply (d_inj _ Hd p q (fd c)); [by eapply holds_fds_lookup|].
rewrite Hf. by eapply holds_fds_lookup.
Qed.

Lemma fd_pos h p c : holds_fds h → h !! p = Some c → 0 ≤ fd c.
Proof. intros Hh E. eapply (d_pos _ Hd), holds_fds_lookup; done. Qed.

Lemma registered_bound (m : gmap ptr Z) :
  (∀ p, is_Some (m !! p) → is_Some (fds !! p)) → (size m ≤ size fds)%nat.
Proof.
intros H. rewrite <- !size_dom. apply subseteq_size. intros p. rewrite !elem_of_dom. apply H.
Qed.
End shared.

(** ** [PollPoller] *)

Module PollFacts.
Import Poll.

(** A channel that asked for no events does not ask for some again, and does not start
    with none. *)
Definition admits (s : registry) (r : request) : Prop :=
  match r with
  | Watch p ev => match regs s !! p with Some 0 | None => (ev ≠ 0) ↔ regs s !! p = None | Some _ => True end
  | Forget _ => True
  end.

(** The entry of a descriptor: the complement marks one that is ignored. *)
Definition entry (f ev : Z) (e : pollfd) : Prop :=
  pfd_fd e = (if ev =? 0 then - f - 1 else f) ∧ pfd_events e = ev.

Record ptracks (fds : gmap ptr Z) (s : registry) (h : store) (st : PollPoller) : Prop := {
  t_store : holds_fds fds h;
  t_reg p ev : regs s !! p = Some ev →
    ∃ c e, h !! p = Some c ∧ events c = ev ∧ 0 ≤ ev < 2 ^ 15 ∧ channels_ st !! fd c = Some p ∧
      0 ≤ index c ∧ pollfds_ st !! Z.to_nat (index c) = Some e ∧ entry (fd c) ev e;
  t_map f p : channels_ st !! f = Some p → is_Some (regs s !! p) ∧ fds !! p = Some f;
  t_entry i e : pollfds_ st !! i = Some e →
    ∃ p c, is_Some (regs s !! p) ∧ h !! p = Some c ∧ index c = Z.of_nat i;
  t_new p c : h !! p = Some c → regs s !! p = None → (p ∉ gone s) → index c = -1;
  t_len : length (pollfds_ st) = size (regs s);
}.

Section poll.
Context (fds : gmap ptr Z) (Hd : distinct fds).

Lemma entry_fd f f' ev ev' e : 0 ≤ f → 0 ≤ f' → entry f ev e → entry f' ev' e → f = f'.
Proof. unfold entry. intros ?? [E ->] [E' <-]. rewrite E in E'. destruct (ev =? 0); lia. Qed.

(** Two registered channels have different entries. *)
Lemma index_inj s h st p q c c' :
  ptracks fds s h st → is_Some (regs s !! p) → is_Some (regs s !! q) → h !! p = Some c → h !! q = Some c' →
  index c = index c' → p = q.
Proof.
intros H [ev Hp] [ev' Hq] Ep Eq Hi.
destruct (t_reg _ _ _ _ H p ev Hp) as (c1 & e & E1 & _ & _ & _ & _ & L1 & N1).
destruct (t_reg _ _ _ _ H q ev' Hq) as (c2 & e' & E2 & _ & _ & _ & _ & L2 & N2).
simplify_eq. rewrite Hi in L1. simplify_eq. pose proof (t_store _ _ _ _ H) as Hs.
eapply (same_fd fds Hd h p q c c'); [done..|].
by eapply entry_fd; [eapply (fd_pos fds Hd h); done..| |].
Qed.

Lemma registered_fds s h st p : ptracks fds s h st → is_Some (regs s !! p) → is_Some (fds !! p).
Proof.
intros H [ev Hp]. destruct (t_reg _ _ _ _ H p ev Hp) as (c & _ & E & _).
exists (fd c). eapply holds_fds_lookup; [apply (t_store _ _ _ _ H)|done].
Qed.

Lemma length_bound s h st : ptracks fds s h st → Z.of_nat (length (pollfds_ st)) < 2 ^ 31.
Proof.
intros H. pose proof (d_size _ Hd). rewrite (t_len _ _ _ _ H).
pose proof (registered_bound fds (regs s) (λ p, registered_fds s h st p H)). lia.
Qed.

Lemma s16_small z : 0 ≤ z < 2 ^ 15 → s16 z = z.
Proof. intros. unfold s16. apply swrap_small; lia. Qed.

Lemma poll_watch_new s h st p ev c :
  ptracks fds s h st → h !! p = Some c → regs s !! p = None → (p ∉ gone s) → 0 ≤ ev < 2 ^ 15 → ev ≠ 0 →
  ∃ h' st', updateChannel p (<[p := with_events ev c]> h) st = Ok (h', st') ∧
    ptracks fds (spec_step (Watch p ev) s) h' st'.
Proof.
intros H E Hr Hg Hev Hne. pose proof (t_store _ _ _ _ H) as Hs.
assert (Z.of_nat (S (length (pollfds_ st))) < 2 ^ 31) as Hlen.
{ pose proof (d_size _ Hd). rewrite (t_len _ _ _ _ H).
  rewrite <- (map_size_insert_None p ev (regs s)) by done.
  assert (size (<[p := ev]> (regs s)) ≤ size fds)%nat; [|lia].
  apply registered_bound. intros q. destruct (decide (p = q)) as [<-|Hpq].
  - intros _. exists (fd c). by eapply holds_fds_lookup.
  - rewrite lookup_insert_ne by done. by eapply registered_fds. }
assert (channels_ st !! fd c = None) as Hc.
{ destruct (channels_ st !! fd c) as [q|] eqn:Eq; [|done]. exfalso.
  destruct (t_map _ _ _ _ H _ _ Eq) as [[? Hq] Hf].
  assert (q = p) as -> by (eapply (d_inj _ Hd); [done|]; by eapply holds_fds_lookup). congruence. }
unfold updateChannel, deref. rewrite lookup_insert_eq. cbn [mbind res_bind with_events fd events index].
rewrite (t_new _ _ _ _ H p c E Hr Hg), Hc. cbn [Z.ltb Z.compare bool_decide assert_ mbind res_bind].
rewrite bool_decide_true by done. cbn [assert_ mbind res_bind]. rewrite s16_small by done.
rewrite length_app. cbn [length]. unfold s32. rewrite swrap_small by lia.
eexists _, _. split; [done|]. rewrite ?insert_insert_eq. set (c' := set_index _ _).
assert (fd c' = fd c) as Hf by done.
assert (index c' = Z.of_nat (length (pollfds_ st))) as Hi by (unfold c'; cbn; lia).
split; cbn [spec_step regs gone pollfds_ channels_].
- by eapply holds_fds_insert.
- intros q ev'. destruct (decide (p = q)) as [<-|Hpq].
  + rewrite !lookup_insert_eq. intros [= <-]. eexists c', _. rewrite Hf, !lookup_insert_eq, Hi.
    split_and!; try done; try lia; [by rewrite Nat2Z.id, list_lookup_middle|].
    split; [|done]. cbn. by rewrite (proj2 (Z.eqb_neq _ _)).
  + rewrite !lookup_insert_ne by done. intros Hq.
    destruct (t_reg _ _ _ _ H q ev' Hq) as (c1 & e & E1 & ? & ? & Hm & ? & L1 & N1).
    exists c1, e. split_and!; try done; try lia.
    * rewrite lookup_insert_ne; [done|]. intros Hff. apply Hpq. by eapply (same_fd fds Hd h).
    * rewrite lookup_app_l; [done|]. by eapply lookup_lt_Some.
- intros f q. destruct (decide (fd c = f)) as [<-|Hff].
  + rewrite lookup_insert_eq. intros [= <-]. split; [by rewrite lookup_insert_eq|]. by eapply holds_fds_lookup.
  + rewrite lookup_insert_ne by done. intros Hq. destruct (t_map _ _ _ _ H f q Hq) as [Hq1 Hq2].
    split; [|done]. destruct (decide (p = q)) as [<-|]; [by rewrite lookup_insert_eq|by rewrite lookup_insert_ne].
- intros i e. rewrite lookup_app_Some, list_lookup_singleton_Some. intros [Hie|(Hil & Hi0 & _)].
  + destruct (t_entry _ _ _ _ H i e Hie) as (q & cq & Hq & Eq & Hiq).
    assert (p ≠ q) as Hpq by (intros <-; destruct Hq; congruence).
    exists q, cq. by rewrite !lookup_insert_ne.
  + exists p, c'. rewrite !lookup_insert_eq. split_and!; [done|done|rewrite Hi; lia].
- intros q cq. destruct (decide (p = q)) as [<-|]; [by rewrite !lookup_insert_eq|].
  rewrite !lookup_insert_ne by done. apply (t_new _ _ _ _ H).
- rewrite length_app, map_size_insert_None, (t_len _ _ _ _ H) by done. cbn. lia.
Qed.

Lemma poll_watch_again s h st p ev old c :
  ptracks fds s h st → h !! p = Some c → regs s !! p = Some old → 0 ≤ ev < 2 ^ 15 → (old = 0 → ev = 0) →
  ∃ h' st', updateChannel p (<[p := with_events ev c]> h) st = Ok (h', st') ∧
    ptracks fds (spec_step (Watch p ev) s) h' st'.
Proof.
intros H E Hr Hev Hold. pose proof (t_store _ _ _ _ H) as Hs.
destruct (t_reg _ _ _ _ H p old Hr) as (c0 & e & E0 & Hevc & _ & Hm & Hix & Le & [Hf He]).
rewrite E in E0. injection E0 as <-. pose proof (length_bound s h st H) as Hb.
pose proof (lookup_lt_Some _ _ _ Le) as Hlt. pose proof (fd_pos fds Hd h p c Hs E) as Hfd.
unfold updateChannel, deref. rewrite lookup_insert_eq. cbn [mbind res_bind with_events fd events index].
rewrite (proj2 (Z.ltb_ge _ _)), Hm, bool_decide_true by (done || lia). cbn [assert_ mbind res_bind].
unfold s32. rewrite (proj2 (Z.leb_le 0 _)), swrap_small, (proj2 (Z.ltb_lt (index c) _)) by lia.
cbn [andb assert_ mbind res_bind]. rewrite Le.
assert (((pfd_fd e =? fd c) || (pfd_fd e =? - fd c - 1)) = true) as ->.
{ rewrite Hf. destruct (old =? 0); rewrite Z.eqb_refl; [apply orb_true_r|done]. }
cbn [assert_ mbind res_bind]. rewrite s16_small by done.
eexists _, _. split; [done|]. set (c' := with_events ev c). set (e' := mkpollfd _ _ _).
assert (entry (fd c) ev e') as He'.
{ split; [|done]. unfold e', channel_none. cbn. rewrite Hf.
  destruct (Z.eqb_spec ev 0); [done|]. rewrite (proj2 (Z.eqb_neq old 0)); [done|tauto]. }
split; cbn [spec_step regs gone pollfds_ channels_].
- by eapply holds_fds_insert.
- intros q ev'. destruct (decide (p = q)) as [<-|Hpq].
  + rewrite !lookup_insert_eq. intros [= <-]. exists c', e'. split_and!; try done; try lia.
    by rewrite list_lookup_insert_eq.
  + rewrite !lookup_insert_ne by done. intros Hq.
    destruct (t_reg _ _ _ _ H q ev' Hq) as (c1 & e1 & E1 & ? & ? & ? & ? & L1 & N1).
    exists c1, e1. split_and!; try done; try lia. rewrite list_lookup_insert_ne; [done|].
    intros Hi. apply Hpq. eapply (index_inj s h st p q c c1); try done. lia.
- intros f q Hq. destruct (t_map _ _ _ _ H f q Hq) as [? ?]. split; [|done].
  destruct (decide (p = q)) as [<-|]; [by rewrite lookup_insert_eq|by rewrite lookup_insert_ne].
- intros i e1 Hie. assert (is_Some (pollfds_ st !! i)) as [e2 Hi2].
  { apply lookup_lt_is_Some. apply lookup_lt_Some in Hie. by rewrite length_insert in Hie. }
  destruct (t_entry _ _ _ _ H i e2 Hi2) as (q & cq & Hq & Eq & Hiq). exists q.
  destruct (decide (p = q)) as [<-|]; [|exists cq; by rewrite !lookup_insert_ne].
  exists c'. rewrite !lookup_insert_eq. rewrite E in Eq. injection Eq as <-. by split_and!.
- intros q cq. destruct (decide (p = q)) as [<-|]; [by rewrite !lookup_insert_eq|].
  rewrite !lookup_insert_ne by done. apply (t_new _ _ _ _ H).
- by rewrite length_insert, (t_len _ _ _ _ H), map_size_insert_Some by done.
Qed.

(** *** Removal *)

Lemma pop_back_lookup {A} (l : list A) i : (i < length l - 1)%nat → pop_back l !! i = l !! i.
Proof. intros. unfold pop_back. by apply lookup_take_lt. Qed.

Lemma length_pop_back {A} (l : list A) : length (pop_back l) = (length l - 1)%nat.
Proof. unfold pop_back. rewrite length_take. lia. Qed.

(** What both branches of [removeChannel] leave: the entry of [p] is gone, the last one
    is in its place, and the channel of that one knows. *)
Definition moved (s : registry) (p : ptr) (c : channel) (h h' : store) (l l' : list pollfd) : Prop :=
  length l' = (length l - 1)%nat ∧
  (∀ i, (i < length l - 1)%nat →
     l' !! i = if decide (i = Z.to_nat (index c)) then l !! (length l - 1)%nat else l !! i) ∧
  holds_fds fds h' ∧
  (∀ q cq, q ≠ p → is_Some (regs s !! q) → h !! q = Some cq →
     h' !! q = Some (if decide (index cq = Z.of_nat (length l - 1)) then set_index (index c) cq else cq)) ∧
  (∀ q, q ≠ p → regs s !! q = None → h' !! q = h !! q).

Lemma moved_tracks s h h' st p c l' :
  ptracks fds s h st → h !! p = Some c → is_Some (regs s !! p) → moved s p c h h' (pollfds_ st) l' →
  ptracks fds (spec_step (Forget p) s) h' (mkPoll l' (delete (fd c) (channels_ st))).
Proof.
intros H E Hr (Hlen & Hlook & Hs' & Hreg & Hun). pose proof (t_store _ _ _ _ H) as Hs.
destruct Hr as [ev Hr]. destruct (t_reg _ _ _ _ H p ev Hr) as (c0 & e0 & E0 & _ & _ & _ & Hix & Le & _).
rewrite E in E0. injection E0 as <-. apply lookup_lt_Some in Le.
split; cbn [spec_step regs gone pollfds_ channels_]; [done|..].
- intros q ev'. rewrite lookup_delete_Some. intros [Hpq Hq].
  destruct (t_reg _ _ _ _ H q ev' Hq) as (c1 & e1 & E1 & Hev & ? & Hm & Hi1 & L1 & N1).
  assert (index c ≠ index c1) as Hne by (intros Hi; apply Hpq; by eapply (index_inj s h st)).
  eexists _, e1. split; [by apply Hreg|]. apply lookup_lt_Some in L1 as Hlt.
  assert (delete (fd c) (channels_ st) !! fd c1 = Some q) as Hdel.
  { rewrite lookup_delete_ne; [done|]. intros Hf. apply Hpq. by eapply (same_fd fds Hd h). }
  case_decide as Hlast; cbn [set_index events fd index]; split_and!; try done; try lia.
  + rewrite Hlook by lia. rewrite decide_True by done. by replace (length _ - 1)%nat with (Z.to_nat (index c1)) by lia.
  + rewrite Hlook by lia. by rewrite decide_False by lia.
- intros f q. rewrite lookup_delete_Some. intros [Hf Hq]. destruct (t_map _ _ _ _ H f q Hq) as [? Hfq].
  split; [|done]. rewrite lookup_delete_ne; [done|]. intros <-.
  apply (holds_fds_lookup fds) in E; [|done]. congruence.
- intros i e Hie. apply lookup_lt_Some in Hie as Hlt. rewrite Hlen in Hlt. rewrite Hlook in Hie by done.
  assert (∃ j, pollfds_ st !! j = Some e ∧ j ≠ Z.to_nat (index c) ∧
    i = if decide (j = length (pollfds_ st) - 1)%nat then Z.to_nat (index c) else j) as (j & Hj & Hjc & ->).
  { case_decide as Hi.
    - exists (length (pollfds_ st) - 1)%nat. rewrite decide_True by done. split_and!; [done|lia|done].
    - exists i. rewrite decide_False by lia. by split_and!. }
  destruct (t_entry _ _ _ _ H j e Hj) as (q & cq & Hq & Eq & Hiq).
  assert (q ≠ p) as Hqp by (intros ->; rewrite E in Eq; injection Eq as <-; lia).
  eexists q, _. rewrite lookup_delete_ne by done. split; [done|]. split; [by apply Hreg|].
  repeat case_decide; cbn [set_index index]; lia.
- intros q cq. destruct (decide (q = p)) as [->|Hqp]; [intros _ _ Hg; set_solver|].
  rewrite lookup_delete_ne by done. intros Eq Hq Hg. rewrite Hun in Eq by done.
  eapply (t_new _ _ _ _ H); [done|done|set_solver].
- rewrite Hlen, map_size_delete_Some, (t_len _ _ _ _ H) by done. lia.
Qed.

(** The channel of the last entry, found through its descriptor. *)
Lemma last_channel s h st back :
  ptracks fds s h st → pollfds_ st !! (length (pollfds_ st) - 1)%nat = Some back →
  ∃ q cq, is_Some (regs s !! q) ∧ h !! q = Some cq ∧ index cq = Z.of_nat (length (pollfds_ st) - 1) ∧
    channels_ st !! fd cq = Some q ∧
    (if pfd_fd back <? 0 then - pfd_fd back - 1 else pfd_fd back) = fd cq.
Proof.
intros H Hb. destruct (t_entry _ _ _ _ H _ _ Hb) as (q & cq & [ev Hq] & Eq & Hiq).
destruct (t_reg _ _ _ _ H q ev Hq) as (c & e & E & _ & _ & Hm & _ & Le & [Hf _]).
rewrite Eq in E. injection E as <-. rewrite Hiq, Nat2Z.id, Hb in Le. injection Le as <-.
exists q, cq. split_and!; try done. rewrite Hf.
pose proof (fd_pos fds Hd h q cq (t_store _ _ _ _ H) Eq).
destruct (ev =? 0); [rewrite (proj2 (Z.ltb_lt _ _)) by lia|rewrite (proj2 (Z.ltb_ge _ _)) by lia]; lia.
Qed.

Lemma poll_forget s h st p :
  ptracks fds s h st → regs s !! p = Some 0 →
  ∃ h' st', removeChannel p h st = Ok (h', st') ∧ ptracks fds (spec_step (Forget p) s) h' st'.
Proof.
intros H Hr. destruct (t_reg _ _ _ _ H p 0 Hr) as (c & e & E & Hev & _ & Hm & Hix & Le & [Hf He]).
pose proof (t_store _ _ _ _ H) as Hs. pose proof (length_bound s h st H) as Hb.
apply lookup_lt_Some in Le as Hlt.
assert (is_Some (pollfds_ st !! (length (pollfds_ st) - 1)%nat)) as [back Hback]
  by (apply lookup_lt_is_Some; lia).
unfold removeChannel, deref, channel_none. rewrite E. cbn [mbind res_bind].
rewrite Hm, Hev, bool_decide_true by done. cbn [Z.eqb assert_ mbind res_bind].
unfold s32. rewrite (proj2 (Z.leb_le 0 _)), swrap_small, (proj2 (Z.ltb_lt (index c) _)) by lia.
cbn [andb assert_ mbind res_bind]. rewrite Le, Hback, Hf, He. cbn [Z.eqb]. rewrite Z.eqb_refl.
cbn [andb assert_ mbind res_bind].
destruct (Nat.eqb_spec (Z.to_nat (index c)) (length (pollfds_ st) - 1)) as [Hl|Hl].
- eexists _, _. split; [done|]. apply (moved_tracks s h h st); [done|done|by eexists|].
  split_and!; [apply length_pop_back| |done| |done].
  + intros i Hi. rewrite decide_False by lia. by apply pop_back_lookup.
  + intros q cq Hqp Hq Eq. rewrite decide_False; [done|]. intros Hi. apply Hqp.
    by eapply (index_inj s h st q p cq c); try done; lia.
- destruct (last_channel s h st back H Hback) as (q & cq & Hq & Eq & Hiq & Hmq & ->).
  assert (q ≠ p) as Hqp by (intros ->; rewrite E in Eq; injection Eq as <-; lia).
  rewrite lookup_delete_ne, Hmq by (intros Hff; apply Hqp; by eapply (same_fd fds Hd h)).
  rewrite Eq. cbn [mbind res_bind]. eexists _, _. split; [done|].
  apply (moved_tracks s h _ st); [done|done|by eexists|].
  split_and!.
  + by rewrite length_pop_back, !length_insert.
  + intros i Hi. rewrite pop_back_lookup by (rewrite !length_insert; lia).
    rewrite list_lookup_insert_ne by lia. case_decide as Hd'.
    * subst i. by rewrite list_lookup_insert_eq, Hback by lia.
    * by rewrite list_lookup_insert_ne.
  + by eapply holds_fds_insert.
  + intros r cr Hrp Hrr Er. destruct (decide (q = r)) as [<-|Hqr].
    * rewrite lookup_insert_eq. rewrite Eq in Er. injection Er as <-. by rewrite decide_True.
    * rewrite lookup_insert_ne, Er by done. rewrite decide_False; [done|]. intros Hi. apply Hqr.
      eapply (index_inj s h st q r); try done. congruence.
  + intros r _ Hrr. rewrite lookup_insert_ne; [done|]. intros <-. destruct Hq. congruence.
Qed.
End poll.

Lemma poll_start fds : distinct fds → ptracks fds reg0 (new_channel <$> fds) PollPoller_ctor.
Proof.
intros Hd. split; cbn; try done; [apply holds_fds_new|].
intros p c. rewrite lookup_fmap. destruct (fds !! p); cbn; [|done]. by intros [= <-].
Qed.

Lemma poll_step fds s h st r :
  distinct fds → ptracks fds s h st → legal fds s r → admits s r →
  ∃ h' st', run_request r h st = Ok (h', st') ∧ ptracks fds (spec_step r s) h' st'.
Proof.
intros Hd H Hl Ha. destruct r as [p ev|p]; cbn [run_request]; [|by apply poll_forget].
destruct Hl as (Hf & Hg & Hev). destruct (holds_fds_Some fds h p (t_store _ _ _ _ H) Hf) as [c E].
unfold deref. rewrite E. cbn [mbind res_bind]. cbn in Ha. destruct (regs s !! p) as [old|] eqn:Hr.
- eapply poll_watch_again; try done. intros ->. destruct (decide (ev = 0)); [done|]. by apply Ha in n.
- eapply poll_watch_new; try done. by apply Ha.
Qed.

Lemma poll_watched fds s h st f ev :
  distinct fds → ptracks fds s h st → watches st f ev ↔ spec_watches fds s f ev.
Proof.
intros Hd H. split.
- intros (Hne & i & e & Hi & Hf & Hpos & Hev). split; [done|].
  destruct (t_entry _ _ _ _ H i e Hi) as (p & c & [ev' Hr] & E & Hix).
  destruct (t_reg _ _ _ _ H p ev' Hr) as (c' & e' & E' & _ & _ & _ & _ & Le & [Hf' He']).
  rewrite E in E'. injection E' as <-. rewrite Hix, Nat2Z.id, Hi in Le. injection Le as <-.
  rewrite Hev in He'. subst ev'. rewrite (proj2 (Z.eqb_neq ev 0)) in Hf' by done.
  exists p. split; [done|]. rewrite <- Hf, Hf'. eapply holds_fds_lookup; [apply (t_store _ _ _ _ H)|done].
- intros (Hne & p & Hr & Hf). split; [done|].
  destruct (t_reg _ _ _ _ H p ev Hr) as (c & e & E & _ & _ & _ & _ & Le & [Hfe He]).
  pose proof (holds_fds_lookup fds h p c (t_store _ _ _ _ H) E) as Hfc. rewrite Hf in Hfc. injection Hfc as ->.
  eexists _, e. split_and!; [done| |by eapply (d_pos _ Hd)|done].
  by rewrite Hfe, (proj2 (Z.eqb_neq ev 0)).
Qed.

#[export] Instance poll_laws : PollerLaws PollPoller PollPoller_ctor admits := {|
  tracks := ptracks; tracks_start := poll_start; tracks_step := poll_step; tracks_watches := poll_watched |}.
End PollFacts.

(** ** [EPollPoller] *)

Module EPollFacts.
Import EPoll.

Record etracks (fds : gmap ptr Z) (s : registry) (h : store) (st : EPollPoller) : Prop := {
  e_store : holds_fds fds h;
  e_reg p ev : regs s !! p = Some ev →
    ∃ c, h !! p = Some c ∧ events c = ev ∧ channels_ st !! fd c = Some p ∧
      (index c = kAdded ∧ interest st !! fd c = Some (ev, p) ∨
       index c = kDeleted ∧ interest st !! fd c = None ∧ ev = 0);
  e_map f p : channels_ st !! f = Some p → is_Some (regs s !! p) ∧ fds !! p = Some f;
  e_interest f ev p : interest st !! f = Some (ev, p) → regs s !! p = Some ev ∧ fds !! p = Some f;
  e_new p c : h !! p = Some c → regs s !! p = None → index c = kNew;
}.

Section epoll.
Context (fds : gmap ptr Z) (Hd : distinct fds).

(** A registered channel after a change of its events, its number and its place in the
    interest list. *)
Lemma etracks_watch s h st p c ev i il :
  etracks fds s h st → h !! p = Some c →
  (i = kAdded ∧ il = <[fd c := (ev, p)]> (interest st) ∨
   i = kDeleted ∧ ev = 0 ∧ il = delete (fd c) (interest st)) →
  etracks fds (spec_step (Watch p ev) s) (<[p := set_index i (with_events ev c)]> h)
    (mkEPoll (nevents_ st) (<[fd c := p]> (channels_ st)) il).
Proof.
intros H E Hil. pose proof (e_store _ _ _ _ H) as Hs.
assert (∀ f, f ≠ fd c → il !! f = interest st !! f) as Hother.
{ intros f Hf. destruct Hil as [(_ & ->)|(_ & _ & ->)]; [by rewrite lookup_insert_ne|by rewrite lookup_delete_ne]. }
split; cbn [spec_step regs gone channels_ interest].
- by eapply holds_fds_insert.
- intros q ev'. destruct (decide (p = q)) as [<-|Hpq].
  + rewrite !lookup_insert_eq. intros [= <-]. eexists. split; [done|]. cbn [fd events set_index with_events index].
    rewrite lookup_insert_eq. split_and!; try done.
    destruct Hil as [(-> & ->)|(-> & -> & ->)]; [left|right]; by rewrite ?lookup_insert_eq, ?lookup_delete_eq.
  + rewrite !lookup_insert_ne by done. intros Hq. destruct (e_reg _ _ _ _ H q ev' Hq) as (cq & Eq & ? & ? & ?).
    assert (fd cq ≠ fd c) by (intros Hf; apply Hpq; by eapply (same_fd fds Hd h)).
    exists cq. rewrite lookup_insert_ne, Hother by done. by split_and!.
- intros f q. destruct (decide (fd c = f)) as [<-|Hf].
  + rewrite lookup_insert_eq. intros [= <-]. split; [by rewrite lookup_insert_eq|]. by eapply holds_fds_lookup.
  + rewrite lookup_insert_ne by done. intros Hq. destruct (e_map _ _ _ _ H f q Hq). split; [|done].
    destruct (decide (p = q)) as [<-|]; [by rewrite lookup_insert_eq|by rewrite lookup_insert_ne].
- intros f ev' q Hi. destruct (decide (f = fd c)) as [->|Hf].
  + destruct Hil as [(-> & ->)|(-> & -> & ->)]; [|by rewrite lookup_delete_eq in Hi].
    rewrite lookup_insert_eq in Hi. injection Hi as <- <-. rewrite lookup_insert_eq. split; [done|].
    by eapply holds_fds_lookup.
  + rewrite Hother in Hi by done. destruct (e_interest _ _ _ _ H f ev' q Hi) as [? Hq]. split; [|done].
    rewrite lookup_insert_ne; [done|]. intros <-. apply Hf.
    apply (holds_fds_lookup fds) in E; [|done]. congruence.
- intros q cq. destruct (decide (p = q)) as [<-|]; [by rewrite !lookup_insert_eq|].
  rewrite !lookup_insert_ne by done. apply (e_new _ _ _ _ H).
Qed.

Lemma unregistered_free s h st p c :
  etracks fds s h st → h !! p = Some c → regs s !! p = None →
  channels_ st !! fd c = None ∧ interest st !! fd c = None.
Proof.
intros H E Hr. pose proof (holds_fds_lookup fds h p c (e_store _ _ _ _ H) E) as Hf. split.
- destruct (channels_ st !! fd c) as [q|] eqn:Eq; [|done]. exfalso.
  destruct (e_map _ _ _ _ H _ _ Eq) as [[? Hq] Hfq]. assert (q = p) as -> by (by eapply (d_inj _ Hd)). congruence.
- destruct (interest st !! fd c) as [[ev q]|] eqn:Eq; [|done]. exfalso.
  destruct (e_interest _ _ _ _ H _ _ _ Eq) as [Hq Hfq]. assert (q = p) as -> by (by eapply (d_inj _ Hd)). congruence.
Qed.

Lemma epoll_watch s h st p ev c :
  etracks fds s h st → h !! p = Some c →
  ∃ h' st', updateChannel p (<[p := with_events ev c]> h) st = Ok (h', st') ∧
    etracks fds (spec_step (Watch p ev) s) h' st'.
Proof.
intros H E. unfold updateChannel, update, deref, channel_none. rewrite lookup_insert_eq.
cbn [mbind res_bind with_events fd events index].
destruct (regs s !! p) as [old|] eqn:Hr.
- destruct (e_reg _ _ _ _ H p old Hr) as (c' & E' & _ & Hm & Hi). rewrite E in E'. injection E' as <-.
  rewrite Hm, (bool_decide_true (Some p = Some p)) by done.
  destruct Hi as [[Hi Hint]|(Hi & Hint & _)]; rewrite Hi; cbn [Z.eqb kAdded kDeleted kNew orb Pos.eqb assert_ mbind res_bind].
  + rewrite ?insert_insert_eq. destruct (Z.eqb_spec ev 0) as [->|Hev]; cbn [mbind res_bind]; rewrite ?lookup_insert_eq;
      cbn [mbind res_bind with_events fd events epoll_ctl]; rewrite Hint; cbn [default].
    * eexists _, _. split; [done|]. rewrite ?insert_insert_eq. rewrite <- (insert_id (channels_ st) (fd c) p Hm) at 1.
      apply etracks_watch; [done|done|by right].
    * eexists _, _. split; [done|]. rewrite <- (insert_id (channels_ st) (fd c) p Hm) at 1.
      replace (with_events ev c) with (set_index kAdded (with_events ev c)) by (unfold set_index; cbn; by rewrite <- Hi).
      apply etracks_watch; [done|done|by left].
  + rewrite ?lookup_insert_eq. cbn [mbind res_bind set_index with_events fd events epoll_ctl]. rewrite Hint.
    eexists _, _. split; [done|]. rewrite ?insert_insert_eq. rewrite <- (insert_id (channels_ st) (fd c) p Hm) at 1.
    apply etracks_watch; [done|done|by left].
- destruct (unregistered_free s h st p c H E Hr) as [Hm Hint].
  rewrite (e_new _ _ _ _ H p c E Hr), Hm, bool_decide_true by done.
  cbn [Z.eqb kNew orb Pos.eqb assert_ mbind res_bind]. rewrite ?lookup_insert_eq.
  cbn [mbind res_bind set_index with_events fd events epoll_ctl set_channels nevents_ channels_ interest].
  rewrite Hint. eexists _, _. split; [done|]. rewrite ?insert_insert_eq. apply etracks_watch; [done|done|by left].
Qed.

Lemma epoll_forget s h st p :
  etracks fds s h st → regs s !! p = Some 0 →
  ∃ h' st', removeChannel p h st = Ok (h', st') ∧ etracks fds (spec_step (Forget p) s) h' st'.
Proof.
intros H Hr. destruct (e_reg _ _ _ _ H p 0 Hr) as (c & E & Hev & Hm & Hi).
pose proof (e_store _ _ _ _ H) as Hs.
assert (etracks fds (spec_step (Forget p) s) (<[p := set_index kNew c]> h)
  (mkEPoll (nevents_ st) (delete (fd c) (channels_ st)) (delete (fd c) (interest st)))) as Ht.
{ split; cbn [spec_step regs gone channels_ interest].
  - by eapply holds_fds_insert.
  - intros q ev. rewrite lookup_delete_Some. intros [Hpq Hq].
    destruct (e_reg _ _ _ _ H q ev Hq) as (cq & Eq & ? & ? & ?).
    assert (fd c ≠ fd cq) by (intros Hf; apply Hpq; by eapply (same_fd fds Hd h)).
    exists cq. by rewrite lookup_insert_ne, !lookup_delete_ne.
  - intros f q. rewrite lookup_delete_Some. intros [Hf Hq]. destruct (e_map _ _ _ _ H f q Hq). split; [|done].
    rewrite lookup_delete_ne; [done|]. intros <-. apply (holds_fds_lookup fds) in E; [|done]. congruence.
  - intros f ev q. rewrite lookup_delete_Some. intros [Hf Hq]. destruct (e_interest _ _ _ _ H f ev q Hq).
    split; [|done]. rewrite lookup_delete_ne; [done|]. intros <-. apply (holds_fds_lookup fds) in E; [|done]. congruence.
  - intros q cq. destruct (decide (p = q)) as [<-|]; [rewrite lookup_insert_eq; by intros [= <-]|].
    rewrite lookup_insert_ne, lookup_delete_ne by done. apply (e_new _ _ _ _ H). }
unfold removeChannel, update, deref, channel_none. rewrite E. cbn [mbind res_bind].
rewrite Hm, Hev, bool_decide_true by done. cbn [Z.eqb assert_ mbind res_bind].
destruct Hi as [[Hi Hint]|(Hi & Hint & _)]; rewrite Hi; cbn [Z.eqb kAdded kDeleted orb Pos.eqb assert_ mbind res_bind].
- cbn [set_channels interest nevents_ channels_ epoll_ctl]. rewrite Hint. by eexists _, _.
- eexists _, _. split; [done|]. unfold set_channels. by rewrite <- (delete_id (interest st) (fd c) Hint).
Qed.
End epoll.

Lemma epoll_start fds : distinct fds → etracks fds reg0 (new_channel <$> fds) EPollPoller_ctor.
Proof.
intros Hd. split; cbn; try done; [apply holds_fds_new|].
intros p c. rewrite lookup_fmap. destruct (fds !! p); cbn; [|done]. by intros [= <-].
Qed.

Lemma epoll_step fds s h st r :
  distinct fds → etracks fds s h st → legal fds s r → True →
  ∃ h' st', run_request r h st = Ok (h', st') ∧ etracks fds (spec_step r s) h' st'.
Proof.
intros Hd H Hl _. destruct r as [p ev|p]; cbn [run_request]; [|by apply epoll_forget].
destruct Hl as (Hf & _ & _). destruct (holds_fds_Some fds h p (e_store _ _ _ _ H) Hf) as [c E].
unfold deref. rewrite E. by apply epoll_watch.
Qed.

Lemma epoll_watched fds s h st f ev :
  distinct fds → etracks fds s h st → watches st f ev ↔ spec_watches fds s f ev.
Proof.
intros Hd H. split.
- intros (Hne & p & Hi). split; [done|]. exists p. by apply (e_interest _ _ _ _ H).
- intros (Hne & p & Hr & Hf). split; [done|]. exists p.
  destruct (e_reg _ _ _ _ H p ev Hr) as (c & E & _ & _ & Hi).
  pose proof (holds_fds_lookup fds h p c (e_store _ _ _ _ H) E) as Hfc. rewrite Hf in Hfc. injection Hfc as ->.
  by destruct Hi as [[_ ?]|(_ & _ & ?)].
Qed.

#[export] Instance epoll_laws : PollerLaws EPollPoller EPollPoller_ctor (λ _ _, True) := {|
  tracks := etracks; tracks_start := epoll_start; tracks_step := epoll_step; tracks_watches := epoll_watched |}.
End EPollFacts.

#[export] Existing Instance PollFacts.poll_laws.
#[export] Existing Instance EPollFacts.epoll_laws.

(** ** Theorems *)

(** C17: The epoll-based poller watches exactly what the channels asked for.  Whatever
    legal sequence of requests the channels make (enable, disable, disable everything,
    enable again, remove, in any interleaving), every request succeeds and the kernel
    watches a descriptor for some events iff it belongs to a registered channel whose
    last request was for those events. *)
Theorem epoll_watches_requested fds rs :
  distinct fds → orderly fds (λ _ _, True) reg0 rs →
  ∃ h st, run_requests rs (new_channel <$> fds) EPoll.EPollPoller_ctor = Ok (h, st) ∧
    ∀ f ev, watches st f ev ↔ spec_watches fds (spec_steps rs reg0) f ev.
Proof. apply poller_watches. Qed.

Lemma orderly_weaken fds (a b : registry → request → Prop) s rs :
  (∀ s r, a s r → b s r) → orderly fds a s rs → orderly fds b s rs.
Proof.
intros Hab. revert s. induction rs as [|r rs IH]; intros s; [done|]. intros (? & ? & ?). split_and!; auto.
Qed.

(** C18: The two pollers are interchangeable for callers whose first request on a channel
    is for some events and who never ask for events again on a channel that asked for
    none: the same requests succeed on both, and both watch the same descriptors for the
    same events. *)
Theorem pollers_agree fds rs :
  distinct fds → orderly fds PollFacts.admits reg0 rs →
  ∃ h st h' st', run_requests rs (new_channel <$> fds) Poll.PollPoller_ctor = Ok (h, st) ∧
    run_requests rs (new_channel <$> fds) EPoll.EPollPoller_ctor = Ok (h', st') ∧
    ∀ f ev, watches st f ev ↔ watches st' f ev.
Proof.
intros Hd Ho. destruct (poller_watches (start := Poll.PollPoller_ctor) fds rs Hd Ho) as (h & st & E & Hw).
destruct (poller_watches (start := EPoll.EPollPoller_ctor) fds rs Hd) as (h' & st' & E' & Hw').
{ by eapply orderly_weaken; [|exact Ho]. }
exists h, st, h', st'. split_and!; [done|done|]. intros f ev. by rewrite Hw, Hw'.
Qed.

(** *** A channel that resumes *)

Section resume.
Import Poll.

(** The entry of [p] is ignored and no other one has its descriptor. *)
Definition ignored (p : ptr) (f : Z) (h : store) (st : PollPoller) : Prop :=
  0 ≤ f ∧ Z.of_nat (length (pollfds_ st)) < 2 ^ 31 ∧
  ∃ c e, h !! p = Some c ∧ fd c = f ∧ channels_ st !! f = Some p ∧ 0 ≤ index c ∧
    pollfds_ st !! Z.to_nat (index c) = Some e ∧ pfd_fd e = - f - 1 ∧
    ∀ j e', pollfds_ st !! j = Some e' → pfd_fd e' ≠ f.

Lemma ignored_step p f ev h st :
  ignored p f h st → ∃ h' st', run_request (Watch p ev) h st = Ok (h', st') ∧ ignored p f h' st'.
Proof.
intros (Hf & Hlen & c & e & E & <- & Hm & Hi & Le & He & Hno). apply lookup_lt_Some in Le as Hlt.
cbn [run_request]. unfold deref. rewrite E. cbn [mbind res_bind].
unfold Poller.updateChannel, poll_ops, Poll.updateChannel, deref. rewrite lookup_insert_eq. cbn [mbind res_bind with_events fd events index].
rewrite (proj2 (Z.ltb_ge _ _)), Hm, bool_decide_true by (done || lia). cbn [assert_ mbind res_bind].
unfold s32. rewrite (proj2 (Z.leb_le 0 _)), swrap_small, (proj2 (Z.ltb_lt (index c) _)) by lia.
cbn [andb assert_ mbind res_bind]. rewrite Le, He, Z.eqb_refl, orb_true_r. cbn [assert_ mbind res_bind].
eexists _, _. split; [done|]. set (e1 := mkpollfd _ _ _).
assert (pfd_fd e1 = - fd c - 1) as He1 by (unfold e1; cbn; by case_match).
split_and!; [done|by cbn [pollfds_]; rewrite length_insert|]. exists (with_events ev c), e1.
split_and!; cbn [pollfds_ channels_]; try done.
- by rewrite lookup_insert_eq.
- by apply list_lookup_insert_eq.
- intros j e'. rewrite list_lookup_insert_Some. intros [(_ & <- & _)|[_ Hj]]; [lia|by eapply Hno].
Qed.

Lemma ignored_steps p f evs h st :
  ignored p f h st → ∃ h' st', run_requests (Watch p <$> evs) h st = Ok (h', st') ∧ ignored p f h' st'.
Proof.
revert h st. induction evs as [|ev evs IH]; intros h st H; cbn [fmap list_fmap run_requests]; [by eexists _, _|].
destruct (ignored_step p f ev h st H) as (h1 & st1 & -> & H1). cbn [mbind res_bind]. by apply IH.
Qed.

Lemma quiet_ignored fds s h st p f :
  distinct fds → PollFacts.ptracks fds s h st → regs s !! p = Some 0 → fds !! p = Some f → ignored p f h st.
Proof.
intros Hd H Hr Hf. destruct (PollFacts.t_reg _ _ _ _ H p 0 Hr) as (c & e & E & _ & _ & Hm & Hi & Le & [He _]).
pose proof (holds_fds_lookup fds h p c (PollFacts.t_store _ _ _ _ H) E) as Hfc.
rewrite Hf in Hfc. injection Hfc as ->. split_and!; [by eapply (d_pos _ Hd)|by eapply PollFacts.length_bound|].
exists c, e. split_and!; try done. intros j e' Hj Hfe.
destruct (PollFacts.t_entry _ _ _ _ H j e' Hj) as (q & cq & [ev Hq] & Eq & Hjq).
destruct (PollFacts.t_reg _ _ _ _ H q ev Hq) as (cq' & e2 & Eq' & _ & _ & _ & _ & Lq & [Heq _]).
rewrite Eq in Eq'. injection Eq' as <-. rewrite Hjq, Nat2Z.id, Hj in Lq. injection Lq as <-.
pose proof (fd_pos fds Hd h p c (PollFacts.t_store _ _ _ _ H) E).
pose proof (fd_pos fds Hd h q cq (PollFacts.t_store _ _ _ _ H) Eq). rewrite Heq in Hfe.
destruct (Z.eqb_spec ev 0); [lia|].
assert (q = p) as -> by (by eapply (same_fd fds Hd h); [apply (PollFacts.t_store _ _ _ _ H)|..]). congruence.
Qed.

Lemma run_requests_app {P} `{PollerOps P} rs rs' h (st : P) :
  run_requests (rs ++ rs') h st = '(h, st) ← run_requests rs h st; run_requests rs' h st.
Proof.
revert h st. induction rs as [|r rs IH]; intros h st; [done|]. cbn [app run_requests].
destruct (run_request r h st) as [[h1 st1]|]; [apply IH|done].
Qed.

(** With [PollPoller] a channel that asked for no events is lost.  After any orderly
    sequence of requests that leaves a channel registered for nothing, every later
    request for events on it succeeds and has no effect: its descriptor is never
    watched again, where the epoll-based poller watches it. *)
Theorem poll_resume_lost fds rs p f evs :
  distinct fds → orderly fds PollFacts.admits reg0 rs →
  regs (spec_steps rs reg0) !! p = Some 0 → fds !! p = Some f →
  ∃ h st, run_requests (rs ++ (Watch p <$> evs)) (new_channel <$> fds) PollPoller_ctor = Ok (h, st) ∧
    ∀ ev, ¬ watches st f ev.
Proof.
intros Hd Ho Hr Hf.
destruct (tracks_steps (HL := PollFacts.poll_laws) fds rs reg0 _ _ Hd (tracks_start fds Hd) Ho) as (h & st & E & Ht).
destruct (ignored_steps p f evs h st) as (h' & st' & E' & (_ & _ & c & e & _ & _ & _ & _ & _ & _ & Hno)).
{ by eapply quiet_ignored. }
exists h', st'. rewrite run_requests_app, E. split; [done|]. intros ev (_ & i & e' & Hi & Hfe & _). by eapply Hno.
Qed.
End resume.

(** *** Examples *)

Definition demo_fds : gmap ptr Z := <[1%nat := 5]> (<[2%nat := 7]> ∅).

Lemma demo_distinct : distinct demo_fds.
Proof.
unfold demo_fds. split; [| |vm_compute; done].
- intros p q f. rewrite !lookup_insert_Some, !lookup_empty. intuition (congruence || lia).
- intros p f. rewrite !lookup_insert_Some, lookup_empty. intuition (congruence || lia).
Qed.

(** Two connections; the first one closes. *)
Definition demo_requests : list request :=
  [Watch 1 3; Watch 2 3; Watch 2 7; Watch 1 0; Forget 1; Watch 2 4].

Ltac orderly_tac :=
  repeat match goal with
  | |- _ ∧ _ => split
  | |- True => exact I
  | |- is_Some _ => by eexists
  | |- _ ∉ _ => vm_compute; by intros []
  | |- _ = _ => reflexivity
  | |- _ => lia
  end.

Lemma demo_orderly : orderly demo_fds PollFacts.admits reg0 demo_requests.
Proof. cbn. orderly_tac; try done; set_solver. Qed.

Lemma pollers_agree_witness :
  ∃ h st h' st', run_requests demo_requests (new_channel <$> demo_fds) Poll.PollPoller_ctor = Ok (h, st) ∧
    run_requests demo_requests (new_channel <$> demo_fds) EPoll.EPollPoller_ctor = Ok (h', st') ∧
    ∀ f ev, watches st f ev ↔ watches st' f ev.
Proof. exact (pollers_agree demo_fds demo_requests demo_distinct demo_orderly). Defined.

(** A channel whose first request is for no events, as that of an acceptor destroyed before
    it listens: [PollPoller] appends the descriptor itself instead of its complement, and
    the assertion of its [removeChannel] fails; [EPollPoller] accepts both requests. *)
Example first_request_empty :
  orderly demo_fds (λ _ _, True) reg0 [Watch 1 0; Forget 1] ∧
  run_requests [Watch 1 0; Forget 1] (new_channel <$> demo_fds) Poll.PollPoller_ctor = Fault AssertFail ∧
  ∃ r, run_requests [Watch 1 0; Forget 1] (new_channel <$> demo_fds) EPoll.EPollPoller_ctor = Ok r.
Proof.
split_and!; [cbn; orderly_tac; try done; set_solver|vm_compute; reflexivity|].
eexists. vm_compute. reflexivity.
Qed.

(** The first connection stops reading and starts again. *)
Definition resume_requests : list request := [Watch 1 3; Watch 1 0; Watch 1 3].

Lemma epoll_watches_requested_witness :
  spec_watches demo_fds (spec_steps resume_requests reg0) 5 3 ∧
  ∃ h st, run_requests resume_requests (new_channel <$> demo_fds) EPoll.EPollPoller_ctor = Ok (h, st) ∧
    ∀ f ev, watches st f ev ↔ spec_watches demo_fds (spec_steps resume_requests reg0) f ev.
Proof.
split; [split; [lia|by exists 1%nat]|].
apply (epoll_watches_requested demo_fds resume_requests demo_distinct). cbn. orderly_tac; try done; set_solver.
Defined.

Lemma poll_resume_lost_witness :
  ∃ h st, run_requests ([Watch 1 3; Watch 1 0] ++ (Watch 1 <$> [3])) (new_channel <$> demo_fds)
            Poll.PollPoller_ctor = Ok (h, st) ∧ ∀ ev, ¬ watches st 5 ev.
Proof.
apply (poll_resume_lost demo_fds [Watch 1 3; Watch 1 0] 1 5 [3] demo_distinct); [|reflexivity..].
cbn. orderly_tac; try done; set_solver.
Defined.

(** ** Reporting *)

Section reports.
Import Poll.

(** The channels of the entries that are ready. *)
Definition ready (chs : ChannelMap) (es : list pollfd) : list ptr :=
  omap (λ e, if 0 <? pfd_revents e then chs !! pfd_fd e else None) es.

Definition nready (rs : list Z) : Z := Z.of_nat (length (filter (λ r, 0 < r) rs)).

Lemma nready_cons r rs : nready (r :: rs) = (if 0 <? r then 1 else 0) + nready rs.
Proof.
unfold nready. rewrite filter_cons. destruct (Z.ltb_spec 0 r); [rewrite decide_True by done|rewrite decide_False by lia];
  cbn [length]; lia.
Qed.

Lemma nready_0 chs es : nready (pfd_revents <$> es) = 0 → ready chs es = [].
Proof.
induction es as [|e es IH]; [done|]. cbn [fmap list_fmap]. rewrite nready_cons. intros H.
assert (0 ≤ nready (pfd_revents <$> es)) by (unfold nready; lia).
unfold ready. cbn. destruct (0 <? pfd_revents e); [lia|]. apply IH. lia.
Qed.

(** The entry of a channel that is ready, if there is one. *)
Definition reported (chs : ChannelMap) (es : list pollfd) (q : ptr) (r : Z) : Prop :=
  ∃ e, e ∈ es ∧ 0 < pfd_revents e ∧ chs !! pfd_fd e = Some q ∧ r = pfd_revents e.

Lemma elem_of_ready chs es q : q ∈ ready chs es ↔ ∃ r, reported chs es q r.
Proof.
unfold ready, reported. rewrite list_elem_of_omap. split.
- intros (e & He & E). destruct (Z.ltb_spec 0 (pfd_revents e)); [|done]. by eexists _, e.
- intros (r & e & He & Hr & E & _). exists e. by rewrite (proj2 (Z.ltb_lt _ _)).
Qed.

Lemma fill_ok es chs h :
  (∀ e, e ∈ es → 0 < pfd_revents e → ∃ q c, chs !! pfd_fd e = Some q ∧ h !! q = Some c ∧ fd c = pfd_fd e) →
  ∃ h', fillActiveChannels es chs (nready (pfd_revents <$> es)) h = Ok (h', ready chs es) ∧
    ∀ q, h' !! q = h !! q ∧ (q ∉ ready chs es) ∨
         ∃ c r, h !! q = Some c ∧ h' !! q = Some (set_revents r c) ∧ reported chs es q r.
Proof.
revert h. induction es as [|e es IH]; intros h Hes.
{ exists h. split; [done|]. intros q. left. split; [done|]. apply not_elem_of_nil. }
assert (0 ≤ nready (pfd_revents <$> es)) as Hpos by (unfold nready; lia).
cbn [fillActiveChannels fmap list_fmap]. rewrite nready_cons.
destruct (Z.ltb_spec 0 (pfd_revents e)) as [Hr|Hr].
- destruct (Hes e) as (q & c & Hq & Hc & Hf); [by left|done|].
  rewrite (proj2 (Z.ltb_lt 0 (1 + _))) by lia. rewrite Hq. unfold deref. rewrite Hc. cbn [mbind res_bind].
  rewrite Hf, Z.eqb_refl. cbn [assert_ mbind res_bind]. rewrite Z.add_simpl_l.
  destruct (IH (<[q := set_revents (pfd_revents e) c]> h)) as (h' & -> & Hh').
  { intros e' He' Hr'. destruct (Hes e') as (q' & c' & Hq' & Hc' & Hf'); [by right|done|].
    destruct (decide (q = q')) as [<-|Hne].
    - exists q, (set_revents (pfd_revents e) c). rewrite lookup_insert_eq. split_and!; [done|done|].
      cbn. congruence.
    - exists q', c'. by rewrite lookup_insert_ne. }
  assert (ready chs (e :: es) = q :: ready chs es) as Hre by (unfold ready; cbn; by rewrite (proj2 (Z.ltb_lt _ _)), Hq).
  rewrite Hre. cbn [mbind res_bind]. exists h'. split; [done|]. intros q'.
  assert (∀ r, reported chs es q' r → reported chs (e :: es) q' r) as Hmon.
  { intros r (e' & ? & ?). exists e'. split; [by right|done]. }
  destruct (decide (q' = q)) as [->|Hne].
  + right. exists c. destruct (Hh' q) as [[E _]|(c' & r & E & E' & Hrep)]; rewrite lookup_insert_eq in E.
    * exists (pfd_revents e). split_and!; [done|done|]. exists e. split_and!; [by left|done..].
    * injection E as <-. exists r. split_and!; [done|done|by apply Hmon].
  + rewrite not_elem_of_cons.
    destruct (Hh' q') as [[E Hn]|(c' & r & E & E' & Hrep)]; rewrite lookup_insert_ne in E by done; [by left|].
    right. exists c', r. split_and!; [done|done|by apply Hmon].
- rewrite Z.add_0_l. assert (ready chs (e :: es) = ready chs es) as Hre
    by (unfold ready; cbn; by rewrite (proj2 (Z.ltb_ge _ _))).
  destruct (IH h) as (h' & E & Hh'); [intros; apply Hes; [by right|done]|]. exists h'. rewrite Hre. split.
  + destruct (Z.ltb_spec 0 (nready (pfd_revents <$> es))) as [?|Hz]; [done|].
    rewrite <- E. destruct es as [|e' es']; [done|]. cbn [fillActiveChannels].
    by rewrite (proj2 (Z.ltb_ge _ _)).
  + intros q. destruct (Hh' q) as [?|(c & r & ? & ? & e' & ? & ?)]; [by left|right].
    exists c, r. split_and!; [done|done|]. exists e'. split; [by right|done].
Qed.

(** What [poll(2)] documents: one result per entry, none for an entry with a negative
    descriptor, and the number of those that are not zero. *)
Definition poll_contract (sys_poll : list pollfd → Z * list Z) : Prop :=
  ∀ es n rs, sys_poll es = (n, rs) → 0 ≤ n →
    length rs = length es ∧ n = nready rs ∧
    ∀ i e, es !! i = Some e → pfd_fd e < 0 → rs !! i = Some 0.

Lemma set_ready_revents es rs : length rs = length es → pfd_revents <$> zip_with set_ready es rs = rs.
Proof.
revert rs. induction es as [|e es IH]; intros [|r rs] H; try done. cbn in *. f_equal. apply IH. lia.
Qed.

(** Writing the results changes nothing a registered channel depends on. *)
Lemma ptracks_ready fds s h h' st rs :
  PollFacts.ptracks fds s h st → length rs = length (pollfds_ st) →
  (∀ q, h' !! q = h !! q ∨ ∃ c r, h !! q = Some c ∧ h' !! q = Some (set_revents r c)) →
  PollFacts.ptracks fds s h' (mkPoll (zip_with set_ready (pollfds_ st) rs) (channels_ st)).
Proof.
intros [H1 H2 H3 H4 H5 H6] Hl Hh.
assert (∀ q c, h !! q = Some c → ∃ r, h' !! q = Some (set_revents r c)) as Hfw.
{ intros q c E. destruct (Hh q) as [->|(c' & r & E' & ->)]; [exists (revents c); rewrite E; by destruct c|].
  exists r. congruence. }
split; cbn [pollfds_ channels_].
- intros q. rewrite <- H1. destruct (Hh q) as [->|(c & r & -> & ->)]; done.
- intros p ev Hp. destruct (H2 p ev Hp) as (c & e & E & ? & ? & ? & ? & Le & Ne).
  destruct (Hfw p c E) as [r E']. assert (is_Some (rs !! Z.to_nat (index c))) as [x Hx].
  { apply lookup_lt_is_Some. rewrite Hl. by eapply lookup_lt_Some. }
  exists (set_revents r c), (set_ready e x). split_and!; try done; try lia.
  cbn [set_revents index]. by rewrite lookup_zip_with, Le, Hx.
- done.
- intros i e. rewrite lookup_zip_with_Some. intros (e0 & r & _ & Hi & _).
  destruct (H4 i e0 Hi) as (p & c & ? & E & ?). destruct (Hfw p c E) as [r' E'].
  by exists p, (set_revents r' c).
- intros p c' E' Hr Hg. destruct (Hh p) as [E|(c & r & E & E2)].
  + rewrite E in E'. by eapply H5.
  + rewrite E2 in E'. injection E' as <-. by eapply (H5 p c).
- rewrite length_zip_with_l_eq; done.
Qed.

Lemma NoDup_omap_index {A B} (f : A → option B) (l : list A) :
  (∀ i j a a' b, l !! i = Some a → l !! j = Some a' → f a = Some b → f a' = Some b → i = j) →
  NoDup (omap f l).
Proof.
induction l as [|a l IH]; intros H; cbn; [constructor|].
assert (NoDup (omap f l)) as Hl.
{ apply IH. intros i j x x' b Hi Hj Hx Hx'. assert (Datatypes.S i = Datatypes.S j) by (by eapply (H _ _ x x' b)). lia. }
destruct (f a) as [b|] eqn:E; [|done]. constructor; [|done].
rewrite list_elem_of_omap. intros (x & Hx & Ex). apply list_elem_of_lookup in Hx as [j Hj].
by assert (0%nat = Datatypes.S j) by (by eapply (H _ _ a x b)).
Qed.

Section called.
Context (fds : gmap ptr Z) (s : registry) (h : store) (st : PollPoller) (out : list Z).
Hypothesis Hd : distinct fds.
Hypothesis H : PollFacts.ptracks fds s h st.
Hypothesis Hneg : ∀ i e, pollfds_ st !! i = Some e → pfd_fd e < 0 → out !! i = Some 0.

Let es := zip_with set_ready (pollfds_ st) out.

(** An entry that is ready belongs to the channel that has its index. *)
Lemma ready_entry i e :
  es !! i = Some e → 0 < pfd_revents e →
  ∃ p c, is_Some (regs s !! p) ∧ h !! p = Some c ∧ index c = Z.of_nat i ∧ pfd_fd e = fd c ∧
    channels_ st !! fd c = Some p ∧ out !! i = Some (pfd_revents e).
Proof.
intros He Hr. unfold es in He. apply lookup_zip_with_Some in He as (e0 & r & -> & He0 & Hri).
destruct (PollFacts.t_entry _ _ _ _ H i e0 He0) as (p & c & [ev Hp] & Ep & Hi). exists p, c.
destruct (PollFacts.t_reg _ _ _ _ H p ev Hp) as (c' & e' & E' & _ & _ & Hm & _ & Le & [Hf _]).
rewrite Ep in E'. injection E' as <-. rewrite Hi, Nat2Z.id, He0 in Le. injection Le as <-.
split_and!; try done. cbn. rewrite Hf. destruct (ev =? 0); [|done].
pose proof (fd_pos fds Hd h p c (PollFacts.t_store _ _ _ _ H) Ep).
rewrite (Hneg i e0 He0) in Hri by lia. injection Hri as <-. cbn in Hr. lia.
Qed.

Lemma reported_iff p r :
  reported (channels_ st) es p r ↔
  ∃ c, is_Some (regs s !! p) ∧ h !! p = Some c ∧ out !! Z.to_nat (index c) = Some r ∧ 0 < r.
Proof.
split.
- intros (e & He & Hr & Hm & ->). apply list_elem_of_lookup in He as [i Hi].
  destruct (ready_entry i e Hi Hr) as (p' & c & Hp & Ep & Hic & Hf & Hfm & Hri).
  rewrite Hf, Hfm in Hm. injection Hm as ->. exists c. by rewrite Hic, Nat2Z.id.
- intros (c & [ev Hp] & Ep & Hri & Hr).
  destruct (PollFacts.t_reg _ _ _ _ H p ev Hp) as (c' & e & E' & _ & _ & Hm & _ & Le & [Hf _]).
  rewrite Ep in E'. injection E' as <-. exists (set_ready e r).
  assert (es !! Z.to_nat (index c) = Some (set_ready e r)) as He by (unfold es; by rewrite lookup_zip_with, Le, Hri).
  split_and!; [by eapply list_elem_of_lookup_2|done| |done]. cbn. rewrite Hf. destruct (ev =? 0); [|done].
  pose proof (fd_pos fds Hd h p c (PollFacts.t_store _ _ _ _ H) Ep).
  rewrite (Hneg _ e Le) in Hri by lia. injection Hri as <-. lia.
Qed.

Lemma ready_NoDup : NoDup (ready (channels_ st) es).
Proof.
apply NoDup_omap_index. intros i j e e' q Hi Hj.
destruct (Z.ltb_spec 0 (pfd_revents e)) as [Hr|]; [|done].
destruct (Z.ltb_spec 0 (pfd_revents e')) as [Hr'|]; [|done].
destruct (ready_entry i e Hi Hr) as (p & c & _ & Ep & Hic & -> & -> & _).
destruct (ready_entry j e' Hj Hr') as (p' & c' & _ & Ep' & Hic' & -> & -> & _).
intros [= <-] [= ->]. rewrite Ep in Ep'. injection Ep' as <-. lia.
Qed.
End called.

(** The poller after a call, whatever the system call returns. *)
Lemma poll_tracks fds s h st sys_poll n out :
  distinct fds → PollFacts.ptracks fds s h st → poll_contract sys_poll → sys_poll (pollfds_ st) = (n, out) →
  ∃ h' st' l, poll sys_poll h st = Ok (h', st', l) ∧ PollFacts.ptracks fds s h' st' ∧ NoDup l ∧
    (∀ p, p ∈ l ↔ 0 ≤ n ∧ ∃ c r, is_Some (regs s !! p) ∧ h !! p = Some c ∧
       out !! Z.to_nat (index c) = Some r ∧ 0 < r) ∧
    (∀ p c r, p ∈ l → h !! p = Some c → out !! Z.to_nat (index c) = Some r → h' !! p = Some (set_revents r c)).
Proof.
intros Hd H Hsys E. unfold poll. rewrite E. destruct (Z.ltb_spec n 0) as [Hn|Hn].
{ rewrite (proj2 (Z.ltb_ge 0 n)) by lia. exists h, st, []. split_and!; [done|done|constructor| |].
  - intros p. rewrite elem_of_nil. split; [done|lia].
  - by intros p c r ?%elem_of_nil. }
destruct (Hsys _ _ _ E Hn) as (Hl & -> & Hneg). set (es := zip_with set_ready (pollfds_ st) out).
cbn [pollfds_ channels_]. pose proof (reported_iff fds s h st out Hd H Hneg) as Hrep. fold es in Hrep.
assert (∃ h', (if 0 <? nready out then
    '(h, l) ← fillActiveChannels es (channels_ st) (nready out) h; Ok (h, mkPoll es (channels_ st), l)
  else Ok (h, mkPoll es (channels_ st), [])) = Ok (h', mkPoll es (channels_ st), ready (channels_ st) es) ∧
  ∀ q, h' !! q = h !! q ∧ (q ∉ ready (channels_ st) es) ∨
         ∃ c r, h !! q = Some c ∧ h' !! q = Some (set_revents r c) ∧ reported (channels_ st) es q r)
  as (h' & -> & Hh').
{ assert (nready out = nready (pfd_revents <$> es)) as -> by (unfold es; by rewrite set_ready_revents).
  destruct (Z.ltb_spec 0 (nready (pfd_revents <$> es))) as [Hpos|Hz].
  - destruct (fill_ok es (channels_ st) h) as (h' & -> & Hh'); [|by exists h'].
    intros e He Hr. apply list_elem_of_lookup in He as [i Hi].
    destruct (ready_entry fds s h st out Hd H Hneg i e Hi Hr) as (p & c & _ & Ep & _ & -> & Hm & _). by exists p, c.
  - assert (ready (channels_ st) es = []) as -> by (apply nready_0; unfold nready in *; lia).
    exists h. split; [done|]. intros q. left. split; [done|apply not_elem_of_nil]. }
eexists h', _, _. split; [done|]. split_and!.
- apply (ptracks_ready fds s h h' st out H Hl). intros q.
  destruct (Hh' q) as [[? _]|(c & r & ? & ? & _)]; [by left|right; by exists c, r].
- by apply (ready_NoDup fds s h).
- intros p. rewrite elem_of_ready. setoid_rewrite Hrep. split.
  + intros (r & c & Hc). split; [done|]. by exists c, r.
  + intros (_ & c & r & Hc). by exists r, c.
- intros p c r Hp Ep Hr. destruct (Hh' p) as [[_ ?]|(c' & r' & E' & Eh & Hrep')]; [done|].
  apply Hrep in Hrep' as (c2 & _ & E2 & Hr2 & _). rewrite Ep in E2, E'. simplify_eq. done.
Qed.

(** [PollPoller] reports exactly the channels that are ready.  After any orderly
    sequence of requests, and whatever [poll(2)] returns within its documentation, each
    ready channel is reported once with the events that happened, no other one is, and
    the poller goes on serving requests. *)
Theorem poll_reports fds rs sys_poll :
  distinct fds → orderly fds PollFacts.admits reg0 rs → poll_contract sys_poll →
  ∃ h st h' st' l, run_requests rs (new_channel <$> fds) PollPoller_ctor = Ok (h, st) ∧
    poll sys_poll h st = Ok (h', st', l) ∧ NoDup l ∧
    (∀ p, p ∈ l ↔ 0 ≤ (sys_poll (pollfds_ st)).1 ∧
       ∃ c r, is_Some (regs (spec_steps rs reg0) !! p) ∧ h !! p = Some c ∧
         (sys_poll (pollfds_ st)).2 !! Z.to_nat (index c) = Some r ∧ 0 < r) ∧
    (∀ p c r, p ∈ l → h !! p = Some c → (sys_poll (pollfds_ st)).2 !! Z.to_nat (index c) = Some r →
       h' !! p = Some (set_revents r c)) ∧
    (∀ rs', orderly fds PollFacts.admits (spec_steps rs reg0) rs' → ∃ h2 st2, run_requests rs' h' st' = Ok (h2, st2)).
Proof.
intros Hd Ho Hsys.
destruct (tracks_steps (HL := PollFacts.poll_laws) fds rs reg0 _ _ Hd (tracks_start fds Hd) Ho) as (h & st & E & Ht).
destruct (sys_poll (pollfds_ st)) as [n out] eqn:Es.
destruct (poll_tracks fds _ h st sys_poll n out Hd Ht Hsys Es) as (h' & st' & l & Ep & Ht' & Hnd & Hin & Hout).
exists h, st, h', st', l. rewrite Es. split_and!; try done. intros rs' Ho'.
destruct (tracks_steps (HL := PollFacts.poll_laws) fds rs' _ h' st' Hd Ht' Ho') as (h2 & st2 & E2 & _).
by exists h2, st2.
Qed.

(** Every descriptor that is watched is readable. *)
Definition all_readable (es : list pollfd) : Z * list Z :=
  let out := (λ e, if pfd_fd e <? 0 then 0 else 1) <$> es in (nready out, out).

Lemma all_readable_ok : poll_contract all_readable.
Proof.
intros es n out [= <- <-] _. split_and!; [apply length_fmap|done|].
intros i e He Hneg. by rewrite list_lookup_fmap, He; cbn; rewrite (proj2 (Z.ltb_lt _ _)).
Qed.

Lemma poll_reports_witness :
  ∃ h st h' st' l, run_requests demo_requests (new_channel <$> demo_fds) PollPoller_ctor = Ok (h, st) ∧
    poll all_readable h st = Ok (h', st', l) ∧ NoDup l ∧
    (∀ p, p ∈ l ↔ 0 ≤ (all_readable (pollfds_ st)).1 ∧
       ∃ c r, is_Some (regs (spec_steps demo_requests reg0) !! p) ∧ h !! p = Some c ∧
         (all_readable (pollfds_ st)).2 !! Z.to_nat (index c) = Some r ∧ 0 < r) ∧
    (∀ p c r, p ∈ l → h !! p = Some c → (all_readable (pollfds_ st)).2 !! Z.to_nat (index c) = Some r →
       h' !! p = Some (set_revents r c)) ∧
    (∀ rs', orderly demo_fds PollFacts.admits (spec_steps demo_requests reg0) rs' →
       ∃ h2 st2, run_requests rs' h' st' = Ok (h2, st2)).
Proof. exact (poll_reports demo_fds demo_requests all_readable demo_distinct demo_orderly all_readable_ok). Defined.
End reports.

Section epoll_reports.
Import EPoll.

(** What [epoll_wait(2)] documents: at most as many events as there is room for, each
    with the pointer registered for a descriptor. *)
Definition wait_contract (epoll_wait : nat → gmap Z (Z * ptr) → option (list (Z * ptr))) : Prop :=
  ∀ n il evs, epoll_wait n il = Some evs →
    (length evs ≤ n)%nat ∧ ∀ r q, (r, q) ∈ evs → ∃ f ev, il !! f = Some (ev, q).

Lemma fill_active_ok fds evs chs h :
  holds_fds fds h → (∀ r q, (r, q) ∈ evs → ∃ f, fds !! q = Some f ∧ chs !! f = Some q) →
  ∃ h', fill_active evs chs h = Ok (h', evs.*2) ∧
    ∀ q c, h !! q = Some c → ∃ r, h' !! q = Some (set_revents r c).
Proof.
revert h. induction evs as [|[r q] evs IH]; intros h Hh Hev.
{ exists h. split; [done|]. intros q c E. exists (revents c). rewrite E. by destruct c. }
destruct (Hev r q) as (f & Hf & Hm); [by left|].
destruct (holds_fds_Some fds h q Hh) as [c E]; [by eexists|].
pose proof (holds_fds_lookup fds h q c Hh E) as Hfc. rewrite Hf in Hfc. injection Hfc as ->.
cbn [fill_active]. unfold deref. rewrite E. cbn [mbind res_bind]. rewrite Hm, bool_decide_true by done.
cbn [assert_ mbind res_bind]. destruct (IH (<[q := set_revents r c]> h)) as (h' & -> & Hh').
- by eapply holds_fds_insert.
- intros r' q' Hin. apply (Hev r'). by right.
- cbn [mbind res_bind fmap list_fmap snd]. exists h'. split; [done|]. intros q' c' E'.
  destruct (decide (q = q')) as [<-|Hne].
  + destruct (Hh' q (set_revents r c)) as [r' E2]; [by rewrite lookup_insert_eq|]. exists r'. rewrite E in E'. by injection E' as <-.
  + apply Hh'. by rewrite lookup_insert_ne.
Qed.

(** [EPollPoller] reports what the system call returned, and has room for twice as many
    events when the array was full. *)
Lemma epoll_reports fds s h st epoll_wait evs :
  distinct fds → EPollFacts.etracks fds s h st → wait_contract epoll_wait →
  epoll_wait (nevents_ st) (interest st) = Some evs →
  ∃ h' st', poll epoll_wait h st = Ok (h', st', evs.*2) ∧ channels_ st' = channels_ st ∧
    interest st' = interest st ∧
    nevents_ st' = (if (length evs =? nevents_ st)%nat && (0 <? length evs)%nat then nevents_ st * 2 else nevents_ st)%nat.
Proof.
intros Hd H Hw E. destruct (Hw _ _ _ E) as [Hlen Hin]. unfold poll. rewrite E.
destruct evs as [|e evs]; [exists h, st; split_and!; try done; by rewrite andb_false_r|].
unfold fillActiveChannels. rewrite (proj2 (Nat.leb_le _ _)) by done. cbn [assert_].
destruct (fill_active_ok fds (e :: evs) (channels_ st) h) as (h' & E' & _).
- apply (EPollFacts.e_store _ _ _ _ H).
- intros r q Hq. destruct (Hin r q Hq) as (f & ev & Hi). exists f.
  destruct (EPollFacts.e_interest _ _ _ _ H f ev q Hi) as [Hr Hf]. split; [done|].
  destruct (EPollFacts.e_reg _ _ _ _ H q ev Hr) as (c & Ec & _ & Hm & _).
  pose proof (holds_fds_lookup fds h q c (EPollFacts.e_store _ _ _ _ H) Ec). congruence.
- cbn [mbind res_bind]. rewrite E'. eexists h', _. split; [done|]. split_and!; try done.
  cbn [nevents_ length Nat.ltb Nat.leb]. by rewrite andb_true_r.
Qed.
End epoll_reports.
