(* ===== verification/TimerQueue.v ===== *)
(** [mucgi/muduo_net/TimerQueue.cc] with [Timer.cc], [TimerId.h] and the part of
    [Timestamp.h] they use: the timers of an event loop.

    Timers are heap objects that the queue creates and deletes, so the heap is part of
    the state and reading a deleted timer is a fault.  [timers_] is a [std::set] ordered
    by expiration and address, kept as a sorted list; [activeTimers_] and
    [cancelingTimers_] are only searched.  A time is the 64-bit number of microseconds
    of a [Timestamp]; an interval is the number of microseconds [addTime] adds for it.

    What the program's callbacks do is a parameter: a function of the timer that runs and
    of the timers that have run.  [malloc] picks the address of a new timer, and [clock]
    gives the readings of [Timestamp::now()] that [howMuchTimeFromNow] takes, one after
    another.  [timerfd] is what the timer descriptor is set to: the reading at which it was
    set and the microseconds after which it expires, [None] when it is not armed.  [ran]
    records which timers ran. *)

From Stdlib Require Import ZArith Lia Bool.
From Stdlib.Strings Require Import Byte.
From stdpp Require Import base numbers list gmap option.
From S2P Require Import Prelude.
Local Open Scope Z_scope.

Definition kMicroSecondsPerSecond : Z := 1000 * 1000.

(** [Timestamp::valid] *)
Definition valid (t : Z) : bool := 0 <? t.

(** [addTime] with the interval in microseconds. *)
Definition addTime (t delta : Z) : Z := s64 (t + delta).

Record Timer := mkTimer {
  expiration_ : Z;
  interval_ : Z;
  repeat_ : bool;
  sequence_ : Z;
}.

Definition restart (now : Z) (t : Timer) : Timer :=
  mkTimer (if repeat_ t then addTime now (interval_ t) else 0) (interval_ t) (repeat_ t) (sequence_ t).

(** ** Sets *)

Abbreviation Entry := (Z * Z)%type.
Abbreviation ActiveTimer := (Z * Z)%type.

(** [operator<] of [std::pair]: expiration, then address. *)
Definition entry_lt (x y : Entry) : bool := (x.1 <? y.1) || ((x.1 =? y.1) && (x.2 <? y.2)).

(** [std::set::insert]; [None] if the element is there. *)
Fixpoint set_insert (e : Entry) (l : list Entry) : option (list Entry) :=
  match l with
  | [] => Some [e]
  | x :: l' =>
      if entry_lt e x then Some (e :: l)
      else if entry_lt x e then (x ::.) <$> set_insert e l' else None
  end.

(** [std::set::erase] of a value: how many were erased, and the rest. *)
Definition set_erase (e : Entry) (l : list Entry) : nat * list Entry :=
  let l' := filter (λ x, x ≠ e) l in ((length l - length l')%nat, l').

(** The elements before [lower_bound(sentry)], and those from it.  The sentry is [now]
    with the largest address, [UINTPTR_MAX], which no timer has: the elements before it
    are those that expire up to [now]. *)
Fixpoint split_lower (now : Z) (l : list Entry) : list Entry * list Entry :=
  match l with
  | x :: l' => if x.1 <=? now then let '(a, b) := split_lower now l' in (x :: a, b) else ([], l)
  | [] => ([], [])
  end.

(** ** The queue *)

Record TimerQueue := mkTQ {
  timers_ : list Entry;
  activeTimers_ : gset ActiveTimer;
  callingExpiredTimers_ : bool;
  cancelingTimers_ : gset ActiveTimer;
  heap : gmap Z Timer;
  numCreated : Z;
  timerfd : option (Z * Z);
  reads : nat;                   (** readings of the clock so far *)
  ran : list Z;
}.

Definition TimerQueue_ctor : TimerQueue := mkTQ [] ∅ false ∅ ∅ 0 None 0 [].

Definition set_timers l a q : TimerQueue :=
  mkTQ l a (callingExpiredTimers_ q) (cancelingTimers_ q) (heap q) (numCreated q) (timerfd q) (reads q) (ran q).
Definition set_canceling c s q : TimerQueue :=
  mkTQ (timers_ q) (activeTimers_ q) c s (heap q) (numCreated q) (timerfd q) (reads q) (ran q).
Definition set_heap h q : TimerQueue :=
  mkTQ (timers_ q) (activeTimers_ q) (callingExpiredTimers_ q) (cancelingTimers_ q) h (numCreated q)
    (timerfd q) (reads q) (ran q).
Definition set_numCreated n q : TimerQueue :=
  mkTQ (timers_ q) (activeTimers_ q) (callingExpiredTimers_ q) (cancelingTimers_ q) (heap q) n
    (timerfd q) (reads q) (ran q).
Definition set_timerfd f n q : TimerQueue :=
  mkTQ (timers_ q) (activeTimers_ q) (callingExpiredTimers_ q) (cancelingTimers_ q) (heap q) (numCreated q)
    f n (ran q).
Definition set_ran r q : TimerQueue :=
  mkTQ (timers_ q) (activeTimers_ q) (callingExpiredTimers_ q) (cancelingTimers_ q) (heap q) (numCreated q)
    (timerfd q) (reads q) r.

Definition timer_at (p : Z) q : res Timer :=
  match heap q !! p with Some t => Ok t | None => Fault OutOfBounds end.

Definition same_size q : res () := assert_ (length (timers_ q) =? size (activeTimers_ q))%nat.

(** [howMuchTimeFromNow]: seconds and nanoseconds. *)
Definition howMuchTimeFromNow (when_ now : Z) : Z * Z :=
  let microseconds := s64 (when_ - now) in
  let microseconds := if microseconds <? 100 then 100 else microseconds in
  (Z.quot microseconds kMicroSecondsPerSecond, Z.rem microseconds kMicroSecondsPerSecond * 1000).

(** [timerfd_settime] with a relative time, shortly after the clock read [now]: zero
    disarms the descriptor, and a time out of range is refused. *)
Definition timerfd_settime (now : Z) (value : Z * Z) (old : option (Z * Z)) : option (Z * Z) :=
  let '(sec, nsec) := value in
  if (sec <? 0) || (nsec <? 0) || (1000000000 <=? nsec) then old
  else if (sec =? 0) && (nsec =? 0) then None
  else Some (now, sec * 1000000 + nsec / 1000).

(** What a callback asks of the queue. *)
Inductive taction :=
  | AddTimer (when_ interval : Z) (repeat : bool)
  | CancelTimer (id : ActiveTimer).

Section queue.
Context (clock : nat → Z).

(** The result of [timerfd_settime] is logged only. *)
Definition resetTimerfd (expiration : Z) q : TimerQueue :=
  let now := clock (reads q) in
  set_timerfd (timerfd_settime now (howMuchTimeFromNow expiration now) (timerfd q)) (S (reads q)) q.

Definition insert (p : Z) q : res (bool * TimerQueue) :=
  same_size q ;;
  t ← timer_at p q;
  let earliestChanged := match timers_ q with [] => true | (w, _) :: _ => expiration_ t <? w end in
  match set_insert (expiration_ t, p) (timers_ q) with
  | None => Fault AssertFail
  | Some l =>
      assert_ (bool_decide ((p, sequence_ t) ∉ activeTimers_ q)) ;;
      let q := set_timers l ({[(p, sequence_ t)]} ∪ activeTimers_ q) q in
      same_size q ;; Ok (earliestChanged, q)
  end.

Definition addTimerInLoop (p : Z) q : res TimerQueue :=
  '(earliestChanged, q) ← insert p q;
  t ← timer_at p q;
  Ok (if earliestChanged : bool then resetTimerfd (expiration_ t) q else q).

Definition cancelInLoop (id : ActiveTimer) q : res TimerQueue :=
  same_size q ;;
  q ← (if decide (id ∈ activeTimers_ q) then
         t ← timer_at id.1 q;
         let '(n, l) := set_erase (expiration_ t, id.1) (timers_ q) in
         assert_ (n =? 1)%nat ;;
         Ok (set_timers l (activeTimers_ q ∖ {[id]}) (set_heap (delete id.1 (heap q)) q))
       else if callingExpiredTimers_ q
            then Ok (set_canceling true ({[id]} ∪ cancelingTimers_ q) q) else Ok q);
  same_size q ;; Ok q.

Context (malloc : gset Z → Z) (callback : Z → list Z → list taction).

(** [addTimer]: the identifier and the queue. *)
Definition addTimer (when_ interval : Z) (repeat : bool) q : res (ActiveTimer * TimerQueue) :=
  let p := malloc (dom (heap q)) in
  let sequence := numCreated q + 1 in
  let timer := mkTimer when_ interval repeat sequence in
  q ← addTimerInLoop p (set_numCreated sequence (set_heap (<[p := timer]> (heap q)) q));
  Ok ((p, sequence), q).

Definition tact (a : taction) q : res TimerQueue :=
  match a with
  | AddTimer w i r => '(_, q) ← addTimer w i r q; Ok q
  | CancelTimer id => cancelInLoop id q
  end.

Fixpoint tacts (l : list taction) q : res TimerQueue :=
  match l with
  | [] => Ok q
  | a :: l => q ← tact a q; tacts l q
  end.

(** [Timer::run] *)
Definition run_timer (p : Z) q : res TimerQueue :=
  t ← timer_at p q;
  tacts (callback (sequence_ t) (ran q)) (set_ran (ran q ++ [sequence_ t]) q).

Fixpoint run_expired (l : list Entry) q : res TimerQueue :=
  match l with
  | [] => Ok q
  | (_, p) :: l => q ← run_timer p q; run_expired l q
  end.

(** The loop of [getExpired] that forgets the identifiers. *)
Fixpoint forget_expired (l : list Entry) q : res TimerQueue :=
  match l with
  | [] => Ok q
  | (_, p) :: l =>
      t ← timer_at p q;
      assert_ (bool_decide ((p, sequence_ t) ∈ activeTimers_ q)) ;;
      forget_expired l (set_timers (timers_ q) (activeTimers_ q ∖ {[(p, sequence_ t)]}) q)
  end.

Definition getExpired (now : Z) q : res (list Entry * TimerQueue) :=
  same_size q ;;
  let '(expired, rest) := split_lower now (timers_ q) in
  assert_ (match rest with [] => true | (w, _) :: _ => now <? w end) ;;
  q ← forget_expired expired (set_timers rest (activeTimers_ q) q);
  same_size q ;; Ok (expired, q).

Fixpoint reset_loop (l : list Entry) (now : Z) q : res TimerQueue :=
  match l with
  | [] => Ok q
  | (_, p) :: l =>
      t ← timer_at p q;
      q ← (if repeat_ t && bool_decide ((p, sequence_ t) ∉ cancelingTimers_ q) then
             '(_, q) ← insert p (set_heap (<[p := restart now t]> (heap q)) q); Ok q
           else Ok (set_heap (delete p (heap q)) q));
      reset_loop l now q
  end.

Definition reset (expired : list Entry) (now : Z) q : res TimerQueue :=
  q ← reset_loop expired now q;
  match timers_ q with
  | [] => Ok q
  | (_, p) :: _ =>
      t ← timer_at p q;
      Ok (if valid (expiration_ t) then resetTimerfd (expiration_ t) q else q)
  end.

(** [handleRead] at time [now]: the timer descriptor has expired and is no longer set. *)
Definition handleRead (now : Z) q : res TimerQueue :=
  '(expired, q) ← getExpired now (set_timerfd None (reads q) q);
  q ← run_expired expired (set_canceling true ∅ q);
  reset expired now (set_canceling false (cancelingTimers_ q) q).
End queue.
