(* ===== verification/TimerSpec.v ===== *)
(** Correctness of the timer queue: whatever timers the program adds and cancels, in
    callbacks or between them, no assertion fails and no deleted timer is used; timers
    run when they are due, in order, and not after they are cancelled; and the timer
    descriptor is always armed for the earliest one. *)

From Stdlib Require Import ZArith Lia Bool Sorted.
From Stdlib.Strings Require Import Byte.
From stdpp Require Import base numbers list gmap option sorting fin_sets.
From S2P Require Import Prelude TimerQueue.
Local Open Scope Z_scope.

(** ** Ordered sets *)

Definition elt (x y : Entry) : Prop := x.1 < y.1 ∨ x.1 = y.1 ∧ x.2 < y.2.

Lemma entry_lt_spec x y : entry_lt x y = true ↔ elt x y.
Proof.
unfold entry_lt, elt. rewrite orb_true_iff, andb_true_iff, !Z.ltb_lt, Z.eqb_eq. done.
Qed.

Lemma entry_lt_not x y : entry_lt x y = false → x = y ∨ elt y x.
Proof.
intros H. destruct (entry_lt y x) eqn:E; [right; by apply entry_lt_spec|left].
destruct x as [a b], y as [a' b']. unfold entry_lt in *. cbn in *.
destruct (Z.ltb_spec a a'), (Z.ltb_spec a' a), (Z.eqb_spec a a'), (Z.eqb_spec a' a), (Z.ltb_spec b b'), (Z.ltb_spec b' b);
  cbn in *; try done; try lia. f_equal; lia.
Qed.

#[export] Instance elt_trans : Transitive elt.
Proof. intros [] [] []; unfold elt; cbn; lia. Qed.

Lemma elt_irrefl x : ¬ elt x x.
Proof. unfold elt. lia. Qed.

Abbreviation sorted := (StronglySorted elt).

Lemma sorted_cons x l : sorted (x :: l) ↔ sorted l ∧ Forall (elt x) l.
Proof. split; [by inversion 1|intros [??]; by constructor]. Qed.

Lemma sorted_NoDup l : sorted l → NoDup l.
Proof.
induction l as [|x l IH]; [constructor|]. rewrite sorted_cons. intros [Hs Hx]. constructor; [|by apply IH].
intros Hin. rewrite Forall_forall in Hx. by apply (elt_irrefl x), Hx.
Qed.

Lemma set_insert_ok e l :
  sorted l → (e ∉ l) →
  ∃ l', set_insert e l = Some l' ∧ sorted l' ∧ l' ≡ₚ e :: l.
Proof.
induction l as [|x l IH]; intros Hs Hn; cbn [set_insert].
{ exists [e]. split_and!; [done|by repeat constructor|done]. }
apply sorted_cons in Hs as [Hs Hx]. apply not_elem_of_cons in Hn as [Hne Hn].
destruct (entry_lt e x) eqn:E.
- apply entry_lt_spec in E. eexists. split; [done|]. split; [|done].
  apply sorted_cons. split; [by apply sorted_cons|]. constructor; [done|].
  eapply Forall_impl; [exact Hx|]. intros y Hy. cbn in Hy. by trans x.
- apply entry_lt_not in E as [?|E]; [done|]. rewrite (proj2 (entry_lt_spec x e) E).
  destruct (IH Hs Hn) as (l' & -> & Hs' & Hp). eexists. split; [done|]. split.
  + apply sorted_cons. split; [done|]. rewrite Hp. by constructor.
  + rewrite Hp. apply Permutation_swap.
Qed.

Lemma sorted_filter (P : Entry → Prop) `{∀ x, Decision (P x)} l : sorted l → sorted (filter P l).
Proof.
induction l as [|x l IH]; [done|]. rewrite sorted_cons, filter_cons. intros [Hs Hx].
case_decide; [|by apply IH]. apply sorted_cons. split; [by apply IH|].
apply Forall_forall. intros y Hy. apply list_elem_of_filter in Hy as [_ Hy]. rewrite Forall_forall in Hx. auto.
Qed.

Lemma set_erase_ok e l :
  sorted l → e ∈ l → ∃ l', set_erase e l = (1%nat, l') ∧ sorted l' ∧ l ≡ₚ e :: l'.
Proof.
intros Hs Hin. pose proof (sorted_NoDup l Hs) as Hnd.
assert (l ≡ₚ e :: filter (λ x, x ≠ e) l) as Hp.
{ apply NoDup_Permutation; [done| |].
  - constructor; [|by apply NoDup_filter]. rewrite list_elem_of_filter. by intros [? _].
  - intros x. rewrite elem_of_cons, list_elem_of_filter. destruct (decide (x = e)) as [->|]; tauto. }
exists (filter (λ x, x ≠ e) l). split; [|split; [by apply sorted_filter|exact Hp]].
unfold set_erase. f_equal. apply Permutation_length in Hp. cbn [length] in Hp. lia.
Qed.

Lemma split_lower_ok now l :
  sorted l →
  ∃ a b, split_lower now l = (a, b) ∧ l = a ++ b ∧
    Forall (λ e, e.1 ≤ now) a ∧ Forall (λ e, now < e.1) b.
Proof.
intros Hs. induction l as [|[t p] l IH]; cbn [split_lower fst].
{ exists [], []. by repeat constructor. }
apply sorted_cons in Hs as [Hs Hx]. destruct (Z.leb_spec t now) as [Hle|Hlt].
- destruct (IH Hs) as (a & b & -> & -> & Ha & Hb).
  exists ((t, p) :: a), b. split_and!; [done|done|by constructor|done].
- exists [], ((t, p) :: l). split_and!; [done|done|constructor|].
  constructor; [done|]. eapply Forall_impl; [exact Hx|]. intros [t' p']. unfold elt. cbn. lia.
Qed.

Section spec.
(** The readings of the clock, and the times that the program may give timers: all, or
    those for which the descriptor can be set.  Repeating timers get more of them. *)
Context (clock : nat → Z) (R : Z → Prop).
Hypothesis R_restart : ∀ now i, 0 < now < 2 ^ 62 → 0 ≤ i < 2 ^ 62 → R (now + i).

(** A time whose distance from the clock fits into 64 bits. *)
Definition in_range (t : Z) : Prop := - 2 ^ 62 ≤ t < 2 ^ 63.
Definition sane : Prop := (∀ t, R t → in_range t) ∧ ∀ n, 0 ≤ clock n < 2 ^ 62.

(** ** The invariant *)

(** [out]: the addresses of expired timers that are between [getExpired] and [reset]. *)
Record tinv (out : list Z) (q : TimerQueue) : Prop := {
  q_sorted : sorted (timers_ q);
  q_entry t p : (t, p) ∈ timers_ q →
    ∃ tm, heap q !! p = Some tm ∧ expiration_ tm = t ∧ (p, sequence_ tm) ∈ activeTimers_ q;
  q_active p n : (p, n) ∈ activeTimers_ q →
    ∃ tm, heap q !! p = Some tm ∧ sequence_ tm = n ∧ (expiration_ tm, p) ∈ timers_ q;
  q_size : length (timers_ q) = size (activeTimers_ q);
  q_out p : p ∈ out → is_Some (heap q !! p) ∧ ∀ n, (p, n) ∉ activeTimers_ q;
  q_nodup : NoDup out;
  q_heap p tm : heap q !! p = Some tm →
    sequence_ tm ≤ numCreated q ∧ 0 ≤ interval_ tm < 2 ^ 62 ∧
    ((p, sequence_ tm) ∈ activeTimers_ q ∨ p ∈ out);
  q_unique p p' tm tm' : heap q !! p = Some tm → heap q !! p' = Some tm' → sequence_ tm = sequence_ tm' → p = p';
  q_times t p : (t, p) ∈ timers_ q → R t;
}.

Lemma same_size_ok out q : tinv out q → same_size q = Ok ().
Proof. intros H. unfold same_size. by rewrite (q_size _ _ H), Nat.eqb_refl. Qed.

(** The head of a sorted list is the least entry. *)
Lemma head_least x l y : sorted (x :: l) → y ∈ x :: l → x.1 ≤ y.1.
Proof.
rewrite sorted_cons, elem_of_cons, Forall_forall. intros [_ Hx] [->|Hy]; [lia|].
apply Hx in Hy. unfold elt in Hy. lia.
Qed.

(** ** What the operations keep *)

(** A sequence number already given, and where the timer that has it can be. *)
Definition only (n : Z) (Q : Z → Prop) (q : TimerQueue) : Prop :=
  n ≤ numCreated q ∧ ∀ p tm, heap q !! p = Some tm → sequence_ tm = n → Q p.

(** For every entry that satisfies [P] the timer descriptor is set: from the reading of the
    clock at which it was set, it expires when the entry is due or before, or after 100
    microseconds if that is more. *)
Definition armed (P : Z → Prop) (q : TimerQueue) : Prop :=
  ∀ t p, (t, p) ∈ timers_ q → P t → ∃ n d, timerfd q = Some (clock n, d) ∧ 100 ≤ d ≤ Z.max 100 (t - clock n).
Definition down (P : Z → Prop) : Prop := ∀ t t', P t → t' ≤ t → P t'.

Record keeps (out : list Z) (q q' : TimerQueue) : Prop := {
  k_out p : p ∈ out → heap q' !! p = heap q !! p;
  k_ran : ran q' = ran q;
  k_calling : callingExpiredTimers_ q' = callingExpiredTimers_ q;
  k_canceling : cancelingTimers_ q ⊆ cancelingTimers_ q';
  k_only n Q : only n Q q → only n Q q';
  k_armed P : sane → down P → armed P q → armed P q';
}.

Lemma keeps_refl out q : keeps out q q.
Proof. by split. Qed.

Lemma keeps_trans out q1 q2 q3 : keeps out q1 q2 → keeps out q2 q3 → keeps out q1 q3.
Proof.
intros [A1 A2 A3 A4 A5 A6] [B1 B2 B3 B4 B5 B6].
split; [|congruence|congruence|by etrans|auto|auto]. intros p Hp. by rewrite B1, A1.
Qed.

(** ** The descriptor *)

(** The relative time is at least 100 microseconds, exactly the time left if that is more,
    with the nanoseconds in range. *)
Lemma howMuchTimeFromNow_ok w now :
  0 ≤ now < 2 ^ 62 → in_range w →
  let '(s, ns) := howMuchTimeFromNow w now in
  0 ≤ s ∧ 0 ≤ ns < 1000000000 ∧ s * 1000000 + ns / 1000 = Z.max 100 (w - now) ∧ (s ≠ 0 ∨ ns ≠ 0).
Proof.
unfold in_range. intros Hn Hw. unfold howMuchTimeFromNow. change kMicroSecondsPerSecond with 1000000. unfold s64. rewrite swrap_small by lia.
set (m := if w - now <? 100 then 100 else w - now).
assert (m = Z.max 100 (w - now)) as Hm by (unfold m; destruct (Z.ltb_spec (w - now) 100); lia).
rewrite <- Hm. assert (0 ≤ m) by lia. rewrite Z.quot_div_nonneg, Z.rem_mod_nonneg by lia.
rewrite Z.div_mul by lia. pose proof (Z.div_mod m 1000000 ltac:(lia)).
pose proof (Z.mod_pos_bound m 1000000 ltac:(lia)). pose proof (Z.div_pos m 1000000 ltac:(lia) ltac:(lia)). lia.
Qed.

Lemma resetTimerfd_sets w q :
  sane → R w → timerfd (resetTimerfd clock w q) = Some (clock (reads q), Z.max 100 (w - clock (reads q))).
Proof.
intros [Hr Hc] Hw. unfold resetTimerfd. cbn [set_timerfd timerfd].
pose proof (howMuchTimeFromNow_ok w (clock (reads q)) (Hc _) (Hr _ Hw)) as H. destruct (howMuchTimeFromNow _ _) as [s ns].
destruct H as (H1 & H2 & H3 & H4). unfold timerfd_settime. rewrite (proj2 (Z.ltb_ge s 0)), (proj2 (Z.ltb_ge ns 0)), (proj2 (Z.leb_gt 1000000000 ns)) by lia.
cbn [orb]. destruct (Z.eqb_spec s 0), (Z.eqb_spec ns 0); cbn [andb]; try (by rewrite H3). lia.
Qed.

(** ** Adding *)

Lemma insert_ok p out q tm :
  tinv (p :: out) q → heap q !! p = Some tm → R (expiration_ tm) →
  ∃ l b, insert p q = Ok (b, set_timers l ({[(p, sequence_ tm)]} ∪ activeTimers_ q) q) ∧
    tinv out (set_timers l ({[(p, sequence_ tm)]} ∪ activeTimers_ q) q) ∧
    l ≡ₚ (expiration_ tm, p) :: timers_ q ∧
    b = match timers_ q with [] => true | (w, _) :: _ => expiration_ tm <? w end.
Proof.
intros H E HR. pose proof H as [H1 H2 H3 H4 H5 H6 H7 H8 H9]. destruct (H5 p ltac:(by left)) as [_ Hna].
assert ((expiration_ tm, p) ∉ timers_ q) as Hn.
{ intros Hin. destruct (H2 _ _ Hin) as (? & _ & _ & Ha). by apply Hna in Ha. }
apply NoDup_cons in H6 as [Hpo H6].
destruct (set_insert_ok _ _ H1 Hn) as (l & El & Hs & Hp). exists l. eexists.
set (q' := set_timers _ _ _).
assert (∀ e, e ∈ l ↔ e = (expiration_ tm, p) ∨ e ∈ timers_ q) as Hin by (intros e; by rewrite Hp, elem_of_cons).
assert (∀ e, e ∈ ({[(p, sequence_ tm)]} ∪ activeTimers_ q : gset ActiveTimer) ↔ e = (p, sequence_ tm) ∨ e ∈ activeTimers_ q)
  as Hac by (intros e; by rewrite elem_of_union, elem_of_singleton).
assert (tinv out q') as Hq'.
{ split; cbn [q' set_timers timers_ activeTimers_ heap numCreated]; try done.
  - intros t p'. rewrite Hin. intros [[= -> ->]|Hi]; [exists tm; rewrite Hac; by auto|].
    destruct (H2 _ _ Hi) as (tm' & ? & ? & ?). exists tm'. rewrite Hac. by auto.
  - intros p' n. rewrite Hac. intros [[= -> ->]|Hi]; [exists tm; rewrite Hin; by auto|].
    destruct (H3 _ _ Hi) as (tm' & ? & ? & ?). exists tm'. rewrite Hin. by auto.
  - rewrite Hp, size_union by (intros x ->%elem_of_singleton; apply Hna). rewrite size_singleton. cbn [length]. by rewrite H4.
  - intros p' Hi. destruct (H5 p' ltac:(by right)) as [? Hn']. split; [done|]. intros n.
    rewrite Hac. intros [[= -> ->]|Ha]; [done|by apply Hn' in Ha].
  - intros p' tm' E'. destruct (H7 p' tm' E') as (? & ? & Hor). split_and!; try done; try lia.
    destruct Hor as [?|[->|?]%elem_of_cons]; [left; rewrite Hac; by right| |by right].
    rewrite E in E'. injection E' as <-. left. rewrite Hac. by left.
  - intros t p'. rewrite Hin. intros [[= -> ->]|Hi]; [done|by eapply H9]. }
split; [|split_and!; [done|done|reflexivity]].
unfold insert. rewrite (same_size_ok _ _ H). cbn [mbind res_bind]. unfold timer_at. rewrite E.
cbn [mbind res_bind]. rewrite El, bool_decide_true by apply Hna. cbn [assert_ mbind res_bind]. fold q'.
by rewrite (same_size_ok _ _ Hq').
Qed.

(** ** Cancelling *)

Lemma cancel_ok out id q :
  tinv out q →
  ∃ q', cancelInLoop id q = Ok q' ∧ tinv out q' ∧ keeps out q q' ∧ (id ∉ activeTimers_ q') ∧
    numCreated q' = numCreated q ∧
    (∀ p tm, heap q' !! p = Some tm → heap q !! p = Some tm) ∧
    (callingExpiredTimers_ q = true → (id ∉ activeTimers_ q) → id ∈ cancelingTimers_ q').
Proof.
intros H. pose proof H as [H1 H2 H3 H4 H5 H6 H7 H8 H9]. unfold cancelInLoop. rewrite (same_size_ok _ _ H).
cbn [mbind res_bind]. case_decide as Hin.
2:{ destruct (callingExpiredTimers_ q) eqn:Ec; cbn [mbind res_bind].
    - set (q' := set_canceling _ _ _). assert (tinv out q') as Hq' by (by split).
      rewrite (same_size_ok _ _ Hq'). exists q'. split_and!; try done.
      + split; try done. cbn. apply union_subseteq_r.
      + intros _ _. cbn. apply elem_of_union. left. by apply elem_of_singleton.
    - rewrite (same_size_ok _ _ H). exists q. by split_and!. }
destruct id as [p n]. destruct (H3 p n Hin) as (tm & E & <- & Hent). cbn [fst].
unfold timer_at. rewrite E. cbn [mbind res_bind].
destruct (set_erase_ok _ _ H1 Hent) as (l & -> & Hs & Hp). cbn [Nat.eqb assert_ mbind res_bind].
set (q' := set_timers _ _ _).
assert (NoDup ((expiration_ tm, p) :: l)) as Hnd by (rewrite <- Hp; by apply sorted_NoDup).
apply NoDup_cons in Hnd as [Hnl _].
assert (∀ e, e ∈ timers_ q ↔ e = (expiration_ tm, p) ∨ e ∈ l) as Hl by (intros e; by rewrite Hp, elem_of_cons).
assert (∀ p' tm', heap q' !! p' = Some tm' ↔ p ≠ p' ∧ heap q !! p' = Some tm') as Hh
  by (intros; cbn; apply lookup_delete_Some).
assert (tinv out q') as Hq'.
{ split; cbn [q' set_timers set_heap timers_ activeTimers_ numCreated]; try done.
  - intros t p' Hi. destruct (H2 t p') as (tm' & E' & <- & Ha); [apply Hl; by right|].
    assert (p ≠ p') as Hne by (intros <-; rewrite E in E'; by injection E' as <-).
    exists tm'. split_and!; [by apply Hh|done|]. apply elem_of_difference. split; [done|].
    rewrite elem_of_singleton. by intros [= ->].
  - intros p' n'. rewrite elem_of_difference, elem_of_singleton. intros [Ha Hne].
    destruct (H3 _ _ Ha) as (tm' & E' & <- & Hi).
    assert (p ≠ p') as Hpp by (intros <-; rewrite E in E'; injection E' as <-; by apply Hne).
    exists tm'. split_and!; [by apply Hh|done|]. apply Hl in Hi as [[= _ ->]|?]; done.
  - rewrite size_difference by (by intros x ->%elem_of_singleton). rewrite size_singleton, <- H4, Hp. cbn. lia.
  - intros p' Hi. destruct (H5 p' Hi) as [[tm' E'] Hn']. split; [|intros n' [Ha _]%elem_of_difference; by apply (Hn' n')].
    exists tm'. apply Hh. split; [|done]. intros <-. by apply (Hn' (sequence_ tm)).
  - intros p' tm' E'. apply Hh in E' as [Hne E']. destruct (H7 _ _ E') as (? & ? & [Ha|?]); split_and!; try lia; [|by right].
    left. apply elem_of_difference. split; [done|]. rewrite elem_of_singleton. by intros [= ->].
  - intros p1 p2 t1 t2 E1 E2. apply Hh in E1 as [_ E1]. apply Hh in E2 as [_ E2]. by apply (H8 p1 p2 t1 t2).
  - intros t p' Hi. apply (H9 t p'), Hl. by right. }
rewrite (same_size_ok _ _ Hq'). cbn [mbind res_bind]. exists q'. split_and!; try done.
- split; try done.
  + intros p' Hi. destruct (H5 p' Hi) as [_ Hn']. cbn. apply lookup_delete_ne. intros <-. by apply (Hn' (sequence_ tm)).
  + intros n Q [Hn Hd]. split; [done|]. intros p' tm' E'. apply Hh in E' as [_ E']. by eapply Hd.
  + intros P _ _ Ha t p' Hi. apply (Ha t p'). apply Hl. by right.
- cbn. rewrite elem_of_difference, elem_of_singleton. tauto.
- intros p' tm' E'. by apply Hh in E' as [_ ?].
Qed.

(** ** Expiry *)

Lemma forget_ok l q :
  NoDup l.*2 → Forall (λ e, ∃ tm, heap q !! e.2 = Some tm ∧ (e.2, sequence_ tm) ∈ activeTimers_ q) l →
  (∀ p n, (p, n) ∈ activeTimers_ q → ∃ tm, heap q !! p = Some tm ∧ sequence_ tm = n) →
  ∃ a, forget_expired l q = Ok (set_timers (timers_ q) a q) ∧ (size a + length l = size (activeTimers_ q))%nat ∧
    ∀ p n, (p, n) ∈ a ↔ (p, n) ∈ activeTimers_ q ∧ (p ∉ l.*2).
Proof.
revert q. induction l as [|[t p] l IH]; intros q Hnd Hl Ha; cbn [forget_expired].
{ exists (activeTimers_ q). split_and!; [by destruct q|cbn; lia|]. intros p n. cbn. rewrite elem_of_nil. tauto. }
cbn in Hnd. apply NoDup_cons in Hnd as [Hp Hnd]. apply Forall_cons_1 in Hl as [(tm & E & Hin) Hl]. cbn [snd] in *.
unfold timer_at. rewrite E. cbn [mbind res_bind]. rewrite bool_decide_true by done. cbn [assert_ mbind res_bind].
set (q1 := set_timers _ _ _). destruct (IH q1) as (a & -> & Hsz & Hin').
- done.
- apply Forall_forall. intros [t' p'] Hi. rewrite Forall_forall in Hl. destruct (Hl _ Hi) as (tm' & E' & Hi').
  exists tm'. split; [done|]. cbn [q1 set_timers activeTimers_ snd] in *. apply elem_of_difference. split; [done|].
  rewrite elem_of_singleton. intros [= -> _]. apply Hp. apply list_elem_of_fmap. by exists (t', p).
- intros p' n [Hi _]%elem_of_difference. by apply Ha.
- exists a. split_and!; [done| |].
  + cbn [q1 set_timers activeTimers_] in Hsz. rewrite size_difference, size_singleton in Hsz
      by (by intros x ->%elem_of_singleton).
    assert (size (activeTimers_ q) ≠ 0%nat); [|cbn; lia]. rewrite size_non_empty_iff. intros Hemp.
    rewrite Hemp in Hin. by apply not_elem_of_empty in Hin.
  + intros p' n. rewrite Hin'. cbn [q1 set_timers activeTimers_ fmap list_fmap snd].
    rewrite elem_of_difference, elem_of_singleton, not_elem_of_cons. split.
    * intros [[Hi Hne] Hn]. split_and!; [done| |done]. intros ->.
      destruct (Ha _ _ Hi) as (tm' & E' & <-). rewrite E in E'. by injection E' as <-.
    * intros [Hi [Hne Hn]]. split_and!; [done| |done]. by intros [= -> _].
Qed.

Lemma getExpired_ok now q :
  tinv [] q →
  ∃ expired q', getExpired now q = Ok (expired, q') ∧ tinv expired.*2 q' ∧ timers_ q = expired ++ timers_ q' ∧
    Forall (λ e, e.1 ≤ now) expired ∧ Forall (λ e, now < e.1) (timers_ q') ∧ heap q' = heap q ∧
    ran q' = ran q ∧ numCreated q' = numCreated q ∧ timerfd q' = timerfd q.
Proof.
intros H. pose proof H as [H1 H2 H3 H4 H5 H6 H7 H8 H9]. unfold getExpired. rewrite (same_size_ok _ _ H).
cbn [mbind res_bind]. destruct (split_lower_ok now (timers_ q)) as (l & rest & -> & Hl & Hle & Hgt); [done|].
assert (assert_ (match rest with [] => true | (w, _) :: _ => now <? w end) = Ok ()) as ->.
{ destruct rest as [|[w p] rest]; [done|]. apply Forall_cons_1 in Hgt as [Hw _]. cbn in Hw.
  by rewrite (proj2 (Z.ltb_lt _ _)). }
cbn [mbind res_bind]. pose proof (sorted_NoDup _ H1) as Hnd. rewrite Hl in Hnd.
assert (∀ t t' p, (t, p) ∈ timers_ q → (t', p) ∈ timers_ q → t = t') as Hinj.
{ intros t t' p Hi Hi'. destruct (H2 _ _ Hi) as (tm & E & <- & _). destruct (H2 _ _ Hi') as (tm' & E' & <- & _).
  congruence. }
assert (NoDup l.*2) as Hnd2.
{ apply NoDup_fmap_2_strong; [|by apply NoDup_app in Hnd as (? & _)].
  intros [t p] [t' p'] Hi Hi' Hpp. cbn in Hpp. subst p'. f_equal.
  apply (Hinj t t' p); rewrite Hl; apply elem_of_app; by left. }
destruct (forget_ok l (set_timers rest (activeTimers_ q) q)) as (a & -> & Hsz & Ha); [done| |intros p n Hi; destruct (H3 _ _ Hi) as (tm & ? & ? & _); by exists tm|].
{ apply Forall_forall. intros [t p] Hi. destruct (H2 t p) as (tm & E & _ & ?); [rewrite Hl; apply elem_of_app; by left|].
  by exists tm. }
cbn [mbind res_bind]. set (q' := set_timers _ _ _).
assert (∀ t p, (t, p) ∈ rest → p ∉ l.*2) as Hsep.
{ intros t p Hi [[t' p'] [-> Hi']]%list_elem_of_fmap. cbn in Hi.
  assert (t' = t) as -> by (apply (Hinj t' t p'); rewrite Hl; apply elem_of_app; auto).
  apply NoDup_app in Hnd as (_ & Hdis & _). by apply (Hdis (t, p')). }
assert (tinv l.*2 q') as Hq'.
{ split; cbn [q' set_timers timers_ activeTimers_ heap numCreated] in *.
  - rewrite Hl in H1. clear - H1. induction l as [|x l IH]; [done|]. apply sorted_cons in H1 as [? _]. by apply IH.
  - intros t p Hi. destruct (H2 t p) as (tm & E & ? & ?); [rewrite Hl; apply elem_of_app; by right|].
    exists tm. split_and!; [done|done|]. apply Ha. split; [done|by eapply Hsep].
  - intros p n [Hi Hn]%Ha. destruct (H3 _ _ Hi) as (tm & E & ? & He). exists tm. split_and!; [done|done|].
    rewrite Hl in He. apply elem_of_app in He as [He|?]; [|done]. exfalso. apply Hn.
    apply list_elem_of_fmap. by exists (expiration_ tm, p).
  - rewrite Hl, length_app in H4. lia.
  - intros p Hi. split; [|intros n [_ Hn]%Ha; done]. apply list_elem_of_fmap in Hi as [[t p'] [-> Hi]].
    destruct (H2 t p') as (tm & E & _); [rewrite Hl; apply elem_of_app; by left|]. by exists tm.
  - done.
  - intros p tm E. destruct (H7 _ _ E) as (? & ? & [Hi|Hi]); [|by apply elem_of_nil in Hi].
    split_and!; try lia. destruct (decide (p ∈ l.*2)); [by right|left]. by apply Ha.
  - done.
  - intros t p Hi. apply (H9 t p). rewrite Hl. apply elem_of_app. by right. }
rewrite (same_size_ok _ _ Hq'). cbn [mbind res_bind]. exists l, q'. by split_and!.
Qed.
(** ** Restarting *)

(** What becomes of an expired timer. *)
Definition after_expiry (now : Z) (canceling : gset ActiveTimer) (p : Z) (tm : Timer) : option Timer :=
  if repeat_ tm && bool_decide ((p, sequence_ tm) ∉ canceling) then Some (restart now tm) else None.

Lemma tinv_delete p out q : tinv (p :: out) q → tinv out (set_heap (delete p (heap q)) q).
Proof.
intros [H1 H2 H3 H4 H5 H6 H7 H8 H9]. destruct (H5 p ltac:(by left)) as [_ Hn]. apply NoDup_cons in H6 as [Hpo H6].
assert (∀ p' n, (p', n) ∈ activeTimers_ q → p ≠ p') as Hne by (intros p' n Hi ->; by apply Hn in Hi).
split; cbn [set_heap timers_ activeTimers_ heap numCreated]; try done.
- intros t p' Hi. destruct (H2 _ _ Hi) as (tm & E & ? & ?). exists tm. by rewrite lookup_delete_ne by eauto.
- intros p' n Hi. destruct (H3 _ _ Hi) as (tm & E & ? & ?). exists tm. by rewrite lookup_delete_ne by eauto.
- intros p' Hi. rewrite lookup_delete_ne by (by intros ->). apply H5. by right.
- intros p' tm. rewrite lookup_delete_Some. intros [Hpp E]. destruct (H7 _ _ E) as (? & ? & Hor).
  split_and!; try lia. destruct Hor as [?|[->|?]%elem_of_cons]; [by left|done|by right].
- intros p1 p2 t1 t2. rewrite !lookup_delete_Some. intros [_ E1] [_ E2]. by apply (H8 p1 p2 t1 t2).
Qed.

Lemma tinv_restart p out q now tm :
  tinv (p :: out) q → heap q !! p = Some tm →
  tinv (p :: out) (set_heap (<[p := restart now tm]> (heap q)) q).
Proof.
intros [H1 H2 H3 H4 H5 H6 H7 H8 H9] E. destruct (H5 p ltac:(by left)) as [_ Hn].
assert (∀ p' n, (p', n) ∈ activeTimers_ q → p ≠ p') as Hne by (intros p' n Hi ->; by apply Hn in Hi).
split; cbn [set_heap timers_ activeTimers_ heap numCreated]; try done.
- intros t p' Hi. destruct (H2 _ _ Hi) as (tm' & E' & ? & ?). exists tm'. by rewrite lookup_insert_ne by eauto.
- intros p' n Hi. destruct (H3 _ _ Hi) as (tm' & E' & ? & ?). exists tm'. by rewrite lookup_insert_ne by eauto.
- intros p' Hi. destruct (H5 p' Hi) as [? ?]. split; [|done].
  destruct (decide (p = p')) as [<-|]; [by rewrite lookup_insert_eq|by rewrite lookup_insert_ne].
- intros p' tm'. rewrite lookup_insert_Some. intros [[<- <-]|[_ E']]; [|by apply H7]. by apply (H7 p tm).
- intros p1 p2 t1 t2. rewrite !lookup_insert_Some. intros [[<- <-]|[_ E1]] [[<- <-]|[_ E2]] Hs; try done.
  + by apply (H8 p p2 tm t2).
  + by apply (H8 p1 p t1 tm).
  + by apply (H8 p1 p2 t1 t2).
Qed.

Lemma restart_time now tm :
  0 < now < 2 ^ 62 → 0 ≤ interval_ tm < 2 ^ 62 → repeat_ tm = true →
  expiration_ (restart now tm) = now + interval_ tm.
Proof. intros ?? Hr. unfold restart, addTime. rewrite Hr. cbn. unfold s64. apply swrap_small; lia. Qed.

Lemma reset_loop_ok now l q :
  0 < now < 2 ^ 62 → tinv l.*2 q → (sane → armed (λ t, t ≤ 0) q) →
  ∃ q', reset_loop l now q = Ok q' ∧ tinv [] q' ∧ (sane → armed (λ t, t ≤ 0) q') ∧
    callingExpiredTimers_ q' = callingExpiredTimers_ q ∧ ran q' = ran q ∧ (∀ n Q, only n Q q → only n Q q') ∧
    (∀ p, p ∈ l.*2 → heap q' !! p = heap q !! p ≫= after_expiry now (cancelingTimers_ q) p) ∧
    (∀ p, (p ∉ l.*2) → heap q' !! p = heap q !! p).
Proof.
intros Hnow. revert q. induction l as [|[t p] l IH]; intros q H Ha; cbn [reset_loop].
{ exists q. split_and!; try done. by intros p ?%elem_of_nil. }
cbn [fmap list_fmap snd] in *. pose proof (q_nodup _ _ H) as [Hpl _]%NoDup_cons.
destruct (q_out _ _ H p ltac:(by left)) as [[tm E] _]. unfold timer_at. rewrite E. cbn [mbind res_bind].
assert (∃ q1, (if repeat_ tm && bool_decide ((p, sequence_ tm) ∉ cancelingTimers_ q) then
    '(_, q) ← insert p (set_heap (<[p := restart now tm]> (heap q)) q); Ok q
  else Ok (set_heap (delete p (heap q)) q)) = Ok q1 ∧ tinv l.*2 q1 ∧ (sane → armed (λ t, t ≤ 0) q1) ∧
  callingExpiredTimers_ q1 = callingExpiredTimers_ q ∧ cancelingTimers_ q1 = cancelingTimers_ q ∧
  ran q1 = ran q ∧ numCreated q1 = numCreated q ∧
  heap q1 = partial_alter (λ _, after_expiry now (cancelingTimers_ q) p tm) p (heap q))
  as (q1 & -> & H1 & A1 & C1 & D1 & R1 & N1 & P1).
{ unfold after_expiry.
  destruct (repeat_ tm && bool_decide ((p, sequence_ tm) ∉ cancelingTimers_ q)) eqn:Er.
  - apply andb_true_iff in Er as [Er _]. pose proof (tinv_restart p l.*2 q now tm H E) as H0.
    destruct (insert_ok p l.*2 _ (restart now tm) H0) as (l' & b & -> & H1 & Hp & _); [cbn; by rewrite lookup_insert_eq|rewrite restart_time by (done || by apply (q_heap _ _ H p tm)); by apply R_restart, (q_heap _ _ H p tm)|].
    cbn [mbind res_bind]. eexists. split; [done|]. split_and!; try done.
    intros Hsane t' p' Hi Ht'. cbn [set_timers timers_] in Hi. rewrite Hp in Hi. apply elem_of_cons in Hi as [Heq|Hi].
    + destruct (q_heap _ _ H p tm E) as (_ & Hint & _).
      apply (f_equal fst) in Heq. cbn [fst] in Heq. rewrite restart_time in Heq by done. lia.
    + by apply (Ha Hsane t' p').
  - eexists. split; [done|]. split_and!; try done. by apply tinv_delete. }
cbn [mbind res_bind]. destruct (IH q1 H1 A1) as (q' & -> & H' & A' & C' & R' & Dd & Hin & Hout).
exists q'. split_and!; try done; try congruence.
- intros n Q [Hn Hd]. apply Dd. split; [lia|]. intros p' tm'. rewrite P1.
  destruct (decide (p = p')) as [<-|Hne]; [rewrite lookup_partial_alter_eq|rewrite lookup_partial_alter_ne by done; by apply Hd].
  unfold after_expiry. case_match; [|done]. intros [= <-]. by apply (Hd p tm).
- intros p'. destruct (decide (p = p')) as [<-|Hne].
  + intros _. rewrite Hout, P1, lookup_partial_alter_eq, E by done. done.
  + rewrite elem_of_cons. intros [?|Hi]; [done|]. rewrite (Hin p' Hi), P1, D1. by rewrite lookup_partial_alter_ne.
- intros p'. rewrite not_elem_of_cons. intros [Hne Hn]. rewrite Hout, P1 by done. by rewrite lookup_partial_alter_ne.
Qed.

Section ops.
Context (malloc : gset Z → Z) (callback : Z → list Z → list taction).
Hypothesis malloc_fresh : ∀ X, malloc X ∉ X.

Lemma addTimer_ok out w i r q :
  tinv out q → 0 ≤ i < 2 ^ 62 → R w →
  ∃ p q', addTimer clock malloc w i r q = Ok ((p, numCreated q + 1), q') ∧ tinv out q' ∧ keeps out q q' ∧
    heap q !! p = None ∧ heap q' = <[p := mkTimer w i r (numCreated q + 1)]> (heap q) ∧
    timers_ q' ≡ₚ (w, p) :: timers_ q ∧ numCreated q' = numCreated q + 1.
Proof.
intros H Hi HR. pose proof H as [H1 H2 H3 H4 H5 H6 H7 H8 H9].
pose proof (malloc_fresh (dom (heap q))) as Hf. set (p := malloc (dom (heap q))) in *.
apply not_elem_of_dom in Hf. set (tm := mkTimer w i r (numCreated q + 1)).
set (q1 := set_numCreated (numCreated q + 1) (set_heap (<[p := tm]> (heap q)) q)).
assert (∀ p' tm', heap q !! p' = Some tm' → p ≠ p') as Hne by (intros p' tm' E ->; congruence).
assert (tinv (p :: out) q1) as Hq1.
{ split; cbn [q1 set_numCreated set_heap timers_ activeTimers_ heap numCreated]; try done.
  - intros t p' Hin. destruct (H2 _ _ Hin) as (tm' & E & ? & ?). exists tm'. by rewrite lookup_insert_ne by eauto.
  - intros p' n Hin. destruct (H3 _ _ Hin) as (tm' & E & ? & ?). exists tm'. by rewrite lookup_insert_ne by eauto.
  - intros p'. rewrite elem_of_cons. intros [->|Hin].
    + split; [by rewrite lookup_insert_eq|]. intros n Ha. destruct (H3 _ _ Ha) as (tm' & E & _). congruence.
    + destruct (H5 p' Hin) as [[tm' E] ?]. split; [|done]. rewrite lookup_insert_ne by eauto. by eexists.
  - constructor; [|done]. intros Hin. destruct (H5 p Hin) as [[tm' E] _]. congruence.
  - intros p' tm'. rewrite lookup_insert_Some. intros [[<- <-]|[_ E]].
    + cbn. split_and!; try lia. right. by left.
    + destruct (H7 p' tm' E) as (? & ? & [?|?]); split_and!; try lia; [by left|right; by right].
  - intros p1 p2 t1 t2. rewrite !lookup_insert_Some. intros [[<- <-]|[_ E1]] [[<- <-]|[_ E2]]; cbn; try done.
    + destruct (H7 _ _ E2) as (? & _). lia.
    + destruct (H7 _ _ E1) as (? & _). lia.
    + by apply H8. }
destruct (insert_ok p out q1 tm Hq1) as (l & b & E & Hq2 & Hp & Hb); [cbn; by rewrite lookup_insert_eq|done|].
set (q2 := set_timers _ _ _) in *.
exists p, (if b then resetTimerfd clock w q2 else q2). unfold addTimer. fold p. cbn zeta. fold tm. fold q1.
unfold addTimerInLoop. rewrite E. cbn [mbind res_bind]. unfold timer_at. change (heap q2) with (<[p := tm]> (heap q)).
rewrite lookup_insert_eq. cbn [mbind res_bind]. split; [by destruct b|].
split. { destruct Hq2 as [B1 B2 B3 B4 B5 B6 B7 B8 B9]. destruct b; by split. }
split; [|split_and!; [done|by destruct b|destruct b; exact Hp|by destruct b]].
split.
- intros p' Hin. destruct (H5 p' Hin) as [[tm' E'] _]. destruct b; cbn; by rewrite lookup_insert_ne by eauto.
- by destruct b.
- by destruct b.
- by destruct b.
- intros n Q [Hn Hd]. split; [destruct b; cbn; lia|].
  assert (heap (if b then resetTimerfd clock w q2 else q2) = <[p := tm]> (heap q)) as -> by (by destruct b).
  intros p' tm'. rewrite lookup_insert_Some. intros [[<- <-]|[_ E']]; [cbn; lia|by eapply Hd].
- intros P Hsane HP Ha t p'.
  assert (timers_ (if b then resetTimerfd clock w q2 else q2) = l) as -> by (by destruct b).
  rewrite Hp, elem_of_cons. change (timers_ q1) with (timers_ q) in *. change (expiration_ tm) with w in *.
  assert (∀ t, w ≤ t → b = true → ∃ n d, timerfd (if b then resetTimerfd clock w q2 else q2) = Some (clock n, d) ∧ 100 ≤ d ≤ Z.max 100 (t - clock n)) as Hset.
  { intros t0 Ht ->. rewrite resetTimerfd_sets by done. eexists _, _. split; [reflexivity|]. lia. }
  destruct (timers_ q) as [|[w0 p0] l0] eqn:El.
  + rewrite elem_of_nil. intros [[= -> ->]|[]] _. by apply Hset.
  + destruct (Z.ltb_spec w w0) as [Hlt|Hge].
    * intros Hin _. apply Hset; [|done]. destruct Hin as [[= -> ->]|Hin]; [lia|].
      pose proof (head_least _ _ _ H1 Hin) as Hh. cbn in Hh. lia.
    * subst b. change (timerfd q2) with (timerfd q). intros [[= -> ->]|Hin] HPt; [|apply (Ha t p'); [by rewrite El|done]].
      destruct (Ha w0 p0) as (n & d & ? & ?); [rewrite El; by left|by eapply HP|]. exists n, d. split; [done|lia].
Qed.

(** ** Callbacks *)

(** Intervals a program can ask for: up to 146000 years. *)
Definition act_ok (a : taction) : Prop := match a with AddTimer _ i _ => 0 ≤ i < 2 ^ 62 | CancelTimer _ => True end.

(** A timer is added for one of the times. *)
Definition timed (a : taction) : Prop := match a with AddTimer w _ _ => R w | CancelTimer _ => True end.

Lemma tact_ok out a q :
  tinv out q → act_ok a → timed a → ∃ q', tact clock malloc a q = Ok q' ∧ tinv out q' ∧ keeps out q q'.
Proof.
intros H Ha Ht. destruct a as [w i r|id]; cbn [tact].
- destruct (addTimer_ok out w i r q H Ha Ht) as (p & q' & -> & ? & ? & _). cbn [mbind res_bind]. by exists q'.
- destruct (cancel_ok out id q H) as (q' & -> & ? & ? & _). by exists q'.
Qed.

Lemma tacts_ok out l q :
  tinv out q → Forall act_ok l → Forall timed l → ∃ q', tacts clock malloc l q = Ok q' ∧ tinv out q' ∧ keeps out q q'.
Proof.
revert q. induction l as [|a l IH]; intros q H Hl Hlt; cbn [tacts].
{ exists q. split_and!; [done|done|apply keeps_refl]. }
apply Forall_cons_1 in Hl as [Ha Hl]. apply Forall_cons_1 in Hlt as [Hat Hlt]. destruct (tact_ok out a q H Ha Hat) as (q1 & -> & H1 & K1).
cbn [mbind res_bind]. destruct (IH q1 H1 Hl Hlt) as (q2 & -> & H2 & K2). exists q2.
split_and!; [done|done|by eapply keeps_trans].
Qed.

Hypothesis callback_ok : ∀ n r, Forall act_ok (callback n r).
Hypothesis callback_timed : ∀ n r, Forall timed (callback n r).

(** Identifiers enter [cancelingTimers_] only because a callback cancels them. *)
Lemma insert_canceling p q b q' : insert p q = Ok (b, q') → cancelingTimers_ q' = cancelingTimers_ q.
Proof.
unfold insert. intros (? & _ & (t & _ & H)%bind_Ok_inv)%bind_Ok_inv.
destruct (set_insert _ _) as [l|]; [|done].
apply bind_Ok_inv in H as (? & _ & (? & _ & [= _ <-])%bind_Ok_inv). done.
Qed.

Lemma tact_canceling a q q' id :
  tact clock malloc a q = Ok q' → id ∈ cancelingTimers_ q' → id ∈ cancelingTimers_ q ∨ a = CancelTimer id.
Proof.
destruct a as [w i r|id']; cbn [tact].
- unfold addTimer, addTimerInLoop. intros ([? q1] & H & [= <-])%bind_Ok_inv Hin. left.
  apply bind_Ok_inv in H as (q2 & H & [= _ <-]). apply bind_Ok_inv in H as ([b q3] & H & H').
  apply insert_canceling in H. apply bind_Ok_inv in H' as (t & _ & [= <-]). destruct b; cbn in *; congruence.
- unfold cancelInLoop. intros (? & _ & (q1 & H & (? & _ & [= <-])%bind_Ok_inv)%bind_Ok_inv)%bind_Ok_inv Hin.
  case_decide.
  + apply bind_Ok_inv in H as (t & _ & H). case_match. apply bind_Ok_inv in H as (? & _ & [= <-]). by left.
  + destruct (callingExpiredTimers_ q); injection H as <-; [|by left]. cbn in Hin.
    apply elem_of_union in Hin as [->%elem_of_singleton|?]; [by right|by left].
Qed.

(** For a timer that has expired in this round the set records every cancellation. *)
Lemma tacts_canceling out l q q' id :
  tinv out q → callingExpiredTimers_ q = true → id.1 ∈ out → Forall act_ok l → Forall timed l → tacts clock malloc l q = Ok q' →
  id ∈ cancelingTimers_ q' ↔ id ∈ cancelingTimers_ q ∨ CancelTimer id ∈ l.
Proof.
intros H Hc Hid. revert q H Hc. induction l as [|a l IH]; intros q H Hc Hl Hlt; cbn [tacts].
{ intros [= <-]. rewrite elem_of_nil. tauto. }
apply Forall_cons_1 in Hl as [Ha Hl]. apply Forall_cons_1 in Hlt as [Hat Hlt]. destruct (tact_ok out a q H Ha Hat) as (q1 & E & H1 & K1). rewrite E.
cbn [mbind res_bind]. intros E'. rewrite (IH q1 H1), elem_of_cons by (done || by rewrite (k_calling _ _ _ K1)).
assert (id ∈ cancelingTimers_ q1 ↔ id ∈ cancelingTimers_ q ∨ CancelTimer id = a); [|tauto].
split; [intros Hi; destruct (tact_canceling _ _ _ _ E Hi); auto|]. intros [Hi|<-]; [by apply (k_canceling _ _ _ K1)|].
destruct (cancel_ok out id q H) as (q2 & E2 & _ & _ & _ & _ & _ & Hin). cbn [tact] in E.
rewrite E in E2. injection E2 as <-. apply Hin; [done|]. destruct id as [p n]. by apply (q_out _ _ H p Hid).
Qed.

(** A callback of the round that ran [ns] cancelled the timer. *)
Definition cancelled_in (q : TimerQueue) (ns : list Z) (id : ActiveTimer) : Prop :=
  ∃ k n, ns !! k = Some n ∧ CancelTimer id ∈ callback n (ran q ++ take k ns).

(** Each expired timer runs once, in order. *)
Lemma run_expired_ok out l ns q :
  tinv out q → Forall (λ e, e.2 ∈ out) l →
  Forall2 (λ e n, ∃ tm, heap q !! e.2 = Some tm ∧ sequence_ tm = n) l ns →
  ∃ q', run_expired clock malloc callback l q = Ok q' ∧ tinv out q' ∧ ran q' = ran q ++ ns ∧
    keeps out (set_ran (ran q ++ ns) q) q' ∧
    (callingExpiredTimers_ q = true → ∀ id, id.1 ∈ out →
       id ∈ cancelingTimers_ q' ↔ id ∈ cancelingTimers_ q ∨ cancelled_in q ns id).
Proof.
revert q ns. induction l as [|[t p] l IH]; intros q ns H Hl Hns; cbn [run_expired].
{ apply Forall2_nil_inv_l in Hns as ->. rewrite app_nil_r. exists q.
  split_and!; [done|done|done|by destruct q|]. intros _ id _. split; [by left|]. by intros [?|(k & n & ? & _)]. }
apply Forall2_cons_inv_l in Hns as (n & ns' & (tm & E & <-) & Hns & ->). cbn [snd] in E.
apply Forall_cons_1 in Hl as [Hp Hl]. unfold run_timer, timer_at. rewrite E. cbn [mbind res_bind].
set (q1 := set_ran _ q). assert (tinv out q1) as H1 by (by destruct H; split).
destruct (tacts_ok out (callback (sequence_ tm) (ran q)) q1 H1 (callback_ok _ _) (callback_timed _ _)) as (q2 & E2 & H2 & K2).
rewrite E2. cbn [mbind res_bind]. destruct (IH q2 ns' H2 Hl) as (q3 & -> & H3 & R3 & K3 & C3).
{ rewrite Forall_forall in Hl. clear - Hns K2 Hl. induction Hns as [|[t' p'] n l ns' (tm' & E & ?) Hns IH]; constructor.
  - exists tm'. split; [|done]. rewrite (k_out _ _ _ K2); [done|]. apply (Hl (t', p')). by left.
  - apply IH. intros x Hx. apply Hl. by right. }
exists q3. rewrite (k_ran _ _ _ K2) in R3, K3. cbn in R3, K3. rewrite <- app_assoc in R3, K3.
split_and!; [done|done|done| |].
{ eapply keeps_trans; [|exact K3]. destruct K2 as [A1 A2 A3 A4 A5 A6]. by split. }
intros Hc id Hid. rewrite C3 by (done || by rewrite (k_calling _ _ _ K2)).
rewrite (tacts_canceling out _ q1 q2 id H1 Hc Hid (callback_ok _ _) (callback_timed _ _) E2). unfold cancelled_in.
rewrite (k_ran _ _ _ K2). cbn [q1 set_ran ran cancelingTimers_]. setoid_rewrite <- app_assoc. split.
- intros [[?|Hi]|(k & n & Hk & Hi)]; [by left| |].
  + right. exists 0%nat, (sequence_ tm). by rewrite app_nil_r.
  + right. by exists (Datatypes.S k), n.
- intros [?|([|k] & n & Hk & Hi)]; [by left; left| |].
  + injection Hk as <-. rewrite app_nil_r in Hi. left. by right.
  + right. by exists k, n.
Qed.


(** ** A round *)

(** The sequence numbers of some entries. *)
Definition numbers (q : TimerQueue) (l : list Entry) (ns : list Z) : Prop :=
  Forall2 (λ e n, ∃ tm, heap q !! e.2 = Some tm ∧ sequence_ tm = n) l ns.

Lemma numbers_exist out q l : tinv out q → l ⊆ timers_ q → ∃ ns, numbers q l ns.
Proof.
intros H. induction l as [|[t p] l IH]; intros Hl; [exists []; constructor|].
destruct IH as [ns Hns]; [intros x Hx; apply Hl; by right|].
destruct (q_entry _ _ H t p) as (tm & E & _); [apply Hl; by left|].
exists (sequence_ tm :: ns). constructor; [by exists tm|done].
Qed.

Lemma filter_due now l a b :
  l = a ++ b → Forall (λ e, e.1 ≤ now) a → Forall (λ e : Entry, now < e.1) b → filter (λ e, e.1 ≤ now) l = a.
Proof.
intros -> Ha Hb. rewrite filter_app. rewrite <- (app_nil_r a) at 2. f_equal.
- induction Ha as [|x a Hx _ IH]; [done|]. rewrite filter_cons_True by done. by rewrite IH.
- induction Hb as [|x b Hx _ IH]; [done|]. rewrite filter_cons_False by lia. done.
Qed.

(** The end of [reset]: the descriptor is set for the earliest timer. *)
Lemma arm_first_ok q :
  tinv [] q → (sane → armed (λ t, t ≤ 0) q) →
  ∃ q', match timers_ q with
        | [] => Ok q
        | (_, p) :: _ => t ← timer_at p q; Ok (if valid (expiration_ t) then resetTimerfd clock (expiration_ t) q else q)
        end = Ok q' ∧ tinv [] q' ∧ (sane → armed (λ _, True) q') ∧ ran q' = ran q ∧ heap q' = heap q ∧
    numCreated q' = numCreated q ∧ callingExpiredTimers_ q' = callingExpiredTimers_ q.
Proof.
intros H Ha. destruct (timers_ q) as [|[w p] rest] eqn:Et.
- exists q. split_and!; try done. intros _ t p Hi. rewrite Et in Hi. by apply elem_of_nil in Hi.
- destruct (q_entry _ _ H w p) as (tm & E & Hw & _); [rewrite Et; by left|]. unfold timer_at. rewrite E.
  cbn [mbind res_bind]. pose proof (q_sorted _ _ H) as Hs. rewrite Et in Hs. unfold valid. rewrite Hw.
  assert (∀ t p', (t, p') ∈ timers_ q → w ≤ t) as Hleast.
  { intros t p' Hi. rewrite Et in Hi. by pose proof (head_least _ _ _ Hs Hi). }
  destruct (Z.ltb_spec 0 w) as [Hpos|Hneg]; eexists; (split; [done|]); split_and!; try done.
  + by destruct H; split.
  + intros Hsane t p' Hi _. apply Hleast in Hi. rewrite resetTimerfd_sets; [eexists _, _; split; [reflexivity|lia]|done|].
    apply (q_times _ _ H w p). rewrite Et. by left.
  + intros Hsane t p' Hi _. apply Hleast in Hi. destruct (Ha Hsane w p) as (n & d & ? & ?); [rewrite Et; by left|lia|]. exists n, d. split; [done|lia].
Qed.

Lemma handleRead_ok now q :
  0 < now < 2 ^ 62 → tinv [] q →
  ∃ q' ns c, handleRead clock malloc callback now q = Ok q' ∧ tinv [] q' ∧ (sane → armed (λ _, True) q') ∧
    callingExpiredTimers_ q' = false ∧ ran q' = ran q ++ ns ∧ numbers q (filter (λ e, e.1 ≤ now) (timers_ q)) ns ∧
    (∀ n Q, only n Q q → only n Q q') ∧
    (∀ p tm, heap q !! p = Some tm → expiration_ tm ≤ now → heap q' !! p = after_expiry now c p tm) ∧
    (∀ p tm, heap q !! p = Some tm → expiration_ tm ≤ now → (p, sequence_ tm) ∈ c ↔ cancelled_in q ns (p, sequence_ tm)).
Proof.
intros Hnow H. unfold handleRead. set (q0 := set_timerfd None (reads q) q).
assert (tinv [] q0) as H0 by (by destruct H; split).
destruct (getExpired_ok now q0 H0) as (l & q1 & -> & H1 & Hl & Hle & Hgt & Eh & Er & En & Ef).
cbn [mbind res_bind]. change (timers_ q0) with (timers_ q) in Hl. change (heap q0) with (heap q) in Eh.
rewrite (filter_due now _ l (timers_ q1) Hl Hle Hgt).
assert (∀ p tm, heap q !! p = Some tm → expiration_ tm ≤ now → p ∈ l.*2) as Hdue.
{ intros p tm E Ht. destruct (q_heap _ _ H p tm E) as (_ & _ & [Ha|Hi]); [|by apply elem_of_nil in Hi].
  destruct (q_active _ _ H _ _ Ha) as (tm' & E' & _ & Hi). rewrite E in E'. injection E' as <-.
  rewrite Hl in Hi. apply elem_of_app in Hi as [Hi|Hi]; [apply list_elem_of_fmap; by exists (expiration_ tm, p)|].
  rewrite Forall_forall in Hgt. apply Hgt in Hi. cbn in Hi. lia. }
destruct (numbers_exist [] q l H) as [ns Hns]; [intros x Hx; rewrite Hl; apply elem_of_app; by left|].
set (q2 := set_canceling true ∅ q1). assert (tinv l.*2 q2) as H2 by (by destruct H1; split).
destruct (run_expired_ok l.*2 l ns q2 H2) as (q3 & -> & H3 & R3 & K3 & C3).
{ apply Forall_forall. intros e He. apply list_elem_of_fmap. by exists e. }
{ unfold numbers in Hns. change (heap q2) with (heap q1). by rewrite Eh. }
cbn [mbind res_bind]. unfold reset. set (q4 := set_canceling false _ q3).
assert (tinv l.*2 q4) as H4 by (by destruct H3; split).
assert (sane → armed (λ t, t ≤ 0) q4) as A4.
{ intros Hsane. apply (k_armed _ _ _ K3 (λ t, t ≤ 0) Hsane); [intros ?; lia|]. intros t p Hi Ht. cbn in Hi.
  rewrite Forall_forall in Hgt. apply Hgt in Hi. cbn in Hi. lia. }
destruct (reset_loop_ok now l q4 Hnow H4 A4) as (q5 & -> & H5 & A5 & C5 & R5 & O5 & I5 & _). cbn [mbind res_bind].
destruct (arm_first_ok q5 H5 A5) as (q' & -> & Hq' & Aq' & Er' & Eh' & En' & Ec').
exists q', ns, (cancelingTimers_ q3). split_and!; try done.
- by rewrite Ec', C5.
- rewrite Er', R5. cbn. rewrite R3. cbn. by rewrite Er.
- intros n Q Ho. assert (only n Q q5) as [Hn Hq].
  { apply O5. destruct (k_only _ _ _ K3 n Q) as [Hn Hq]; [|by split].
    destruct Ho as [Hn Hq]. split; cbn; [by rewrite En|by rewrite Eh]. }
  split; [by rewrite En'|by rewrite Eh'].
- intros p tm E Ht. pose proof (Hdue p tm E Ht) as Hp. rewrite Eh', (I5 p Hp). change (heap q4) with (heap q3).
  rewrite (k_out _ _ _ K3 p Hp). cbn. by rewrite Eh, E.
- intros p tm E Ht. rewrite (C3 eq_refl (p, sequence_ tm) (Hdue p tm E Ht)).
  change (cancelingTimers_ q2) with (∅ : gset ActiveTimer). rewrite elem_of_empty.
  unfold cancelled_in. change (ran q2) with (ran q1). rewrite Er. cbn [q0 set_timerfd ran]. tauto.
Qed.

(** ** Runs *)

(** What happens to a queue: the program adds or cancels a timer, the descriptor expires. *)
Inductive top := Act (a : taction) | Fire (now : Z).

Definition top_ok (o : top) : Prop := match o with Act a => act_ok a | Fire now => 0 < now < 2 ^ 62 end.

Definition top_timed (o : top) : Prop := match o with Act a => timed a | Fire _ => True end.

Definition run_top (o : top) (q : TimerQueue) : res TimerQueue :=
  match o with Act a => tact clock malloc a q | Fire now => handleRead clock malloc callback now q end.

Fixpoint run_tops (ops : list top) (q : TimerQueue) : res TimerQueue :=
  match ops with
  | [] => Ok q
  | o :: ops => q ← run_top o q; run_tops ops q
  end.

Lemma tinv_ctor : tinv [] TimerQueue_ctor.
Proof.
split; cbn [TimerQueue_ctor timers_ activeTimers_ heap numCreated].
- constructor.
- by intros t p ?%elem_of_nil.
- by intros p n ?%not_elem_of_empty.
- by rewrite size_empty.
- by intros p ?%elem_of_nil.
- constructor.
- intros p tm. by rewrite lookup_empty.
- intros p p' tm tm'. by rewrite lookup_empty.
- by intros t p ?%elem_of_nil.
Qed.

(** An operation between rounds: what it keeps, and which timers ran. *)
Record idle_step (q q' : TimerQueue) : Prop := {
  s_inv : tinv [] q';
  s_armed : sane → armed (λ _, True) q → armed (λ _, True) q';
  s_only n Q : only n Q q → only n Q q';
  s_ran : ∃ ns, ran q' = ran q ++ ns ∧ ∀ n, n ∈ ns → ∃ p tm, heap q !! p = Some tm ∧ sequence_ tm = n;
}.

Lemma numbers_from q l ns n : numbers q l ns → n ∈ ns → ∃ p tm, heap q !! p = Some tm ∧ sequence_ tm = n.
Proof.
intros H Hn. apply list_elem_of_lookup in Hn as [i Hi].
destruct (Forall2_lookup_r _ _ _ _ _ H Hi) as (e & _ & tm & ? & ?). by exists e.2, tm.
Qed.

Lemma run_top_ok o q : tinv [] q → top_ok o → top_timed o → ∃ q', run_top o q = Ok q' ∧ idle_step q q'.
Proof.
intros H Ho Ht. destruct o as [a|now]; cbn [run_top].
- destruct (tact_ok [] a q H Ho Ht) as (q' & -> & H' & K). exists q'. split; [done|].
  split; [done|intros Hsane; by apply (k_armed _ _ _ K)|apply (k_only _ _ _ K)|]. exists []. rewrite app_nil_r.
  split; [apply (k_ran _ _ _ K)|by intros n ?%elem_of_nil].
- destruct (handleRead_ok now q Ho H) as (q' & ns & c & -> & H' & A & _ & Rn & N & O & _). exists q'.
  split; [done|]. split; [done|auto|done|]. exists ns. split; [done|]. intros n. by apply (numbers_from q _ ns n N).
Qed.

Lemma run_tops_ok ops q :
  tinv [] q → Forall top_ok ops → Forall top_timed ops →
  ∃ q', run_tops ops q = Ok q' ∧ tinv [] q' ∧ (sane → armed (λ _, True) q → armed (λ _, True) q') ∧
    (∀ n Q, only n Q q → only n Q q') ∧
    ∃ ns, ran q' = ran q ++ ns ∧ ∀ n, only n (λ _, False) q → n ∉ ns.
Proof.
revert q. induction ops as [|o ops IH]; intros q H Ho Hot; cbn [run_tops].
{ exists q. split_and!; try done. exists []. rewrite app_nil_r. split; [done|]. intros n _. apply not_elem_of_nil. }
apply Forall_cons_1 in Ho as [Ho Hos]. apply Forall_cons_1 in Hot as [Hot Hots]. destruct (run_top_ok o q H Ho Hot) as (q1 & -> & [H1 A1 O1 (ns & R1 & N1)]).
cbn [mbind res_bind]. destruct (IH q1 H1 Hos Hots) as (q2 & -> & H2 & A2 & O2 & ns2 & R2 & N2).
exists q2. split_and!; try done; [auto|auto|]. exists (ns ++ ns2). rewrite R2, R1, app_assoc. split; [done|].
intros n Hn. rewrite not_elem_of_app. split; [|by apply N2, O1]. intros Hin.
destruct (N1 n Hin) as (p & tm & E & Es). by destruct Hn as [_ Hn]; apply (Hn p tm).
Qed.
End ops.
End spec.

(** The documented behaviour of [malloc]: an address in use is not given again. *)
Definition allocates (malloc : gset Z → Z) : Prop := ∀ X, malloc X ∉ X.

Definition callbacks_ok (callback : Z → list Z → list taction) : Prop := ∀ n r, Forall act_ok (callback n r).

(** The clock shows a time of the next 146000 years, and every timer is added for a time
    whose distance from the clock fits into 64 bits. *)
Definition times_ok (clock : nat → Z) (callback : Z → list Z → list taction) (ops : list top) : Prop :=
  (∀ n, 0 ≤ clock n < 2 ^ 62) ∧ (∀ n r, Forall (timed in_range) (callback n r)) ∧ Forall (top_timed in_range) ops.

(** Every time will do, as far as the sets and the heap are concerned. *)
Lemma any_timed (l : list taction) : Forall (timed (λ _, True)) l.
Proof. apply Forall_forall. by intros []. Qed.
Lemma any_top_timed (l : list top) : Forall (top_timed (λ _, True)) l.
Proof. apply Forall_forall. by intros [[]|]. Qed.

Lemma run_tops_any clock malloc callback ops q :
  allocates malloc → callbacks_ok callback → tinv (λ _, True) [] q → Forall top_ok ops →
  ∃ q', run_tops clock malloc callback ops q = Ok q' ∧ tinv (λ _, True) [] q' ∧ (∀ n Q, only n Q q → only n Q q') ∧
    ∃ ns, ran q' = ran q ++ ns ∧ ∀ n, only n (λ _, False) q → n ∉ ns.
Proof.
intros Hm Hc H Ho.
destruct (run_tops_ok clock (λ _, True) ltac:(done) malloc callback Hm Hc ltac:(intros; apply any_timed) ops q H Ho (any_top_timed ops))
  as (q' & E & H' & _ & O & N). by exists q'.
Qed.

(** ** Theorems *)

(** C19: The timer queue is safe and never sleeps through a timer.  Whatever the program
    adds and cancels, between rounds and in the callbacks of a round, no assertion
    fails and no deleted timer is read; every timer that exists is scheduled at its
    expiration.  If any is scheduled, and times and clock are within the range in which
    their differences fit into 64 bits, the descriptor is armed: counted from the reading
    of the clock at which it was set, it expires when the earliest timer is due or before,
    but never in less than 100 microseconds. *)
Theorem timer_queue_safe clock malloc callback ops :
  allocates malloc → callbacks_ok callback → Forall top_ok ops →
  ∃ q, run_tops clock malloc callback ops TimerQueue_ctor = Ok q ∧
    length (timers_ q) = size (activeTimers_ q) ∧
    (∀ p tm, heap q !! p = Some tm ↔ ∃ n, (p, n) ∈ activeTimers_ q ∧ heap q !! p = Some tm ∧
       sequence_ tm = n ∧ (expiration_ tm, p) ∈ timers_ q) ∧
    (times_ok clock callback ops → ∀ t p, (t, p) ∈ timers_ q →
       ∃ n d, timerfd q = Some (clock n, d) ∧ 100 ≤ d ≤ Z.max 100 (t - clock n)).
Proof.
intros Hm Hc Ho. destruct (run_tops_any clock malloc callback ops _ Hm Hc (tinv_ctor _) Ho) as (q & E & H & _).
exists q. split_and!; [done|apply (q_size _ _ _ H)| |].
- intros p tm. split; [|by intros (n & _ & ? & _)]. intros Ep.
  destruct (q_heap _ _ _ H p tm Ep) as (_ & _ & [Hi|Hi]); [|by apply elem_of_nil in Hi].
  destruct (q_active _ _ _ H _ _ Hi) as (tm' & E' & _ & ?). rewrite Ep in E'. injection E' as <-.
  by exists (sequence_ tm).
- intros (Hck & Hct & Hot). assert (∀ now i, 0 < now < 2 ^ 62 → 0 ≤ i < 2 ^ 62 → in_range (now + i)) as Hrs by (unfold in_range; lia).
  destruct (run_tops_ok clock in_range Hrs malloc callback Hm Hc Hct ops _ (tinv_ctor _) Ho Hot) as (q' & E' & _ & Ha & _).
  rewrite E in E'. injection E' as <-. intros t p Hi. apply (Ha ltac:(by split) ltac:(by intros ?? ?%elem_of_nil) t p Hi I).
Qed.

(** C20: Timers run when they are due.  When the descriptor expires at [now], exactly the
    timers with an expiration up to [now] run, each once and in the order of their
    expirations; afterwards a repeating one that no callback of the round cancelled is scheduled for
    [now] plus its interval, and every other one is deleted. *)
Theorem timers_due clock malloc callback ops q now :
  allocates malloc → callbacks_ok callback → Forall top_ok ops →
  run_tops clock malloc callback ops TimerQueue_ctor = Ok q → 0 < now < 2 ^ 62 →
  sorted (timers_ q) ∧
  ∃ q' ns (c : gset ActiveTimer), handleRead clock malloc callback now q = Ok q' ∧ ran q' = ran q ++ ns ∧
    numbers q (filter (λ e, e.1 ≤ now) (timers_ q)) ns ∧
    (∀ p tm, heap q !! p = Some tm → expiration_ tm ≤ now → heap q' !! p =
       if repeat_ tm && bool_decide ((p, sequence_ tm) ∉ c)
       then Some (mkTimer (now + interval_ tm) (interval_ tm) true (sequence_ tm)) else None) ∧
    (∀ p tm, heap q !! p = Some tm → expiration_ tm ≤ now →
       (p, sequence_ tm) ∈ c ↔ cancelled_in callback q ns (p, sequence_ tm)).
Proof.
intros Hm Hc Ho E Hnow. destruct (run_tops_any clock malloc callback ops _ Hm Hc (tinv_ctor _) Ho) as (q1 & E1 & H & _).
rewrite E in E1. injection E1 as <-. split; [apply (q_sorted _ _ _ H)|].
destruct (handleRead_ok clock (λ _, True) ltac:(done) malloc callback Hm Hc ltac:(intros; apply any_timed) now q Hnow H)
  as (q' & ns & c & -> & _ & _ & _ & Rn & N & _ & Hp & Hcc).
exists q', ns, c. split_and!; try done. intros p tm Ep Ht. rewrite (Hp p tm Ep Ht). unfold after_expiry.
destruct (repeat_ tm) eqn:Er; [|done]. cbn [andb]. case_bool_decide; [|done]. f_equal.
rewrite <- (restart_time now tm) by (done || by apply (q_heap _ _ _ H p tm)). unfold restart. by rewrite Er.
Qed.

(** A cancelled timer never runs again.  For every timer the program adds, at any
    point, and cancels later between rounds, no round after that runs it, whatever
    address later timers get. *)
Theorem cancelled_never_runs clock malloc callback ops w i r ops2 ops3 :
  allocates malloc → callbacks_ok callback → Forall top_ok ops → 0 ≤ i < 2 ^ 62 →
  Forall top_ok ops2 → Forall top_ok ops3 →
  ∃ q1 id q2 q3 q4 q5 ns, run_tops clock malloc callback ops TimerQueue_ctor = Ok q1 ∧
    addTimer clock malloc w i r q1 = Ok (id, q2) ∧ run_tops clock malloc callback ops2 q2 = Ok q3 ∧
    cancelInLoop id q3 = Ok q4 ∧ run_tops clock malloc callback ops3 q4 = Ok q5 ∧
    ran q5 = ran q4 ++ ns ∧ id.2 ∉ ns.
Proof.
intros Hm Hc Ho1 Hi Ho2 Ho3.
destruct (run_tops_any clock malloc callback ops _ Hm Hc (tinv_ctor _) Ho1) as (q1 & E1 & H1 & _).
destruct (addTimer_ok clock (λ _, True) malloc Hm [] w i r q1 H1 Hi I) as (p & q2 & E2 & H2 & _ & Hp & Eh & _ & En).
destruct (run_tops_any clock malloc callback ops2 _ Hm Hc H2 Ho2) as (q3 & E3 & H3 & O3 & _).
destruct (cancel_ok clock (λ _, True) [] (p, numCreated q1 + 1) q3 H3) as (q4 & E4 & H4 & K4 & Hna & En4 & Hh4 & _).
destruct (run_tops_any clock malloc callback ops3 _ Hm Hc H4 Ho3) as (q5 & E5 & _ & _ & ns & R5 & N5).
exists q1, (p, numCreated q1 + 1), q2, q3, q4, q5, ns. split_and!; try done. apply N5.
assert (only (numCreated q1 + 1) (λ p', p' = p) q3) as Ho.
{ apply O3. split; [lia|]. intros p' tm. rewrite Eh, lookup_insert_Some. intros [[<- _]|[_ E]]; [done|].
  destruct (q_heap _ _ _ H1 _ _ E) as (? & _). lia. }
destruct (k_only _ _ _ _ _ K4 _ _ Ho) as [Hn Hq]. split; [done|]. intros p' tm E Es.
assert (p' = p) as -> by (by eapply Hq).
destruct (q_heap _ _ _ H4 p tm E) as (_ & _ & [Ha|Hin]); [|by apply elem_of_nil in Hin].
by rewrite Es in Ha.
Qed.

(** Why there is a floor: at the time a timer is due there are no microseconds left, and a
    relative time of zero would disarm the descriptor. *)
Lemma zero_disarms now old : timerfd_settime now (0, 0) old = None.
Proof. done. Qed.

(** ** Examples *)

Definition demo_malloc (X : gset Z) : Z := fresh X.

Lemma demo_allocates : allocates demo_malloc.
Proof. intros X. apply is_fresh. Qed.

(** The second timer adds another one when it runs. *)
Definition demo_callback (n : Z) (r : list Z) : list taction :=
  if n =? 2 then [AddTimer 900 0 false; CancelTimer (77, 1)] else [].

Lemma demo_callbacks_ok : callbacks_ok demo_callback.
Proof. intros n r. unfold demo_callback. destruct (n =? 2); repeat constructor; lia. Qed.

(** A repeating timer and one that runs once; both expire together. *)
Definition demo_ops : list top := [Act (AddTimer 500 100 true); Act (AddTimer 400 0 false); Fire 600].

Lemma demo_ops_ok : Forall top_ok demo_ops.
Proof. repeat constructor; cbn; lia. Qed.

(** The clock is read at 300, 350 and 610. *)
Definition demo_clock (n : nat) : Z := match n with O => 300 | S O => 350 | _ => 610 end.

Lemma demo_times_ok : times_ok demo_clock demo_callback demo_ops.
Proof.
split_and!.
- intros [|[|n]]; cbn; lia.
- intros n r. unfold demo_callback. destruct (n =? 2); repeat constructor; unfold in_range; lia.
- repeat constructor; unfold in_range; lia.
Qed.

Lemma timer_queue_safe_witness :
  ∃ q, run_tops demo_clock demo_malloc demo_callback demo_ops TimerQueue_ctor = Ok q ∧
    length (timers_ q) = size (activeTimers_ q) ∧
    (∀ p tm, heap q !! p = Some tm ↔ ∃ n, (p, n) ∈ activeTimers_ q ∧ heap q !! p = Some tm ∧
       sequence_ tm = n ∧ (expiration_ tm, p) ∈ timers_ q) ∧
    (∀ t p, (t, p) ∈ timers_ q → ∃ n d, timerfd q = Some (demo_clock n, d) ∧ 100 ≤ d ≤ Z.max 100 (t - demo_clock n)).
Proof.
destruct (timer_queue_safe demo_clock demo_malloc demo_callback demo_ops demo_allocates demo_callbacks_ok demo_ops_ok) as (q & H1 & H2 & H3 & H4).
exists q. split_and!; [done|done|done|]. exact (H4 demo_times_ok).
Defined.

Definition demo_queue : TimerQueue :=
  match run_tops demo_clock demo_malloc demo_callback demo_ops TimerQueue_ctor with Ok q => q | Fault _ => TimerQueue_ctor end.

(** The one that runs once went first; the repeating one is due at 700, the new one at 900; the
    descriptor was set at 610 and has 100 microseconds, the least it is given. *)
Example demo_run : ran demo_queue = [2; 1] ∧ (timers_ demo_queue).*1 = [700; 900] ∧ timerfd demo_queue = Some (610, 100).
Proof. vm_compute. by split_and!. Qed.

Lemma timers_due_witness :
  sorted (timers_ demo_queue) ∧
  ∃ q' ns (c : gset ActiveTimer), handleRead demo_clock demo_malloc demo_callback 800 demo_queue = Ok q' ∧
    ran q' = ran demo_queue ++ ns ∧ numbers demo_queue (filter (λ e, e.1 ≤ 800) (timers_ demo_queue)) ns ∧
    (∀ p tm, heap demo_queue !! p = Some tm → expiration_ tm ≤ 800 → heap q' !! p =
       if repeat_ tm && bool_decide ((p, sequence_ tm) ∉ c)
       then Some (mkTimer (800 + interval_ tm) (interval_ tm) true (sequence_ tm)) else None) ∧
    (∀ p tm, heap demo_queue !! p = Some tm → expiration_ tm ≤ 800 →
       (p, sequence_ tm) ∈ c ↔ cancelled_in demo_callback demo_queue ns (p, sequence_ tm)).
Proof.
apply (timers_due demo_clock demo_malloc demo_callback demo_ops demo_queue 800 demo_allocates demo_callbacks_ok demo_ops_ok).
- vm_compute. reflexivity.
- lia.
Defined.

Lemma cancelled_never_runs_witness :
  ∃ q1 id q2 q3 q4 q5 ns, run_tops demo_clock demo_malloc demo_callback demo_ops TimerQueue_ctor = Ok q1 ∧
    addTimer demo_clock demo_malloc 1000 50 true q1 = Ok (id, q2) ∧ run_tops demo_clock demo_malloc demo_callback [Fire 1100] q2 = Ok q3 ∧
    cancelInLoop id q3 = Ok q4 ∧ run_tops demo_clock demo_malloc demo_callback [Fire 2000; Fire 3000] q4 = Ok q5 ∧
    ran q5 = ran q4 ++ ns ∧ id.2 ∉ ns.
Proof.
apply (cancelled_never_runs demo_clock demo_malloc demo_callback demo_ops 1000 50 true [Fire 1100] [Fire 2000; Fire 3000]
  demo_allocates demo_callbacks_ok demo_ops_ok); [lia|..]; repeat constructor; cbn; lia.
Defined.
