(* ===== verification/CoLink.v ===== *)
(** The intrusive doubly-linked lists of [cocgi/cocgi_lib/libco/co_routine.cpp]:
    [AddTail], [PopHead], [RemoveFromLink] and [Join], over a heap of nodes and list
    heads.  A node carries its neighbours and the list it is on; the templates are used
    for time-out items and for condition items, each with a heap of its own.

    [lists h ls] says that the heap [h] holds the lists [ls].  Each operation is proved
    to do on the heap what its name says on lists. *)

From Stdlib Require Import ZArith Lia Bool.
From Stdlib.Strings Require Import Byte.
From stdpp Require Import base numbers list gmap option.
From S2P Require Import Prelude.

(** ** Heap *)

Record node := mkNode { pPrev : option nat; pNext : option nat; pLink : option nat }.
Record link := mkLink { lhead : option nat; ltail : option nat }.
Record lheap := mkLHeap { nodes : gmap nat node; links : gmap nat link }.

Definition node_at (h : lheap) (x : nat) : res node :=
  match nodes h !! x with Some n => Ok n | None => Fault OutOfBounds end.
Definition link_at (h : lheap) (l : nat) : res link :=
  match links h !! l with Some k => Ok k | None => Fault OutOfBounds end.
Definition set_node (x : nat) (n : node) (h : lheap) : lheap := mkLHeap (<[x := n]> (nodes h)) (links h).
Definition set_link (l : nat) (k : link) (h : lheap) : lheap := mkLHeap (nodes h) (<[l := k]> (links h)).

(** [x->pPrev = v], through a pointer that may be null. *)
Definition store_pPrev (x : option nat) (v : option nat) (h : lheap) : res lheap :=
  match x with
  | None => Fault OutOfBounds
  | Some x => n ← node_at h x; Ok (set_node x (mkNode v (pNext n) (pLink n)) h)
  end.
Definition store_pNext (x : option nat) (v : option nat) (h : lheap) : res lheap :=
  match x with
  | None => Fault OutOfBounds
  | Some x => n ← node_at h x; Ok (set_node x (mkNode (pPrev n) v (pLink n)) h)
  end.

(** ** Operations *)

Definition RemoveFromLink (ap : nat) (h : lheap) : res lheap :=
  n ← node_at h ap;
  match pLink n with
  | None => Ok h
  | Some l =>
      lst ← link_at h l;
      assert_ (bool_decide (is_Some (lhead lst) ∧ is_Some (ltail lst))) ;;
      h ← (if decide (lhead lst = Some ap) then
             let h := set_link l (mkLink (pNext n) (ltail lst)) h in
             if pNext n is Some _ then store_pPrev (pNext n) None h else Ok h
           else if pPrev n is Some _ then store_pNext (pPrev n) (pNext n) h else Ok h);
      lst ← link_at h l;
      n ← node_at h ap;
      h ← (if decide (ltail lst = Some ap) then
             let h := set_link l (mkLink (lhead lst) (pPrev n)) h in
             if pPrev n is Some _ then store_pNext (pPrev n) None h else Ok h
           else store_pPrev (pNext n) (pPrev n) h);
      Ok (set_node ap (mkNode None None None) h)
  end.

Definition AddTail (apLink ap : nat) (h : lheap) : res lheap :=
  n ← node_at h ap;
  if pLink n is Some _ then Ok h else
  lst ← link_at h apLink;
  h ← (match ltail lst with
       | Some t =>
           h ← store_pNext (Some t) (Some ap) h;
           n ← node_at h ap;
           let h := set_node ap (mkNode (Some t) None (pLink n)) h in
           Ok (set_link apLink (mkLink (lhead lst) (Some ap)) h)
       | None =>
           let h := set_link apLink (mkLink (Some ap) (Some ap)) h in
           Ok (set_node ap (mkNode None None (pLink n)) h)
       end);
  n ← node_at h ap;
  Ok (set_node ap (mkNode (pPrev n) (pNext n) (Some apLink)) h).

Definition PopHead (apLink : nat) (h : lheap) : res lheap :=
  lst ← link_at h apLink;
  match lhead lst with
  | None => Ok h
  | Some lp =>
      n ← node_at h lp;
      let lst := if decide (lhead lst = ltail lst) then mkLink None None else mkLink (pNext n) (ltail lst) in
      let h := set_node lp (mkNode None None None) (set_link apLink lst h) in
      if lhead lst is Some _ then store_pPrev (lhead lst) None h else Ok h
  end.

(** The loop of [Join]: every node from [lp] on belongs to [apLink]. *)
Fixpoint relink (fuel : nat) (lp : option nat) (apLink : nat) (h : lheap) : res lheap :=
  match lp with
  | None => Ok h
  | Some x =>
      match fuel with
      | O => Fault OutOfFuel
      | S fuel =>
          n ← node_at h x;
          relink fuel (pNext n) apLink (set_node x (mkNode (pPrev n) (pNext n) (Some apLink)) h)
      end
  end.

Definition Join (apLink apOther : nat) (h : lheap) : res lheap :=
  other ← link_at h apOther;
  match lhead other with
  | None => Ok h
  | Some lp =>
      h ← relink (size (nodes h)) (Some lp) apLink h;
      lst ← link_at h apLink;
      h ← (match ltail lst with
           | Some t =>
               h ← store_pNext (Some t) (Some lp) h;
               h ← store_pPrev (Some lp) (Some t) h;
               Ok (set_link apLink (mkLink (lhead lst) (ltail other)) h)
           | None => Ok (set_link apLink (mkLink (lhead other) (ltail other)) h)
           end);
      Ok (set_link apOther (mkLink None None) h)
  end.

(** ** Representation *)

(** The node at position [i] of the list [xs] with head [l]. *)
Definition node_of (l : nat) (xs : list nat) (i : nat) : node :=
  mkNode (if i is S j then xs !! j else None) (xs !! S i) (Some l).

Definition link_of (xs : list nat) : link := mkLink (xs !! 0%nat) (xs !! (length xs - 1)%nat).

Record lists (h : lheap) (ls : gmap nat (list nat)) : Prop := {
  l_link l xs : ls !! l = Some xs → links h !! l = Some (link_of xs);
  l_node l xs i x : ls !! l = Some xs → xs !! i = Some x → nodes h !! x = Some (node_of l xs i);
  l_owner x n l : nodes h !! x = Some n → pLink n = Some l → ∃ xs, ls !! l = Some xs ∧ x ∈ xs;
}.

(** A node that is on no list. *)
Definition free (h : lheap) (x : nat) : Prop := ∃ n, nodes h !! x = Some n ∧ pLink n = None.

Section facts.
Context (h : lheap) (ls : gmap nat (list nat)) (H : lists h ls).

(** A node is at one position of one list. *)
Lemma same_place l xs i l' xs' i' x :
  ls !! l = Some xs → xs !! i = Some x → ls !! l' = Some xs' → xs' !! i' = Some x → l = l'.
Proof.
intros Hl Hi Hl' Hi'. pose proof (l_node _ _ H _ _ _ _ Hl Hi) as E.
rewrite (l_node _ _ H _ _ _ _ Hl' Hi') in E. by injection E.
Qed.

Lemma free_not_in x l xs : free h x → ls !! l = Some xs → x ∉ xs.
Proof.
intros (n & E & Hn) Hl [i Hi]%list_elem_of_lookup. rewrite (l_node _ _ H _ _ _ _ Hl Hi) in E.
injection E as <-. done.
Qed.

Lemma list_NoDup l xs : ls !! l = Some xs → NoDup xs.
Proof.
intros Hl. apply NoDup_alt.
assert (∀ i j x : nat, (i < j)%nat → xs !! i = Some x → xs !! j = Some x → False) as Hw.
{ intros i. induction i as [|i IH]; intros [|j] x Hlt Hi Hj; try lia;
    pose proof (l_node _ _ H _ _ _ _ Hl Hi) as E; rewrite (l_node _ _ H _ _ _ _ Hl Hj) in E; injection E as Ep _.
  - assert (is_Some (xs !! j)) as [y Hy] by (apply lookup_lt_is_Some; apply lookup_lt_Some in Hj; lia). congruence.
  - assert (is_Some (xs !! i)) as [y Hy] by (apply lookup_lt_is_Some; apply lookup_lt_Some in Hi; lia).
    apply (IH j y); [lia|done|congruence]. }
intros i j x Hi Hj. destruct (Nat.lt_trichotomy i j) as [Hlt|[->|Hlt]]; [|done|]; exfalso; by eapply Hw.
Qed.
End facts.

Lemma free_iff h ls x :
  lists h ls → free h x ↔ x ∈ dom (nodes h) ∧ ∀ l xs, ls !! l = Some xs → x ∉ xs.
Proof.
intros H. rewrite elem_of_dom. split.
- intros Hf. split; [destruct Hf as (n & -> & _); done|]. intros l xs. by eapply free_not_in.
- intros [[n E] Hn]. exists n. split; [done|]. destruct (pLink n) as [l|] eqn:Ep; [|done].
  destruct (l_owner _ _ H _ _ _ E Ep) as (xs & Hl & Hin). by apply Hn in Hl.
Qed.

Lemma link_at_ok h ls l xs : lists h ls → ls !! l = Some xs → link_at h l = Ok (link_of xs).
Proof. intros H Hl. unfold link_at. by rewrite (l_link _ _ H _ _ Hl). Qed.

Lemma last_pos (xs : list nat) t : xs !! (length xs - 1)%nat = Some t → (0 < length xs)%nat.
Proof. intros Ht. apply lookup_lt_Some in Ht. lia. Qed.

(** A heap that differs from [h] in one list. *)
Lemma lists_update h ls l xs h' ys :
  lists h ls → ls !! l = Some xs → links h' = <[l := link_of ys]> (links h) →
  (∀ i y, ys !! i = Some y → nodes h' !! y = Some (node_of l ys i)) →
  (∀ y, y ∉ xs → y ∉ ys → nodes h' !! y = nodes h !! y) →
  (∀ y, y ∈ xs → y ∉ ys → free h' y) → (∀ y, y ∈ ys → y ∉ xs → free h y) →
  lists h' (<[l := ys]> ls).
Proof.
intros H Hl Hlk Hys Hout Hgone Hnew.
assert (∀ l' xs' i y, l ≠ l' → ls !! l' = Some xs' → xs' !! i = Some y → (y ∉ xs) ∧ (y ∉ ys)) as Hother.
{ intros l' xs' i y Hll Hl' Hi. assert (y ∉ xs) as Hn.
  { intros [j Hj]%list_elem_of_lookup. apply Hll. by eapply (same_place h ls H). }
  split; [done|]. intros Hin. pose proof (Hnew y Hin Hn) as Hf.
  apply (free_not_in h ls H y l' xs' Hf Hl'). by eapply list_elem_of_lookup_2. }
split.
- intros l' xs'. rewrite Hlk. destruct (decide (l = l')) as [<-|Hll].
  + rewrite !lookup_insert_eq. by intros [= <-].
  + rewrite !lookup_insert_ne by done. apply (l_link _ _ H).
- intros l' xs' i y. destruct (decide (l = l')) as [<-|Hll].
  + rewrite lookup_insert_eq. intros [= <-]. apply Hys.
  + rewrite lookup_insert_ne by done. intros Hl' Hi. destruct (Hother _ _ _ _ Hll Hl' Hi) as [? ?].
    rewrite Hout by done. by apply (l_node _ _ H _ _ _ _ Hl' Hi).
- intros y m l' Ey Hm. destruct (decide (y ∈ ys)) as [[i Hi]%list_elem_of_lookup|Hn].
  + rewrite (Hys _ _ Hi) in Ey. injection Ey as <-. injection Hm as <-. exists ys. rewrite lookup_insert_eq.
    split; [done|]. by eapply list_elem_of_lookup_2.
  + destruct (decide (y ∈ xs)) as [Hin|Hnx].
    * destruct (Hgone y Hin Hn) as (m' & E' & Hm'). congruence.
    * rewrite Hout in Ey by done. destruct (l_owner _ _ H _ _ _ Ey Hm) as (xs' & Hl' & Hin).
      exists xs'. rewrite lookup_insert_ne; [done|]. intros <-. congruence.
Qed.

(** ** [AddTail] *)

Lemma AddTail_on h l x n l' : nodes h !! x = Some n → pLink n = Some l' → AddTail l x h = Ok h.
Proof. intros E Hn. unfold AddTail, node_at. rewrite E. cbn [mbind res_bind]. by rewrite Hn. Qed.

Lemma AddTail_ok h ls l xs x :
  lists h ls → ls !! l = Some xs → free h x →
  ∃ h', AddTail l x h = Ok h' ∧ lists h' (<[l := xs ++ [x]]> ls) ∧ dom (nodes h') = dom (nodes h).
Proof.
intros H Hl Hf. pose proof (free_not_in h ls H x l xs Hf Hl) as Hx. destruct Hf as (n & E & Hn).
assert (∀ l' xs' i y, ls !! l' = Some xs' → xs' !! i = Some y → y ≠ x) as Hne.
{ intros l' xs' i y Hl' Hi ->. pose proof (l_node _ _ H _ _ _ _ Hl' Hi) as E'. rewrite E in E'.
  injection E' as ->. done. }
pose (t := xs !! (length xs - 1)%nat).
(* the heap, node by node *)
assert (∃ h', AddTail l x h = Ok h' ∧ links h' = <[l := link_of (xs ++ [x])]> (links h) ∧
  dom (nodes h') = dom (nodes h) ∧ nodes h' !! x = Some (mkNode t None (Some l)) ∧
  ∀ y, y ≠ x → nodes h' !! y = if decide (t = Some y) then (λ m, mkNode (pPrev m) (Some x) (pLink m)) <$> nodes h !! y
                              else nodes h !! y) as (h' & Eh & Hlk & Hdom & Hxn & Hyn).
{ unfold AddTail, node_at. rewrite E. cbn [mbind res_bind]. rewrite Hn, (link_at_ok _ _ _ _ H Hl).
  cbn [mbind res_bind link_of ltail lhead]. fold t.
  assert (∀ a, (xs ++ [x]) !! 0%nat = a → (xs ++ [x]) !! (length (xs ++ [x]) - 1)%nat = Some x →
    link_of (xs ++ [x]) = mkLink a (Some x)) as Hlo by (intros a Ha Hz; unfold link_of; by rewrite Ha, Hz).
  assert ((xs ++ [x]) !! (length (xs ++ [x]) - 1)%nat = Some x) as Hz.
  { rewrite length_app. cbn [length]. replace (length xs + 1 - 1)%nat with (length xs) by lia. by apply list_lookup_middle. }
  destruct t as [t0|] eqn:Et.
  - assert (t0 ≠ x) as Ht by (by eapply (Hne l xs)).
    unfold store_pNext, node_at. rewrite (l_node _ _ H _ _ _ _ Hl Et). cbn [mbind res_bind set_node nodes].
    rewrite lookup_insert_ne, E by done. cbn [mbind res_bind set_link set_node nodes].
    rewrite lookup_insert_eq. cbn [mbind res_bind]. eexists. split; [done|].
    cbn [set_node set_link nodes links]. split_and!.
    + f_equal. rewrite (Hlo (xs !! 0%nat)); [done| |done]. apply lookup_app_l. by eapply last_pos.
    + rewrite insert_insert_eq, !dom_insert_lookup_L; [done|by rewrite (l_node _ _ H _ _ _ _ Hl Et)|].
      rewrite lookup_insert_ne by done. by eexists.
    + by rewrite lookup_insert_eq, Hn.
    + intros y Hy. rewrite !lookup_insert_ne by done. case_decide as Hd.
      * injection Hd as ->. rewrite lookup_insert_eq, (l_node _ _ H _ _ _ _ Hl Et). done.
      * rewrite lookup_insert_ne; [done|]. congruence.
  - assert (xs = []) as ->.
    { destruct xs as [|a xs0]; [done|]. exfalso. apply lookup_ge_None in Et. cbn in Et. lia. }
    cbn [mbind res_bind set_link set_node nodes]. rewrite lookup_insert_eq. cbn [mbind res_bind]. eexists. split; [done|].
    cbn [set_node set_link nodes links]. split_and!.
    + done.
    + rewrite insert_insert_eq, dom_insert_lookup_L; [done|by eexists].
    + by rewrite lookup_insert_eq.
    + intros y Hy. by rewrite !lookup_insert_ne. }
exists h'. split_and!; [done| |done]. apply (lists_update h ls l xs); try done.
- intros i y Hi. destruct (decide (i < length xs)%nat) as [Hlt|Hge].
  + rewrite lookup_app_l in Hi by done. rewrite (Hyn y), (l_node _ _ H _ _ _ _ Hl Hi) by (by eapply (Hne l xs)).
    unfold node_of. assert ((if i is S j then (xs ++ [x]) !! j else None) = (if i is S j then xs !! j else None)) as ->.
    { destruct i; [done|]. apply lookup_app_l. lia. }
    case_decide as Hd.
    * assert (i = (length xs - 1)%nat) as -> by (eapply NoDup_lookup; [by eapply (list_NoDup h ls H)|exact Hi|exact Hd]).
      cbn [fmap option_fmap option_map pPrev pLink]. do 2 f_equal. replace (S (length xs - 1)) with (length xs) by lia.
      by rewrite list_lookup_middle.
    * do 2 f_equal. rewrite lookup_app_l; [done|]. assert (i ≠ (length xs - 1)%nat); [|lia]. by intros ->.
  + apply lookup_app_Some in Hi as [Hi|[_ Hi]]; [apply lookup_lt_Some in Hi; lia|].
    apply list_lookup_singleton_Some in Hi as [Hi <-]. assert (i = length xs) as -> by lia.
    rewrite Hxn. unfold node_of. do 2 f_equal.
    * unfold t. destruct (length xs) as [|k] eqn:El; [cbn; by destruct xs|]. cbn [Nat.sub]. rewrite Nat.sub_0_r.
      by rewrite lookup_app_l by lia.
    * symmetry. apply lookup_ge_None_2. rewrite length_app. cbn. lia.
- intros y Hnx Hny. rewrite elem_of_app, list_elem_of_singleton in Hny. rewrite (Hyn y) by tauto.
  rewrite decide_False; [done|]. intros Ht. apply Hnx. by eapply list_elem_of_lookup_2.
- intros y Hin Hny. exfalso. apply Hny, elem_of_app. by left.
- intros y Hin Hny. apply elem_of_app in Hin as [?|Hin]; [done|].
  apply list_elem_of_singleton in Hin as ->. by exists n.
Qed.

(** ** Removal *)

Definition prev_of (xs : list nat) (i : nat) : option nat := if i is S j then xs !! j else None.

(** The nodes after the one at position [i] of [xs] has been taken out. *)
Definition unlinked (h h' : lheap) (xs : list nat) (i x : nat) : Prop :=
  nodes h' !! x = Some (mkNode None None None) ∧
  ∀ y, y ≠ x → nodes h' !! y =
    if decide (xs !! S i = Some y) then (λ m, mkNode (prev_of xs i) (pNext m) (pLink m)) <$> nodes h !! y
    else if decide (prev_of xs i = Some y) then (λ m, mkNode (pPrev m) (xs !! S i) (pLink m)) <$> nodes h !! y
    else nodes h !! y.

Lemma lookup_prev (xs : list nat) i y : prev_of xs i = Some y → ∃ j, i = S j ∧ xs !! j = Some y.
Proof. destruct i as [|j]; [done|]. by exists j. Qed.

Lemma delete_lookup (xs : list nat) i j : delete i xs !! j = if decide (j < i)%nat then xs !! j else xs !! S j.
Proof. case_decide; [by apply list_lookup_delete_lt|apply list_lookup_delete_ge; lia]. Qed.

Lemma elem_of_delete_NoDup (xs : list nat) i x y :
  NoDup xs → xs !! i = Some x → y ∈ xs ∧ y ≠ x ↔ y ∈ delete i xs.
Proof.
intros Hnd Hi. rewrite NoDup_alt in Hnd. rewrite !list_elem_of_lookup. symmetry. split.
- intros [j Hj]. rewrite delete_lookup in Hj. case_decide; (split; [by eexists|]); intros ->.
  + assert (i = j) by (by eapply Hnd). lia.
  + assert (i = S j) by (by eapply Hnd). lia.
- intros [[j Hj] Hne]. destruct (Nat.lt_trichotomy j i) as [Hlt|[->|Hlt]]; [| congruence|].
  + exists j. rewrite delete_lookup, decide_True by done. done.
  + exists (j - 1)%nat. rewrite delete_lookup, decide_False by lia. by replace (S (j - 1)) with j by lia.
Qed.

Lemma unlinked_lists h h' ls l xs i x :
  lists h ls → ls !! l = Some xs → xs !! i = Some x → unlinked h h' xs i x →
  links h' = <[l := link_of (delete i xs)]> (links h) → lists h' (<[l := delete i xs]> ls).
Proof.
intros H Hl Hi [Hx Hy] Hlk. pose proof (list_NoDup h ls H l xs Hl) as Hnd.
assert (∀ y, y ∈ delete i xs ↔ y ∈ xs ∧ y ≠ x) as Hin by (intros y; symmetry; by apply elem_of_delete_NoDup).
rewrite NoDup_alt in Hnd.
apply (lists_update h ls l xs); try done.
- intros j y Hj. assert (y ∈ delete i xs) as Hyd by (by eapply list_elem_of_lookup_2). apply Hin in Hyd as [_ Hne].
  rewrite (Hy y Hne). rewrite delete_lookup in Hj. unfold node_of.
  assert ((if j is S k then delete i xs !! k else None) =
          (if decide (j < i)%nat then prev_of xs j else if decide (j = i) then prev_of xs i else xs !! j)) as ->.
  { destruct j as [|k]; [repeat case_decide; subst; done || lia|]. rewrite delete_lookup. cbn [prev_of].
    repeat case_decide; subst; done || lia. }
  rewrite delete_lookup. case_decide as Hlt.
  + (* before *)
    rewrite decide_False by (intros E; assert (S i = j) by (by eapply Hnd); lia).
    rewrite (l_node _ _ H _ _ _ _ Hl Hj). unfold node_of.
    destruct (decide (prev_of xs i = Some y)) as [Hp|Hp].
    * apply lookup_prev in Hp as (k & -> & Hk). assert (k = j) as -> by (by eapply Hnd).
      rewrite decide_False by lia. done.
    * rewrite decide_True; [done|]. assert (S j ≠ i); [|lia]. intros <-. by apply Hp.
  + rewrite (decide_False (P := (S j < i)%nat)) by lia.
    assert (prev_of xs i ≠ Some y) as Hp by (intros (k & -> & Hk)%lookup_prev; assert (k = S j) by (by eapply Hnd); lia).
    rewrite (decide_False (P := prev_of xs i = Some y)) by done.
    rewrite (l_node _ _ H _ _ _ _ Hl Hj). unfold node_of. destruct (decide (j = i)) as [->|Hne'].
    * rewrite decide_True by done. done.
    * rewrite decide_False; [done|]. intros E. apply Hne'. assert (S j = S i) by (by eapply Hnd). lia.
- intros y Hnx Hn. assert (y ≠ x) as Hne by (intros ->; apply Hnx; by eapply list_elem_of_lookup_2).
  rewrite (Hy y Hne). rewrite decide_False by (intros E; apply Hnx; by eapply list_elem_of_lookup_2).
  rewrite decide_False; [done|]. intros (k & -> & Hk)%lookup_prev. apply Hnx. by eapply list_elem_of_lookup_2.
- intros y Hyx Hn. rewrite Hin in Hn. assert (y = x) as -> by (destruct (decide (y = x)); tauto).
  by eexists.
- intros y Hyd Hn. apply Hin in Hyd. tauto.
Qed.

Lemma link_of_delete (xs : list nat) i x :
  xs !! i = Some x →
  link_of (delete i xs) = mkLink (if decide (i = 0)%nat then xs !! 1%nat else xs !! 0%nat)
                                 (if xs !! S i is Some _ then xs !! (length xs - 1)%nat else prev_of xs i).
Proof.
intros Hi. pose proof (lookup_lt_Some _ _ _ Hi) as Hlt. unfold link_of. f_equal.
- rewrite delete_lookup. repeat case_decide; done || lia.
- rewrite length_delete by done. rewrite delete_lookup. destruct (xs !! S i) as [q|] eqn:Eq.
  + pose proof (lookup_lt_Some _ _ _ Eq). rewrite decide_False by lia. f_equal. lia.
  + apply lookup_ge_None in Eq. destruct i as [|j].
    * rewrite decide_False by lia. cbn [prev_of]. apply lookup_ge_None. lia.
    * rewrite decide_True by lia. cbn [prev_of]. f_equal. lia.
Qed.

(** Being first and being last, as the code tests them. *)
Lemma head_iff (xs : list nat) i x : NoDup xs → xs !! i = Some x → xs !! 0%nat = Some x ↔ i = 0%nat.
Proof. intros Hnd Hi. split; [|by intros ->]. intros H0. by eapply NoDup_lookup. Qed.

Lemma tail_iff (xs : list nat) i x :
  NoDup xs → xs !! i = Some x → xs !! (length xs - 1)%nat = Some x ↔ xs !! S i = None.
Proof.
intros Hnd Hi. pose proof (lookup_lt_Some _ _ _ Hi). rewrite lookup_ge_None. split.
- intros Hz. assert (i = (length xs - 1)%nat) as -> by (by eapply NoDup_lookup). lia.
- intros Hge. rewrite <- Hi. f_equal. lia.
Qed.

Lemma same_dom (m : gmap nat node) x n n' : m !! x = Some n → dom (<[x := n']> m) = dom m.
Proof. intros E. apply dom_insert_lookup_L. by eexists. Qed.

(** Lookups in a chain of stores. *)
Ltac heap_step :=
  cbn [set_node set_link nodes links prev_of]; repeat (first [rewrite lookup_insert_eq | rewrite lookup_insert_ne by congruence]).

Lemma PopHead_ok h ls l x ys :
  lists h ls → ls !! l = Some (x :: ys) →
  ∃ h', PopHead l h = Ok h' ∧ lists h' (<[l := ys]> ls) ∧ dom (nodes h') = dom (nodes h) ∧ free h' x.
Proof.
intros H Hl. pose proof (list_NoDup h ls H l _ Hl) as Hnd.
pose proof (l_node _ _ H _ _ 0%nat x Hl eq_refl) as Ex.
assert (∃ h', PopHead l h = Ok h' ∧ links h' = <[l := link_of (delete 0%nat (x :: ys))]> (links h) ∧
  unlinked h h' (x :: ys) 0 x ∧ dom (nodes h') = dom (nodes h)) as (h' & Eh & Hlk & Hu & Hd).
{ unfold PopHead. rewrite (link_at_ok _ _ _ _ H Hl). cbn [mbind res_bind]. unfold link_of at 1. cbn [lhead lookup list_lookup].
  unfold node_at. rewrite Ex. cbn [mbind res_bind]. rewrite (link_of_delete (x :: ys) 0%nat x eq_refl).
  rewrite (decide_True (P := (0 = 0)%nat)) by done. destruct ys as [|y ys].
  - rewrite decide_True by done. eexists. split; [done|]. cbn [set_node set_link nodes links]. split_and!.
    + done.
    + split; [by heap_step|]. intros y Hy. heap_step. by rewrite !decide_False.
    + by eapply same_dom.
  - apply list.NoDup_cons in Hnd as [Hx Hnd]. rewrite elem_of_cons in Hx.
    pose proof (l_node _ _ H _ _ 1%nat y Hl eq_refl) as Ey.
    rewrite decide_False; cycle 1.
    { unfold link_of. cbn [lhead ltail]. intros E. symmetry in E. change ((x :: y :: ys) !! 0%nat) with (Some x) in E.
      assert (x ∈ y :: ys); [|rewrite elem_of_cons in *; tauto]. eapply list_elem_of_lookup_2. cbn in E. exact E. }
    cbn [pNext node_of lhead lookup list_lookup]. unfold store_pPrev, node_at. cbn [set_node set_link nodes links].
    rewrite lookup_insert_ne by tauto. rewrite Ey. cbn [mbind res_bind]. eexists. split; [done|].
    cbn [set_node set_link nodes links]. split_and!.
    + done.
    + split; [cbn [set_node set_link nodes]; rewrite lookup_insert_ne by (intros ->; tauto); by heap_step|].
      intros z Hz. cbn [prev_of set_node set_link nodes].
      rewrite (decide_False (P := None = Some z)) by done. case_decide as Hd.
      * injection Hd as <-. heap_step. by rewrite Ey.
      * rewrite lookup_insert_ne by (intros ->; done). by heap_step.
    + rewrite (same_dom _ _ (node_of l (x :: y :: ys) 1)); [by eapply same_dom|]. rewrite lookup_insert_ne by tauto. done. }
exists h'. split_and!; [done| |done|by exists (mkNode None None None); destruct Hu].
change ys with (delete 0%nat (x :: ys)). by eapply unlinked_lists.
Qed.

Lemma store_pNext_ok h x m v :
  nodes h !! x = Some m → store_pNext (Some x) v h = Ok (set_node x (mkNode (pPrev m) v (pLink m)) h).
Proof. intros E. unfold store_pNext, node_at. by rewrite E. Qed.

Lemma store_pPrev_ok h x m v :
  nodes h !! x = Some m → store_pPrev (Some x) v h = Ok (set_node x (mkNode v (pNext m) (pLink m)) h).
Proof. intros E. unfold store_pPrev, node_at. by rewrite E. Qed.

(** The stores of [RemoveFromLink], by whether the node has a predecessor and a successor. *)
Lemma RemoveFromLink_heap h ls l xs i x :
  lists h ls → ls !! l = Some xs → xs !! i = Some x →
  ∃ h', RemoveFromLink x h = Ok h' ∧ links h' = <[l := link_of (delete i xs)]> (links h) ∧
    unlinked h h' xs i x ∧ dom (nodes h') = dom (nodes h).
Proof.
intros H Hl Hi. pose proof (list_NoDup h ls H l _ Hl) as Hnd.
pose proof (l_node _ _ H _ _ _ _ Hl Hi) as Ex. pose proof (lookup_lt_Some _ _ _ Hi) as Hlt.
assert (is_Some (xs !! 0%nat)) as Hh by (apply lookup_lt_is_Some; lia).
assert (is_Some (xs !! (length xs - 1)%nat)) as Ht by (apply lookup_lt_is_Some; lia).
assert (∀ q, xs !! S i = Some q → q ≠ x ∧ prev_of xs i ≠ Some q ∧ nodes h !! q = Some (node_of l xs (S i))) as Hq.
{ intros q Eq. split_and!; [| |by eapply l_node].
  - intros ->. assert (i = S i) by (by eapply NoDup_lookup). lia.
  - intros (k & -> & Hk)%lookup_prev. assert (k = S (S k)) by (by eapply NoDup_lookup). lia. }
assert (∀ p, prev_of xs i = Some p → p ≠ x ∧ i ≠ 0%nat ∧ ∃ m, nodes h !! p = Some m) as Hp.
{ intros p (k & -> & Hk)%lookup_prev. split_and!; [|done|by eexists; eapply l_node].
  intros ->. assert (k = S k) by (by eapply NoDup_lookup). lia. }
unfold RemoveFromLink, node_at. rewrite Ex. cbn [mbind res_bind node_of pLink pNext pPrev].
change (if i is S j then xs !! j else None) with (prev_of xs i).
rewrite (link_at_ok _ _ _ _ H Hl). cbn [mbind res_bind link_of lhead ltail]. unfold assert_.
rewrite bool_decide_true by done. cbn [mbind res_bind]. rewrite (link_of_delete _ _ _ Hi).
pose proof (head_iff xs i x Hnd Hi) as Hhead. pose proof (tail_iff xs i x Hnd Hi) as Htail.
destruct (decide (xs !! 0%nat = Some x)) as [H0|H0].
- assert (i = 0)%nat as -> by tauto. clear Hhead Hp. cbn [prev_of] in *. rewrite (decide_True (P := (0 = 0)%nat)) by done.
  destruct (xs !! 1%nat) as [q|] eqn:Eq.
  + destruct (Hq q eq_refl) as (Hqx & _ & Eq'). unfold store_pPrev, node_at. heap_step. rewrite Eq'. cbn [mbind res_bind].
    unfold link_at. heap_step. cbn [mbind res_bind]. rewrite Ex. cbn [mbind res_bind ltail pPrev pNext node_of].
    rewrite decide_False by (rewrite Htail; done). rewrite Eq. heap_step. cbn [mbind res_bind]. eexists. split; [done|].
    split_and!; [done| |].
    * split; [by heap_step|]. intros y Hy. heap_step. rewrite Eq. rewrite (decide_False (P := None = Some y)) by done. case_decide as Hd.
      -- injection Hd as <-. heap_step. by rewrite Eq'.
      -- by rewrite !lookup_insert_ne by congruence.
    * heap_step. rewrite !insert_insert_eq. erewrite same_dom; [by eapply same_dom|]. heap_step. exact Ex.
  + cbn [mbind res_bind]. unfold link_at. heap_step. cbn [mbind res_bind]. rewrite Ex.
    cbn [mbind res_bind ltail lhead pPrev pNext node_of]. rewrite decide_True by tauto. cbn [mbind res_bind]. eexists. split; [done|].
    split_and!; [heap_step; by rewrite insert_insert_eq| |].
    * split; [by heap_step|]. intros y Hy. heap_step. rewrite Eq. by rewrite !decide_False.
    * heap_step. by eapply same_dom.
- assert (i ≠ 0)%nat as Hi0 by tauto. rewrite (decide_False (P := (i = 0)%nat)) by done.
  destruct (prev_of xs i) as [p|] eqn:Ep; cycle 1.
  { exfalso. destruct i as [|j]; [done|]. cbn in Ep. apply lookup_ge_None in Ep. lia. }
  destruct (Hp p eq_refl) as (Hpx & _ & m & Em). rewrite (store_pNext_ok _ _ _ _ Em). cbn [mbind res_bind].
  unfold link_at. heap_step. rewrite (l_link _ _ H _ _ Hl). cbn [mbind res_bind link_of ltail lhead]. rewrite Ex.
  cbn [mbind res_bind pPrev pNext node_of]. change (if i is S j then xs !! j else None) with (prev_of xs i). rewrite Ep.
  destruct (xs !! S i) as [q|] eqn:Eq.
  + destruct (Hq q eq_refl) as (Hqx & Hqp & Eq'). rewrite decide_False by (rewrite Htail; done).
    unfold store_pPrev, node_at. heap_step. rewrite Eq'. cbn [mbind res_bind]. eexists. split; [done|]. split_and!.
    * heap_step. by rewrite insert_id by apply (l_link _ _ H _ _ Hl).
    * split; [by heap_step|]. intros y Hy. heap_step. rewrite Ep, Eq. case_decide as Hd; [|case_decide as Hd'].
      -- injection Hd as <-. heap_step. by rewrite Eq'.
      -- injection Hd' as <-. heap_step. by rewrite Em.
      -- by rewrite !lookup_insert_ne by congruence.
    * heap_step. erewrite !same_dom; [done| | |]; heap_step; done.
  + rewrite decide_True by tauto. unfold store_pNext, node_at. heap_step. cbn [mbind res_bind]. eexists. split; [done|]. split_and!.
    * done.
    * split; [by heap_step|]. intros y Hy. heap_step. rewrite Ep, Eq, insert_insert_eq.
      rewrite (decide_False (P := None = Some y)) by done. case_decide as Hd'.
      -- injection Hd' as <-. heap_step. by rewrite Em.
      -- by rewrite !lookup_insert_ne by congruence.
    * heap_step. rewrite insert_insert_eq. erewrite !same_dom; [done| |]; heap_step; done.
Qed.

Lemma RemoveFromLink_ok h ls l xs i x :
  lists h ls → ls !! l = Some xs → xs !! i = Some x →
  ∃ h', RemoveFromLink x h = Ok h' ∧ lists h' (<[l := delete i xs]> ls) ∧ dom (nodes h') = dom (nodes h) ∧ free h' x.
Proof.
intros H Hl Hi. destruct (RemoveFromLink_heap h ls l xs i x H Hl Hi) as (h' & Eh & Hlk & Hu & Hd).
exists h'. split_and!; [done|by eapply unlinked_lists|done|by exists (mkNode None None None); destruct Hu].
Qed.

Lemma RemoveFromLink_free h x : free h x → RemoveFromLink x h = Ok h.
Proof. intros (n & E & Hn). unfold RemoveFromLink, node_at. rewrite E. cbn [mbind res_bind]. by rewrite Hn. Qed.

(** ** [Join] *)

(** The loop gives every node of the chain [ys] its new owner, and stops. *)
Lemma relink_ok l ys fuel h :
  NoDup ys → (length ys ≤ fuel)%nat →
  (∀ i y, ys !! i = Some y → ∃ n, nodes h !! y = Some n ∧ pNext n = ys !! S i) →
  ∃ h', relink fuel (ys !! 0%nat) l h = Ok h' ∧ links h' = links h ∧ dom (nodes h') = dom (nodes h) ∧
    ∀ y, nodes h' !! y = if decide (y ∈ ys) then (λ n, mkNode (pPrev n) (pNext n) (Some l)) <$> nodes h !! y
                         else nodes h !! y.
Proof.
revert fuel h. induction ys as [|x ys IH]; intros fuel h Hnd Hf Hc.
- exists h. destruct fuel; (split_and!; [done|done|done|]); intros y; rewrite decide_False by apply not_elem_of_nil; done.
- apply list.NoDup_cons in Hnd as [Hx Hnd]. destruct fuel as [|fuel]; [cbn in Hf; lia|].
  destruct (Hc 0%nat x eq_refl) as (n & E & Hn). cbn in Hn. cbn [lookup list_lookup relink]. unfold node_at. rewrite E. cbn [mbind res_bind].
  rewrite Hn. destruct (IH fuel (set_node x (mkNode (pPrev n) (ys !! 0%nat) (Some l)) h)) as (h' & Eh & Hlk & Hd & Hy).
  + done.
  + cbn in Hf. lia.
  + intros i y Hi. destruct (Hc (S i) y Hi) as (m & Em & Hm). exists m. split; [|done]. cbn [set_node nodes].
    rewrite lookup_insert_ne; [done|]. intros ->. apply Hx. by eapply list_elem_of_lookup_2.
  + exists h'. split_and!; [done|done|rewrite Hd; by eapply same_dom|]. intros y. rewrite Hy. cbn [set_node nodes].
    destruct (decide (y = x)) as [->|Hne].
    * rewrite decide_False, decide_True by (done || apply elem_of_cons; by left). rewrite lookup_insert_eq, E.
      cbn. by rewrite Hn.
    * rewrite lookup_insert_ne by done. destruct (decide (y ∈ ys)) as [Hin|Hni].
      -- rewrite decide_True; [done|]. apply elem_of_cons. by right.
      -- rewrite decide_False; [done|]. rewrite elem_of_cons. tauto.
Qed.

Lemma length_le_nodes h ls l xs : lists h ls → ls !! l = Some xs → (length xs ≤ size (nodes h))%nat.
Proof.
intros H Hl. rewrite <- size_dom, <- (size_list_to_set (C := gset nat) xs) by (by eapply list_NoDup).
apply subseteq_size. intros x Hx. rewrite elem_of_list_to_set in Hx. apply list_elem_of_lookup in Hx as [i Hi].
apply elem_of_dom. eexists. by eapply l_node.
Qed.

Lemma prev_app (xs ys : list nat) i :
  prev_of (xs ++ ys) (length xs + i) = if decide (i = 0)%nat then xs !! (length xs - 1)%nat else prev_of ys i.
Proof.
case_decide as Hd.
- subst. rewrite Nat.add_0_r. destruct (length xs) as [|k] eqn:El; [by destruct xs|]. cbn [prev_of].
  rewrite lookup_app_l by lia. f_equal. lia.
- destruct i as [|j]; [done|]. rewrite Nat.add_succ_r. cbn [prev_of]. rewrite lookup_app_r by lia. f_equal. lia.
Qed.

Lemma prev_app_l (xs ys : list nat) i : (i < length xs)%nat → prev_of (xs ++ ys) i = prev_of xs i.
Proof. intros Hi. destruct i; [done|]. cbn [prev_of]. apply lookup_app_l. lia. Qed.

Lemma next_app_l (xs ys : list nat) i :
  (i < length xs)%nat → (xs ++ ys) !! S i = if decide (S i = length xs) then ys !! 0%nat else xs !! S i.
Proof.
intros Hi. case_decide as Hd; [|apply lookup_app_l; lia]. rewrite Hd, lookup_app_r by lia. f_equal. lia.
Qed.

Lemma node_of_app_l l xs ys i :
  (i < length xs)%nat →
  node_of l (xs ++ ys) i = mkNode (prev_of xs i) (if decide (S i = length xs) then ys !! 0%nat else xs !! S i) (Some l).
Proof. intros Hi. unfold node_of. by rewrite <- next_app_l, <- (prev_app_l xs ys i). Qed.

Lemma node_of_app_r l xs ys i :
  node_of l (xs ++ ys) (length xs + i) =
  mkNode (if decide (i = 0)%nat then xs !! (length xs - 1)%nat else prev_of ys i) (ys !! S i) (Some l).
Proof.
unfold node_of. f_equal; [apply prev_app|]. rewrite lookup_app_r by lia. f_equal. lia.
Qed.

Lemma link_of_app (xs ys : list nat) y0 :
  ys !! 0%nat = Some y0 →
  link_of (xs ++ ys) = mkLink (if xs is [] then Some y0 else xs !! 0%nat) (ys !! (length ys - 1)%nat).
Proof.
intros H0. pose proof (lookup_lt_Some _ _ _ H0). unfold link_of. f_equal.
- destruct xs; done.
- rewrite length_app, lookup_app_r by lia. f_equal. lia.
Qed.

(** The heap after [Join], node by node. *)
Lemma Join_heap h ls l o xs ys y0 :
  lists h ls → ls !! l = Some xs → ls !! o = Some ys → l ≠ o → ys !! 0%nat = Some y0 →
  ∃ h', Join l o h = Ok h' ∧ dom (nodes h') = dom (nodes h) ∧
    links h' = <[o := link_of []]> (<[l := link_of (xs ++ ys)]> (links h)) ∧
    (∀ i y, xs !! i = Some y → nodes h' !! y = Some (node_of l (xs ++ ys) i)) ∧
    (∀ i y, ys !! i = Some y → nodes h' !! y = Some (node_of l (xs ++ ys) (length xs + i))) ∧
    (∀ y, y ∉ xs → y ∉ ys → nodes h' !! y = nodes h !! y).
Proof.
intros H Hl Ho Hlo H0. pose proof (list_NoDup h ls H o _ Ho) as Hnd. pose proof (list_NoDup h ls H l _ Hl) as Hndx.
assert (∀ i j y, xs !! i = Some y → ys !! j = Some y → False) as Hdis.
{ intros i j y Hi Hj. apply Hlo. by eapply (same_place h ls H). }
destruct (relink_ok l ys (size (nodes h)) h) as (h1 & E1 & Hlk & Hd & Hy1); [done|by eapply length_le_nodes| |].
{ intros i y Hi. eexists. split; [by eapply l_node|done]. }
assert (∀ i y, ys !! i = Some y → nodes h1 !! y = Some (mkNode (prev_of ys i) (ys !! S i) (Some l))) as Hys.
{ intros i y Hi. rewrite Hy1, decide_True by (by eapply list_elem_of_lookup_2). by rewrite (l_node _ _ H _ _ _ _ Ho Hi). }
assert (∀ y, y ∉ ys → nodes h1 !! y = nodes h !! y) as Hny by (intros y Hn; by rewrite Hy1, decide_False).
assert (∀ i y, xs !! i = Some y → nodes h1 !! y = Some (node_of l xs i)) as Hxs.
{ intros i y Hi. rewrite Hny; [by eapply l_node|]. intros [j Hj]%list_elem_of_lookup. by eapply Hdis. }
rewrite (link_of_app xs ys y0 H0). unfold Join. rewrite (link_at_ok _ _ _ _ H Ho). cbn [mbind res_bind link_of lhead ltail].
rewrite H0, <- H0, E1. cbn [mbind res_bind]. unfold link_at. rewrite Hlk, (l_link _ _ H _ _ Hl). cbn [mbind res_bind link_of ltail lhead].
destruct xs as [|x0 xs'].
- cbn [length lookup list_lookup Nat.sub mbind res_bind]. eexists. split; [done|]. cbn [set_link nodes links]. split_and!.
  + done.
  + by rewrite H0, Hlk.
  + done.
  + intros i y Hi. by rewrite (Hys _ _ Hi).
  + intros y _ Hn. by apply Hny.
- set (xs := x0 :: xs') in *. assert (is_Some (xs !! (length xs - 1)%nat)) as [t Ht].
  { apply lookup_lt_is_Some. subst xs. cbn. lia. }
  assert (t ≠ y0) as Hty by (intros ->; by eapply Hdis). rewrite Ht. rewrite H0.
  rewrite (store_pNext_ok _ _ _ _ (Hxs _ _ Ht)). cbn [mbind res_bind].
  rewrite (store_pPrev_ok _ y0 (mkNode (prev_of ys 0) (ys !! 1%nat) (Some l))) by (cbn; rewrite lookup_insert_ne by done; exact (Hys 0%nat _ H0)).
  cbn [mbind res_bind]. eexists. split; [done|]. split_and!.
  + heap_step. rewrite <- Hd. erewrite !same_dom; [done| |]; heap_step; [by apply Hxs|by apply Hys].
  + heap_step. by rewrite Hlk.
  + intros i y Hi. heap_step. rewrite lookup_insert_ne by (intros ->; by eapply Hdis).
    rewrite node_of_app_l by (by eapply lookup_lt_Some). case_decide as Hd'.
    * assert (y = t) as -> by (rewrite <- Hd' in Ht; cbn in Ht; rewrite Nat.sub_0_r in Ht; congruence).
      heap_step. rewrite H0. unfold node_of. rewrite <- Hd'. cbn [Nat.sub]. rewrite Nat.sub_0_r. done.
    * rewrite lookup_insert_ne; [by apply Hxs|]. intros ->. apply Hd'.
      assert (i = (length xs - 1)%nat) as -> by (by eapply NoDup_lookup). subst xs. cbn. lia.
  + intros i y Hi. heap_step. rewrite node_of_app_r. case_decide as Hd'.
    * subst i. assert (y = y0) as -> by congruence. heap_step. by rewrite Ht.
    * rewrite !lookup_insert_ne; [by apply Hys| |].
      -- intros ->. by eapply Hdis.
      -- intros ->. apply Hd'. exact (NoDup_lookup ys i 0%nat _ Hnd Hi H0).
  + intros y Hnx Hn. heap_step. rewrite !lookup_insert_ne; [by apply Hny| |]; intros ->; [apply Hnx|apply Hn]; by eapply list_elem_of_lookup_2.
Qed.

Lemma Join_ok h ls l o xs ys :
  lists h ls → ls !! l = Some xs → ls !! o = Some ys → l ≠ o →
  ∃ h', Join l o h = Ok h' ∧ lists h' (<[o := []]> (<[l := xs ++ ys]> ls)) ∧ dom (nodes h') = dom (nodes h).
Proof.
intros H Hl Ho Hlo. destruct (ys !! 0%nat) as [y0|] eqn:H0; cycle 1.
{ assert (ys = []) as -> by (by destruct ys). exists h. unfold Join. rewrite (link_at_ok _ _ _ _ H Ho).
  split_and!; [done| |done]. rewrite app_nil_r, (insert_id ls l) by done. by rewrite insert_id. }
destruct (Join_heap h ls l o xs ys y0 H Hl Ho Hlo H0) as (h' & Eh & Hd & Hlk & Hx & Hy & Hn).
exists h'. split_and!; [done| |done]. split.
- intros k zs. rewrite Hlk. destruct (decide (k = o)) as [->|Hko]; [rewrite !lookup_insert_eq; by intros [= <-]|].
  destruct (decide (k = l)) as [->|Hkl]; heap_step; [by intros [= <-]|apply (l_link _ _ H)].
- intros k zs i z. destruct (decide (k = o)) as [->|Hko]; [rewrite lookup_insert_eq; by intros [= <-]|].
  destruct (decide (k = l)) as [->|Hkl]; heap_step.
  + intros [= <-] [Hi|[Hge Hi]]%lookup_app_Some; [by apply Hx|]. rewrite (Hy _ _ Hi). do 2 f_equal. lia.
  + intros Hk Hi. rewrite Hn; [by eapply l_node| |]; intros [j Hj]%list_elem_of_lookup.
    * apply Hkl. by eapply (same_place h ls H).
    * apply Hko. by eapply (same_place h ls H).
- intros z n k E Hk. assert (∀ i, node_of l (xs ++ ys) i = n → z ∈ xs ++ ys →
    ∃ zs, <[o:=[]]> (<[l:=xs ++ ys]> ls) !! k = Some zs ∧ z ∈ zs) as Hin.
  { intros i <- Hz. injection Hk as <-. exists (xs ++ ys). by heap_step. }
  destruct (decide (z ∈ xs)) as [[i Hi]%list_elem_of_lookup|Hzx].
  { apply (Hin i); [rewrite (Hx _ _ Hi) in E; congruence|]. apply elem_of_app. left. by eapply list_elem_of_lookup_2. }
  destruct (decide (z ∈ ys)) as [[i Hi]%list_elem_of_lookup|Hzy].
  { apply (Hin (length xs + i)%nat); [rewrite (Hy _ _ Hi) in E; congruence|]. apply elem_of_app. right. by eapply list_elem_of_lookup_2. }
  rewrite Hn in E by done. destruct (l_owner _ _ H _ _ _ E Hk) as (zs & Hzs & Hz). exists zs. split; [|done].
  rewrite !lookup_insert_ne; [done| |]; intros <-; congruence.
Qed.

(** ** Deciding it

    On a concrete heap [lists] is decidable. *)

#[export] Instance node_eq_dec : EqDecision node.
Proof. solve_decision. Defined.
#[export] Instance link_eq_dec : EqDecision link.
Proof. solve_decision. Defined.

Definition lists_on (h : lheap) (l : nat) (xs : list nat) : Prop :=
  links h !! l = Some (link_of xs) ∧
  Forall (λ i, (xs !! i ≫= λ x, nodes h !! x) = Some (node_of l xs i)) (seq 0 (length xs)).

Definition owned (ls : gmap nat (list nat)) (x : nat) (n : node) : Prop :=
  match pLink n with
  | None => True
  | Some l => match ls !! l with Some xs => x ∈ xs | None => False end
  end.

#[export] Instance owned_dec ls x n : Decision (owned ls x n).
Proof. unfold owned. destruct (pLink n); [destruct (ls !! _)|]; apply _. Defined.
#[export] Instance lists_on_dec h l xs : Decision (lists_on h l xs).
Proof. unfold lists_on. apply _. Defined.

Definition lists_check (h : lheap) (ls : gmap nat (list nat)) : bool :=
  bool_decide (map_Forall (lists_on h) ls) && bool_decide (map_Forall (owned ls) (nodes h)).

Lemma lists_check_ok h ls : lists_check h ls = true → lists h ls.
Proof.
unfold lists_check. intros [Ha%bool_decide_eq_true Hb%bool_decide_eq_true]%andb_prop. split.
- intros l xs Hl. by destruct (Ha l xs Hl).
- intros l xs i x Hl Hi. destruct (Ha l xs Hl) as [_ Hf]. rewrite Forall_forall in Hf. specialize (Hf i).
  rewrite Hi in Hf. apply Hf, in_seq. apply lookup_lt_Some in Hi. lia.
- intros x n l Hx Hn. pose proof (Hb x n Hx) as Ho. unfold owned in Ho. rewrite Hn in Ho.
  destruct (ls !! l) as [xs|]; [by exists xs|done].
Qed.

(** ** The operations together *)

Inductive lop := OpAdd (l x : nat) | OpPop (l : nat) | OpRemove (x : nat) | OpJoin (l o : nat).

Definition run_op (op : lop) (h : lheap) : res lheap :=
  match op with
  | OpAdd l x => AddTail l x h
  | OpPop l => PopHead l h
  | OpRemove x => RemoveFromLink x h
  | OpJoin l o => Join l o h
  end.

Fixpoint run_ops (ops : list lop) (h : lheap) : res lheap :=
  match ops with
  | [] => Ok h
  | op :: ops => h ← run_op op h; run_ops ops h
  end.

(** The same on lists: an item that is on a list is not added again. *)
Definition listed (ls : gmap nat (list nat)) (x : nat) : Prop := map_Exists (λ _ xs, x ∈ xs) ls.

Definition spec_op (op : lop) (ls : gmap nat (list nat)) : gmap nat (list nat) :=
  match op with
  | OpAdd l x => if decide (listed ls x) then ls else alter (λ xs, xs ++ [x]) l ls
  | OpPop l => alter tail l ls
  | OpRemove x => filter (λ y, y ≠ x) <$> ls
  | OpJoin l o => alter (λ _, []) o (alter (λ xs, xs ++ default [] (ls !! o)) l ls)
  end.

(** The pointers of a call: nodes [ns], list heads [ks], and two different lists. *)
Definition op_ok (ns ks : gset nat) (op : lop) : Prop :=
  match op with
  | OpAdd l x => l ∈ ks ∧ x ∈ ns
  | OpPop l => l ∈ ks
  | OpRemove x => x ∈ ns
  | OpJoin l o => l ∈ ks ∧ o ∈ ks ∧ l ≠ o
  end.

Lemma filter_absent (xs : list nat) x : x ∉ xs → filter (λ y, y ≠ x) xs = xs.
Proof.
induction xs as [|y xs IH]; intros Hx; [done|]. rewrite elem_of_cons in Hx. rewrite filter_cons_True by (intros ->; tauto).
f_equal. apply IH. tauto.
Qed.

Lemma filter_delete (xs : list nat) i x : NoDup xs → xs !! i = Some x → filter (λ y, y ≠ x) xs = delete i xs.
Proof.
revert i. induction xs as [|y xs IH]; intros i Hnd Hi; [done|]. apply list.NoDup_cons in Hnd as [Hy Hnd]. destruct i as [|i].
- injection Hi as ->. rewrite filter_cons_False by (intros Hn; by apply Hn). cbn. by apply filter_absent.
- cbn in Hi. change (delete (S i) (y :: xs)) with (y :: delete i xs). rewrite filter_cons_True by (intros ->; apply Hy; by eapply list_elem_of_lookup_2). f_equal. by apply IH.
Qed.

Lemma node_cases h ls x : lists h ls → x ∈ dom (nodes h) → free h x ∨ ∃ l xs i, ls !! l = Some xs ∧ xs !! i = Some x.
Proof.
intros H [n Hn]%elem_of_dom. destruct (pLink n) as [l|] eqn:Ep; [|left; by exists n]. right.
destruct (l_owner _ _ H x n l Hn Ep) as (xs & Hl & [i Hi]%list_elem_of_lookup). by exists l, xs, i.
Qed.

Lemma remove_spec h ls l xs i x :
  lists h ls → ls !! l = Some xs → xs !! i = Some x → filter (λ y, y ≠ x) <$> ls = <[l := delete i xs]> ls.
Proof.
intros H Hl Hi. apply map_eq. intros k. rewrite lookup_fmap. destruct (decide (l = k)) as [<-|Hne].
- rewrite lookup_insert_eq, Hl. cbn. f_equal. apply filter_delete; [|done]. by eapply list_NoDup.
- rewrite lookup_insert_ne by done. destruct (ls !! k) as [ys|] eqn:Ek; [|done]. cbn. f_equal. apply filter_absent.
  intros [j Hj]%list_elem_of_lookup. apply Hne. by eapply (same_place h ls H).
Qed.

Lemma alter_insert (ls : gmap nat (list nat)) l xs f : ls !! l = Some xs → alter f l ls = <[l := f xs]> ls.
Proof.
intros Hl. apply map_eq. intros k. destruct (decide (l = k)) as [<-|Hne]; [by rewrite lookup_alter_eq, lookup_insert_eq, Hl|].
by rewrite lookup_alter_ne, lookup_insert_ne.
Qed.

Lemma run_op_ok h ls op :
  lists h ls → op_ok (dom (nodes h)) (dom ls) op →
  ∃ h', run_op op h = Ok h' ∧ lists h' (spec_op op ls) ∧ dom (nodes h') = dom (nodes h) ∧ dom (spec_op op ls) = dom ls.
Proof.
intros H. destruct op as [l x|l|x|l o]; cbn [run_op spec_op op_ok].
- intros [[xs Hl]%elem_of_dom Hx]. destruct (node_cases h ls x H Hx) as [Hf|(k & ys & i & Hk & Hi)].
  + rewrite decide_False. 2:{ intros (k & ys & Hk & Hy). by apply (free_not_in h ls H x k ys Hf Hk). }
    rewrite (alter_insert ls l xs _ Hl). destruct (AddTail_ok h ls l xs x H Hl Hf) as (h' & E & Hl' & Hd). exists h'. split_and!; try done.
    apply dom_insert_lookup_L. by eexists.
  + rewrite decide_True by (exists k, ys; split; [done|by eapply list_elem_of_lookup_2]). exists h. split_and!; try done.
    eapply AddTail_on; [by eapply l_node|done].
- intros [[|x xs] Hl]%elem_of_dom; rewrite (alter_insert ls l _ _ Hl).
  + exists h. unfold PopHead. rewrite (link_at_ok _ _ _ _ H Hl). cbn. rewrite insert_id by done. done.
  + destruct (PopHead_ok h ls l x xs H Hl) as (h' & E & Hl' & Hd & _). exists h'. split_and!; try done. apply dom_insert_lookup_L. by eexists.
- intros Hx. destruct (node_cases h ls x H Hx) as [Hf|(k & ys & i & Hk & Hi)].
  + exists h. rewrite RemoveFromLink_free by done. split_and!; try done; [|by rewrite dom_fmap_L].
    replace (filter (λ y, y ≠ x) <$> ls) with ls; [done|]. apply map_eq. intros k. rewrite lookup_fmap.
    destruct (ls !! k) as [ys|] eqn:Ek; [|done]. cbn. f_equal. symmetry. apply filter_absent. by eapply (free_not_in h ls H).
  + rewrite (remove_spec h ls k ys i x H Hk Hi). destruct (RemoveFromLink_ok h ls k ys i x H Hk Hi) as (h' & E & Hl' & Hd & _).
    exists h'. split_and!; try done. apply dom_insert_lookup_L. by eexists.
- intros ([xs Hl]%elem_of_dom & [ys Ho]%elem_of_dom & Hne). rewrite Ho. cbn [default from_option id].
  destruct (Join_ok h ls l o xs ys H Hl Ho Hne) as (h' & E & Hl' & Hd). rewrite (alter_insert ls l xs _ Hl).
  rewrite (alter_insert _ o ys) by (by rewrite lookup_insert_ne). exists h'. split_and!; try done.
  rewrite !dom_insert_lookup_L; [done|by eexists|rewrite lookup_insert_ne by done; by eexists].
Qed.

(** C28: Any sequence of [AddTail], [PopHead], [RemoveFromLink] and [Join] on existing nodes
    and heads keeps the heap a set of well-formed doubly linked lists, dereferences no
    null or foreign pointer, ends, and leaves the lists that the same sequence gives on
    plain lists: an item is on one list at most, and adding it a second time does
    nothing. *)
Theorem links_well_formed ops h ls :
  lists h ls → Forall (op_ok (dom (nodes h)) (dom ls)) ops →
  ∃ h', run_ops ops h = Ok h' ∧ lists h' (foldl (λ ls op, spec_op op ls) ls ops).
Proof.
revert h ls. induction ops as [|op ops IH]; intros h ls H Ho; [by exists h|]. apply Forall_cons_1 in Ho as [Hop Ho].
destruct (run_op_ok h ls op H Hop) as (h1 & E1 & H1 & Hd1 & Hd2). cbn [run_ops foldl]. rewrite E1. cbn [mbind res_bind].
apply IH; [done|]. by rewrite Hd1, Hd2.
Qed.

Definition demo_heap : lheap :=
  mkLHeap (list_to_map ((λ x, (x, mkNode None None None)) <$> seq 10 3)) (list_to_map ((λ l, (l, mkLink None None)) <$> seq 0 2)).

(** Three items: two on one list, one on the other; the second list is joined to the
    first, and its last item taken out. *)
Lemma links_well_formed_witness :
  ∃ h', run_ops [OpAdd 0 10; OpAdd 1 11; OpAdd 1 12; OpAdd 0 11; OpJoin 0 1; OpRemove 12; OpPop 0] demo_heap = Ok h' ∧
    lists h' {[ 0%nat := [11%nat]; 1%nat := [] ]}.
Proof.
destruct (links_well_formed [OpAdd 0 10; OpAdd 1 11; OpAdd 1 12; OpAdd 0 11; OpJoin 0 1; OpRemove 12; OpPop 0] demo_heap
  {[ 0%nat := []; 1%nat := [] ]}) as (h' & E & H').
- apply lists_check_ok. by vm_compute.
- repeat apply Forall_cons; try apply Forall_nil; cbn; rewrite ?elem_of_dom; vm_compute; split_and?; (by eexists) || done.
- exists h'. split; [done|]. exact H'.
Defined.
