(* ===== verification/CoTimeout.v ===== *)
(** The time-out wheel of [cocgi/cocgi_lib/libco/co_routine.cpp]: [AllocTimeout],
    [AddTimeout] and [TakeAllTimeout] over the linked lists of [CoLink].

    The wheel is an array of [iItemSize] lists, one per millisecond from [ullStart] on;
    [llStartIdx] is the place of [ullStart].  [wheel c ls] is the invariant: an item is
    never in a place later than its deadline.  A deadline the wheel cannot hold is put
    in the last place, so that it is taken early; the event loop puts it back. *)

From Stdlib Require Import ZArith Lia Bool.
From Stdlib.Strings Require Import Byte.
From stdpp Require Import base numbers list gmap option.
From S2P Require Import Prelude CoLink.

Local Open Scope Z_scope.

(** ** Data *)

(** [stTimeoutItem_t]: [pfnProcess] is null or one of the functions that resume the
    coroutine [pArg]. *)
Record item := mkItem { ullExpireTime : Z; bTimeout : bool; pfnProcess : bool; pArg : nat }.

Record stTimeout := mkTimeout { iItemSize : Z; ullStart : Z; llStartIdx : Z }.

(** What the wheel's operations touch: the lists, the items and the wheel. *)
Record wstate := mkW { lh : lheap; items : gmap nat item; pTimeout : stTimeout }.

Definition set_lh (h : lheap) (c : wstate) : wstate := mkW h (items c) (pTimeout c).
Definition set_pTimeout (t : stTimeout) (c : wstate) : wstate := mkW (lh c) (items c) t.
Definition set_item (x : nat) (it : item) (c : wstate) : wstate := mkW (lh c) (<[x := it]> (items c)) (pTimeout c).
Definition item_at (x : nat) (c : wstate) : res item :=
  match items c !! x with Some it => Ok it | None => Fault OutOfBounds end.

(** The list heads: [pstActiveList], [pstTimeoutList] and [pItems + i]. *)
Definition active : nat := 0.
Definition timeout : nat := 1.
Definition slot (i : Z) : nat := S (S (Z.to_nat i)).

(** ** Operations *)

Definition AllocTimeout (iSize now : Z) : stTimeout := mkTimeout iSize now 0.

(** A wheel that has not started starts at the first time it sees. *)
Definition start_at (now : Z) (t : stTimeout) : stTimeout :=
  if ullStart t =? 0 then mkTimeout (iItemSize t) now 0 else t.

Definition AddTimeout (x : nat) (allNow : Z) (c : wstate) : res (Z * wstate) :=
  let t := start_at allNow (pTimeout c) in
  let c := set_pTimeout t c in
  if allNow <? ullStart t then Ok (390, c) else
  it ← item_at x c;
  if ullExpireTime it <? allNow then Ok (397, c) else
  let diff := u64 (ullExpireTime it - ullStart t) in
  let diff := if u64 (iItemSize t) <=? diff then u64 (s32 (iItemSize t - 1)) else diff in
  if u64 (iItemSize t) =? 0 then Fault OutOfBounds else
  h ← AddTail (slot (u64 (llStartIdx t + diff) mod u64 (iItemSize t))) x (lh c);
  Ok (0, set_lh h c).

(** The loop of [TakeAllTimeout]: [k] more places from the [i]-th on. *)
Fixpoint take_loop (k : nat) (i : Z) (t : stTimeout) (apResult : nat) (h : lheap) : res lheap :=
  match k with
  | O => Ok h
  | S k =>
      let idx := s32 (Z.rem (s64 (llStartIdx t + i)) (iItemSize t)) in
      if (idx <? 0) || (iItemSize t <=? idx) then Fault OutOfBounds else
      h ← Join apResult (slot idx) h;
      take_loop k (i + 1) t apResult h
  end.

Definition TakeAllTimeout (allNow : Z) (apResult : nat) (c : wstate) : res wstate :=
  let t := start_at allNow (pTimeout c) in
  let c := set_pTimeout t c in
  if allNow <? ullStart t then Ok c else
  let cnt := s32 (u64 (allNow - ullStart t + 1)) in
  let cnt := if iItemSize t <? cnt then iItemSize t else cnt in
  if cnt <? 0 then Ok c else
  h ← take_loop (Z.to_nat cnt) 0 t apResult (lh c);
  Ok (mkW h (items c) (mkTimeout (iItemSize t) allNow (s64 (llStartIdx t + (cnt - 1))))).

(** ** Invariant *)

(** How far ahead of [ullStart] the place [s] is. *)
Definition ahead (t : stTimeout) (s : Z) : Z := (s - llStartIdx t) mod iItemSize t.

Definition on_slot (ls : gmap nat (list nat)) (s : Z) (x : nat) : Prop := ∃ xs, ls !! slot s = Some xs ∧ x ∈ xs.

Record wheel (c : wstate) (ls : gmap nat (list nat)) : Prop := {
  w_lists : lists (lh c) ls;
  w_size : 0 < iItemSize (pTimeout c) < 2 ^ 31;
  w_start : 0 < ullStart (pTimeout c) < 2 ^ 62;
  w_idx : 0 ≤ llStartIdx (pTimeout c) ≤ ullStart (pTimeout c);
  w_slot s : 0 ≤ s < iItemSize (pTimeout c) → is_Some (ls !! slot s);
  w_item s x : 0 ≤ s < iItemSize (pTimeout c) → on_slot ls s x →
    ∃ it, items c !! x = Some it ∧ ullStart (pTimeout c) + ahead (pTimeout c) s ≤ ullExpireTime it;
}.

Lemma slot_inj s s' : 0 ≤ s → 0 ≤ s' → slot s = slot s' → s = s'.
Proof. unfold slot. lia. Qed.

Lemma slot_other s : slot s ≠ active ∧ slot s ≠ timeout.
Proof. unfold slot, active, timeout. lia. Qed.

Lemma start_at_started now t : 0 < ullStart t → start_at now t = t.
Proof. intros H. unfold start_at. by rewrite (proj2 (Z.eqb_neq _ _)) by lia. Qed.

Lemma set_pTimeout_id c : set_pTimeout (pTimeout c) c = c.
Proof. by destruct c. Qed.

Lemma u64_id z : 0 ≤ z < 2 ^ 64 → u64 z = z.
Proof. apply Z.mod_small. Qed.

Lemma s64_id z : - 2 ^ 63 ≤ z < 2 ^ 63 → s64 z = z.
Proof. intros. unfold s64. apply swrap_small; lia. Qed.

Lemma ahead_range t s : 0 < iItemSize t → 0 ≤ ahead t s < iItemSize t.
Proof. intros. apply Z.mod_pos_bound. lia. Qed.

(** The place [d] ahead of the start. *)
Lemma ahead_of t d : 0 ≤ d < iItemSize t → ahead t ((llStartIdx t + d) mod iItemSize t) = d.
Proof.
intros Hd. unfold ahead. rewrite Zminus_mod_idemp_l. replace (llStartIdx t + d - llStartIdx t) with d by lia.
by apply Z.mod_small.
Qed.

Lemma place_of t s : 0 ≤ s < iItemSize t → (llStartIdx t + ahead t s) mod iItemSize t = s.
Proof.
intros Hs. unfold ahead. rewrite Zplus_mod_idemp_r. replace (llStartIdx t + (s - llStartIdx t)) with s by lia.
by apply Z.mod_small.
Qed.

(** ** [AddTimeout] *)

(** The place of a deadline: as far ahead as it is, or the last place. *)
Definition place (t : stTimeout) (deadline : Z) : Z := Z.min (deadline - ullStart t) (iItemSize t - 1).

Lemma AddTimeout_run c ls x it now :
  wheel c ls → items c !! x = Some it → ullStart (pTimeout c) ≤ now ≤ ullExpireTime it → ullExpireTime it < 2 ^ 64 →
  AddTimeout x now c =
    (h ← AddTail (slot ((llStartIdx (pTimeout c) + place (pTimeout c) (ullExpireTime it)) mod iItemSize (pTimeout c))) x (lh c);
     Ok (0, set_lh h c)).
Proof.
intros H Hit Hnow Hexp. pose proof (w_start _ _ H). pose proof (w_size _ _ H). pose proof (w_idx _ _ H).
unfold AddTimeout. rewrite start_at_started by lia. rewrite set_pTimeout_id. unfold item_at. rewrite Hit.
rewrite (proj2 (Z.ltb_ge _ _)) by lia. cbn [mbind res_bind]. rewrite (proj2 (Z.ltb_ge _ _)) by lia.
rewrite (u64_id (iItemSize _)), (u64_id (ullExpireTime _ - _)) by lia. rewrite (s32_id (_ - 1)), (u64_id (_ - 1)) by lia.
rewrite (proj2 (Z.eqb_neq _ _)) by lia.
replace (if _ <=? _ then _ else _) with (place (pTimeout c) (ullExpireTime it)).
2:{ unfold place. destruct (Z.leb_spec (iItemSize (pTimeout c)) (ullExpireTime it - ullStart (pTimeout c))); lia. }
rewrite u64_id; [done|]. unfold place. lia.
Qed.

Lemma AddTimeout_ok c ls x it now :
  wheel c ls → items c !! x = Some it → free (lh c) x →
  ullStart (pTimeout c) ≤ now ≤ ullExpireTime it → ullExpireTime it < 2 ^ 64 →
  ∃ h' s xs, AddTimeout x now c = Ok (0, set_lh h' c) ∧ 0 ≤ s < iItemSize (pTimeout c) ∧ ls !! slot s = Some xs ∧
    ahead (pTimeout c) s = place (pTimeout c) (ullExpireTime it) ∧
    wheel (set_lh h' c) (<[slot s := xs ++ [x]]> ls) ∧ dom (nodes h') = dom (nodes (lh c)).
Proof.
intros H Hit Hf Hnow Hexp. pose proof (w_size _ _ H).
assert (0 ≤ place (pTimeout c) (ullExpireTime it) < iItemSize (pTimeout c)) as Hpl by (unfold place; lia).
set (s := (llStartIdx (pTimeout c) + place (pTimeout c) (ullExpireTime it)) mod iItemSize (pTimeout c)).
assert (0 ≤ s < iItemSize (pTimeout c)) as Hs by (apply Z.mod_pos_bound; lia).
assert (ahead (pTimeout c) s = place (pTimeout c) (ullExpireTime it)) as Ha by (by apply ahead_of).
destruct (w_slot _ _ H s Hs) as [xs Hxs].
destruct (AddTail_ok _ _ (slot s) xs x (w_lists _ _ H) Hxs Hf) as (h' & E & Hl & Hd).
exists h', s, xs. rewrite (AddTimeout_run c ls x it now) by done. fold s. rewrite E. split_and!; try done; try apply Hs.
split; try apply H; [done| |].
- intros s' Hs'. cbn. destruct (decide (slot s = slot s')) as [<-|Hne]; [by rewrite lookup_insert_eq|].
  rewrite lookup_insert_ne by done. by apply (w_slot _ _ H).
- cbn. intros s' y Hs' (ys & Hys & Hy). destruct (decide (s = s')) as [<-|Hne].
  + rewrite lookup_insert_eq in Hys. injection Hys as <-. apply elem_of_app in Hy as [Hy|Hy].
    * apply (w_item _ _ H s y Hs). by exists xs.
    * apply list_elem_of_singleton in Hy as ->. exists it. split; [done|]. rewrite Ha. unfold place. lia.
  + rewrite lookup_insert_ne in Hys by (intros E'; apply Hne, slot_inj; [lia..|done]).
    apply (w_item _ _ H s' y Hs'). by exists ys.
Qed.

(** ** [TakeAllTimeout] *)

(** The place the loop visits at [i]. *)
Definition visit (t : stTimeout) (i : Z) : Z := (llStartIdx t + i) mod iItemSize t.

Lemma visit_range t i : 0 < iItemSize t → 0 ≤ visit t i < iItemSize t.
Proof. intros. apply Z.mod_pos_bound. lia. Qed.

Lemma take_loop_step k i t r h :
  0 < iItemSize t < 2 ^ 31 → 0 ≤ llStartIdx t → 0 ≤ i → llStartIdx t + i < 2 ^ 63 →
  take_loop (S k) i t r h = (h ← Join r (slot (visit t i)) h; take_loop k (i + 1) t r h).
Proof.
intros Hs Hi0 Hi Hlt. pose proof (visit_range t i ltac:(lia)) as Hv. cbn [take_loop].
rewrite (s64_id (_ + _)) by lia. rewrite Z.rem_mod_nonneg by lia. fold (visit t i). rewrite s32_id by lia.
rewrite (proj2 (Z.ltb_ge _ _)), (proj2 (Z.leb_gt _ _)) by lia. done.
Qed.

Lemma visit_inj t i j : 0 < iItemSize t → 0 ≤ i → i < j < i + iItemSize t → visit t i ≠ visit t j.
Proof.
intros Hs Hi Hij E. unfold visit in E.
assert (((llStartIdx t + j) - (llStartIdx t + i)) mod iItemSize t = 0) as Hz by (rewrite Zminus_mod, E, Z.sub_diag; done).
replace (llStartIdx t + j - (llStartIdx t + i)) with (j - i) in Hz by lia. rewrite Z.mod_small in Hz; lia.
Qed.

(** What the loop moves: the lists from the [i]-th place on are emptied, in order. *)
Lemma take_loop_ok t k i h ls ts :
  0 < iItemSize t < 2 ^ 31 → 0 ≤ llStartIdx t → 0 ≤ i → i + Z.of_nat k ≤ iItemSize t → llStartIdx t + iItemSize t < 2 ^ 63 →
  lists h ls → ls !! timeout = Some ts → (∀ s, 0 ≤ s < iItemSize t → is_Some (ls !! slot s)) →
  ∃ h' ls' tk, take_loop k i t timeout h = Ok h' ∧ lists h' ls' ∧ dom (nodes h') = dom (nodes h) ∧
    ls' !! timeout = Some (ts ++ tk) ∧ ls' !! active = ls !! active ∧
    (∀ s, 0 ≤ s < iItemSize t → (∀ j, i ≤ j < i + Z.of_nat k → s ≠ visit t j) → ls' !! slot s = ls !! slot s) ∧
    (∀ j, i ≤ j < i + Z.of_nat k → ls' !! slot (visit t j) = Some []) ∧
    (∀ x, x ∈ tk ↔ ∃ j, i ≤ j < i + Z.of_nat k ∧ on_slot ls (visit t j) x).
Proof.
intros Hs Hi0. revert i h ls ts. induction k as [|k IH]; intros i h ls ts Hi Hk Hlt Hl Hts Hsl.
- exists h, ls, []. rewrite app_nil_r. split_and!; try done; [by intros; lia|]. intros x. rewrite elem_of_nil.
  split; [done|]. intros (j & Hj & _). lia.
- rewrite take_loop_step by lia. pose proof (visit_range t i ltac:(lia)) as Hv.
  destruct (Hsl (visit t i) Hv) as [xs Hxs]. destruct (slot_other (visit t i)) as [Hna Hnt].
  destruct (Join_ok h ls timeout (slot (visit t i)) ts xs Hl Hts Hxs (not_eq_sym Hnt)) as (h1 & E1 & Hl1 & Hd1).
  set (ls1 := <[slot (visit t i):=[]]> (<[timeout:=ts ++ xs]> ls)) in *.
  assert (∀ s, 0 ≤ s → s ≠ visit t i → ls1 !! slot s = ls !! slot s) as Hls1.
  { intros s Hs0 Hne. destruct (slot_other s). unfold ls1. rewrite !lookup_insert_ne; [done|done|].
    intros E. apply Hne. symmetry. apply slot_inj; [lia..|done]. }
  assert (ls1 !! slot (visit t i) = Some []) as Hls1i by (unfold ls1; by rewrite lookup_insert_eq).
  assert (ls1 !! timeout = Some (ts ++ xs)) as Hls1t.
  { unfold ls1. by rewrite lookup_insert_ne, lookup_insert_eq. }
  destruct (IH (i + 1) h1 ls1 (ts ++ xs)) as (h' & ls' & tk & E & Hl' & Hd' & Ht' & Ha' & Hsame & Hgone & Htk); try lia; try done.
  { intros s Hs'. destruct (decide (s = visit t i)) as [->|Hne]; [by rewrite Hls1i|]. rewrite Hls1 by (done || lia). by apply Hsl. }
  exists h', ls', (xs ++ tk). rewrite E1. cbn [mbind res_bind]. rewrite app_assoc. split_and!; try done.
  + congruence.
  + rewrite Ha'. unfold ls1. by rewrite !lookup_insert_ne.
  + intros s Hs' Hnv. rewrite Hsame by (done || intros j Hj; apply Hnv; lia). apply Hls1; [lia|]. apply Hnv. lia.
  + intros j Hj. destruct (decide (j = i)) as [->|Hne]; [|apply Hgone; lia].
    rewrite Hsame; [done|done|]. intros j' Hj'. apply visit_inj; lia.
  + intros x. rewrite elem_of_app, Htk. split.
    * intros [Hx|(j & Hj & ys & Hys & Hx)].
      -- exists i. split; [lia|]. by exists xs.
      -- exists j. split; [lia|]. exists ys. split; [|done]. rewrite <- Hys. symmetry. apply Hls1; [apply visit_range; lia|].
         apply not_eq_sym, visit_inj; lia.
    * intros (j & Hj & ys & Hys & Hx). destruct (decide (j = i)) as [->|Hne].
      -- left. rewrite Hxs in Hys. by injection Hys as <-.
      -- right. exists j. split; [lia|]. exists ys. split; [|done]. rewrite Hls1; [done|apply visit_range; lia|].
         apply not_eq_sym, visit_inj; lia.
Qed.

(** The places visited are the ones less than [k] ahead. *)
Lemma visited_iff t k s :
  0 ≤ s < iItemSize t → 0 ≤ k ≤ iItemSize t → (∃ j, 0 ≤ j < k ∧ s = visit t j) ↔ ahead t s < k.
Proof.
intros Hs Hk. pose proof (ahead_range t s ltac:(lia)). split.
- intros (j & Hj & ->). unfold visit. rewrite ahead_of; lia.
- intros Ha. exists (ahead t s). split; [lia|]. unfold visit. by rewrite place_of.
Qed.

(** How many places a call at [now] takes. *)
Definition passed (t : stTimeout) (now : Z) : Z := Z.min (now - ullStart t + 1) (iItemSize t).

Lemma TakeAllTimeout_run c ls r now :
  wheel c ls → ullStart (pTimeout c) ≤ now < 2 ^ 62 → now - ullStart (pTimeout c) + 1 < 2 ^ 31 →
  let t := pTimeout c in
  TakeAllTimeout now r c =
    (h ← take_loop (Z.to_nat (passed t now)) 0 t r (lh c);
     Ok (mkW h (items c) (mkTimeout (iItemSize t) now (llStartIdx t + (passed t now - 1))))).
Proof.
intros H Hnow Hcnt t. subst t. pose proof (w_start _ _ H). pose proof (w_size _ _ H). pose proof (w_idx _ _ H).
unfold TakeAllTimeout. rewrite start_at_started by lia. rewrite set_pTimeout_id.
rewrite (proj2 (Z.ltb_ge now _)) by lia. rewrite (u64_id (_ + 1)), (s32_id (_ + 1)) by lia.
replace (if _ <? _ then _ else _) with (passed (pTimeout c) now).
2:{ unfold passed. destruct (Z.ltb_spec (iItemSize (pTimeout c)) (now - ullStart (pTimeout c) + 1)); lia. }
rewrite (proj2 (Z.ltb_ge _ 0)) by (unfold passed; lia). rewrite s64_id; [done|]. unfold passed. lia.
Qed.

(** A call at [now] takes every item whose place has passed, and leaves the wheel at [now]. *)
Lemma TakeAllTimeout_ok c ls now :
  wheel c ls → ls !! timeout = Some [] → ullStart (pTimeout c) ≤ now < 2 ^ 62 →
  now - ullStart (pTimeout c) + 1 < 2 ^ 31 →
  ∃ c' ls' tk, TakeAllTimeout now timeout c = Ok c' ∧ wheel c' ls' ∧
    items c' = items c ∧ ullStart (pTimeout c') = now ∧ iItemSize (pTimeout c') = iItemSize (pTimeout c) ∧
    dom (nodes (lh c')) = dom (nodes (lh c)) ∧
    ls' !! timeout = Some tk ∧ ls' !! active = ls !! active ∧
    (∀ s x, 0 ≤ s < iItemSize (pTimeout c) →
      on_slot ls' s x ↔ on_slot ls s x ∧ passed (pTimeout c) now ≤ ahead (pTimeout c) s) ∧
    (∀ x, x ∈ tk ↔ ∃ s, 0 ≤ s < iItemSize (pTimeout c) ∧ on_slot ls s x ∧ ahead (pTimeout c) s < passed (pTimeout c) now).
Proof.
intros H Ht Hnow Hcnt. pose proof (w_start _ _ H). pose proof (w_size _ _ H) as Hsz. pose proof (w_idx _ _ H).
rewrite (TakeAllTimeout_run c ls) by done. set (t := pTimeout c) in *. set (k := passed t now).
assert (1 ≤ k ≤ iItemSize t ∧ k ≤ now - ullStart t + 1) as [Hk Hk'] by (unfold k, passed; lia).
destruct (take_loop_ok t (Z.to_nat k) 0 (lh c) ls []) as (h' & ls' & tk & E & Hl & Hd & Ht' & Ha & Hsame & Hgone & Htk);
  try lia; try done; [apply H|apply (w_slot _ _ H)|]. rewrite Z2Nat.id in Hsame, Hgone, Htk by lia.
assert (∀ s x, 0 ≤ s < iItemSize t → on_slot ls' s x ↔ on_slot ls s x ∧ k ≤ ahead t s) as Hon.
{ intros s x Hs. destruct (Z.lt_ge_cases (ahead t s) k) as [Hlt|Hge].
  - apply visited_iff in Hlt as (j & Hj & Es); [|lia..]. split.
    + intros (xs & Hxs & Hx). rewrite Es, Hgone in Hxs by lia. injection Hxs as <-. by apply elem_of_nil in Hx.
    + intros [_ Hge]. assert (ahead t s < k); [apply visited_iff; [lia..|by exists j]|lia].
  - unfold on_slot. rewrite Hsame; [split; [by split|by intros [? _]]|done|]. intros j Hj ->.
    assert (ahead t (visit t j) < k); [apply visited_iff; [lia..|by exists j]|lia]. }
rewrite E. cbn [mbind res_bind]. eexists _, ls', tk. split; [done|]. cbn [lh items pTimeout ullStart iItemSize]. split_and!; try done.
- split; cbn [lh items pTimeout ullStart iItemSize llStartIdx]; [done|done|lia|unfold k, passed in *; lia| |].
  + intros s Hs. destruct (Z.lt_ge_cases (ahead t s) k) as [Hlt|Hge].
    * apply visited_iff in Hlt as (j & Hj & ->); [|lia..]. rewrite Hgone by lia. done.
    * rewrite Hsame; [by apply (w_slot _ _ H)|done|]. intros j Hj ->.
      assert (ahead t (visit t j) < k); [apply visited_iff; [lia..|by exists j]|lia].
  + intros s x Hs Hx. apply Hon in Hx as [Hx Hge]; [|done]. destruct (w_item _ _ H s x Hs Hx) as (it & Hit & Hle).
    exists it. split; [done|]. fold t in Hle. unfold ahead. cbn [iItemSize llStartIdx]. pose proof (ahead_range t s ltac:(lia)).
    replace (s - (llStartIdx t + (k - 1))) with ((s - llStartIdx t) - (k - 1)) by lia.
    rewrite <- Zminus_mod_idemp_l. fold (ahead t s). rewrite Z.mod_small by lia.
    assert (k = now - ullStart t + 1); [|lia]. unfold k, passed in *. lia.
- intros x. rewrite Htk. split.
  + intros (j & Hj & Hx). exists (visit t j). split_and!; try apply visit_range; try lia; [done|]. apply visited_iff; [apply visit_range; lia|lia|by exists j].
  + intros (s & Hs & Hx & Hlt). apply visited_iff in Hlt as (j & Hj & ->); [|lia..]. by exists j.
Qed.

(** ** The clock *)

(** When the clock has gone back no deadline is accepted and none is taken. *)
Lemma clock_back c x now r :
  0 < ullStart (pTimeout c) → now < ullStart (pTimeout c) →
  AddTimeout x now c = Ok (390, c) ∧ TakeAllTimeout now r c = Ok c.
Proof.
intros H Hn. unfold AddTimeout, TakeAllTimeout. rewrite start_at_started by lia. rewrite set_pTimeout_id.
by rewrite (proj2 (Z.ltb_lt _ _)) by lia.
Qed.

(** After a jump of [2^31] milliseconds or more the count of places is a negative [int]. *)
Lemma stalled c now r :
  0 < ullStart (pTimeout c) ≤ now → now < 2 ^ 62 → 2 ^ 31 ≤ (now - ullStart (pTimeout c) + 1) mod 2 ^ 32 →
  0 < iItemSize (pTimeout c) → TakeAllTimeout now r c = Ok c.
Proof.
intros H Hn Hj Hs. unfold TakeAllTimeout. rewrite start_at_started by lia. rewrite set_pTimeout_id.
rewrite (proj2 (Z.ltb_ge now _)) by lia. rewrite u64_id by lia.
assert (s32 (now - ullStart (pTimeout c) + 1) < 0) as Hneg.
{ unfold s32, swrap. pose proof (Z.mod_pos_bound (now - ullStart (pTimeout c) + 1) (2 ^ 32) ltac:(lia)).
  case_match eqn:E; lia. }
rewrite (proj2 (Z.ltb_ge (iItemSize _) _)) by lia. by rewrite (proj2 (Z.ltb_lt _ _)).
Qed.
