(* ===== verification/CoLoop.v ===== *)
(** The event loop of [cocgi/cocgi_lib/libco/co_routine.cpp]: one pass of [co_eventloop]
    with [OnPollPreparePfn], the two halves of [co_poll_inner] around the yield, and the
    condition variables [co_cond_signal], [co_cond_broadcast] and [co_cond_timedwait].

    Resuming a coroutine runs code of the program that uses the library: it is the
    parameter [resume] of the loop, with what a theorem needs of it as a hypothesis. *)

From Stdlib Require Import ZArith Lia Bool.
From Stdlib.Strings Require Import Byte.
From stdpp Require Import base numbers list gmap option.
From S2P Require Import Prelude CoLink CoTimeout.

Local Open Scope Z_scope.

(** ** Event masks *)

Definition POLLIN : Z := 1.
Definition POLLOUT : Z := 4.
Definition POLLERR : Z := 8.
Definition POLLHUP : Z := 16.
Definition POLLRDNORM : Z := 64.
Definition POLLWRNORM : Z := 256.
Definition EPOLLIN : Z := 1.
Definition EPOLLOUT : Z := 4.
Definition EPOLLERR : Z := 8.
Definition EPOLLHUP : Z := 16.
Definition EPOLLRDNORM : Z := 64.
Definition EPOLLWRNORM : Z := 256.

(** [if( events & bit ) e |= bit'] *)
Definition copy_bit (events bit bit' e : Z) : Z := if Z.land events bit =? 0 then e else Z.lor e bit'.

Definition PollEvent2Epoll (events : Z) : Z :=
  let e := copy_bit events POLLIN EPOLLIN 0 in
  let e := copy_bit events POLLOUT EPOLLOUT e in
  let e := copy_bit events POLLHUP EPOLLHUP e in
  let e := copy_bit events POLLERR EPOLLERR e in
  let e := copy_bit events POLLRDNORM EPOLLRDNORM e in
  copy_bit events POLLWRNORM EPOLLWRNORM e.

Definition EpollEvent2Poll (events : Z) : Z :=
  let e := copy_bit events EPOLLIN POLLIN 0 in
  let e := copy_bit events EPOLLOUT POLLOUT e in
  let e := copy_bit events EPOLLHUP POLLHUP e in
  let e := copy_bit events EPOLLERR POLLERR e in
  let e := copy_bit events EPOLLRDNORM POLLRDNORM e in
  copy_bit events EPOLLWRNORM POLLWRNORM e.

(** ** State *)

(** [struct pollfd]. *)
Record cpollfd := mkCPollfd { p_fd : Z; p_events : Z; p_revents : Z }.

(** [stPoll_t] beyond its [stTimeoutItem_t], and [stPollItem_t]; [pSelf] is a place of
    the array [fds] of its poll. *)
Record stPoll := mkStPoll { fds : list cpollfd; iAllEventDetach : bool; iRaiseCnt : Z }.
Record stPollItem := mkStPollItem { pSelf : nat; pPoll : nat }.

(** [epolls] is the interest set of [iEpollFd], [conds] the heap of condition items;
    the [timeout] of the condition item [x] is the time-out item [x]. *)
Record cstate := mkC {
  ws : wstate;
  polls : gmap nat stPoll;
  pitems : gmap nat stPollItem;
  epolls : gmap Z (Z * nat);
  conds : lheap }.

Definition set_ws (w : wstate) (c : cstate) : cstate := mkC w (polls c) (pitems c) (epolls c) (conds c).
Definition set_polls (p : gmap nat stPoll) (c : cstate) : cstate := mkC (ws c) p (pitems c) (epolls c) (conds c).
Definition set_conds (h : lheap) (c : cstate) : cstate := mkC (ws c) (polls c) (pitems c) (epolls c) h.

Definition poll_at (q : nat) (c : cstate) : res stPoll :=
  match polls c !! q with Some p => Ok p | None => Fault OutOfBounds end.
Definition pitem_at (p : nat) (c : cstate) : res stPollItem :=
  match pitems c !! p with Some i => Ok i | None => Fault OutOfBounds end.

(** An update of the lists. *)
Definition on_lh (f : lheap → res lheap) (w : wstate) : res wstate := h ← f (lh w); Ok (set_lh h w).
Definition on_ws (f : wstate → res wstate) (c : cstate) : res cstate := w ← f (ws c); Ok (set_ws w c).

(** ** Events *)

(** [data.ptr] of an epoll event: a poll item, which has [pfnPrepare], or an item without. *)
Inductive evptr := PollItem (p : nat) | Plain (x : nat).

Definition with_revents (v : Z) (f : cpollfd) : cpollfd := mkCPollfd (p_fd f) (p_events f) v.

(** [RemoveFromLink( x ); AddTail( active,x )] *)
Definition activate (x : nat) (w : wstate) : res wstate :=
  w ← on_lh (RemoveFromLink x) w;
  on_lh (AddTail active x) w.

Definition OnPollPreparePfn (p : nat) (events : Z) (c : cstate) : res cstate :=
  lp ← pitem_at p c;
  a ← poll_at (pPoll lp) c;
  if (length (fds a) <=? pSelf lp)%nat then Fault OutOfBounds else
  let a := mkStPoll (alter (with_revents (EpollEvent2Poll events)) (pSelf lp) (fds a)) (iAllEventDetach a) (s32 (iRaiseCnt a + 1)) in
  if iAllEventDetach a then Ok (set_polls (<[pPoll lp := a]> (polls c)) c) else
  let c := set_polls (<[pPoll lp := mkStPoll (fds a) true (iRaiseCnt a)]> (polls c)) c in
  on_ws (activate (pPoll lp)) c.

Fixpoint prepare (evs : list (evptr * Z)) (c : cstate) : res cstate :=
  match evs with
  | [] => Ok c
  | (PollItem p, e) :: evs => c ← OnPollPreparePfn p e c; prepare evs c
  | (Plain x, _) :: evs => c ← on_ws (on_lh (AddTail active x)) c; prepare evs c
  end.

(** [lp->bTimeout = true], down the list from [lp]. *)
Fixpoint mark (fuel : nat) (lp : option nat) (w : wstate) : res wstate :=
  match lp with
  | None => Ok w
  | Some x =>
      match fuel with
      | O => Fault OutOfFuel
      | S fuel =>
          it ← item_at x w;
          n ← node_at (lh w) x;
          mark fuel (pNext n) (set_item x (mkItem (ullExpireTime it) true (pfnProcess it) (pArg it)) w)
      end
  end.

(** ** The loop *)

Section loop.
Context (resume : nat → cstate → res cstate).

(** [lp->pfnProcess( lp )]: every one of them is [co_resume( lp->pArg )]. *)
Definition process (lp : nat) (c : cstate) : res cstate :=
  it ← item_at lp (ws c);
  if pfnProcess it then resume (pArg it) c else Ok c.

(** The loop over the active list; the items processed are returned in order. *)
Fixpoint drain (fuel : nat) (now : Z) (c : cstate) : res (list nat * cstate) :=
  a ← link_at (lh (ws c)) active;
  match lhead a with
  | None => Ok ([], c)
  | Some lp =>
      match fuel with
      | O => Fault OutOfFuel
      | S fuel =>
          c ← on_ws (on_lh (PopHead active)) c;
          it ← item_at lp (ws c);
          '(again, c) ←
            (if bTimeout it && (now <? ullExpireTime it) then
               '(ret, w) ← AddTimeout lp now (ws c);
               if ret =? 0
               then Ok (true, set_ws (set_item lp (mkItem (ullExpireTime it) false (pfnProcess it) (pArg it)) w) c)
               else Ok (false, set_ws w c)
             else Ok (false, c));
          if again : bool then drain fuel now c else
          c ← process lp c;
          '(fired, c) ← drain fuel now c;
          Ok (lp :: fired, c)
      end
  end.

(** From [GetTickMS()] to the end of the pass. *)
Definition expire (fuel : nat) (now : Z) (c : cstate) : res (list nat * cstate) :=
  w ← TakeAllTimeout now timeout (ws c);
  t ← link_at (lh w) timeout;
  w ← mark (size (nodes (lh w))) (lhead t) w;
  w ← on_lh (Join active timeout) w;
  drain fuel now (set_ws w c).

(** One pass of [for(;;)]: [evs] is what [co_epoll_wait] returned. *)
Definition eventloop_pass (fuel : nat) (evs : list (evptr * Z)) (now : Z) (c : cstate) : res (list nat * cstate) :=
  let c := set_ws (set_lh (set_link timeout (mkLink None None) (lh (ws c))) (ws c)) c in
  c ← prepare evs c;
  expire fuel now c.
End loop.

(** ** [co_poll_inner] *)

(** What [co_epoll_ctl( epfd,EPOLL_CTL_ADD,... )] answered. *)
Inductive ctl := CtlOk | CtlEperm | CtlFail.

(** What the call does when it does not come back through the end of the function:
    it hands over to [pollfunc], or calls it through a null pointer. *)
Inductive poll_start :=
  | Handed (timeout_ms : Z)
  | NullCall
  | Refused            (** [AddTimeout] failed: the end of the function runs at once *)
  | Parked.            (** the coroutine yields *)

(** [malloc] and [calloc] of an item: on no list. *)
Definition new_node (x : nat) (h : lheap) : lheap := set_node x (mkNode None None None) h.
Definition free_node (x : nat) (h : lheap) : lheap := mkLHeap (delete x (nodes h)) (links h).

(** The loop over the descriptors: [None] when the call is handed over to [pollfunc]. *)
Fixpoint add_epolls (q : nat) (i : nat) (ps : list nat) (fs : list cpollfd) (rs : list ctl) (single hook : bool)
    (c : cstate) : option cstate :=
  match ps, fs with
  | p :: ps, f :: fs =>
      let c := mkC (ws c) (polls c) (<[p := mkStPollItem i q]> (pitems c)) (epolls c) (conds c) in
      if -1 <? p_fd f then
        match default CtlFail (head rs) with
        | CtlOk =>
            let e := <[p_fd f := (PollEvent2Epoll (p_events f), p)]> (epolls c) in
            add_epolls q (S i) ps fs (tail rs) single hook (mkC (ws c) (polls c) (pitems c) e (conds c))
        | CtlEperm => if single && hook then None else add_epolls q (S i) ps fs (tail rs) single hook c
        | CtlFail => add_epolls q (S i) ps fs (tail rs) single hook c
        end
      else add_epolls q (S i) ps fs rs single hook c
  | _, _ => Some c
  end.

Definition INT_MAX : Z := 2147483647.

(** Up to the yield: [q] is the [stPoll_t] allocated, [ps] are its poll items, [self]
    the coroutine; [hook] says that [pollfunc] is not null. *)
Definition co_poll_begin (q : nat) (ps : list nat) (self : nat) (fs : list cpollfd) (timeout_ms : Z)
    (rs : list ctl) (hook : bool) (now : Z) (c : cstate) : res (poll_start * cstate) :=
  if timeout_ms =? 0 then Ok (if hook then Handed 0 else NullCall, c) else
  let timeout_ms := if timeout_ms <? 0 then INT_MAX else timeout_ms in
  let w := mkW (new_node q (lh (ws c))) (<[q := mkItem 0 false true self]> (items (ws c))) (pTimeout (ws c)) in
  let zero := (λ _, mkCPollfd 0 0 0) <$> fs in
  let c1 := mkC w (<[q := mkStPoll zero false 0]> (polls c)) (pitems c) (epolls c) (conds c) in
  match add_epolls q 0 ps fs rs (length fs =? 1)%nat hook c1 with
  | None => Ok (Handed timeout_ms, c)
  | Some c1 =>
      let w := set_item q (mkItem (u64 (now + timeout_ms)) false true self) (ws c1) in
      '(ret, w) ← AddTimeout q now w;
      Ok (if ret =? 0 then Parked else Refused, set_ws w c1)
  end.

(** After the yield. *)
Fixpoint del_epolls (fs : list cpollfd) (e : gmap Z (Z * nat)) : gmap Z (Z * nat) :=
  match fs with
  | [] => e
  | f :: fs => del_epolls fs (if -1 <? p_fd f then delete (p_fd f) e else e)
  end.

Definition copy_revents (a : stPoll) (fs : list cpollfd) : list cpollfd :=
  zip_with (λ f g, with_revents (p_revents g) f) fs (fds a).

Definition co_poll_end (q : nat) (ps : list nat) (fs : list cpollfd) (refused : bool) (c : cstate) :
    res (Z * list cpollfd * cstate) :=
  a ← poll_at q c;
  w ← on_lh (RemoveFromLink q) (ws c);
  let w := mkW (free_node q (lh w)) (delete q (items w)) (pTimeout w) in
  let pit := foldl (λ m p, delete p m) (pitems c) ps in
  Ok (if refused then -1 else iRaiseCnt a, copy_revents a fs,
      mkC w (delete q (polls c)) pit (del_epolls fs (epolls c)) (conds c)).

(** ** Condition variables *)

Definition co_cond_pop (l : nat) (h : lheap) : res (option nat * lheap) :=
  k ← link_at h l;
  match lhead k with
  | None => Ok (None, h)
  | Some p => h ← PopHead l h; Ok (Some p, h)
  end.

Definition co_cond_signal (l : nat) (c : cstate) : res cstate :=
  '(sp, h) ← co_cond_pop l (conds c);
  let c := set_conds h c in
  match sp with
  | None => Ok c
  | Some x => on_ws (activate x) c
  end.

Fixpoint co_cond_broadcast (fuel : nat) (l : nat) (c : cstate) : res cstate :=
  match fuel with
  | O => Fault OutOfFuel
  | S fuel =>
      '(sp, h) ← co_cond_pop l (conds c);
      let c := set_conds h c in
      match sp with
      | None => Ok c
      | Some x => c ← on_ws (activate x) c; co_cond_broadcast fuel l c
      end
  end.

(** Up to the yield: [x] is the item allocated, [self] the coroutine.  [Some ret] is an
    early return. *)
Definition co_cond_wait_begin (x self l : nat) (ms now : Z) (c : cstate) : res (option Z * cstate) :=
  let dl := if 0 <? ms then u64 (now + ms) else 0 in
  let w := mkW (new_node x (lh (ws c))) (<[x := mkItem dl false true self]> (items (ws c))) (pTimeout (ws c)) in
  '(ret, w) ← (if 0 <? ms then AddTimeout x now w else Ok (0, w));
  if negb (ret =? 0) then
    Ok (Some ret, set_ws (mkW (free_node x (lh w)) (delete x (items w)) (pTimeout w)) c)
  else
    h ← AddTail l x (new_node x (conds c));
    Ok (None, set_conds h (set_ws w c)).

(** After the yield. *)
Definition co_cond_wait_end (x : nat) (c : cstate) : res cstate :=
  h ← RemoveFromLink x (conds c);
  let w := ws c in
  Ok (set_conds (free_node x h) (set_ws (mkW (free_node x (lh w)) (delete x (items w)) (pTimeout w)) c)).
