(* ===== verification/CoLoopSpec.v ===== *)
(** What a pass of libco's event loop does with the deadlines it is given: it resumes
    the owners of the items whose deadline has come, and of the items an event raised,
    and leaves every other item waiting with the deadline it had.  The wheel is an
    implementation of that, although it takes far deadlines early. *)

From Stdlib Require Import ZArith Lia Bool.
From Stdlib.Strings Require Import Byte.
From stdpp Require Import base numbers list gmap option.
From S2P Require Import Prelude CoLink CoTimeout CoLoop.

Local Open Scope Z_scope.

(** ** Changes the wheel does not see *)

Lemma wheel_lists w ls h' ls' :
  wheel w ls → lists h' ls' → (∀ s, 0 ≤ s < iItemSize (pTimeout w) → ls' !! slot s = ls !! slot s) →
  wheel (set_lh h' w) ls'.
Proof.
intros H Hl Hs. split; try apply H; [done| |].
- intros s Hr. cbn. rewrite Hs by done. by apply (w_slot _ _ H).
- intros s x Hr (xs & Hxs & Hx). cbn in *. rewrite Hs in Hxs by done. apply (w_item _ _ H s x Hr). by exists xs.
Qed.

Lemma wheel_items w ls its :
  wheel w ls → (∀ x it, items w !! x = Some it → ∃ it', its !! x = Some it' ∧ ullExpireTime it' = ullExpireTime it) →
  wheel (mkW (lh w) its (pTimeout w)) ls.
Proof.
intros H Hi. split; try apply H. intros s x Hr Hx. destruct (w_item _ _ H s x Hr Hx) as (it & Hit & Hle).
destruct (Hi x it Hit) as (it' & Hit' & E). exists it'. cbn. by rewrite E.
Qed.

(** [x] waits on the wheel for [dl]. *)
Definition pend (c : cstate) (ls : gmap nat (list nat)) (x : nat) (dl : Z) : Prop :=
  ∃ s it, 0 ≤ s < iItemSize (pTimeout (ws c)) ∧ on_slot ls s x ∧ items (ws c) !! x = Some it ∧
    ullExpireTime it = dl ∧ bTimeout it = false.

(** ** Marking *)

Definition marked (it : item) : item := mkItem (ullExpireTime it) true (pfnProcess it) (pArg it).

Lemma mark_ok ys fuel w :
  NoDup ys → (length ys ≤ fuel)%nat →
  (∀ i y, ys !! i = Some y → ∃ n, nodes (lh w) !! y = Some n ∧ pNext n = ys !! S i) →
  (∀ y, y ∈ ys → is_Some (items w !! y)) →
  ∃ its, mark fuel (ys !! 0%nat) w = Ok (mkW (lh w) its (pTimeout w)) ∧
    ∀ y, its !! y = if decide (y ∈ ys) then marked <$> items w !! y else items w !! y.
Proof.
revert fuel w. induction ys as [|x ys IH]; intros fuel w Hnd Hf Hc Hi.
- exists (items w). destruct fuel; (split; [by destruct w|]); intros y; by rewrite decide_False by apply not_elem_of_nil.
- apply list.NoDup_cons in Hnd as [Hx Hnd]. destruct fuel as [|fuel]; [cbn in Hf; lia|].
  destruct (Hc 0%nat x eq_refl) as (n & E & Hn). cbn in Hn. destruct (Hi x) as [it Hit]; [apply elem_of_cons; by left|].
  cbn [lookup list_lookup mark]. unfold item_at, node_at. rewrite Hit. cbn [mbind res_bind]. rewrite E. cbn [mbind res_bind].
  rewrite Hn. destruct (IH fuel (set_item x (marked it) w)) as (its & Em & Hits).
  + done.
  + cbn in Hf. lia.
  + intros i y Hy. by apply (Hc (S i)).
  + intros y Hy. cbn. destruct (decide (x = y)) as [<-|Hne]; [by rewrite lookup_insert_eq|].
    rewrite lookup_insert_ne by done. apply Hi. apply elem_of_cons. by right.
  + exists its. split; [exact Em|]. intros y. rewrite Hits. cbn [set_item items].
    destruct (decide (y = x)) as [->|Hne].
    * rewrite decide_False, decide_True by (done || apply elem_of_cons; by left). by rewrite lookup_insert_eq, Hit.
    * rewrite lookup_insert_ne by done. destruct (decide (y ∈ ys)) as [Hin|Hni].
      -- rewrite decide_True; [done|]. apply elem_of_cons. by right.
      -- rewrite decide_False; [done|]. rewrite elem_of_cons. tauto.
Qed.

(** ** Draining the active list *)

(** The state between two passes, and while the active list is drained: the wheel is at
    [now] or before, [l] is active, and no item is on the list of time-outs. *)
Record loop_inv (now : Z) (l : list nat) (c : cstate) (ls : gmap nat (list nat)) : Prop := {
  li_wheel : wheel (ws c) ls;
  li_now : ullStart (pTimeout (ws c)) ≤ now;
  li_active : ls !! active = Some l;
  li_timeout : ls !! timeout = Some [];
  li_items x : x ∈ l → ∃ it, items (ws c) !! x = Some it ∧ ullExpireTime it < 2 ^ 64;
}.

(** What a change that only parks new items on the wheel keeps. *)
Record parks (l : list nat) (c : cstate) (ls : gmap nat (list nat)) (c' : cstate) (ls' : gmap nat (list nat)) : Prop := {
  pk_pend x dl : pend c ls x dl → pend c' ls' x dl;
  pk_items x : x ∈ l → items (ws c') !! x = items (ws c) !! x;
}.

Lemma parks_refl l c ls : parks l c ls c ls.
Proof. by split. Qed.

Lemma parks_trans l l' c1 ls1 c2 ls2 c3 ls3 :
  l' ⊆ l → parks l c1 ls1 c2 ls2 → parks l' c2 ls2 c3 ls3 → parks l' c1 ls1 c3 ls3.
Proof.
intros Hl [Ha Hb] [Hc Hd]. split; [auto|]. intros x Hx. rewrite Hd by done. by apply Hb, Hl.
Qed.

(** Whether an active item is processed or put back. *)
Definition fires (c : cstate) (now : Z) (x : nat) : bool :=
  match items (ws c) !! x with
  | Some it => negb (bTimeout it && (now <? ullExpireTime it))
  | None => false
  end.

Lemma pop_active now x l c ls :
  loop_inv now (x :: l) c ls →
  ∃ c', on_ws (on_lh (PopHead active)) c = Ok c' ∧ loop_inv now l c' (<[active := l]> ls) ∧
    items (ws c') = items (ws c) ∧ pTimeout (ws c') = pTimeout (ws c) ∧ free (lh (ws c')) x ∧
    parks (x :: l) c ls c' (<[active := l]> ls).
Proof.
intros [Hw Hnow Ha Ht Hi]. destruct (PopHead_ok _ _ _ _ _ (w_lists _ _ Hw) Ha) as (h' & E & Hl & Hd & Hf).
exists (set_ws (set_lh h' (ws c)) c). unfold on_ws, on_lh. rewrite E. cbn [mbind res_bind]. split_and!; try done.
- split; cbn; try done.
  + eapply wheel_lists; [done..|]. intros s _. by rewrite lookup_insert_ne by apply not_eq_sym, slot_other.
  + by rewrite lookup_insert_eq.
  + by rewrite lookup_insert_ne.
  + intros y Hy. apply Hi. apply elem_of_cons. by right.
- split; [|done]. intros y dl (s & it & Hs & (xs & Hxs & Hx) & Hit). exists s, it. split; [done|]. split; [|done].
  exists xs. by rewrite lookup_insert_ne by apply not_eq_sym, slot_other.
Qed.

(** An item that was taken early goes back to the wheel. *)
Lemma put_back now x l c ls it :
  loop_inv now l c ls → free (lh (ws c)) x → items (ws c) !! x = Some it → now < ullExpireTime it < 2 ^ 64 →
  let it' := mkItem (ullExpireTime it) false (pfnProcess it) (pArg it) in
  ∃ w ls', AddTimeout x now (ws c) = Ok (0, w) ∧ loop_inv now l (set_ws (set_item x it' w) c) ls' ∧
    parks l c ls (set_ws (set_item x it' w) c) ls' ∧ pend (set_ws (set_item x it' w) c) ls' x (ullExpireTime it).
Proof.
intros [Hw Hnow Ha Ht Hi] Hf Hit Hexp it'.
destruct (AddTimeout_ok _ _ _ _ now Hw Hit Hf) as (h' & s & xs & E & Hs & Hxs & Hah & Hw' & Hd); [lia..|].
exists (set_lh h' (ws c)), (<[slot s := xs ++ [x]]> ls). destruct (slot_other s) as [Hsa Hst].
assert (∀ y, y ∈ l → y ≠ x) as Hne.
{ intros y Hy ->. exact (free_not_in _ _ (w_lists _ _ Hw) x active l Hf Ha Hy). }
split_and!; [done| | |].
- split; cbn; try done.
  + apply (wheel_items (set_lh h' (ws c))); [done|]. cbn. intros y jt Hjt. destruct (decide (x = y)) as [<-|Hn].
    * exists it'. rewrite lookup_insert_eq. split; [done|]. cbn. congruence.
    * exists jt. by rewrite lookup_insert_ne.
  + by rewrite lookup_insert_ne.
  + by rewrite lookup_insert_ne.
  + intros y Hy. rewrite lookup_insert_ne by (by apply not_eq_sym, Hne). by apply Hi.
- split.
  + intros y dl (s' & jt & Hs' & (ys & Hys & Hy) & Hjt & Hdl & Hb). cbn in *. destruct (decide (x = y)) as [<-|Hn].
    { exfalso. exact (free_not_in _ _ (w_lists _ _ Hw) x _ _ Hf Hys Hy). }
    exists s', jt. cbn. rewrite lookup_insert_ne by done. split_and!; try done; [apply Hs'..|].
    destruct (decide (slot s = slot s')) as [Hss|Hss].
    * exists (xs ++ [x]). rewrite <- Hss, lookup_insert_eq. split; [done|]. apply elem_of_app. left. congruence.
    * exists ys. by rewrite lookup_insert_ne.
  + intros y Hy. cbn. by rewrite lookup_insert_ne by (by apply not_eq_sym, Hne).
- exists s, it'. cbn. rewrite lookup_insert_eq. split_and!; try done; [apply Hs..|].
  exists (xs ++ [x]). rewrite lookup_insert_eq. split; [done|]. apply elem_of_app. right. by apply list_elem_of_singleton.
Qed.

(** A coroutine that is resumed parks itself again, or ends: it changes neither the
    active list nor an item on it, and what waits goes on waiting. *)
Definition resume_parks (resume : nat → cstate → res cstate) : Prop :=
  ∀ co now l c ls, loop_inv now l c ls →
    ∃ c' ls', resume co c = Ok c' ∧ loop_inv now l c' ls' ∧ parks l c ls c' ls'.

Section drain.
Context (resume : nat → cstate → res cstate) (Hresume : resume_parks resume).

Lemma process_parks now x l c ls it :
  loop_inv now l c ls → items (ws c) !! x = Some it →
  ∃ c' ls', process resume x c = Ok c' ∧ loop_inv now l c' ls' ∧ parks l c ls c' ls'.
Proof.
intros H Hit. unfold process, item_at. rewrite Hit. cbn [mbind res_bind]. destruct (pfnProcess it); [by apply Hresume|].
exists c, ls. split_and!; [done..|apply parks_refl].
Qed.

(** The items in front are processed in order; the ones taken early go back. *)
Lemma drain_ok now l c ls fuel :
  loop_inv now l c ls → NoDup l → (length l ≤ fuel)%nat →
  ∃ c' ls', drain resume fuel now c = Ok (List.filter (fires c now) l, c') ∧ loop_inv now [] c' ls' ∧ parks [] c ls c' ls' ∧
    ∀ x it, x ∈ l → items (ws c) !! x = Some it → fires c now x = false → pend c' ls' x (ullExpireTime it).
Proof.
revert c ls fuel. induction l as [|x l IH]; intros c ls fuel H Hnd Hf.
- exists c, ls. split_and!; [|done|apply parks_refl|by intros x it Hx%elem_of_nil].
  destruct fuel; cbn [drain]; by rewrite (link_at_ok _ _ _ _ (w_lists _ _ (li_wheel _ _ _ _ H)) (li_active _ _ _ _ H)).
- destruct fuel as [|fuel]; [cbn in Hf; lia|]. cbn in Hf. apply list.NoDup_cons in Hnd as [Hx Hnd].
  destruct (li_items _ _ _ _ H x) as (it & Hit & Hlt); [apply elem_of_cons; by left|].
  cbn [drain]. rewrite (link_at_ok _ _ _ _ (w_lists _ _ (li_wheel _ _ _ _ H)) (li_active _ _ _ _ H)).
  cbn [mbind res_bind link_of lhead lookup list_lookup].
  destruct (pop_active now x l c ls H) as (c1 & E1 & H1 & Hi1 & Ht1 & Hf1 & P1). rewrite E1. cbn [mbind res_bind].
  unfold item_at. rewrite Hi1, Hit. cbn [mbind res_bind].
  assert (∀ c2 ls2, loop_inv now l c2 ls2 → parks l c1 (<[active:=l]> ls) c2 ls2 →
    ∃ c' ls', drain resume fuel now c2 = Ok (List.filter (fires c now) l, c') ∧ loop_inv now [] c' ls' ∧
      parks [] c ls c' ls' ∧ (∀ y dl, pend c2 ls2 y dl → pend c' ls' y dl) ∧
      ∀ y jt, y ∈ l → items (ws c) !! y = Some jt → fires c now y = false → pend c' ls' y (ullExpireTime jt)) as Hrest.
  { intros c2 ls2 H2 P2. assert (parks l c ls c2 ls2) as P12.
    { eapply (parks_trans (x :: l)); [|exact P1|exact P2]. intros y Hy. apply elem_of_cons. by right. }
    destruct (IH c2 ls2 fuel H2 Hnd) as (c' & ls' & E & H' & P' & Hback); [lia|]. exists c', ls'.
    assert (∀ y, y ∈ l → fires c2 now y = fires c now y) as Hfi.
    { intros y Hy. unfold fires. by rewrite (pk_items _ _ _ _ _ P12 y Hy). }
    split_and!; [|done| |by apply (pk_pend _ _ _ _ _ P')|].
    - rewrite E. do 2 f_equal. apply filter_ext_in. intros y Hy. apply Hfi. by apply list_elem_of_In.
    - eapply (parks_trans l); [|exact P12|exact P']. by intros y ?%elem_of_nil.
    - intros y jt Hy Hjt Hfy. apply (Hback y); [done| |by rewrite Hfi]. by rewrite (pk_items _ _ _ _ _ P12 y Hy). }
  assert (fires c now x = negb (bTimeout it && (now <? ullExpireTime it))) as Hfx by (unfold fires; by rewrite Hit).
  cbn [List.filter]. rewrite Hfx. destruct (bTimeout it && (now <? ullExpireTime it)) eqn:Hb; cbn [negb].
  + apply andb_prop in Hb as [_ Hlt2%Z.ltb_lt].
    destruct (put_back now x l c1 _ it H1 Hf1) as (w & ls2 & E2 & H2 & P2 & Hp); [by rewrite Hi1|lia|].
    rewrite E2. cbn [mbind res_bind Z.eqb]. destruct (Hrest _ _ H2 P2) as (c' & ls' & E & H' & P' & Hmono & Hback).
    exists c', ls'. split_and!; [exact E|done|done|]. intros y jt Hy Hjt Hfy. apply elem_of_cons in Hy as [->|Hy]; [|by eapply Hback].
    apply Hmono. assert (jt = it) as -> by congruence. exact Hp.
  + cbn [mbind res_bind]. destruct (process_parks now x l c1 _ it H1) as (c2 & ls2 & E2 & H2 & P2); [by rewrite Hi1|].
    rewrite E2. cbn [mbind res_bind]. destruct (Hrest _ _ H2 P2) as (c' & ls' & E & H' & P' & Hmono & Hback).
    exists c', ls'. rewrite E. split_and!; [done..|]. intros y jt Hy Hjt Hfy. apply elem_of_cons in Hy as [->|Hy]; [|by eapply Hback].
    by rewrite Hfx in Hfy.
Qed.
End drain.

(** ** The second half of a pass *)

(** What waits on the wheel has not been marked. *)
Definition waiting (c : cstate) (ls : gmap nat (list nat)) : Prop :=
  ∀ s x, 0 ≤ s < iItemSize (pTimeout (ws c)) → on_slot ls s x →
    ∃ it, items (ws c) !! x = Some it ∧ bTimeout it = false ∧ ullExpireTime it < 2 ^ 64.

(** The items an event, a signal or a caller has put on the active list. *)
Definition raised (l : list nat) (c : cstate) : Prop :=
  ∀ x, x ∈ l → ∃ it, items (ws c) !! x = Some it ∧ bTimeout it = false.

(** The state in which the active list is drained. *)
Lemma collect now l c ls :
  loop_inv now l c ls → waiting c ls → raised l c → now < 2 ^ 62 → now - ullStart (pTimeout (ws c)) + 1 < 2 ^ 31 →
  ∃ w tk ls2, (w ← TakeAllTimeout now timeout (ws c);
               t ← link_at (lh w) timeout;
               w ← mark (size (nodes (lh w))) (lhead t) w;
               on_lh (Join active timeout) w) = Ok w ∧
    loop_inv now (l ++ tk) (set_ws w c) ls2 ∧ dom (nodes (lh w)) = dom (nodes (lh (ws c))) ∧
    (∀ x, x ∈ l → fires (set_ws w c) now x = true) ∧
    (∀ x, x ∈ tk → ∃ dl, pend c ls x dl ∧ fires (set_ws w c) now x = (dl <=? now) ∧
                         ∃ it, items w !! x = Some it ∧ ullExpireTime it = dl) ∧
    (∀ x dl, pend c ls x dl → dl ≤ now → x ∈ tk) ∧
    (∀ x dl, pend c ls x dl → x ∈ tk ∨ pend (set_ws w c) ls2 x dl).
Proof.
intros [Hw Hnow Ha Ht Hi] Hwait Hr Hmax Hjump. pose proof (w_size _ _ Hw).
destruct (TakeAllTimeout_ok _ _ now Hw Ht) as (w1 & ls1 & tk & E1 & Hw1 & Hi1 & Hs1 & Hz1 & Hd1 & Ht1 & Ha1 & Hon & Htk); [lia..|].
rewrite E1. cbn [mbind res_bind]. rewrite (link_at_ok _ _ _ _ (w_lists _ _ Hw1) Ht1). cbn [mbind res_bind link_of lhead].
assert (∀ x, x ∈ tk → ∃ s it, 0 ≤ s < iItemSize (pTimeout (ws c)) ∧ on_slot ls s x ∧ items (ws c) !! x = Some it ∧
  bTimeout it = false ∧ ullExpireTime it < 2 ^ 64) as Htk_item.
{ intros x (s & Hs & Hx & _)%Htk. destruct (Hwait s x Hs Hx) as (it & ? & ? & ?). by exists s, it. }
destruct (mark_ok tk (size (nodes (lh w1))) w1) as (its & E2 & Hits).
{ by eapply list_NoDup; [apply Hw1|]. } { by eapply length_le_nodes; [apply Hw1|]. }
{ intros i y Hy. eexists. split; [by eapply l_node; [apply Hw1|..]|done]. }
{ intros y Hy. rewrite Hi1. by destruct (Htk_item y Hy) as (s & it & _ & _ & -> & _). }
rewrite E2. cbn [mbind res_bind]. unfold on_lh. cbn [lh].
destruct (Join_ok (lh w1) ls1 active timeout l tk (w_lists _ _ Hw1)) as (h2 & E3 & Hl2 & Hd2); [by rewrite Ha1|done..|].
rewrite E3. cbn [mbind res_bind]. set (ls2 := <[timeout:=[]]> (<[active:=l ++ tk]> ls1)) in *.
exists (mkW h2 its (pTimeout w1)), tk, ls2. split; [done|].
assert (∀ s, ls2 !! slot s = ls1 !! slot s) as Hslot.
{ intros s. destruct (slot_other s). unfold ls2. by rewrite !lookup_insert_ne. }
assert (∀ x, x ∈ l → x ∉ tk) as Hdis.
{ intros x [i Hx]%list_elem_of_lookup [j Hy]%list_elem_of_lookup. rewrite <- Ha1 in Ha.
  assert (active = timeout) as E by (by eapply (same_place _ _ (w_lists _ _ Hw1))). done. }
assert (∀ x, x ∈ l → its !! x = items (ws c) !! x) as Hits_l.
{ intros x Hx. rewrite Hits, Hi1, decide_False by (by apply Hdis). done. }
split_and!.
- split; cbn.
  + apply (wheel_items (set_lh h2 w1)); [eapply wheel_lists; [done..|]; intros; apply Hslot|]. cbn. intros x it Hit. rewrite Hits, Hit.
    case_decide; by eexists.
  + lia.
  + unfold ls2. by rewrite lookup_insert_ne, lookup_insert_eq.
  + unfold ls2. by rewrite lookup_insert_eq.
  + intros x [Hx|Hx]%elem_of_app; [rewrite Hits_l by done; by apply Hi|].
    destruct (Htk_item x Hx) as (s & it & _ & _ & Hit & _ & Hlt). exists (marked it). rewrite Hits, decide_True by done.
    by rewrite Hi1, Hit.
- cbn. congruence.
- intros x Hx. unfold fires. cbn. rewrite Hits_l by done. destruct (Hr x Hx) as (it & -> & ->). done.
- intros x Hx. destruct (Htk_item x Hx) as (s & it & Hs & Hon' & Hit & Hb & Hlt). exists (ullExpireTime it). split; [by exists s, it|].
  unfold fires. cbn. rewrite Hits, decide_True, Hi1, Hit by done. cbn. rewrite <- Z.leb_antisym. split; [done|]. by eexists.
- intros x dl (s & it & Hs & Hx & Hit & <- & Hb) Hdl. apply Htk. exists s. split_and!; try apply Hs; [done|].
  destruct (w_item _ _ Hw s x Hs Hx) as (it' & Hit' & Hle). assert (it' = it) as -> by congruence.
  pose proof (ahead_range (pTimeout (ws c)) s ltac:(lia)). unfold passed. lia.
- intros x dl (s & it & Hs & Hx & Hit & Hdl & Hb). destruct (decide (x ∈ tk)) as [|Hn]; [by left|right].
  exists s, it. cbn. rewrite Hz1. split; [done|]. split_and!; [|by rewrite Hits, decide_False, Hi1|done|done].
  assert (on_slot ls1 s x) as (xs & Hxs & Hx').
  { apply Hon; [done|]. split; [done|]. apply Z.nlt_ge. intros Hlt. apply Hn, Htk. by exists s. }
  exists xs. by rewrite Hslot.
Qed.

Lemma length_le_nodes_dom h h' ls l xs :
  lists h ls → ls !! l = Some xs → dom (nodes h) = dom (nodes h') → (length xs ≤ size (nodes h'))%nat.
Proof. intros H Hl Hd. pose proof (length_le_nodes h ls l xs H Hl). by rewrite <- size_dom, <- Hd, size_dom. Qed.

(** The items on the active list are processed first, then the ones that are due; the
    rest of the wheel waits on. *)
Lemma expire_ok resume now l c ls fuel :
  resume_parks resume → loop_inv now l c ls → waiting c ls → raised l c →
  now < 2 ^ 62 → now - ullStart (pTimeout (ws c)) + 1 < 2 ^ 31 → (size (nodes (lh (ws c))) ≤ fuel)%nat →
  ∃ due c' ls', expire resume fuel now c = Ok (l ++ due, c') ∧ loop_inv now [] c' ls' ∧ NoDup (l ++ due) ∧
    (∀ x, x ∈ due ↔ ∃ dl, pend c ls x dl ∧ dl ≤ now) ∧
    (∀ x dl, pend c ls x dl → now < dl → pend c' ls' x dl).
Proof.
intros Hres H Hwait Hr Hmax Hjump Hfuel.
destruct (collect now l c ls H Hwait Hr Hmax Hjump) as (w & tk & ls2 & E & H2 & Hd & Hl & Htk & Hdue & Hstay).
assert (NoDup (l ++ tk)) as Hnd by (eapply list_NoDup; [apply H2|apply H2]).
destruct (drain_ok resume Hres now (l ++ tk) (set_ws w c) ls2 fuel H2 Hnd) as (c' & ls' & E' & H' & P' & Hback).
{ etransitivity; [|exact Hfuel]. eapply length_le_nodes_dom; [apply H2|apply H2|done]. }
assert (List.filter (fires (set_ws w c) now) l = l) as Hfl.
{ assert (∀ y, y ∈ l → fires (set_ws w c) now y = true) as Hl' by done. clear - Hl'.
  induction l as [|y l IH]; [done|]. cbn. rewrite Hl' by (apply elem_of_cons; by left). f_equal. apply IH.
  intros z Hz. apply Hl'. apply elem_of_cons. by right. }
exists (List.filter (fires (set_ws w c) now) tk), c', ls'. split_and!.
- unfold expire. revert E. destruct (TakeAllTimeout now timeout (ws c)) as [w1|]; [|done]. cbn [mbind res_bind].
  destruct (link_at (lh w1) timeout) as [t|]; [|done]. cbn [mbind res_bind].
  destruct (mark _ _ _) as [w2|]; [|done]. cbn [mbind res_bind]. intros ->. cbn [mbind res_bind].
  rewrite E', List.filter_app, Hfl. done.
- done.
- apply list.NoDup_app in Hnd as (Hn1 & Hn2 & Hn3). apply list.NoDup_app. split_and!; [done| |].
  + intros x Hx Hy. apply list_elem_of_In, List.filter_In in Hy as [Hy _]. apply list_elem_of_In in Hy. by eapply Hn2.
  + apply NoDup_ListNoDup, List.NoDup_filter. by apply NoDup_ListNoDup.
- intros x. rewrite list_elem_of_In, List.filter_In, <- list_elem_of_In. split.
  + intros [Hx Hf]. destruct (Htk x Hx) as (dl & Hp & Hfd & _). exists dl. split; [done|]. rewrite Hf in Hfd. by apply Z.leb_le.
  + intros (dl & Hp & Hle). pose proof (Hdue x dl Hp Hle) as Hx. split; [done|]. destruct (Htk x Hx) as (dl' & Hp' & -> & _).
    apply Z.leb_le. assert (dl' = dl) as ->; [|done]. destruct Hp as (s & it & _ & _ & Hit & <- & _), Hp' as (s' & it' & _ & _ & Hit' & <- & _).
    congruence.
- intros x dl Hp Hlt. destruct (Hstay x dl Hp) as [Hx|Hp2]; [|by apply (pk_pend _ _ _ _ _ P')].
  destruct (Htk x Hx) as (dl' & Hp' & Hfd & it & Hit & Hdl'). assert (dl' = dl) as ->.
  { destruct Hp as (s & jt & _ & _ & Hjt & <- & _), Hp' as (s' & jt' & _ & _ & Hjt' & <- & _). congruence. }
  rewrite <- Hdl'. eapply Hback; [apply elem_of_app; by right|done|]. rewrite Hfd. apply Z.leb_gt. lia.
Qed.

(** ** Events *)

Lemma wheel_sub w ls h' ls' :
  wheel w ls → lists h' ls' → (∀ s, 0 ≤ s < iItemSize (pTimeout w) → is_Some (ls' !! slot s)) →
  (∀ s x, on_slot ls' s x → on_slot ls s x) → wheel (set_lh h' w) ls'.
Proof.
intros H Hl Hs Hon. split; try apply H; [done|done|]. intros s x Hr Hx. apply (w_item _ _ H s x Hr). by apply Hon.
Qed.

(** A poll that no event has raised is on the wheel; one that is raised is active. *)
Definition polled (l : list nat) (c : cstate) (ls : gmap nat (list nat)) : Prop :=
  ∀ q a, polls c !! q = Some a →
    if iAllEventDetach a then q ∈ l else ∃ s, 0 ≤ s < iItemSize (pTimeout (ws c)) ∧ on_slot ls s q.

(** The event [ev] is for the poll [q]. *)
Definition event_for (c : cstate) (q : nat) (ev : evptr * Z) : Prop :=
  ∃ p i, ev.1 = PollItem p ∧ pitems c !! p = Some i ∧ pPoll i = q.

(** [data.ptr] of every event is an item of a poll that has not ended. *)
Definition event_valid (c : cstate) (ev : evptr * Z) : Prop :=
  ∃ p i a, ev.1 = PollItem p ∧ pitems c !! p = Some i ∧ polls c !! pPoll i = Some a ∧ (pSelf i < length (fds a))%nat.

(** Everything the theorem on a pass needs of the state, with [l] active. *)
Record ready (now : Z) (l : list nat) (c : cstate) (ls : gmap nat (list nat)) : Prop := {
  rd_inv : loop_inv now l c ls;
  rd_waiting : waiting c ls;
  rd_raised : raised l c;
  rd_polled : polled l c ls;
}.

(** An item of the wheel is moved to the end of the active list. *)
Lemma activate_ok now l c ls q s :
  loop_inv now l c ls → waiting c ls → raised l c → 0 ≤ s < iItemSize (pTimeout (ws c)) → on_slot ls s q →
  ∃ h' ls', activate q (ws c) = Ok (set_lh h' (ws c)) ∧ dom (nodes h') = dom (nodes (lh (ws c))) ∧
    loop_inv now (l ++ [q]) (set_ws (set_lh h' (ws c)) c) ls' ∧ raised (l ++ [q]) (set_ws (set_lh h' (ws c)) c) ∧
    (∀ s' x, on_slot ls' s' x ↔ on_slot ls s' x ∧ x ≠ q) ∧ (∀ y, y ≠ q → free (lh (ws c)) y → free h' y).
Proof.
intros [Hw Hnow Ha Ht Hi] Hwait Hr Hs (xs & Hxs & [i Hq]%list_elem_of_lookup). pose proof (w_lists _ _ Hw) as Hl.
destruct (slot_other s) as [Hsa Hst]. pose proof (list_NoDup _ _ Hl _ _ Hxs) as Hnd.
destruct (RemoveFromLink_ok _ _ _ _ _ _ Hl Hxs Hq) as (h1 & E1 & Hl1 & Hd1 & Hf1).
destruct (AddTail_ok h1 _ active l q Hl1) as (h2 & E2 & Hl2 & Hd2); [by rewrite lookup_insert_ne|done|].
exists h2, (<[active := l ++ [q]]> (<[slot s := delete i xs]> ls)). unfold activate, on_lh. rewrite E1. cbn [mbind res_bind set_lh lh].
rewrite E2. cbn [mbind res_bind]. split; [by destruct c as [[]]|]. split; [cbn; congruence|].
assert (∀ s' x, on_slot (<[active := l ++ [q]]> (<[slot s := delete i xs]> ls)) s' x ↔ on_slot ls s' x ∧ x ≠ q) as Hon.
{ intros s' x. unfold on_slot. destruct (slot_other s') as [Hsa' _]. rewrite lookup_insert_ne by done.
  destruct (decide (slot s = slot s')) as [<-|Hne].
  - rewrite lookup_insert_eq. split.
    + intros (ys & [= <-] & Hx). rewrite <- (elem_of_delete_NoDup xs i q x) in Hx by done. destruct Hx. split; [by exists xs|done].
    + intros [(ys & Hys & Hx) Hne]. exists (delete i xs). split; [done|]. rewrite <- (elem_of_delete_NoDup xs i q x) by done.
      split; [congruence|done].
  - rewrite lookup_insert_ne by done. split; [|tauto]. intros (ys & Hys & Hx). split; [by exists ys|]. intros ->.
    apply list_elem_of_lookup in Hx as [j Hx]. apply Hne. by eapply (same_place _ _ Hl). }
destruct (Hwait s q Hs) as (it & Hit & Hb & Hlt); [exists xs; split; [done|by eapply list_elem_of_lookup_2]|].
split_and!; [|intros x [Hx|Hx]%elem_of_app; [by apply Hr|]; apply list_elem_of_singleton in Hx as ->; by exists it|done|].
2:{ intros y Hne Hfy. apply (free_iff _ _ y Hl2). apply (free_iff _ _ y Hl) in Hfy as [Hy Hno]. split; [congruence|].
  intros l' zs. destruct (decide (active = l')) as [<-|Hla].
  - rewrite lookup_insert_eq. intros [= <-]. rewrite elem_of_app, list_elem_of_singleton. intros [?|?]; [by apply (Hno active l)|done].
  - rewrite lookup_insert_ne by done. destruct (decide (slot s = l')) as [<-|Hls].
    + rewrite lookup_insert_eq. intros [= <-]. rewrite <- (elem_of_delete_NoDup xs i q) by done. intros [? _]. by apply (Hno _ _ Hxs).
    + rewrite lookup_insert_ne by done. apply Hno. }
split; cbn; [| done|by rewrite lookup_insert_eq|by rewrite !lookup_insert_ne|].
- eapply wheel_sub; [done..| |by intros s' x ?%Hon; tauto]. intros s' Hs'. destruct (slot_other s') as [Hsa' _].
  rewrite lookup_insert_ne by done. destruct (decide (slot s = slot s')) as [<-|Hne]; [by rewrite lookup_insert_eq|].
  rewrite lookup_insert_ne by done. by apply (w_slot _ _ Hw).
- intros x [Hx|Hx]%elem_of_app; [by apply Hi|]. apply list_elem_of_singleton in Hx as ->. by exists it.
Qed.

(** What an event does to the poll it is for. *)
Definition noted (i : stPollItem) (e : Z) (a : stPoll) : stPoll :=
  mkStPoll (alter (with_revents (EpollEvent2Poll e)) (pSelf i) (fds a)) true (s32 (iRaiseCnt a + 1)).

(** The poll [q] becomes active once, at its first event. *)
Definition raise (q : nat) (l : list nat) : list nat := if decide (q ∈ l) then l else l ++ [q].

Lemma elem_of_raise q l x : x ∈ raise q l ↔ x ∈ l ∨ x = q.
Proof.
unfold raise. case_decide as Hd; [|by rewrite elem_of_app, list_elem_of_singleton].
split; [by left|]. by intros [?| ->].
Qed.

Lemma OnPollPreparePfn_ok now l c ls p i a e :
  ready now l c ls → pitems c !! p = Some i → polls c !! pPoll i = Some a → (pSelf i < length (fds a))%nat →
  ∃ c' ls', OnPollPreparePfn p e c = Ok c' ∧ ready now (raise (pPoll i) l) c' ls' ∧
    polls c' = <[pPoll i := noted i e a]> (polls c) ∧ pitems c' = pitems c ∧
    items (ws c') = items (ws c) ∧ pTimeout (ws c') = pTimeout (ws c) ∧
    dom (nodes (lh (ws c'))) = dom (nodes (lh (ws c))) ∧
    (∀ s x, on_slot ls' s x ↔ on_slot ls s x ∧ x ≠ pPoll i).
Proof.
intros [H Hwait Hr Hpol] Hp Hq Hlen. set (q := pPoll i) in *. pose proof (Hpol q a Hq) as Hwhere.
pose proof (w_lists _ _ (li_wheel _ _ _ _ H)) as Hl.
unfold OnPollPreparePfn, pitem_at, poll_at. rewrite Hp. cbn [mbind res_bind]. fold q. rewrite Hq. cbn [mbind res_bind].
rewrite (proj2 (Nat.leb_gt _ _)) by done. cbn [iAllEventDetach fds iRaiseCnt].
destruct (iAllEventDetach a) eqn:Edet.
- eexists _, ls. split; [done|]. unfold raise. rewrite decide_True by done.
  split_and!; try done.
  + split; [by destruct H; split|done|done|]. intros q' a'. cbn. destruct (decide (q = q')) as [<-|Hne].
    * rewrite lookup_insert_eq. by intros [= <-].
    * rewrite lookup_insert_ne by done. apply Hpol.
  + intros s x. split; [|tauto]. intros Hx. split; [done|]. intros ->. destruct Hx as (xs & Hxs & [j Hx]%list_elem_of_lookup).
    apply list_elem_of_lookup in Hwhere as [k Hk]. destruct (slot_other s) as [Hsa _]. apply Hsa.
    eapply (same_place _ _ Hl); [done..|apply H|done].
- destruct Hwhere as (s & Hs & Hon). assert (q ∉ l) as Hql.
  { intros [k Hk]%list_elem_of_lookup. destruct Hon as (xs & Hxs & [j Hx]%list_elem_of_lookup). destruct (slot_other s) as [Hsa _].
    apply Hsa. eapply (same_place _ _ Hl); [done..|apply H|done]. }
  set (c1 := set_polls _ c).
  destruct (activate_ok now l c1 ls q s) as (h' & ls' & E & Hd & H' & Hr' & Hon' & _); [by destruct H; split|done..|].
  unfold on_ws. rewrite E. cbn [mbind res_bind]. eexists _, ls'. split; [done|]. unfold raise. rewrite decide_False by done.
  split_and!; try done. split; [done| |done|].
  + intros s' x Hs' Hx. apply Hon' in Hx as [Hx _]. exact (Hwait s' x Hs' Hx).
  + intros q' a'. cbn. destruct (decide (q = q')) as [<-|Hne].
    * rewrite lookup_insert_eq. intros [= <-]. cbn. apply elem_of_app. right. by apply list_elem_of_singleton.
    * rewrite lookup_insert_ne by done. intros Ha'. pose proof (Hpol q' a' Ha') as Hw'. destruct (iAllEventDetach a').
      -- apply elem_of_app. by left.
      -- destruct Hw' as (s' & Hs' & Hx'). exists s'. split; [done|]. apply Hon'. split; [done|]. congruence.
Qed.

Lemma prepare_ok now evs l c ls :
  ready now l c ls → Forall (event_valid c) evs →
  ∃ c' ls' l', prepare evs c = Ok c' ∧ ready now l' c' ls' ∧
    items (ws c') = items (ws c) ∧ pTimeout (ws c') = pTimeout (ws c) ∧
    dom (nodes (lh (ws c'))) = dom (nodes (lh (ws c))) ∧
    (∀ x, x ∈ l' ↔ x ∈ l ∨ Exists (event_for c x) evs) ∧
    (∀ s x, on_slot ls' s x ↔ on_slot ls s x ∧ ¬ Exists (event_for c x) evs).
Proof.
revert l c ls. induction evs as [|[ptr e] evs IH]; intros l c ls H Hv.
- exists c, ls, l. split_and!; try done; intros; rewrite Exists_nil; tauto.
- apply Forall_cons_1 in Hv as [(p & i & a & Ep & Hp & Ha & Hlen) Hv]. cbn in Ep. subst ptr. cbn [prepare].
  destruct (OnPollPreparePfn_ok now l c ls p i a e H Hp Ha Hlen) as (c1 & ls1 & E1 & H1 & Hpo1 & Hpi1 & Hi1 & Ht1 & Hd1 & Hon1).
  rewrite E1. cbn [mbind res_bind]. destruct (IH _ c1 ls1 H1) as (c' & ls' & l' & E & H' & Hi' & Ht' & Hd' & Hl' & Hon').
  { eapply list.Forall_impl; [exact Hv|]. intros ev (p' & i' & a' & ? & ? & Ha' & Hlen'). exists p', i'. rewrite Hpi1, Hpo1.
    destruct (decide (pPoll i = pPoll i')) as [Eq|Hne].
    - rewrite <- Eq in Ha'. assert (a' = a) as -> by congruence. exists (noted i e a). rewrite <- Eq, lookup_insert_eq.
      split_and!; try done. cbn. by rewrite length_alter.
    - exists a'. by rewrite lookup_insert_ne. }
  assert (∀ x, event_for c x (PollItem p, e) ↔ x = pPoll i) as Hfor.
  { intros x. split; [|intros ->; by exists p, i]. intros (p' & i' & [= <-] & Hi & <-). congruence. }
  assert (∀ x, Exists (event_for c1 x) evs ↔ Exists (event_for c x) evs) as Hex.
  { intros x. unfold event_for. by rewrite Hpi1. }
  exists c', ls', l'. split_and!; [done|done|congruence..| |].
  + intros x. rewrite Hl', elem_of_raise, Exists_cons, Hfor, Hex. tauto.
  + intros s x. rewrite Hon', Hon1, Exists_cons, Hfor, Hex. tauto.
Qed.

(** ** Parking *)

Lemma lists_alloc h ls x : lists h ls → x ∉ dom (nodes h) → lists (new_node x h) ls.
Proof.
intros H Hx. rewrite not_elem_of_dom in Hx. split.
- apply (l_link _ _ H).
- intros l xs i y Hl Hi. pose proof (l_node _ _ H _ _ _ _ Hl Hi) as E. cbn. rewrite lookup_insert_ne; congruence.
- intros y n l. cbn. destruct (decide (x = y)) as [<-|Hne]; [rewrite lookup_insert_eq; by intros [= <-]|].
  rewrite lookup_insert_ne by done. apply (l_owner _ _ H).
Qed.

(** What is on a list has a node. *)
Lemma listed_dom h ls l xs x : lists h ls → ls !! l = Some xs → x ∈ xs → x ∈ dom (nodes h).
Proof. intros H Hl [i Hi]%list_elem_of_lookup. apply elem_of_dom. eexists. by eapply l_node. Qed.

Definition alloc_item (x : nat) (it : item) (w : wstate) : wstate :=
  mkW (new_node x (lh w)) (<[x := it]> (items w)) (pTimeout w).

Lemma wheel_alloc w ls x it : wheel w ls → x ∉ dom (nodes (lh w)) → wheel (alloc_item x it w) ls.
Proof.
intros H Hx. split; try apply H; [apply lists_alloc; [apply H|done]|]. intros s y Hs Hy.
destruct (w_item _ _ H s y Hs Hy) as (jt & Hjt & Hle). exists jt. split; [|done]. cbn.
rewrite lookup_insert_ne; [done|]. intros ->. destruct Hy as (ys & Hys & Hy). apply Hx.
eapply listed_dom; [apply H|done..].
Qed.

(** A new item is put on the wheel. *)
Lemma park_ok now l c ls x it :
  loop_inv now l c ls → x ∉ dom (nodes (lh (ws c))) → now ≤ ullExpireTime it < 2 ^ 64 → bTimeout it = false →
  ∃ w ls', AddTimeout x now (alloc_item x it (ws c)) = Ok (0, w) ∧
    ∀ c', ws c' = w → loop_inv now l c' ls' ∧ parks l c ls c' ls' ∧ pend c' ls' x (ullExpireTime it).
Proof.
intros [Hw Hnow Ha Ht Hi] Hx Hexp Hb. pose proof (wheel_alloc _ _ x it Hw Hx) as Hw1.
assert (∀ l' xs y, ls !! l' = Some xs → y ∈ xs → x ≠ y) as Hne.
{ intros l' xs y Hl' Hy ->. apply Hx. eapply listed_dom; [apply Hw|done..]. }
destruct (AddTimeout_ok (alloc_item x it (ws c)) ls x it now) as (h' & s & xs & E & Hs & Hxs & Hah & Hw' & Hd);
  [done|cbn; by rewrite lookup_insert_eq|exists (mkNode None None None); cbn; by rewrite lookup_insert_eq|cbn; lia|lia|].
destruct (slot_other s) as [Hsa Hst].
exists (set_lh h' (alloc_item x it (ws c))), (<[slot s := xs ++ [x]]> ls). split; [done|]. intros c' Hc'. split_and!.
- split; rewrite ?Hc'; [done|done|by rewrite lookup_insert_ne|by rewrite lookup_insert_ne|].
  intros y Hy. cbn. rewrite lookup_insert_ne by exact (Hne _ _ _ Ha Hy). by apply Hi.
- split.
  + intros y dl (s' & jt & Hs' & (ys & Hys & Hy) & Hjt & Hdl & Hbj). exists s', jt. rewrite Hc'. cbn.
    rewrite lookup_insert_ne by exact (Hne _ _ _ Hys Hy). split_and!; try done; [apply Hs'..|].
    destruct (decide (slot s = slot s')) as [Hss|Hss].
    * exists (xs ++ [x]). rewrite <- Hss, lookup_insert_eq. split; [done|]. apply elem_of_app. left. congruence.
    * exists ys. by rewrite lookup_insert_ne.
  + intros y Hy. rewrite Hc'. cbn. by rewrite lookup_insert_ne by exact (Hne _ _ _ Ha Hy).
- exists s, it. rewrite Hc'. cbn. rewrite lookup_insert_eq. split_and!; try done; [apply Hs..|].
  exists (xs ++ [x]). rewrite lookup_insert_eq. split; [done|]. apply elem_of_app. right. by apply list_elem_of_singleton.
Qed.

Lemma add_epolls_ws q i ps fs rs single hook c c' :
  add_epolls q i ps fs rs single hook c = Some c' → ws c' = ws c ∧ polls c' = polls c ∧ conds c' = conds c.
Proof.
revert i fs rs c. induction ps as [|p ps IH]; intros i fs rs c; [by intros [= ->]|].
destruct fs as [|f fs]; [by intros [= ->]|]. cbn [add_epolls]. case_match; [|apply (IH _ _ _ (mkC _ _ _ _ _))].
case_match; [apply (IH _ _ _ (mkC _ _ _ _ _))| |apply (IH _ _ _ (mkC _ _ _ _ _))].
case_match; [done|]. apply (IH _ _ _ (mkC _ _ _ _ _)).
Qed.

(** How long a poll waits: a negative time-out is the longest one. *)
Definition wait_of (timeout_ms : Z) : Z := if timeout_ms <? 0 then INT_MAX else timeout_ms.

(** The first half of [co_poll_inner] parks its caller until the deadline it asked for. *)
Lemma co_poll_begin_parks now l c ls q ps self fs timeout_ms rs hook :
  loop_inv now l c ls → q ∉ dom (nodes (lh (ws c))) → now < 2 ^ 62 → timeout_ms ≠ 0 → timeout_ms < 2 ^ 31 →
  CtlEperm ∉ rs →
  ∃ c' ls', co_poll_begin q ps self fs timeout_ms rs hook now c = Ok (Parked, c') ∧ loop_inv now l c' ls' ∧
    parks l c ls c' ls' ∧ pend c' ls' q (now + wait_of timeout_ms).
Proof.
intros H Hq Hnow Hne Hlt Hrs. unfold co_poll_begin. rewrite (proj2 (Z.eqb_neq _ _)) by done. fold (wait_of timeout_ms).
assert (∀ ps fs rs i single c1, CtlEperm ∉ rs → is_Some (add_epolls q i ps fs rs single hook c1)) as Hadd.
{ clear. induction ps as [|p ps IH]; intros fs rs i single c1 Hrs; [by eexists|]. destruct fs as [|f fs]; [by eexists|].
  cbn [add_epolls]. case_match; [|by apply IH].
  destruct rs as [|r rs]; [by apply IH|]. rewrite elem_of_cons in Hrs. destruct r; cbn; try (apply IH; tauto). tauto. }
set (c1 := mkC _ _ _ _ _). destruct (Hadd ps fs rs 0%nat (length fs =? 1)%nat c1 Hrs) as [c2 E2]. rewrite E2.
apply add_epolls_ws in E2 as (Ew & _ & _). rewrite Ew.
pose proof (w_start _ _ (li_wheel _ _ _ _ H)). pose proof (li_now _ _ _ _ H).
assert (0 < wait_of timeout_ms < 2 ^ 31) by (unfold wait_of, INT_MAX; case_match eqn:E; lia).
destruct (park_ok now l c ls q (mkItem (u64 (now + wait_of timeout_ms)) false true self) H Hq) as (w & ls' & E & Hc'); [|done|].
{ cbn. rewrite u64_id by lia. lia. }
replace (set_item _ _ _) with (alloc_item q (mkItem (u64 (now + wait_of timeout_ms)) false true self) (ws c)).
2:{ unfold alloc_item, set_item. cbn. by rewrite insert_insert_eq. }
rewrite E. cbn [mbind res_bind Z.eqb]. exists (set_ws w c2), ls'. cbn [ullExpireTime] in Hc'. rewrite (u64_id (_ + _)) in Hc' by lia.
split; [done|]. by apply Hc'.
Qed.

(** ** A pass *)

(** Emptying a list that is empty. *)
Lemma reset_timeout now l c ls :
  loop_inv now l c ls → set_ws (set_lh (set_link timeout (mkLink None None) (lh (ws c))) (ws c)) c = c.
Proof.
intros H. pose proof (l_link _ _ (w_lists _ _ (li_wheel _ _ _ _ H)) _ _ (li_timeout _ _ _ _ H)) as E.
destruct c as [[[nd lk] its t] po pi ep co]. unfold set_ws, set_lh, set_link. cbn in *. by rewrite insert_id.
Qed.

(** C26: One pass of [co_eventloop] resumes, once each, the owners of the polls an event is
    for and of the items whose deadline has come, and no one else: every other item
    goes on waiting for its own deadline, although the wheel takes the far ones early.
    The pass ends, with the active list empty. *)
Theorem pass_fires_due resume fuel evs now c ls :
  resume_parks resume → ready now [] c ls → Forall (event_valid c) evs →
  now < 2 ^ 62 → now - ullStart (pTimeout (ws c)) + 1 < 2 ^ 31 → (size (nodes (lh (ws c))) ≤ fuel)%nat →
  ∃ fired c' ls', eventloop_pass resume fuel evs now c = Ok (fired, c') ∧ NoDup fired ∧
    (∀ x, x ∈ fired ↔ Exists (event_for c x) evs ∨ ∃ dl, pend c ls x dl ∧ dl ≤ now) ∧
    (∀ x dl, pend c ls x dl → x ∉ fired → pend c' ls' x dl) ∧ loop_inv now [] c' ls'.
Proof.
intros Hres H Hev Hmax Hjump Hfuel.
destruct (prepare_ok now evs [] c ls H Hev) as (c1 & ls1 & l1 & E1 & H1 & Hi1 & Ht1 & Hd1 & Hl1 & Hon1).
destruct (expire_ok resume now l1 c1 ls1 fuel Hres) as (due & c' & ls' & E & H' & Hnd & Hdue & Hstay);
  [apply H1..|done|by rewrite Ht1|rewrite <- size_dom, Hd1, size_dom; done|].
assert (∀ x dl, pend c1 ls1 x dl ↔ pend c ls x dl ∧ ¬ Exists (event_for c x) evs) as Hp.
{ intros x dl. unfold pend. rewrite Hi1, Ht1. setoid_rewrite Hon1. split.
  - intros (s & it & Hs & [Hx Hne] & ? & ? & ?). split; [by exists s, it|done].
  - intros [(s & it & Hs & Hx & ? & ? & ?) Hne]. by exists s, it. }
exists (l1 ++ due), c', ls'. unfold eventloop_pass. rewrite (reset_timeout now [] c ls) by apply H. rewrite E1. cbn [mbind res_bind].
assert (∀ x, x ∈ l1 ++ due ↔ Exists (event_for c x) evs ∨ ∃ dl, pend c ls x dl ∧ dl ≤ now) as Hin.
{ intros x. rewrite elem_of_app, Hl1, Hdue, elem_of_nil. setoid_rewrite Hp. split.
  - intros [[[]|?]|(dl & [? _] & ?)]; [by left|right; by exists dl].
  - intros [?|(dl & ? & ?)]; [by left; right|]. destruct (decide (x ∈ l1)) as [Hx|Hx].
    + left. apply Hl1 in Hx as [Hx|Hx]; [by apply elem_of_nil in Hx|by right].
    + right. exists dl. split_and!; [done| |done]. intros Hex. apply Hx, Hl1. by right. }
split_and!; [done..| |done].
intros x dl Hx Hnf. rewrite Hin in Hnf. apply Hstay; [apply Hp; tauto|]. apply Z.nle_gt. intros Hle. apply Hnf. right. by exists dl.
Qed.

(** ** A concrete pass *)

(** A coroutine that polls again for a second, at the time the wheel is at. *)
Definition poll_again (self : nat) (c : cstate) : res cstate :=
  let q := fresh (dom (nodes (lh (ws c)))) in
  '(_, c) ← co_poll_begin q [] self [] 1000 [] true (ullStart (pTimeout (ws c))) c; Ok c.

Definition demo_heads : gmap nat link := list_to_map ((λ l, (l, mkLink None None)) <$> seq 0 6).
Definition demo_start : cstate :=
  mkC (mkW (mkLHeap ∅ demo_heads) ∅ (AllocTimeout 4 100)) ∅ ∅ ∅ (mkLHeap ∅ ∅).

(** Three polls: for 10 ms on the descriptor 5, for 3 ms, and for 50 ms. *)
Definition demo_build : res cstate :=
  '(_, c) ← co_poll_begin 7 [20%nat] 1 [mkCPollfd 5 1 0] 10 [CtlOk] true 100 demo_start;
  '(_, c) ← co_poll_begin 8 [] 2 [] 3 [] true 100 c;
  '(_, c) ← co_poll_begin 9 [] 3 [] 50 [] true 100 c;
  Ok c.
Definition demo : cstate := match demo_build with Ok c => c | Fault _ => demo_start end.
Definition demo_ls : gmap nat (list nat) := {[ 0%nat := []; 1%nat := []; 2%nat := []; 3%nat := []; 4%nat := []; 5%nat := [7; 8; 9]%nat ]}.

Lemma poll_again_parks : resume_parks poll_again.
Proof.
intros co now l c ls H. pose proof (w_start _ _ (li_wheel _ _ _ _ H)). unfold poll_again.
destruct (co_poll_begin_parks (ullStart (pTimeout (ws c))) l c ls (fresh (dom (nodes (lh (ws c))))) [] co [] 1000 [] true)
  as (c' & ls' & E & H' & P & _); [by destruct H; split|apply is_fresh|lia..|by apply not_elem_of_nil|].
exists c', ls'. rewrite E. split_and!; [done| |done]. pose proof (li_now _ _ _ _ H') as Hn. pose proof (li_now _ _ _ _ H).
destruct H'; split; [done|lia|done..].
Qed.

Lemma demo_wheel : pTimeout (ws demo) = mkTimeout 4 100 0.
Proof. by vm_compute. Qed.

Lemma demo_slot s x : 0 ≤ s < 4 → on_slot demo_ls s x → s = 3 ∧ (x = 7 ∨ x = 8 ∨ x = 9)%nat.
Proof.
intros Hs (xs & Hxs & Hx). assert (s = 0 ∨ s = 1 ∨ s = 2 ∨ s = 3) as [->|[->|[->| ->]]] by lia; vm_compute in Hxs;
  injection Hxs as <-; rewrite ?elem_of_cons, elem_of_nil in Hx; split; tauto || lia.
Qed.

Lemma demo_ready : ready 103 [] demo demo_ls.
Proof.
split.
- split; [|by rewrite demo_wheel|done|done|by intros x ?%elem_of_nil]. split; rewrite ?demo_wheel; cbn; try lia.
  + apply lists_check_ok. by vm_compute.
  + intros s Hs. assert (s = 0 ∨ s = 1 ∨ s = 2 ∨ s = 3) as [->|[->|[->| ->]]] by lia; vm_compute; by eexists.
  + intros s x Hs Hx. destruct (demo_slot s x Hs Hx) as [-> [->|[->| ->]]]; (eexists; split; [vm_compute; reflexivity|done]).
- intros s x Hs Hx. rewrite demo_wheel in Hs. destruct (demo_slot s x Hs Hx) as [-> [->|[->| ->]]];
    (eexists; split; [vm_compute; reflexivity|done]).
- by intros x ?%elem_of_nil.
- intros q a Hq. apply elem_of_map_to_list in Hq.
  set (L := map_to_list (polls demo)) in Hq. vm_compute in L. subst L. rewrite !elem_of_cons, elem_of_nil in Hq.
  rewrite demo_wheel.
  destruct Hq as [[= -> ->]|[[= -> ->]|[[= -> ->]|[]]]]; cbn; exists 3; (split; [lia|]);
    (exists [7; 8; 9]%nat; split; [by vm_compute|rewrite !elem_of_cons; tauto]).
Qed.

(** At 103 the poll with an event and the one for 3 ms end; the one for 50 ms, which
    the wheel of four places had taken, still waits for 150. *)
Lemma pass_fires_due_witness :
  ∃ c' ls', eventloop_pass poll_again 3 [(PollItem 20, 1)] 103 demo = Ok ([7; 8]%nat, c') ∧ pend c' ls' 9 150.
Proof.
destruct (pass_fires_due poll_again 3 [(PollItem 20, 1)] 103 demo demo_ls poll_again_parks demo_ready)
  as (fired & c' & ls' & E & _ & _ & Hstay & _); [|done|by rewrite demo_wheel|by vm_compute; lia|].
{ apply Forall_singleton. exists 20%nat, (mkStPollItem 0 7), (mkStPoll [mkCPollfd 0 0 0] false 0).
  split_and!; [done|by vm_compute|by vm_compute|cbn; lia]. }
assert (fired = [7; 8]%nat) as ->.
{ revert E. destruct (eventloop_pass _ _ _ _ _) as [[f c0]|] eqn:E0; [|done]. intros [= -> ->]. revert E0. vm_compute. by intros [= <- _]. }
exists c', ls'. split; [done|]. apply Hstay.
- exists 3, (mkItem 150 false true 3). rewrite demo_wheel. split; [cbn; lia|]. split_and!; [|by vm_compute|done|done].
  exists [7; 8; 9]%nat. split; [by vm_compute|]. rewrite !elem_of_cons. tauto.
- rewrite !elem_of_cons, elem_of_nil. lia.
Defined.

(** ** Event masks *)

Lemma land_bit events k : 0 ≤ k → Z.land events (2 ^ k) = if Z.testbit events k then 2 ^ k else 0.
Proof.
intros Hk. apply Z.bits_inj'. intros n Hn. rewrite Z.land_spec. destruct (decide (n = k)) as [->|Hne].
- rewrite Z.pow2_bits_true by done. rewrite andb_true_r. destruct (Z.testbit events k); [by rewrite Z.pow2_bits_true|by rewrite Z.bits_0].
- rewrite Z.pow2_bits_false by done. rewrite andb_false_r. destruct (Z.testbit events k); [by rewrite Z.pow2_bits_false|by rewrite Z.bits_0].
Qed.

Lemma copy_bit_land events k e : 0 ≤ k → copy_bit events (2 ^ k) (2 ^ k) e = Z.lor e (Z.land events (2 ^ k)).
Proof.
intros Hk. unfold copy_bit. rewrite land_bit by done. pose proof (Z.pow_pos_nonneg 2 k ltac:(lia) Hk).
destruct (Z.testbit events k); [by rewrite (proj2 (Z.eqb_neq _ _)) by lia|]. by rewrite Z.lor_0_r.
Qed.

(** The six events both interfaces have. *)
Definition event_mask : Z := 349.

Lemma masks events :
  PollEvent2Epoll events = Z.land events event_mask ∧ EpollEvent2Poll events = Z.land events event_mask.
Proof.
assert (PollEvent2Epoll events = Z.land events event_mask) as E.
{ unfold PollEvent2Epoll, POLLIN, POLLOUT, POLLHUP, POLLERR, POLLRDNORM, POLLWRNORM, EPOLLIN, EPOLLOUT, EPOLLHUP, EPOLLERR,
    EPOLLRDNORM, EPOLLWRNORM.
  rewrite (copy_bit_land events 0), (copy_bit_land events 2), (copy_bit_land events 4), (copy_bit_land events 3),
    (copy_bit_land events 6), (copy_bit_land events 8) by lia. rewrite Z.lor_0_l, <- !Z.land_lor_distr_r. done. }
split; [done|]. rewrite <- E. done.
Qed.

(** ** Conditions *)

Definition asleep (c : cstate) (ls : gmap nat (list nat)) (x : nat) : Prop :=
  (free (lh (ws c)) x ∨ ∃ s, 0 ≤ s < iItemSize (pTimeout (ws c)) ∧ on_slot ls s x) ∧
  ∃ it, items (ws c) !! x = Some it ∧ bTimeout it = false ∧ ullExpireTime it < 2 ^ 64.

(** An item of the wheel, or of no list, becomes the last active one. *)
Lemma activate_asleep now l c ls x :
  loop_inv now l c ls → waiting c ls → raised l c → asleep c ls x →
  ∃ h' ls', activate x (ws c) = Ok (set_lh h' (ws c)) ∧ dom (nodes h') = dom (nodes (lh (ws c))) ∧
    loop_inv now (l ++ [x]) (set_ws (set_lh h' (ws c)) c) ls' ∧ raised (l ++ [x]) (set_ws (set_lh h' (ws c)) c) ∧
    (∀ s' y, on_slot ls' s' y ↔ on_slot ls s' y ∧ y ≠ x) ∧ (∀ y, y ≠ x → free (lh (ws c)) y → free h' y).
Proof.
intros H Hwait Hr [[Hf|(s & Hs & Hon)] (it & Hit & Hb & Hlt)]; [|by eapply activate_ok].
destruct H as [Hw Hnow Ha Ht Hi]. pose proof (w_lists _ _ Hw) as Hl.
destruct (AddTail_ok _ _ active l x Hl Ha Hf) as (h' & E & Hl' & Hd).
exists h', (<[active := l ++ [x]]> ls). unfold activate, on_lh. rewrite RemoveFromLink_free by done. cbn [mbind res_bind set_lh lh].
rewrite E. cbn [mbind res_bind]. split; [done|]. split; [done|].
assert (∀ s', <[active := l ++ [x]]> ls !! slot s' = ls !! slot s') as Hslot.
{ intros s'. destruct (slot_other s'). by rewrite lookup_insert_ne. }
split_and!.
- split; cbn; [eapply wheel_lists; [done..|]; intros; apply Hslot|done|by rewrite lookup_insert_eq|by rewrite lookup_insert_ne|].
  intros y [Hy|Hy]%elem_of_app; [by apply Hi|]. apply list_elem_of_singleton in Hy as ->. by exists it.
- intros y [Hy|Hy]%elem_of_app; [by apply Hr|]. apply list_elem_of_singleton in Hy as ->. by exists it.
- intros s' y. unfold on_slot. rewrite Hslot. split; [|tauto]. intros (ys & Hys & Hy). split; [by exists ys|]. intros ->.
  exact (free_not_in _ _ Hl x _ _ Hf Hys Hy).
- intros y Hne Hfy. apply (free_iff _ _ y Hl'). apply (free_iff _ _ y Hl) in Hfy as [Hy Hno]. split; [congruence|].
  intros l' zs. destruct (decide (active = l')) as [<-|Hla].
  + rewrite lookup_insert_eq. intros [= <-]. rewrite elem_of_app, list_elem_of_singleton. intros [?|?]; [by apply (Hno active l)|done].
  + rewrite lookup_insert_ne by done. apply Hno.
Qed.

(** Waking the first waiter: it leaves the condition and becomes the last active item. *)
Lemma wake_first now l c ls cl k x xs :
  loop_inv now l c ls → waiting c ls → raised l c → lists (conds c) cl → cl !! k = Some (x :: xs) → asleep c ls x →
  ∃ h c' ls', co_cond_pop k (conds c) = Ok (Some x, h) ∧ on_ws (activate x) (set_conds h c) = Ok c' ∧
    loop_inv now (l ++ [x]) c' ls' ∧ waiting c' ls' ∧ raised (l ++ [x]) c' ∧
    lists (conds c') (<[k := xs]> cl) ∧ (∀ y, y ≠ x → asleep c ls y → asleep c' ls' y).
Proof.
intros H Hwait Hr Hcl Hk Hx. unfold co_cond_pop. rewrite (link_at_ok _ _ _ _ Hcl Hk).
cbn [mbind res_bind link_of lhead lookup list_lookup].
destruct (PopHead_ok _ _ _ _ _ Hcl Hk) as (h & Ep & Hcl' & _ & _). rewrite Ep. cbn [mbind res_bind].
destruct (activate_asleep now l (set_conds h c) ls x) as (h' & ls' & E & Hd & H' & Hr' & Hon & Hfree); [by destruct H; split|done..|].
eexists h, _, ls'. split; [done|]. unfold on_ws. rewrite E. cbn [mbind res_bind]. split; [done|]. split_and!; [done| |done|done|].
- intros s y Hs Hy. apply Hon in Hy as [Hy _]. exact (Hwait s y Hs Hy).
- intros y Hne [[Hf|(s & Hs & Hy)] Hit]; (split; [|exact Hit]); [left; by apply Hfree|].
  right. exists s. split; [done|]. by apply Hon.
Qed.

(** C29: [co_cond_broadcast] ends, and wakes every waiter in the order they came. *)
Theorem broadcast_wakes_all now l c ls cl k xs fuel :
  loop_inv now l c ls → waiting c ls → raised l c → lists (conds c) cl → cl !! k = Some xs →
  (∀ x, x ∈ xs → asleep c ls x) → (length xs < fuel)%nat →
  ∃ c' ls', co_cond_broadcast fuel k c = Ok c' ∧ loop_inv now (l ++ xs) c' ls' ∧ raised (l ++ xs) c' ∧
    lists (conds c') (<[k := []]> cl).
Proof.
revert fuel l c ls cl. induction xs as [|x xs IH]; intros fuel l c ls cl H Hwait Hr Hcl Hk Hs Hf.
- destruct fuel as [|fuel]; [cbn in Hf; lia|]. exists c, ls. cbn [co_cond_broadcast]. unfold co_cond_pop.
  rewrite (link_at_ok _ _ _ _ Hcl Hk). cbn. rewrite app_nil_r, insert_id by done. by destruct c.
- destruct fuel as [|fuel]; [cbn in Hf; lia|].
  destruct (wake_first now l c ls cl k x xs) as (h & c1 & ls1 & Ep & E1 & H1 & Hw1 & Hr1 & Hcl1 & Has); [done..|apply Hs, elem_of_cons; by left|].
  cbn [co_cond_broadcast]. rewrite Ep. cbn [mbind res_bind]. rewrite E1. cbn [mbind res_bind].
  pose proof (list_NoDup _ _ Hcl _ _ Hk) as [Hx _]%list.NoDup_cons.
  destruct (IH fuel (l ++ [x]) c1 ls1 _ H1 Hw1 Hr1 Hcl1) as (c' & ls' & E & H' & Hr' & Hcl').
  + by rewrite lookup_insert_eq.
  + intros y Hy. apply Has; [by intros ->|]. apply Hs, elem_of_cons. by right.
  + cbn in Hf. lia.
  + exists c', ls'. rewrite <- (app_assoc l [x] xs) in *. rewrite insert_insert_eq in Hcl'. done.
Qed.

(** The first half of [co_cond_timedwait] puts its caller to sleep at the end of the
    condition's list, with its deadline on the wheel if it has one. *)
Lemma co_cond_wait_begin_ok now l c ls cl k xs x self ms :
  loop_inv now l c ls → lists (conds c) cl → cl !! k = Some xs →
  x ∉ dom (nodes (lh (ws c))) → x ∉ dom (nodes (conds c)) → now < 2 ^ 62 → ms < 2 ^ 31 →
  ∃ c' ls', co_cond_wait_begin x self k ms now c = Ok (None, c') ∧ loop_inv now l c' ls' ∧
    lists (conds c') (<[k := xs ++ [x]]> cl) ∧ asleep c' ls' x ∧ parks l c ls c' ls'.
Proof.
intros H Hcl Hk Hx Hxc Hnow Hms. unfold co_cond_wait_begin. pose proof (w_start _ _ (li_wheel _ _ _ _ H)). pose proof (li_now _ _ _ _ H).
destruct (AddTail_ok (new_node x (conds c)) cl k xs x) as (h & Eh & Hh & _); [by apply lists_alloc|done| |].
{ exists (mkNode None None None). cbn. by rewrite lookup_insert_eq. }
destruct (Z.ltb_spec 0 ms) as [Hpos|Hneg].
- destruct (park_ok now l c ls x (mkItem (u64 (now + ms)) false true self) H Hx) as (w & ls' & E & Hc'); [|done|].
  { cbn. rewrite u64_id by lia. lia. }
  fold (alloc_item x (mkItem (u64 (now + ms)) false true self) (ws c)). rewrite E. cbn [mbind res_bind Z.eqb negb]. rewrite Eh. cbn [mbind res_bind].
  destruct (Hc' (set_conds h (set_ws w c)) eq_refl) as (H' & P & (s & it & Hs & Hon & Hit & Hdl & Hb)).
  eexists _, ls'. split_and!; [done..| |done]. split; [right; by exists s|]. exists it. split_and!; [done..|].
  rewrite Hdl. cbn. rewrite u64_id; lia.
- fold (alloc_item x (mkItem 0 false true self) (ws c)). cbn [mbind res_bind Z.eqb negb]. rewrite Eh. cbn [mbind res_bind].
  assert (∀ l' ys y, ls !! l' = Some ys → y ∈ ys → x ≠ y) as Hne.
  { intros l' ys y Hl' Hy ->. apply Hx. eapply listed_dom; [apply H|done..]. }
  eexists _, ls. split; [done|]. split_and!; [|done| |].
  + destruct H as [Hw Hn Ha Ht Hi]. split; cbn; [by apply wheel_alloc|done|done|done|].
    intros y Hy. rewrite lookup_insert_ne by exact (Hne _ _ _ Ha Hy). by apply Hi.
  + split; [left; exists (mkNode None None None); cbn; by rewrite lookup_insert_eq|].
    exists (mkItem 0 false true self). cbn. rewrite lookup_insert_eq. split_and!; [done..|lia].
  + split.
    * intros y dl (s & it & Hs & (ys & Hys & Hy) & Hit). exists s, it. split; [done|]. split; [by exists ys|]. cbn.
      rewrite lookup_insert_ne by exact (Hne _ _ _ Hys Hy). done.
    * intros y Hy. cbn. rewrite lookup_insert_ne by exact (Hne _ _ _ (li_active _ _ _ _ H) Hy). done.
Qed.

(** Two waiters on one condition, with and without a deadline. *)
Definition cond_start : cstate := set_conds (mkLHeap ∅ {[ 0%nat := mkLink None None ]}) demo_start.
Definition cond_build : res cstate :=
  '(_, c) ← co_cond_wait_begin 8 2 0 2 100 cond_start;
  '(_, c) ← co_cond_wait_begin 9 3 0 0 100 c;
  Ok c.
Definition cond_demo : cstate := match cond_build with Ok c => c | Fault _ => cond_start end.
Definition cond_ls : gmap nat (list nat) := {[ 0%nat := []; 1%nat := []; 2%nat := []; 3%nat := []; 4%nat := [8%nat]; 5%nat := [] ]}.

Lemma cond_wheel : pTimeout (ws cond_demo) = mkTimeout 4 100 0.
Proof. by vm_compute. Qed.

Lemma cond_slot s x : 0 ≤ s < 4 → on_slot cond_ls s x → s = 2 ∧ x = 8%nat.
Proof.
intros Hs (xs & Hxs & Hx). assert (s = 0 ∨ s = 1 ∨ s = 2 ∨ s = 3) as [->|[->|[->| ->]]] by lia; vm_compute in Hxs;
  injection Hxs as <-; rewrite ?elem_of_cons, elem_of_nil in Hx; split; tauto || lia.
Qed.

Lemma cond_inv : loop_inv 100 [] cond_demo cond_ls.
Proof.
split; [|by rewrite cond_wheel|done|done|by intros x ?%elem_of_nil]. split; rewrite ?cond_wheel; cbn; try lia.
- apply lists_check_ok. by vm_compute.
- intros s Hs. assert (s = 0 ∨ s = 1 ∨ s = 2 ∨ s = 3) as [->|[->|[->| ->]]] by lia; vm_compute; by eexists.
- intros s x Hs Hx. destruct (cond_slot s x Hs Hx) as [-> ->]. eexists. split; [vm_compute; reflexivity|done].
Qed.

(** Both are active after a broadcast, the first one first. *)
Lemma broadcast_wakes_all_witness :
  ∃ c' ls', co_cond_broadcast 3 0 cond_demo = Ok c' ∧ loop_inv 100 [8; 9]%nat c' ls'.
Proof.
destruct (broadcast_wakes_all 100 [] cond_demo cond_ls {[ 0%nat := [8; 9]%nat ]} 0 [8; 9]%nat 3) as (c' & ls' & E & H' & _).
- apply cond_inv.
- intros s x Hs Hx. rewrite cond_wheel in Hs. destruct (cond_slot s x Hs Hx) as [-> ->].
  eexists. split; [vm_compute; reflexivity|done].
- by intros x ?%elem_of_nil.
- apply lists_check_ok. by vm_compute.
- done.
- intros x Hx. rewrite !elem_of_cons, elem_of_nil in Hx. destruct Hx as [->|[->|[]]]; split.
  + right. exists 2. rewrite cond_wheel. split; [cbn; lia|]. exists [8%nat]. split; [by vm_compute|by apply list_elem_of_singleton].
  + eexists. split; [vm_compute; reflexivity|done].
  + left. eexists. split; [vm_compute; reflexivity|done].
  + eexists. split; [vm_compute; reflexivity|done].
- cbn. lia.
- exists c', ls'. done.
Defined.

(** A signal can be lost.  At 100 a poll is parked for 3 ms and a waiter for 100 ms, in
    the last of four places; at 103 both are taken, and the poll's owner signals.  The
    signal takes the waiter off the condition and leaves it on the active list, but the
    loop sees that the waiter was taken before its deadline and puts it back. *)
Definition lost_build : res cstate :=
  '(_, c) ← co_poll_begin 8 [] 2 [] 3 [] true 100 cond_start;
  '(_, c) ← co_cond_wait_begin 9 3 0 100 100 c;
  Ok c.
Definition signaller (co : nat) (c : cstate) : res cstate := if (co =? 2)%nat then co_cond_signal 0 c else Ok c.

Example signal_lost :
  match c ← lost_build; eventloop_pass signaller 10 [] 103 c with
  | Ok (fired, c) =>
      fired = [8%nat] ∧ links (conds c) !! 0%nat = Some (mkLink None None) ∧
      items (ws c) !! 9%nat = Some (mkItem 200 false true 3) ∧
      (pLink <$> nodes (lh (ws c)) !! 9%nat) = Some (Some (slot 2))
  | Fault _ => False
  end.
Proof. vm_compute. auto. Qed.
