(* ===== verification/Coroutine.v ===== *)
(** The coroutines of [cocgi/cocgi_lib/libco/co_routine.cpp]: [co_create_env], the call
    stack that [co_resume] and [co_yield_env] keep, and the copying of stacks in
    [co_swap] for coroutines that share one.

    [coctx_swap], which is assembler, passes control to the place where the other
    coroutine left [co_swap], or to [CoRoutineFunc]; a switch is therefore the part of
    [co_swap] before it, in the coroutine that leaves, and the part after it, in the one
    that comes back.  The memory of a shared stack is a list of bytes that ends at
    [stack_bp]; what a coroutine has pushed is the end of it. *)

From Stdlib Require Import ZArith Lia Bool.
From Stdlib.Strings Require Import Byte.
From stdpp Require Import base numbers list gmap option.
From S2P Require Import Prelude.

Local Open Scope Z_scope.

(** ** State *)

Record stStackMem := mkMem { occupy_co : option nat; stack_buffer : bytes }.

(** [stack_sp] is an offset in the buffer of [stack_mem]. *)
Record stCoRoutine := mkCo {
  cStart : bool; cEnd : bool; cIsMain : bool; cIsShareStack : bool;
  stack_mem : nat; ss_size : Z;
  stack_sp : nat; save_buffer : option bytes }.

Record stShareStack := mkShare { alloc_idx : Z; sh_stack_size : Z; sh_count : Z; stack_array : list nat }.

Record stEnv := mkEnv {
  pCallStack : list (option nat); iCallStackSize : Z;
  pending_co : option nat; env_occupy : option nat;
  cos : gmap nat stCoRoutine; mems : gmap nat stStackMem }.

Definition set_cos (m : gmap nat stCoRoutine) (e : stEnv) : stEnv :=
  mkEnv (pCallStack e) (iCallStackSize e) (pending_co e) (env_occupy e) m (mems e).
Definition set_mems (m : gmap nat stStackMem) (e : stEnv) : stEnv :=
  mkEnv (pCallStack e) (iCallStackSize e) (pending_co e) (env_occupy e) (cos e) m.
Definition set_calls (l : list (option nat)) (n : Z) (e : stEnv) : stEnv :=
  mkEnv l n (pending_co e) (env_occupy e) (cos e) (mems e).
Definition set_swap (p o : option nat) (e : stEnv) : stEnv :=
  mkEnv (pCallStack e) (iCallStackSize e) p o (cos e) (mems e).

Definition co_at (x : nat) (e : stEnv) : res stCoRoutine :=
  match cos e !! x with Some c => Ok c | None => Fault OutOfBounds end.
Definition mem_at (m : nat) (e : stEnv) : res stStackMem :=
  match mems e !! m with Some k => Ok k | None => Fault OutOfBounds end.

(** [env->pCallStack[ i ]], an array of 128. *)
Definition call_at (i : Z) (e : stEnv) : res nat :=
  if i <? 0 then Fault OutOfBounds else
  match pCallStack e !! Z.to_nat i with
  | Some (Some c) => Ok c
  | _ => Fault OutOfBounds
  end.

(** ** Creation *)

(** The stack size [co_create_env] works with. *)
Definition round_stack (size : Z) : Z :=
  let size := if size <=? 0 then 128 * 1024 else if 1024 * 1024 * 8 <? size then 1024 * 1024 * 8 else size in
  if Z.land size 4095 =? 0 then size else s32 (s32 (Z.land size (Z.lnot 4095)) + 4096).

Definition co_alloc_stackmem (stack_size : Z) : stStackMem := mkMem None (replicate (Z.to_nat stack_size) x00).

(** The next stack of a group, and the group's counter moved on. *)
Definition co_get_stackmem (s : stShareStack) : res (nat * stShareStack) :=
  if u32 (sh_count s) =? 0 then Fault OutOfBounds else
  let idx := s32 (u32 (alloc_idx s) mod u32 (sh_count s)) in
  let s := mkShare (u32 (alloc_idx s + 1)) (sh_stack_size s) (sh_count s) (stack_array s) in
  match stack_array s !! Z.to_nat idx with
  | Some m => Ok (m, s)
  | None => Fault OutOfBounds
  end.

(** [co_alloc_sharestack]: the stacks are [ids]. *)
Fixpoint alloc_stacks (ids : list nat) (stack_size : Z) (m : gmap nat stStackMem) : gmap nat stStackMem :=
  match ids with
  | [] => m
  | i :: ids => alloc_stacks ids stack_size (<[i := co_alloc_stackmem stack_size]> m)
  end.
Definition co_alloc_sharestack (ids : list nat) (stack_size : Z) (e : stEnv) : stShareStack * stEnv :=
  (mkShare 0 stack_size (Z.of_nat (length ids)) ids, set_mems (alloc_stacks ids stack_size (mems e)) e).

Definition new_co (share : bool) (m : nat) (size : Z) : stCoRoutine := mkCo false false false share m size 0 None.

(** [x] is the coroutine allocated and [m] its stack, when it gets one of its own. *)
Definition co_create_env (x m : nat) (stack_size : Z) (share : option stShareStack) (e : stEnv) :
    res (option stShareStack * stEnv) :=
  match share with
  | Some s =>
      '(k, s) ← co_get_stackmem s;
      Ok (Some s, set_cos (<[x := new_co true k (sh_stack_size s)]> (cos e)) e)
  | None =>
      let size := round_stack stack_size in
      Ok (None, set_cos (<[x := new_co false m size]> (cos e)) (set_mems (<[m := co_alloc_stackmem size]> (mems e)) e))
  end.

Definition co_free (x : nat) (e : stEnv) : res stEnv :=
  c ← co_at x e;
  let e := if cIsShareStack c then e else set_mems (delete (stack_mem c) (mems e)) e in
  Ok (set_cos (delete x (cos e)) e).

(** The main coroutine of a thread: [co_init_curr_thread_env]. *)
Definition co_init_curr_thread_env (x m : nat) : stEnv :=
  let self := mkCo false false true false m (round_stack (128 * 1024)) 0 None in
  mkEnv (<[0%nat := Some x]> (replicate 128 None)) 1 None None
    {[ x := self ]} {[ m := co_alloc_stackmem (round_stack (128 * 1024)) ]}.

(** ** Switching *)

(** [memcpy] of the stack of [o], from its [stack_sp] up to [stack_bp]. *)
Definition save_stack_buffer (o : nat) (e : stEnv) : res stEnv :=
  c ← co_at o e;
  m ← mem_at (stack_mem c) e;
  if (length (stack_buffer m) <? stack_sp c)%nat then Fault OutOfBounds else
  let d := drop (stack_sp c) (stack_buffer m) in
  Ok (set_cos (<[o := mkCo (cStart c) (cEnd c) (cIsMain c) (cIsShareStack c) (stack_mem c) (ss_size c) (stack_sp c) (Some d)]> (cos e)) e).

Definition set_sp (sp : nat) (c : stCoRoutine) : stCoRoutine :=
  mkCo (cStart c) (cEnd c) (cIsMain c) (cIsShareStack c) (stack_mem c) (ss_size c) sp (save_buffer c).
Definition set_cStart (c : stCoRoutine) : stCoRoutine :=
  mkCo true (cEnd c) (cIsMain c) (cIsShareStack c) (stack_mem c) (ss_size c) (stack_sp c) (save_buffer c).

(** The coroutine [pending] takes its stack, and who was on it is saved. *)
Definition take_stack (pending : nat) (e : stEnv) : res stEnv :=
  p ← co_at pending e;
  if negb (cIsShareStack p) then Ok (set_swap None None e) else
  m ← mem_at (stack_mem p) e;
  let occ := occupy_co m in
  let e := set_mems (<[stack_mem p := mkMem (Some pending) (stack_buffer m)]> (mems e)) e in
  let e := set_swap (Some pending) occ e in
  match occ with
  | Some o => if decide (o = pending) then Ok e else save_stack_buffer o e
  | None => Ok e
  end.

(** [co_swap] up to [coctx_swap]; [sp] is the address of its local. *)
Definition co_swap_out (curr pending sp : nat) (e : stEnv) : res stEnv :=
  c ← co_at curr e;
  take_stack pending (set_cos (<[curr := set_sp sp c]> (cos e)) e).

(** [co_swap] after [coctx_swap]. *)
Definition co_swap_in (e : stEnv) : res stEnv :=
  match env_occupy e, pending_co e with
  | Some o, Some p =>
      if decide (o = p) then Ok e else
      c ← co_at p e;
      match save_buffer c with
      | None => Ok e
      | Some d =>
          if (length d =? 0)%nat then Ok e else
          m ← mem_at (stack_mem c) e;
          if (length (stack_buffer m) <? stack_sp c + length d)%nat then Fault OutOfBounds else
          Ok (set_mems (<[stack_mem c := mkMem (occupy_co m) (overwrite (stack_sp c) d (stack_buffer m))]> (mems e)) e)
      end
  | _, _ => Ok e
  end.

(** The whole switch: a coroutine that has not started begins at [CoRoutineFunc]. *)
Definition co_swap (curr pending sp : nat) (started : bool) (e : stEnv) : res stEnv :=
  e ← co_swap_out curr pending sp e;
  if started then co_swap_in e else Ok e.

Definition co_resume (x sp : nat) (e : stEnv) : res stEnv :=
  curr ← call_at (iCallStackSize e - 1) e;
  c ← co_at x e;
  let e := set_cos (<[x := set_cStart c]> (cos e)) e in
  let n := iCallStackSize e in
  if (n <? 0) || (Z.of_nat (length (pCallStack e)) <=? n) then Fault OutOfBounds else
  let e := set_calls (<[Z.to_nat n := Some x]> (pCallStack e)) (n + 1) e in
  co_swap curr x sp (cStart c) e.

Definition co_yield_env (sp : nat) (e : stEnv) : res stEnv :=
  last ← call_at (iCallStackSize e - 2) e;
  curr ← call_at (iCallStackSize e - 1) e;
  let e := set_calls (pCallStack e) (iCallStackSize e - 1) e in
  co_swap curr last sp true e.

(** [GetCurrCo]. *)
Definition GetCurrCo (e : stEnv) : res nat := call_at (iCallStackSize e - 1) e.

(** The end of [CoRoutineFunc]: the function of the coroutine has returned. *)
Definition CoRoutineFunc_end (sp : nat) (e : stEnv) : res stEnv :=
  x ← GetCurrCo e;
  c ← co_at x e;
  co_yield_env sp (set_cos (<[x := mkCo (cStart c) true (cIsMain c) (cIsShareStack c) (stack_mem c) (ss_size c) (stack_sp c) (save_buffer c)]> (cos e)) e).
