(* ===== verification/CoroutineSpec.v ===== *)
(** Coroutines that share a stack, against coroutines that have one each.

    The specification is a call stack of coroutines and, for every coroutine on a shared
    stack, the bytes it had pushed when it left.  The library keeps those bytes on the
    shared stack or in [save_buffer], and a coroutine that comes back finds them where
    it left them. *)

From Stdlib Require Import ZArith Lia Bool.
From Stdlib.Strings Require Import Byte.
From stdpp Require Import base numbers list gmap option.
From S2P Require Import Prelude Coroutine.

Local Open Scope Z_scope.

(** ** Private stacks *)

(** Where the bytes [d] that [x] left are: on its stack if it still occupies it, else
    in its [save_buffer]. *)
Definition holds (x : nat) (c : stCoRoutine) (m : stStackMem) (o : option bytes) : Prop :=
  match o with
  | Some d =>
      (0 < length d ≤ length (stack_buffer m))%nat ∧ stack_sp c = (length (stack_buffer m) - length d)%nat ∧
      (if decide (occupy_co m = Some x) then drop (stack_sp c) (stack_buffer m) = d
       else save_buffer c = Some d ∧ is_Some (occupy_co m))
  | None => occupy_co m ≠ Some x ∧ save_buffer c = None
  end.

Record memory (e : stEnv) : Prop := {
  s_mem x c : cos e !! x = Some c → cIsShareStack c = true → is_Some (mems e !! stack_mem c);
  s_occ k m o : mems e !! k = Some m → occupy_co m = Some o →
    ∃ c, cos e !! o = Some c ∧ cIsShareStack c = true ∧ stack_mem c = k;
}.

(** Every coroutine has left. *)
Record parked (e : stEnv) (stk : gmap nat bytes) : Prop := {
  p_memory : memory e;
  p_rest x c m : cos e !! x = Some c → cIsShareStack c = true → mems e !! stack_mem c = Some m → holds x c m (stk !! x);
}.

(** [cur] runs, and has found its bytes again. *)
Record running (e : stEnv) (cur : nat) (stk : gmap nat bytes) : Prop := {
  r_memory : memory e;
  r_rest x c m : x ≠ cur → cos e !! x = Some c → cIsShareStack c = true → mems e !! stack_mem c = Some m → holds x c m (stk !! x);
  r_run c m : cos e !! cur = Some c → cIsShareStack c = true → mems e !! stack_mem c = Some m →
    occupy_co m = Some cur ∧ ∀ d, stk !! cur = Some d → drop (stack_sp c) (stack_buffer m) = d;
}.

(** What the code of the running coroutine has done to a shared stack by the time it
    leaves: the bytes above [sp] are [d]. *)
Definition push (cur : nat) (d : bytes) (e : stEnv) : stEnv :=
  match cos e !! cur with
  | Some c =>
      if cIsShareStack c then
        match mems e !! stack_mem c with
        | Some m => set_mems (<[stack_mem c := mkMem (occupy_co m) (overwrite (length (stack_buffer m) - length d) d (stack_buffer m))]> (mems e)) e
        | None => e
        end
      else e
  | None => e
  end.

(** The stack pointer that goes with [d]. *)
Definition sp_of (cur : nat) (d : bytes) (e : stEnv) : nat :=
  match cos e !! cur with
  | Some c => match mems e !! stack_mem c with Some m => (length (stack_buffer m) - length d)%nat | None => O end
  | None => O
  end.

Definition shared (cur : nat) (e : stEnv) : bool := match cos e !! cur with Some c => cIsShareStack c | None => false end.

(** What [cur] leaves, when it leaves. *)
Definition left_ (cur : nat) (d : bytes) (e : stEnv) (stk : gmap nat bytes) : gmap nat bytes :=
  if shared cur e then <[cur := d]> stk else stk.

Definition fits (cur : nat) (d : bytes) (e : stEnv) : Prop :=
  ∀ c m, cos e !! cur = Some c → cIsShareStack c = true → mems e !! stack_mem c = Some m →
    (0 < length d ≤ length (stack_buffer m))%nat.

Lemma drop_overwrite_end (d l : bytes) :
  (length d ≤ length l)%nat → drop (length l - length d) (overwrite (length l - length d) d l) = d.
Proof.
intros H. assert (length (overwrite (length l - length d) d l) = length l) as Hlen by (apply length_overwrite; lia).
pose proof (slice_overwrite (length l - length d) d l ltac:(lia)) as E. unfold slice in E.
rewrite take_ge in E; [done|]. rewrite length_drop. lia.
Qed.

(** ** Leaving *)

Lemma leave_ok e cur c stk d :
  running e cur stk → cos e !! cur = Some c → fits cur d e →
  parked (set_cos (<[cur := set_sp (sp_of cur d e) c]> (cos e)) (push cur d e)) (left_ cur d e stk).
Proof.
intros [[Hm Ho] Hrest Hrun] Hc Hfit. unfold left_, shared, push, sp_of. rewrite Hc. destruct (cIsShareStack c) eqn:Hs.
- destruct (Hm cur c Hc Hs) as [m Em]. rewrite Em. destruct (Hrun c m Hc Hs Em) as [Hocc _]. pose proof (Hfit c m Hc Hs Em) as Hlen.
  set (buf := overwrite _ _ _). assert (length buf = length (stack_buffer m)) as Hbuf by (apply length_overwrite; lia).
  split; [split|].
  + intros x cx. cbn. intros Hx Hsx. destruct (decide (stack_mem c = stack_mem cx)) as [<-|Hne]; [by rewrite lookup_insert_eq|].
    rewrite lookup_insert_ne by done. destruct (decide (cur = x)) as [<-|Hnx].
    * rewrite lookup_insert_eq in Hx. injection Hx as <-. done.
    * rewrite lookup_insert_ne in Hx by done. by eapply Hm.
  + intros k m' o. cbn. intros Hk Hoc. assert (∃ m0, mems e !! k = Some m0 ∧ occupy_co m0 = Some o) as (m0 & Hk0 & Ho0).
    { destruct (decide (stack_mem c = k)) as [<-|Hne]; [|rewrite lookup_insert_ne in Hk by done; by exists m'].
      rewrite lookup_insert_eq in Hk. injection Hk as <-. by exists m. }
    destruct (Ho k m0 o Hk0 Ho0) as (co & Hco & Hsh & Hk'). destruct (decide (cur = o)) as [<-|Hne].
    * exists (set_sp (length (stack_buffer m) - length d) co). rewrite Hc in Hco. injection Hco as <-. by rewrite lookup_insert_eq.
    * exists co. by rewrite lookup_insert_ne.
  + intros x cx mx. cbn. destruct (decide (cur = x)) as [<-|Hne].
    * rewrite lookup_insert_eq. intros [= <-] _. cbn. rewrite !lookup_insert_eq. intros [= <-]. cbn. rewrite Hbuf. split_and!; try lia.
      rewrite decide_True by done. apply drop_overwrite_end. lia.
    * rewrite lookup_insert_ne by done. intros Hx Hsx Emx. rewrite lookup_insert_ne by done.
      destruct (decide (stack_mem c = stack_mem cx)) as [Heq|Hnm].
      -- rewrite <- Heq, lookup_insert_eq in Emx. injection Emx as <-. rewrite Heq in Em. pose proof (Hrest x cx m (not_eq_sym Hne) Hx Hsx Em) as Hh.
         unfold holds in *. cbn. destruct (stk !! x) as [dx|]; [|done]. rewrite Hbuf. destruct Hh as (? & ? & Hh). split_and!; try lia; try done.
         rewrite decide_False in Hh by congruence. by rewrite decide_False by congruence.
      -- rewrite lookup_insert_ne in Emx by done. apply Hrest; done.
- split; [split|]; cbn.
  + intros x cx Hx Hsx. destruct (decide (cur = x)) as [<-|Hne].
    * rewrite lookup_insert_eq in Hx. injection Hx as <-. cbn in Hsx. congruence.
    * rewrite lookup_insert_ne in Hx by done. by eapply Hm.
  + intros k m o Hk Hoc. destruct (Ho k m o Hk Hoc) as (co & Hco & Hsh & Hk'). exists co. rewrite lookup_insert_ne; [done|]. intros ->. congruence.
  + intros x cx m Hx Hsx Em. destruct (decide (cur = x)) as [<-|Hne].
    * rewrite lookup_insert_eq in Hx. injection Hx as <-. cbn in Hsx. congruence.
    * rewrite lookup_insert_ne in Hx by done. apply Hrest; done.
Qed.

(** ** Coming back *)

(** The flags and the call stack are not touched. *)
Record same_frame (e e' : stEnv) : Prop := {
  sf_calls : pCallStack e' = pCallStack e;
  sf_size : iCallStackSize e' = iCallStackSize e;
  sf_cos y : (λ c, (cStart c, cIsShareStack c, stack_mem c)) <$> cos e' !! y = (λ c, (cStart c, cIsShareStack c, stack_mem c)) <$> cos e !! y;
  sf_mems k : (λ m, length (stack_buffer m)) <$> mems e' !! k = (λ m, length (stack_buffer m)) <$> mems e !! k;
}.

Lemma mems_length (m : gmap nat stStackMem) k mk o b k' :
  m !! k = Some mk → length b = length (stack_buffer mk) →
  (λ m, length (stack_buffer m)) <$> <[k := mkMem o b]> m !! k' = (λ m, length (stack_buffer m)) <$> m !! k'.
Proof.
intros Hk Hb. destruct (decide (k = k')) as [<-|Hne]; [rewrite lookup_insert_eq, Hk; cbn; by rewrite Hb|]. by rewrite lookup_insert_ne.
Qed.

Definition with_save (d : bytes) (c : stCoRoutine) : stCoRoutine :=
  mkCo (cStart c) (cEnd c) (cIsMain c) (cIsShareStack c) (stack_mem c) (ss_size c) (stack_sp c) (Some d).

(** [x] takes the stack [k] from [o], whose bytes are saved. *)
Lemma displace e stk x cx mx o co :
  parked e stk → cos e !! x = Some cx → cIsShareStack cx = true → mems e !! stack_mem cx = Some mx →
  occupy_co mx = Some o → o ≠ x → cos e !! o = Some co →
  let e1 := set_swap (Some x) (Some o) (set_mems (<[stack_mem cx := mkMem (Some x) (stack_buffer mx)]> (mems e)) e) in
  let d := drop (stack_sp co) (stack_buffer mx) in
  save_stack_buffer o e1 = Ok (set_cos (<[o := with_save d co]> (cos e)) e1) ∧ stk !! o = Some d ∧ stack_mem co = stack_mem cx.
Proof.
intros [[Hm Ho] Hrest] Hx Hs Em Hocc Hne Hco e1 d. destruct (Ho _ _ _ Em Hocc) as (co' & Hco' & Hso & Hk).
assert (co' = co) as -> by congruence. rewrite <- Hk in Em. pose proof (Hrest o co mx Hco Hso Em) as Hh.
unfold holds in Hh. destruct (stk !! o) as [d'|] eqn:Ed; [|by destruct Hh]. destruct Hh as (Hl & Hsp & Hd). rewrite decide_True in Hd by done.
split_and!; [|unfold d; congruence|done]. unfold save_stack_buffer, co_at, mem_at. cbn [e1 cos mems set_swap set_mems]. rewrite Hco. cbn [mbind res_bind].
rewrite Hk, lookup_insert_eq. cbn [mbind res_bind stack_buffer]. rewrite (proj2 (Nat.ltb_ge _ _)) by lia. unfold with_save. by rewrite Hk.
Qed.

Lemma holds_other y c m o b' :
  length b' = length (stack_buffer m) → occupy_co m ≠ Some y → holds y c m o → ∀ x, x ≠ y →
  holds y c (mkMem (Some x) b') o.
Proof.
intros Hb Hno Hh x Hx. unfold holds in *. cbn. destruct o as [d|]; [|split; [congruence|apply Hh]].
destruct Hh as (Hl & Hsp & Hd). rewrite decide_False in Hd by done. rewrite decide_False by congruence. rewrite Hb. split_and!; try lia; [apply Hd|done].
Qed.

(** What the other coroutines hold once [x] has the stack [stack_mem cx]. *)
Lemma rest_ok e stk x cx mx b' :
  parked e stk → cos e !! x = Some cx → mems e !! stack_mem cx = Some mx → length b' = length (stack_buffer mx) →
  ∀ y c m, y ≠ x → occupy_co mx ≠ Some y → cos e !! y = Some c → cIsShareStack c = true →
    <[stack_mem cx := mkMem (Some x) b']> (mems e) !! stack_mem c = Some m → holds y c m (stk !! y).
Proof.
intros [_ Hrest] Hx Em Hb y c m Hyx Hno Hy Hs Hm. destruct (decide (stack_mem cx = stack_mem c)) as [E|Hne].
- rewrite E in Em. rewrite E, lookup_insert_eq in Hm. injection Hm as <-.
  apply (holds_other y c mx); [done|done|by apply Hrest|done].
- rewrite lookup_insert_ne in Hm by done. by apply Hrest.
Qed.

Lemma memory_take e x cx b' o co :
  memory e → cos e !! x = Some cx → cIsShareStack cx = true → (∀ c, cos e !! o = Some c → cIsShareStack co = cIsShareStack c ∧ stack_mem co = stack_mem c) →
  is_Some (cos e !! o) → ∀ e', cos e' = <[o := co]> (cos e) → mems e' = <[stack_mem cx := mkMem (Some x) b']> (mems e) → memory e'.
Proof.
intros [Hm Ho] Hx Hs Hsame [c0 Hc0] e' Ec Em. destruct (Hsame c0 Hc0) as [Hs0 Hk0].
assert (∀ y c, cos e' !! y = Some c → ∃ c', cos e !! y = Some c' ∧ cIsShareStack c = cIsShareStack c' ∧ stack_mem c = stack_mem c') as Hback.
{ intros y c. rewrite Ec. destruct (decide (o = y)) as [<-|Hne]; [rewrite lookup_insert_eq; intros [= <-]; by exists c0|].
  rewrite lookup_insert_ne by done. by exists c. }
assert (∀ y c, cos e !! y = Some c → ∃ c', cos e' !! y = Some c' ∧ cIsShareStack c' = cIsShareStack c ∧ stack_mem c' = stack_mem c) as Hforth.
{ intros y c Hy. rewrite Ec. destruct (decide (o = y)) as [<-|Hne]; [rewrite lookup_insert_eq; exists co; split; [done|]; by apply Hsame|].
  rewrite lookup_insert_ne by done. by exists c. }
split.
- intros y c Hy Hsy. destruct (Hback y c Hy) as (c' & Hc' & Es & Ek). rewrite Em, Ek.
  destruct (decide (stack_mem cx = stack_mem c')) as [<-|Hne]; [by rewrite lookup_insert_eq|]. rewrite lookup_insert_ne by done.
  eapply Hm; [done|congruence].
- intros k m o' Hk Ho'. rewrite Em in Hk. destruct (decide (stack_mem cx = k)) as [<-|Hne].
  + rewrite lookup_insert_eq in Hk. injection Hk as <-. injection Ho' as <-. destruct (Hforth x cx Hx) as (c' & ? & ? & ?).
    exists c'. split_and!; congruence.
  + rewrite lookup_insert_ne in Hk by done. destruct (Ho k m o' Hk Ho') as (c & Hc & ? & ?).
    destruct (Hforth o' c Hc) as (c' & ? & ? & ?). exists c'. split_and!; congruence.
Qed.

Lemma with_save_same o co d (m : gmap nat stCoRoutine) y :
  m !! o = Some co →
  (λ c, (cStart c, cIsShareStack c, stack_mem c)) <$> <[o := with_save d co]> m !! y =
  (λ c, (cStart c, cIsShareStack c, stack_mem c)) <$> m !! y.
Proof.
intros Ho. destruct (decide (o = y)) as [<-|Hne]; [by rewrite lookup_insert_eq, Ho|]. by rewrite lookup_insert_ne.
Qed.

Lemma enter_ok e stk x cx started :
  parked e stk → cos e !! x = Some cx → (cIsShareStack cx = true → started = false → stk !! x = None) →
  ∃ e', (e ← take_stack x e; if started : bool then co_swap_in e else Ok e) = Ok e' ∧ running e' x stk ∧ same_frame e e'.
Proof.
intros H Hx Hst. pose proof H as [Hmem Hrest]. pose proof Hmem as [Hm Ho].
unfold take_stack. unfold co_at at 1. rewrite Hx. cbn [mbind res_bind]. destruct (cIsShareStack cx) eqn:Hs; cbn [negb].
2:{ (* a stack of its own *)
  cbn [mbind res_bind]. exists (set_swap None None e). split; [by destruct started|]. split; [|done].
  split; [done|by intros; eapply Hrest|]. cbn. intros c m Hc Hsc. congruence. }
destruct (Hm x cx Hx Hs) as [mx Em]. unfold mem_at at 1. rewrite Em. cbn [mbind res_bind].
destruct (occupy_co mx) as [o|] eqn:Eo; cycle 1.
{ (* the first one on the stack *)
  cbn [mbind res_bind]. eexists. split; [by destruct started|]. split; [|by split; [..|intros k; by eapply mems_length]]. split.
  - eapply (memory_take e x cx (stack_buffer mx) x cx); try done.
    + intros c Hc. by rewrite Hx in Hc; injection Hc as <-.
    + cbn. by rewrite insert_id.
  - cbn. intros y c m Hyx Hy Hsy Hmy. eapply (rest_ok e stk x cx mx); try done. by rewrite Eo.
  - cbn. intros c m Hc _. rewrite Hx in Hc. injection Hc as <-. rewrite lookup_insert_eq. intros [= <-]. split; [done|].
    intros d Hd. exfalso. pose proof (Hrest x cx mx Hx Hs Em) as Hh. rewrite Hd in Hh. destruct Hh as (_ & _ & Hh).
    rewrite Eo, decide_False in Hh by done. destruct Hh as [_ [? ?]]. done. }
destruct (decide (o = x)) as [->|Hox].
{ (* it is still there *)
  cbn [mbind res_bind]. eexists. split.
  { destruct started; [|done]. unfold co_swap_in. cbn [env_occupy pending_co set_swap set_mems]. by rewrite decide_True. }
  split; [|by split; [..|intros k; by eapply mems_length]]. replace (mkMem (Some x) (stack_buffer mx)) with mx by (destruct mx; cbn in *; congruence). split.
  - split; cbn; rewrite insert_id by done; [apply Hm|apply Ho].
  - cbn. rewrite insert_id by done. intros y c m Hyx Hy Hsy Hmy. by apply Hrest.
  - cbn. rewrite insert_id by done. intros c m Hc _ Hmc. rewrite Hx in Hc. injection Hc as <-. rewrite Em in Hmc. injection Hmc as <-.
    split; [done|]. intros d Hd. pose proof (Hrest x cx mx Hx Hs Em) as Hh. rewrite Hd in Hh. destruct Hh as (_ & _ & Hh).
    by rewrite decide_True in Hh. }
destruct (Ho _ _ _ Em Eo) as (co & Hco & Hso & Hko).
destruct (displace e stk x cx mx o co H Hx Hs Em Eo Hox Hco) as (Es & Hdo & _). cbn zeta in Es. cbn [mbind res_bind]. rewrite Es. cbn [mbind res_bind].
set (e2 := set_cos _ _). set (d := drop (stack_sp co) (stack_buffer mx)) in *.
(* what holds for the other coroutines, whatever is written on the stack *)
assert (∀ b' e', length b' = length (stack_buffer mx) → cos e' = cos e2 → mems e' = <[stack_mem cx := mkMem (Some x) b']> (mems e) →
  (∀ dx, stk !! x = Some dx → drop (stack_sp cx) b' = dx) → running e' x stk) as Hrun.
{ intros b' e' Hb Ec' Em' Hdx. split.
  - eapply (memory_take e x cx b' o (with_save d co)); try done. intros c Hc. by rewrite Hco in Hc; injection Hc as <-.
  - intros y c m Hyx Hy Hsy Hmy. rewrite Ec' in Hy. rewrite Em' in Hmy. cbn in Hy. destruct (decide (o = y)) as [<-|Hoy].
    + rewrite lookup_insert_eq in Hy. injection Hy as <-. cbn in Hmy. rewrite Hko, lookup_insert_eq in Hmy. injection Hmy as <-.
      pose proof (Hrest o co mx Hco Hso ltac:(by rewrite Hko)) as Hh. rewrite Hdo in Hh |- *. destruct Hh as (Hl & Hsp & _).
      unfold holds. cbn. rewrite Hb. split_and!; try lia. rewrite decide_False by congruence. done.
    + rewrite lookup_insert_ne in Hy by done. eapply (rest_ok e stk x cx mx b'); try done. rewrite Eo. congruence.
  - intros c m Hc _ Hmc. rewrite Ec' in Hc. cbn in Hc. rewrite lookup_insert_ne, Hx in Hc by done. injection Hc as <-.
    rewrite Em', lookup_insert_eq in Hmc. injection Hmc as <-. cbn. by split. }
destruct started.
- unfold co_swap_in. cbn [env_occupy pending_co e2 set_cos set_swap set_mems]. rewrite decide_False by done.
  unfold co_at. cbn [e2 cos set_cos]. rewrite lookup_insert_ne, Hx by done. cbn [mbind res_bind].
  pose proof (Hrest x cx mx Hx Hs Em) as Hh. destruct (stk !! x) as [dx|] eqn:Edx; cbn [holds] in Hh.
  + destruct Hh as (Hl & Hsp & Hh). rewrite decide_False in Hh by congruence. destruct Hh as [-> _].
    rewrite (proj2 (Nat.eqb_neq _ _)) by lia. unfold mem_at. cbn [e2 mems set_cos set_swap set_mems]. rewrite lookup_insert_eq. cbn [mbind res_bind stack_buffer].
    rewrite (proj2 (Nat.ltb_ge _ _)) by lia. eexists. split; [done|]. split.
    * apply (Hrun (overwrite (stack_sp cx) dx (stack_buffer mx))); [apply length_overwrite; lia|done|cbn; by rewrite insert_insert_eq|].
      intros ? [= <-]. rewrite Hsp. apply drop_overwrite_end. lia.
    * split; [done..|intros y; by apply with_save_same|]. intros k. cbn. rewrite insert_insert_eq. eapply mems_length; [done|]. apply length_overwrite. lia.
  + destruct Hh as [_ ->]. eexists. split; [done|]. split; [by apply (Hrun (stack_buffer mx))|].
    split; [done..|intros y; by apply with_save_same|]. intros k. by eapply mems_length.
- eexists. split; [done|]. split; [|split; [done..|intros y; by apply with_save_same|intros k; by eapply mems_length]].
  apply (Hrun (stack_buffer mx)); [done..|]. intros dx Hdx. rewrite (Hst eq_refl eq_refl) in Hdx. done.
Qed.

(** ** The machine *)

(** A coroutine of the thread: on a shared stack of a size, or on one of its own. *)
Abbreviation signature := (gmap nat (option nat)).

Definition kind_of (e : stEnv) (x : nat) : option (option nat) :=
  match cos e !! x with
  | None => None
  | Some c => Some (if cIsShareStack c then (λ m, length (stack_buffer m)) <$> mems e !! stack_mem c else None)
  end.

Record machine := mkM { calls : list nat; kept : gmap nat bytes }.

(** A switch, with the bytes that the coroutine that leaves has pushed. *)
Inductive switch := Resume (x : nat) (d : bytes) | Yield (d : bytes).

Definition pushed (s : switch) : bytes := match s with Resume _ d | Yield d => d end.

Definition keep (sg : signature) (cur : nat) (d : bytes) (k : gmap nat bytes) : gmap nat bytes :=
  match sg !! cur with Some (Some _) => <[cur := d]> k | _ => k end.

Definition may_push (sg : signature) (cur : nat) (d : bytes) : Prop :=
  match sg !! cur with Some (Some n) => (0 < length d ≤ n)%nat | _ => True end.

Inductive mstep (sg : signature) : switch → machine → machine → Prop :=
  | MResume l cur x d k :
      is_Some (sg !! x) → x ∉ l ++ [cur] → (length (l ++ [cur]) < 128)%nat → may_push sg cur d →
      mstep sg (Resume x d) (mkM (l ++ [cur]) k) (mkM (l ++ [cur] ++ [x]) (keep sg cur d k))
  | MYield l last cur d k :
      may_push sg cur d →
      mstep sg (Yield d) (mkM (l ++ [last] ++ [cur]) k) (mkM (l ++ [last]) (keep sg cur d k)).

(** The library, with the same bytes pushed. *)
Definition step (s : switch) (e : stEnv) : res stEnv :=
  cur ← GetCurrCo e;
  let sp := sp_of cur (pushed s) e in
  let e := push cur (pushed s) e in
  match s with
  | Resume x _ => co_resume x sp e
  | Yield _ => co_yield_env sp e
  end.

Record implements (sg : signature) (e : stEnv) (m : machine) : Prop := {
  i_kind x : kind_of e x = sg !! x;
  i_len : length (pCallStack e) = 128%nat;
  i_size : iCallStackSize e = Z.of_nat (length (calls m));
  i_calls i x : calls m !! i = Some x → pCallStack e !! i = Some (Some x) ∧ is_Some (sg !! x);
  i_most : (length (calls m) ≤ 128)%nat;
  i_nodup : NoDup (calls m);
  i_run l cur : calls m = l ++ [cur] → running e cur (kept m);
  i_started x c : x ∈ calls m → cos e !! x = Some c → cIsShareStack c = true → cStart c = true;
  i_new x c : cos e !! x = Some c → cStart c = false → cIsShareStack c = true → kept m !! x = None;
}.

Lemma kind_of_same e e' x : same_frame e e' → kind_of e' x = kind_of e x.
Proof.
intros [_ _ Hc Hm]. unfold kind_of. specialize (Hc x). destruct (cos e !! x) as [c|], (cos e' !! x) as [c'|]; try done.
injection Hc as _ -> ->. by rewrite Hm.
Qed.

Lemma same_frame_trans e1 e2 e3 : same_frame e1 e2 → same_frame e2 e3 → same_frame e1 e3.
Proof.
intros [? ? Hc1 Hm1] [? ? Hc2 Hm2]. split; [congruence..| |]; intros; [by rewrite Hc2|by rewrite Hm2].
Qed.

Lemma push_same e cur d :
  fits cur d e → same_frame e (push cur d e) ∧ cos (push cur d e) = cos e.
Proof.
intros Hf. unfold push. destruct (cos e !! cur) as [c|] eqn:Hc; [|done]. destruct (cIsShareStack c) eqn:Hs; [|done].
destruct (mems e !! stack_mem c) as [m|] eqn:Em; [|done]. split; [|done]. split; [done..|]. intros k. cbn. eapply mems_length; [done|].
apply length_overwrite. pose proof (Hf c m Hc Hs Em). lia.
Qed.

Lemma kind_shared e (sg : signature) cur : (∀ x, kind_of e x = sg !! x) → memory e →
  shared cur e = match sg !! cur with Some (Some _) => true | _ => false end.
Proof.
intros Hk Hm. rewrite <- Hk. unfold shared, kind_of. destruct (cos e !! cur) as [c|] eqn:Hc; [|done].
destruct (cIsShareStack c) eqn:Hs; [|done]. by destruct (s_mem _ Hm cur c Hc Hs) as [m ->].
Qed.

Lemma kind_fits e (sg : signature) cur d : (∀ x, kind_of e x = sg !! x) → may_push sg cur d → fits cur d e.
Proof.
intros Hk Hp c m Hc Hs Em. unfold may_push in Hp. rewrite <- Hk in Hp. unfold kind_of in Hp. rewrite Hc, Hs, Em in Hp. exact Hp.
Qed.

(** Leaving [cur] for [x]: the bytes are kept, and [x] finds its own. *)
Lemma co_swap_ok e (sg : signature) cur x c d k started :
  (∀ x, kind_of e x = sg !! x) → running e cur k → is_Some (cos e !! cur) → may_push sg cur d → x ≠ cur →
  cos e !! x = Some c → (cIsShareStack c = true → started = false → k !! x = None) →
  ∀ e1, cos e1 = cos e ∨ cos e1 = <[x := set_cStart c]> (cos e) → mems e1 = mems (push cur d e) →
  ∃ e', co_swap cur x (sp_of cur d e) started e1 = Ok e' ∧ running e' x (keep sg cur d k) ∧ same_frame e1 e'.
Proof.
intros Hk Hrun [cc Hcc] Hp Hne Hc Hst e1 He1 Hm1. pose proof (kind_fits e sg cur d Hk Hp) as Hfit.
pose proof (leave_ok e cur cc k d Hrun Hcc Hfit) as Hpark.
assert (left_ cur d e k = keep sg cur d k) as El.
{ unfold left_, keep. rewrite (kind_shared e sg cur Hk) by apply Hrun. by destruct (sg !! cur) as [[]|]. }
rewrite El in Hpark. set (sp := sp_of cur d e) in *.
assert (cos e1 !! cur = Some cc) as Hcc1 by (destruct He1 as [->| ->]; [done|by rewrite lookup_insert_ne]).
assert (∃ c1, cos e1 !! x = Some c1 ∧ cIsShareStack c1 = cIsShareStack c) as (c1 & Hc1 & Hs1).
{ destruct He1 as [->| ->]; [by exists c|]. rewrite lookup_insert_eq. by eexists. }
assert (parked (set_cos (<[cur := set_sp sp cc]> (cos e1)) e1) (keep sg cur d k)) as Hpark1.
{ destruct Hpark as [[Hm Ho] Hrest]. cbn in *. rewrite <- Hm1 in *.
  destruct He1 as [-> | ->]; [by split; [split|]|]. rewrite insert_insert_ne by done.
  assert (<[cur := set_sp sp cc]> (cos e) !! x = Some c) as Hx by (by rewrite lookup_insert_ne).
  split; [split|]; cbn.
  - intros y cy Hy Hsy. destruct (decide (x = y)) as [<-|Hxy]; [|rewrite lookup_insert_ne in Hy by done; exact (Hm y cy Hy Hsy)].
    rewrite lookup_insert_eq in Hy. injection Hy as <-. exact (Hm x c Hx Hsy).
  - intros kk m o Hkk Hoo. destruct (Ho kk m o Hkk Hoo) as (co & Hco & ? & ?). destruct (decide (x = o)) as [<-|Hxo].
    + exists (set_cStart co). assert (co = c) as -> by congruence. by rewrite lookup_insert_eq.
    + exists co. by rewrite lookup_insert_ne.
  - intros y cy m Hy Hsy Hmy. destruct (decide (x = y)) as [<-|Hxy]; [|rewrite lookup_insert_ne in Hy by done; exact (Hrest y cy m Hy Hsy Hmy)].
    rewrite lookup_insert_eq in Hy. injection Hy as <-. exact (Hrest x c m Hx Hsy Hmy). }
unfold co_swap, co_swap_out, co_at. rewrite Hcc1. cbn [mbind res_bind].
destruct (enter_ok _ _ x c1 started Hpark1) as (e' & E & Hr & Hf).
- cbn. by rewrite lookup_insert_ne.
- intros Hs Hst'. unfold keep. rewrite Hs1 in Hs. destruct (sg !! cur) as [[]|]; [|by apply Hst..]. rewrite lookup_insert_ne by done. by apply Hst.
- exists e'. split_and!; [exact E|done|]. eapply same_frame_trans; [|exact Hf]. split; [done..|intros y|done]. cbn.
  destruct (decide (cur = y)) as [<-|Hy]; [by rewrite lookup_insert_eq, Hcc1|]. by rewrite lookup_insert_ne.
Qed.

(** ** Simulation *)

Lemma call_at_ok sg e m i x e1 :
  implements sg e m → pCallStack e1 = pCallStack e → calls m !! i = Some x → call_at (Z.of_nat i) e1 = Ok x.
Proof.
intros H E Hi. unfold call_at. rewrite (proj2 (Z.ltb_ge _ _)) by lia. rewrite E, Nat2Z.id. by destruct (i_calls _ _ _ H i x Hi) as [-> _].
Qed.

Lemma kind_known e (sg : signature) x : (∀ x, kind_of e x = sg !! x) → is_Some (sg !! x) → is_Some (cos e !! x).
Proof. intros Hk [o Ho]. rewrite <- Hk in Ho. unfold kind_of in Ho. by destruct (cos e !! x). Qed.

(** A coroutine that has not started has left nothing, after a switch too. *)
Lemma new_ok (sg : signature) e e' k cur d x0 :
  (∀ x c, cos e !! x = Some c → cStart c = false → cIsShareStack c = true → k !! x = None) →
  (∀ y, (λ c, (cStart c, cIsShareStack c, stack_mem c)) <$> cos e' !! y =
        (λ c, (cStart c, cIsShareStack c, stack_mem c)) <$> (if decide (y = x0) then set_cStart <$> cos e !! y else cos e !! y)) →
  (∀ c, cos e !! cur = Some c → cIsShareStack c = true → cStart c = true) →
  ∀ x c, cos e' !! x = Some c → cStart c = false → cIsShareStack c = true → keep sg cur d k !! x = None.
Proof.
intros Hnew Hfr Hcur x c Hc Hst Hs. pose proof (Hfr x) as E. rewrite Hc in E. case_decide as Hd.
- destruct (cos e !! x) as [c0|] eqn:E0; [|done]. injection E as Es _ _. cbn in Es. congruence.
- destruct (cos e !! x) as [c0|] eqn:E0; [|done]. injection E as Es Esh _.
  unfold keep. destruct (sg !! cur) as [[]|]; try (eapply Hnew; [done|congruence..]).
  destruct (decide (cur = x)) as [->|Hne]; [|rewrite lookup_insert_ne by done; eapply Hnew; [done|congruence..]].
  exfalso. assert (cStart c0 = true) by (apply Hcur; congruence). congruence.
Qed.

Lemma resume_ok sg e l cur x d k :
  implements sg e (mkM (l ++ [cur]) k) → is_Some (sg !! x) → x ∉ l ++ [cur] → (length (l ++ [cur]) < 128)%nat → may_push sg cur d →
  ∃ e', step (Resume x d) e = Ok e' ∧ implements sg e' (mkM (l ++ [cur] ++ [x]) (keep sg cur d k)).
Proof.
intros H Hx Hni Hlt Hp. pose proof H as [Hk Hlen Hsz Hcalls Hmost Hnd Hrun Hstd Hnew]. cbn [calls kept] in *.
specialize (Hrun l cur eq_refl). destruct (kind_known e sg x Hk Hx) as [c Hc].
assert ((l ++ [cur]) !! length l = Some cur) as Hl by (by apply list_lookup_middle).
assert (is_Some (cos e !! cur)) as Hcur by (apply (kind_known e sg); [done|by destruct (Hcalls _ _ Hl)]).
pose proof (kind_fits e sg cur d Hk Hp) as Hfit. destruct (push_same e cur d Hfit) as [Hpf Hpc]. pose proof (i_len _ _ _ H).
assert (x ≠ cur) as Hxc by (intros ->; apply Hni, elem_of_app; right; by apply list_elem_of_singleton).
rewrite length_app in *. cbn [length] in *.
unfold step, GetCurrCo. rewrite Hsz. replace (Z.of_nat (length l + 1) - 1) with (Z.of_nat (length l)) by lia.
rewrite (call_at_ok sg e _ (length l) cur e H eq_refl Hl). cbn [mbind res_bind pushed]. unfold co_resume.
rewrite (sf_size _ _ Hpf), Hsz. replace (Z.of_nat (length l + 1) - 1) with (Z.of_nat (length l)) by lia.
rewrite (call_at_ok sg e _ (length l) cur _ H (sf_calls _ _ Hpf) Hl). cbn [mbind res_bind].
unfold co_at. rewrite Hpc, Hc. cbn [mbind res_bind set_cos iCallStackSize pCallStack]. rewrite (sf_size _ _ Hpf), (sf_calls _ _ Hpf), Hsz, Hlen.
rewrite (proj2 (Z.ltb_ge _ _)), (proj2 (Z.leb_gt _ _)) by lia. cbn [orb]. rewrite Nat2Z.id.
set (e1 := set_calls _ _ _).
destruct (co_swap_ok e sg cur x c d k (cStart c) Hk Hrun Hcur Hp Hxc Hc) with (e1 := e1) as (e' & E & Hr & Hf).
{ intros Hs Hst. by apply (Hnew x c). } { right. done. } { done. }
exists e'. split; [done|]. pose proof (sf_cos _ _ Hf) as Hcos.
assert (∀ y, (λ c, (cStart c, cIsShareStack c, stack_mem c)) <$> cos e' !! y =
  (λ c, (cStart c, cIsShareStack c, stack_mem c)) <$> (if decide (y = x) then set_cStart <$> cos e !! y else cos e !! y)) as Hcos'.
{ intros y. rewrite Hcos. cbn. case_decide as Hd; [subst y; by rewrite lookup_insert_eq, Hc|by rewrite lookup_insert_ne]. }
split; cbn [calls kept].
- intros y. rewrite <- Hk, <- (kind_of_same e (push cur d e) y Hpf), (kind_of_same e1 e' y Hf). unfold kind_of. cbn. rewrite Hpc.
    destruct (decide (x = y)) as [<-|Hne]; [rewrite lookup_insert_eq, Hc; done|by rewrite lookup_insert_ne].
- rewrite (sf_calls _ _ Hf). cbn. rewrite length_insert. done.
- rewrite (sf_size _ _ Hf). cbn. rewrite !length_app. cbn. lia.
- intros i y Hy. rewrite (sf_calls _ _ Hf). cbn. rewrite app_assoc in Hy. apply lookup_app_Some in Hy as [Hy|[Hge Hy]].
  + pose proof (lookup_lt_Some _ _ _ Hy) as Hi. rewrite length_app in Hi. cbn in Hi. rewrite list_lookup_insert_ne by lia. by apply Hcalls.
  + apply list_lookup_singleton_Some in Hy as [Hi <-]. rewrite length_app in *. cbn in *. replace i with (length l + 1)%nat by lia.
    rewrite list_lookup_insert_eq by lia. done.
- rewrite !length_app. cbn. lia.
- rewrite app_assoc. apply list.NoDup_app. split_and!; [done| |by apply NoDup_singleton]. intros y Hy ->%list_elem_of_singleton. done.
- intros l' cur' El. rewrite app_assoc in El. apply app_inj_tail in El as [_ <-]. done.
- intros y c' Hy Hc' Hs'. pose proof (Hcos' y) as E'. rewrite Hc' in E'. case_decide as Hd.
  + destruct (cos e !! y); [|done]. by injection E'.
  + destruct (cos e !! y) as [c0|] eqn:Ey; [|done]. injection E' as -> Es _. apply (Hstd y c0); [|done|congruence].
    rewrite app_assoc in Hy. apply elem_of_app in Hy as [Hy|Hy]; [done|]. by apply list_elem_of_singleton in Hy.
- eapply (new_ok sg e e' k cur d x); [done..|]. intros c' Hc' Hs'. apply (Hstd cur c'); [|done..]. apply elem_of_app. right. by apply list_elem_of_singleton.
Qed.

Lemma yield_ok sg e l last cur d k :
  implements sg e (mkM (l ++ [last] ++ [cur]) k) → may_push sg cur d →
  ∃ e', step (Yield d) e = Ok e' ∧ implements sg e' (mkM (l ++ [last]) (keep sg cur d k)).
Proof.
intros H Hp. pose proof H as [Hk Hlen Hsz Hcalls Hmost Hnd Hrun Hstd Hnew]. cbn [calls kept] in *.
specialize (Hrun (l ++ [last]) cur ltac:(by rewrite app_assoc)).
assert ((l ++ [last] ++ [cur]) !! length l = Some last) as Hl by (by apply list_lookup_middle).
assert ((l ++ [last] ++ [cur]) !! S (length l) = Some cur) as Hl1.
{ rewrite app_assoc. replace (S (length l)) with (length (l ++ [last])) by (rewrite length_app; cbn; lia). by apply list_lookup_middle. }
assert (is_Some (cos e !! cur)) as Hcur by (apply (kind_known e sg); [done|by destruct (Hcalls _ _ Hl1)]).
assert (is_Some (cos e !! last)) as [c Hc] by (apply (kind_known e sg); [done|by destruct (Hcalls _ _ Hl)]).
pose proof (kind_fits e sg cur d Hk Hp) as Hfit. destruct (push_same e cur d Hfit) as [Hpf Hpc].
assert (last ≠ cur) as Hlc by (intros ->; assert (length l = S (length l)) by (by eapply NoDup_lookup); lia).
rewrite !length_app in *. cbn [length] in *.
unfold step, GetCurrCo. rewrite Hsz. replace (Z.of_nat (length l + (1 + 1)) - 1) with (Z.of_nat (S (length l))) by lia.
rewrite (call_at_ok sg e _ _ cur e H eq_refl Hl1). cbn [mbind res_bind pushed]. unfold co_yield_env.
rewrite (sf_size _ _ Hpf), Hsz. replace (Z.of_nat (length l + (1 + 1)) - 1) with (Z.of_nat (S (length l))) by lia.
replace (Z.of_nat (length l + (1 + 1)) - 2) with (Z.of_nat (length l)) by lia.
rewrite (call_at_ok sg e _ _ last _ H (sf_calls _ _ Hpf) Hl). cbn [mbind res_bind].
rewrite (call_at_ok sg e _ _ cur _ H (sf_calls _ _ Hpf) Hl1). cbn [mbind res_bind].
set (e1 := set_calls _ _ _).
destruct (co_swap_ok e sg cur last c d k true Hk Hrun Hcur Hp Hlc Hc) with (e1 := e1) as (e' & E & Hr & Hf); [done|by left|done|].
exists e'. split; [done|].
assert (∀ y, (λ c, (cStart c, cIsShareStack c, stack_mem c)) <$> cos e' !! y = (λ c, (cStart c, cIsShareStack c, stack_mem c)) <$> cos e !! y) as Hcos.
{ intros y. rewrite (sf_cos _ _ Hf). cbn. by rewrite Hpc. }
split; cbn [calls kept].
- intros y. rewrite <- Hk, <- (kind_of_same e (push cur d e) y Hpf). by rewrite (kind_of_same e1 e' y Hf).
- rewrite (sf_calls _ _ Hf). cbn. by rewrite (sf_calls _ _ Hpf).
- rewrite (sf_size _ _ Hf). cbn. rewrite length_app. cbn. lia.
- intros i y Hy. rewrite (sf_calls _ _ Hf). cbn. rewrite (sf_calls _ _ Hpf). apply Hcalls. rewrite app_assoc. by apply lookup_app_l_Some.
- rewrite length_app. cbn. lia.
- rewrite app_assoc in Hnd. by apply list.NoDup_app in Hnd as [? _].
- intros l' cur' El. apply app_inj_tail in El as [_ <-]. done.
- intros y c' Hy Hc' Hs'. pose proof (Hcos y) as E'. rewrite Hc' in E'. destruct (cos e !! y) as [c0|] eqn:Ey; [|done].
  injection E' as -> Es _. apply (Hstd y c0); [|done|congruence]. rewrite app_assoc. apply elem_of_app. by left.
- intros y c' Hc' Hst Hs'. pose proof (Hcos y) as E'. rewrite Hc' in E'. destruct (cos e !! y) as [c0|] eqn:Ey; [|done].
  injection E' as Es Esh _. unfold keep. destruct (sg !! cur) as [[]|]; try (eapply Hnew; [done|congruence..]).
  destruct (decide (cur = y)) as [->|Hne]; [|rewrite lookup_insert_ne by done; eapply Hnew; [done|congruence..]].
  exfalso. assert (cStart c0 = true); [|congruence]. apply (Hstd y c0); [|done|congruence]. by eapply list_elem_of_lookup_2.
Qed.

(** ** From the first coroutine on *)

Inductive msteps (sg : signature) : list switch → machine → machine → Prop :=
  | msteps_nil m : msteps sg [] m m
  | msteps_cons s ss m1 m2 m3 : mstep sg s m1 m2 → msteps sg ss m2 m3 → msteps sg (s :: ss) m1 m3.

Fixpoint steps (ss : list switch) (e : stEnv) : res stEnv :=
  match ss with
  | [] => Ok e
  | s :: ss => e ← step s e; steps ss e
  end.

Lemma step_ok sg s e m m' : implements sg e m → mstep sg s m m' → ∃ e', step s e = Ok e' ∧ implements sg e' m'.
Proof. intros H Hs. destruct Hs; [by apply resume_ok|by apply yield_ok]. Qed.

Lemma steps_ok sg ss e m m' : implements sg e m → msteps sg ss m m' → ∃ e', steps ss e = Ok e' ∧ implements sg e' m'.
Proof.
intros H Hs. revert e H. induction Hs as [m|s ss m1 m2 m3 H1 _ IH]; intros e H; [by exists e|].
destruct (step_ok sg s e m1 m2 H H1) as (e1 & E1 & Hi1). destruct (IH e1 Hi1) as (e' & E & H'). exists e'. cbn. by rewrite E1.
Qed.

(** A thread whose coroutines have been created, and none resumed. *)
Record created (main : nat) (e : stEnv) : Prop := {
  cr_calls : pCallStack e = <[0%nat := Some main]> (replicate 128 None) ∧ iCallStackSize e = 1;
  cr_main : ∃ c, cos e !! main = Some c ∧ cIsShareStack c = false;
  cr_new x c : cos e !! x = Some c → cIsShareStack c = true →
    cStart c = false ∧ save_buffer c = None ∧ is_Some (mems e !! stack_mem c);
  cr_mems k m : mems e !! k = Some m → occupy_co m = None;
}.

Definition sig_of (e : stEnv) : signature := map_imap (λ x _, kind_of e x) (cos e).

Lemma sig_of_lookup e x : sig_of e !! x = kind_of e x.
Proof. unfold sig_of. rewrite map_lookup_imap. unfold kind_of. by destruct (cos e !! x). Qed.

Lemma created_implements main e : created main e → implements (sig_of e) e (mkM [main] ∅).
Proof.
intros [[Hcs Hsz] (cm & Hm & Hms) Hnew Hmems]. split; cbn [calls kept].
- intros x. by rewrite sig_of_lookup.
- by rewrite Hcs.
- done.
- intros i x Hi. apply list_lookup_singleton_Some in Hi as [-> <-]. rewrite Hcs. split; [done|].
  rewrite sig_of_lookup. unfold kind_of. by rewrite Hm.
- cbn. lia.
- apply NoDup_singleton.
- intros l cur El. destruct l as [|? []]; [|done..]. injection El as <-. split; [split| |].
  + intros x c Hc Hs. by apply (Hnew x c).
  + intros k m o Hk Ho. rewrite (Hmems k m Hk) in Ho. done.
  + intros x c m _ Hc Hs Hk. rewrite lookup_empty. cbn. rewrite (Hmems _ _ Hk). split; [done|]. by apply (Hnew x c).
  + intros c m Hc Hs. congruence.
- intros x c Hx Hc Hs. apply list_elem_of_singleton in Hx as ->. congruence.
- intros x c _ _ _. apply lookup_empty.
Qed.

Lemma created_init main m : created main (co_init_curr_thread_env main m).
Proof.
unfold co_init_curr_thread_env. split; cbn.
- done.
- eexists. by rewrite lookup_singleton_eq.
- intros x c [<- <-]%lookup_singleton_Some. done.
- intros k mk [<- <-]%lookup_singleton_Some. done.
Qed.

Lemma created_share main e ids size : created main e → created main (co_alloc_sharestack ids size e).2.
Proof.
intros [Hcs Hm Hnew Hmems]. cbn. assert (∀ k, is_Some (mems e !! k) → is_Some (alloc_stacks ids size (mems e) !! k)) as Hkeep.
{ generalize (mems e). clear. induction ids as [|i ids IH]; intros m k Hk; [done|]. cbn. apply IH.
  destruct (decide (i = k)) as [<-|Hne]; [by rewrite lookup_insert_eq|]. by rewrite lookup_insert_ne. }
split; cbn; [done|done| |].
- intros x c Hc Hs. destruct (Hnew x c Hc Hs) as (? & ? & ?). split_and!; [done..|by apply Hkeep].
- revert Hmems. generalize (mems e). clear. induction ids as [|i ids IH]; intros m Hm k mk; cbn; [apply Hm|]. apply IH.
  intros k' mk'. destruct (decide (i = k')) as [<-|Hne]; [rewrite lookup_insert_eq; by intros [= <-]|]. rewrite lookup_insert_ne by done. apply Hm.
Qed.

Lemma created_co main e e' x m size share share' :
  created main e → cos e !! x = None → (∀ s k, share = Some s → k ∈ stack_array s → is_Some (mems e !! k)) →
  co_create_env x m size share e = Ok (share', e') → created main e'.
Proof.
intros [Hcs (cm & Hm & Hms) Hnew Hmems] Hx Hsh. assert (x ≠ main) as Hne by (intros ->; congruence).
destruct share as [s|]; cbn [co_create_env].
- unfold co_get_stackmem. destruct (u32 (sh_count s) =? 0); [done|]. cbn [stack_array].
  destruct (stack_array s !! _) as [k|] eqn:Ek; [|done]. cbn. intros [= _ <-]. split; cbn; [done| | |done].
  + exists cm. by rewrite lookup_insert_ne.
  + intros y c. destruct (decide (x = y)) as [<-|Hxy]; [|rewrite lookup_insert_ne by done; apply Hnew].
    rewrite lookup_insert_eq. intros [= <-] _. split_and!; [done..|]. cbn. apply (Hsh s); [done|]. by eapply list_elem_of_lookup_2.
- cbn. intros [= _ <-]. split; cbn; [done| | |].
  + exists cm. by rewrite lookup_insert_ne.
  + intros y c. destruct (decide (x = y)) as [<-|Hxy]; [rewrite lookup_insert_eq; by intros [= <-]|]. rewrite lookup_insert_ne by done.
    intros Hc Hs. destruct (Hnew y c Hc Hs) as (? & ? & ?). split_and!; [done..|].
    destruct (decide (m = stack_mem c)) as [<-|Hmk]; [by rewrite lookup_insert_eq|]. by rewrite lookup_insert_ne.
  + intros k mk. destruct (decide (m = k)) as [<-|Hmk]; [rewrite lookup_insert_eq; by intros [= <-]|]. rewrite lookup_insert_ne by done. apply Hmems.
Qed.

(** C27: Coroutines that share stacks behave like coroutines that have one each: along any
    sequence of [co_resume] and [co_yield_env] that keeps to the call stack's 128 places,
    no switch faults, the call stack is the machine's, and the coroutine that comes back
    finds on its stack, above the stack pointer it left with, the bytes it left. *)
Theorem shared_stacks_private main e ss m :
  created main e → msteps (sig_of e) ss (mkM [main] ∅) m →
  ∃ e', steps ss e = Ok e' ∧ iCallStackSize e' = Z.of_nat (length (calls m)) ∧
    ∀ l cur c k d, calls m = l ++ [cur] → GetCurrCo e' = Ok cur ∧
      (cos e' !! cur = Some c → cIsShareStack c = true → mems e' !! stack_mem c = Some k → kept m !! cur = Some d →
       drop (stack_sp c) (stack_buffer k) = d).
Proof.
intros Hc Hs. destruct (steps_ok _ ss e _ m (created_implements main e Hc) Hs) as (e' & E & H). exists e'.
split_and!; [done|by apply H|]. intros l cur c k d El. split.
- unfold GetCurrCo. rewrite (i_size _ _ _ H), El, length_app. cbn [length].
  replace (Z.of_nat (length l + 1) - 1) with (Z.of_nat (length l)) by lia. eapply call_at_ok; [done..|].
  rewrite El. by apply list_lookup_middle.
- intros Hcur Hsh Hk Hd. by apply (r_run _ _ _ (i_run _ _ _ H l cur El) c k).
Qed.

(** Two coroutines on one stack of four bytes: the second is resumed by the first, and
    pushes over it. *)
Definition duo_build : res stEnv :=
  let e := co_init_curr_thread_env 0 0 in
  let '(s, e) := co_alloc_sharestack [1%nat] 4 e in
  '(s, e) ← co_create_env 1 9 0 (Some s) e;
  '(_, e) ← co_create_env 2 9 0 s e;
  Ok e.
Definition duo : stEnv := match duo_build with Ok e => e | Fault _ => co_init_curr_thread_env 0 0 end.
Definition duo_run : list switch := [Resume 1 []; Resume 2 [x01; x02]; Yield [x03; x04; x05]].

Lemma duo_created : created 0 duo.
Proof.
pose proof (created_share 0 _ [1%nat] 4 (created_init 0 0)) as H1. unfold duo, duo_build.
set (e0 := co_init_curr_thread_env 0 0) in *. cbn [co_alloc_sharestack snd length Z.of_nat] in *. set (e1 := set_mems _ e0) in *.
assert (is_Some (mems e1 !! 1%nat)) as Hm by (unfold e1; cbn; rewrite lookup_insert_eq; by eexists).
assert (∀ s k, Some s = Some (mkShare 0 4 1 [1%nat]) ∨ Some s = Some (mkShare 1 4 1 [1%nat]) → k ∈ stack_array s → is_Some (mems e1 !! k)) as Hk.
{ intros s k [[= ->]|[= ->]] ->%list_elem_of_singleton; done. }
cbn [co_create_env]. change (co_get_stackmem (mkShare 0 4 1 [1%nat])) with (Ok (1%nat, mkShare 1 4 1 [1%nat])). cbn [mbind res_bind].
cbn [co_create_env]. change (co_get_stackmem (mkShare 1 4 1 [1%nat])) with (Ok (1%nat, mkShare 2 4 1 [1%nat])). cbn [mbind res_bind sh_stack_size].
eapply (created_co 0 (set_cos (<[1%nat := new_co true 1 4]> (cos e1)) e1) _ 2 9 0 (Some (mkShare 1 4 1 [1%nat]))); [|done|..|done].
- eapply (created_co 0 e1 _ 1 9 0 (Some (mkShare 0 4 1 [1%nat]))); [done|done| |done]. intros s k Es. apply Hk. by left.
- intros s k Es. apply Hk. by right.
Qed.

Lemma shared_stacks_private_witness :
  ∃ e', steps duo_run duo = Ok e' ∧ iCallStackSize e' = 2 ∧ GetCurrCo e' = Ok 1%nat ∧
    ∃ c k, cos e' !! 1%nat = Some c ∧ mems e' !! stack_mem c = Some k ∧ drop (stack_sp c) (stack_buffer k) = [x01; x02].
Proof.
assert (∀ x, sig_of duo !! x = kind_of duo x) as Hsig by apply sig_of_lookup.
destruct (shared_stacks_private 0 duo duo_run (mkM [0; 1]%nat {[ 1%nat := [x01; x02]; 2%nat := [x03; x04; x05] ]}) duo_created)
  as (e' & E & Hn & H).
- replace ({[ 1%nat := [x01; x02]; 2%nat := [x03; x04; x05] ]} : gmap nat bytes)
    with (keep (sig_of duo) 2 [x03; x04; x05] (keep (sig_of duo) 1 [x01; x02] (keep (sig_of duo) 0 [] ∅))) by (by vm_compute).
  eapply msteps_cons; [apply (MResume _ [] 0%nat 1%nat)|]; [vm_compute; by eexists|by apply (bool_decide_unpack _); vm_compute|cbn; lia|by vm_compute|].
  eapply msteps_cons; [apply (MResume _ [0%nat] 1%nat 2%nat)|]; [vm_compute; by eexists|by apply (bool_decide_unpack _); vm_compute|cbn; lia|vm_compute; lia|].
  eapply msteps_cons; [apply (MYield _ [0%nat] 1%nat 2%nat); vm_compute; lia|]. apply msteps_nil.
- exists e'. split_and!; [done|done|by apply (H [0%nat] 1%nat (new_co true 1 4) (mkMem None []) [])|].
  destruct (steps duo_run duo) as [e0|] eqn:E0; [|done]. injection E as ->.
  assert (∃ c k, cos e' !! 1%nat = Some c ∧ cIsShareStack c = true ∧ mems e' !! stack_mem c = Some k) as (c & k & Hc & Hs & Hk).
  { assert ((λ e, (cos e !! 1%nat, mems e !! 1%nat)) <$> steps duo_run duo =
      Ok (Some (mkCo true false false true 1 4 2 (Some [x01; x02])), Some (mkMem (Some 1%nat) [x00; x03; x01; x02]))) as Ev
      by (vm_compute; reflexivity).
    rewrite E0 in Ev. injection Ev as Ec Em. eexists _, _. split; [exact Ec|]. split; [reflexivity|exact Em]. }
  exists c, k. split_and!; [done..|]. by apply (H [0%nat] 1%nat c k [x01; x02]).
Defined.

(** ** Sizes *)

(** The size of a stack is a whole number of pages, at least one, at most 8 MB, and no
    less than what was asked for. *)
Lemma round_stack_ok size :
  size < 2 ^ 31 → round_stack size mod 4096 = 0 ∧ 4096 ≤ round_stack size ≤ 8 * 1024 * 1024 ∧
    (0 < size ≤ 8 * 1024 * 1024 → size ≤ round_stack size < size + 4096).
Proof.
intros Hs. unfold round_stack.
set (n := if size <=? 0 then 128 * 1024 else if 1024 * 1024 * 8 <? size then 1024 * 1024 * 8 else size).
assert (0 < n ≤ 8 * 1024 * 1024 ∧ (0 < size ≤ 8 * 1024 * 1024 → n = size)) as [Hn Heq].
{ unfold n. destruct (Z.leb_spec size 0); [lia|]. destruct (Z.ltb_spec (1024 * 1024 * 8) size); lia. }
assert (Z.land n 4095 = n mod 4096) as Hlow by (apply (Z.land_ones n 12); lia).
assert (Z.land n (Z.lnot 4095) = n - n mod 4096) as Hhigh.
{ change 4095 with (Z.ones 12). rewrite <- Z.ldiff_land, Z.ldiff_ones_r, Z.shiftl_mul_pow2, Z.shiftr_div_pow2 by lia.
  pose proof (Z.div_mod n (2 ^ 12) ltac:(lia)). change (2 ^ 12) with 4096 in *. lia. }
rewrite Hlow, Hhigh. pose proof (Z.mod_pos_bound n 4096 ltac:(lia)).
assert ((n - n mod 4096) mod 4096 = 0) as Hz by (rewrite Zminus_mod_idemp_r, Z.sub_diag; done).
destruct (Z.eqb_spec (n mod 4096) 0) as [E|E].
- split; [done|]. pose proof (Z.div_mod n 4096 ltac:(lia)). split; lia.
- unfold s32. rewrite (swrap_small 32 (n - _)) by lia. rewrite swrap_small by lia.
  assert (n < 8 * 1024 * 1024) by (destruct (decide (n = 8 * 1024 * 1024)) as [->|]; [done|lia]).
  pose proof (Z.div_mod n 4096 ltac:(lia)). pose proof (Z.div_mod (8 * 1024 * 1024) 4096 ltac:(lia)).
  split; [by rewrite <- Zplus_mod_idemp_l, Hz|]. split; [|lia].
  assert (n / 4096 < 2048) by (apply Z.div_lt_upper_bound; lia). lia.
Qed.

(** ** The ends of the call stack *)

(** The 129th nested coroutine is written past [pCallStack], over [iCallStackSize]; the
    first one has no one to yield to. *)
Lemma call_stack_overflow x sp e :
  length (pCallStack e) = 128%nat → iCallStackSize e = 128 → co_resume x sp e = Fault OutOfBounds.
Proof.
intros Hl Hs. unfold co_resume, call_at, co_at. rewrite Hs. cbn [Z.sub Z.ltb Z.compare].
destruct (pCallStack e !! _) as [[c|]|]; try done. cbn [mbind res_bind]. destruct (cos e !! x); [|done]. cbn [mbind res_bind].
cbn [set_cos iCallStackSize pCallStack]. rewrite Hs, Hl. done.
Qed.

Lemma yield_main sp e : iCallStackSize e = 1 → co_yield_env sp e = Fault OutOfBounds.
Proof. intros Hs. unfold co_yield_env, call_at. by rewrite Hs. Qed.

Lemma round_stack_ok_witness : 100000 < 2 ^ 31 ∧ round_stack 100000 = 102400 ∧ 100000 ≤ round_stack 100000 < 100000 + 4096.
Proof. split_and!; [lia|by vm_compute|apply (round_stack_ok 100000); lia..]. Defined.
