(* ===== verification/CoHook.v ===== *)
(** [cocgi/cocgi_lib/libco/co_hook_sys_call.cpp]: the system calls that libco replaces, so
    that a coroutine that would wait gives the thread to another one.

    What the system answers is an argument: one number for each call it gets.  Each
    function returns the calls it made, so that the theorems can speak of them.  A
    descriptor is made non-blocking behind the program's back and [rpchook_t] remembers
    what the program asked for.  [poll] is [co_poll_inner], of [CoLoop]. *)

From Stdlib Require Import ZArith Lia Bool.
From Stdlib.Strings Require Import Byte.
From stdpp Require Import base numbers list gmap option.
From S2P Require Import Prelude CoLink CoTimeout CoLoop.

Local Open Scope Z_scope.

(** ** Descriptors *)

Definition O_NONBLOCK : Z := 2048.
Definition F_DUPFD : Z := 0.
Definition F_GETFD : Z := 1.
Definition F_SETFD : Z := 2.
Definition F_GETFL : Z := 3.
Definition F_SETFL : Z := 4.
Definition F_GETLK : Z := 5.
Definition F_SETLK : Z := 6.
Definition F_SETLKW : Z := 7.
Definition F_SETOWN : Z := 8.
Definition F_GETOWN : Z := 9.
Definition SOL_SOCKET : Z := 1.
Definition SO_RCVTIMEO : Z := 20.
Definition SO_SNDTIMEO : Z := 21.
Definition ETIMEDOUT : Z := 110.
Definition EINPROGRESS : Z := 115.

Record timeval := mkTv { tv_sec : Z; tv_usec : Z }.

(** [rpchook_t]; [dest] is the 16 octets of a [sockaddr_in]. *)
Record rpchook := mkHook { user_flag : Z; dest : bytes; domain : Z; read_timeout : timeval; write_timeout : timeval }.

Definition nonblock (flag : Z) : bool := negb (Z.land O_NONBLOCK flag =? 0).

(** The array [g_rpchook_socket_fd], and what the system has: the open descriptors, each
    with its [O_NONBLOCK]. *)
Record hooks := mkHooks { g_rpchook_socket_fd : gmap Z rpchook; kern : gmap Z bool }.

Definition set_hook (fd : Z) (h : rpchook) (s : hooks) : hooks := mkHooks (<[fd := h]> (g_rpchook_socket_fd s)) (kern s).
Definition sys_flag (fd : Z) (b : bool) (s : hooks) : hooks := mkHooks (g_rpchook_socket_fd s) (<[fd := b]> (kern s)).

Definition in_array (fd : Z) : bool := (-1 <? fd) && (fd <? 102400).

Definition get_by_fd (fd : Z) (s : hooks) : option rpchook :=
  if in_array fd then g_rpchook_socket_fd s !! fd else None.

Definition new_hook : rpchook := mkHook 0 (replicate 16 x00) 0 (mkTv 1 0) (mkTv 1 0).

(** The null pointer is [None]. *)
Definition alloc_by_fd (fd : Z) (s : hooks) : option rpchook * hooks :=
  if in_array fd then (Some new_hook, set_hook fd new_hook s) else (None, s).


Definition with_user_flag (f : Z) (h : rpchook) : rpchook := mkHook f (dest h) (domain h) (read_timeout h) (write_timeout h).
Definition with_dest (d : bytes) (h : rpchook) : rpchook := mkHook (user_flag h) d (domain h) (read_timeout h) (write_timeout h).
Definition with_read_timeout (t : timeval) (h : rpchook) : rpchook := mkHook (user_flag h) (dest h) (domain h) t (write_timeout h).
Definition with_write_timeout (t : timeval) (h : rpchook) : rpchook := mkHook (user_flag h) (dest h) (domain h) (read_timeout h) t.

(** ** Flags, opening and closing

    [on] is [co_is_enable_sys_hook()]. *)

(** [answer] is what the system's [fcntl] returns; an unknown command is not passed on. *)
Definition fcntl (on : bool) (fildes cmd param answer : Z) (s : hooks) : Z * hooks :=
  if fildes <? 0 then (622, s) else
  let lp := get_by_fd fildes s in
  if cmd =? F_SETFL then
    let flag := match lp with Some _ => if on then Z.lor param O_NONBLOCK else param | None => param end in
    let s := if answer =? 0 then sys_flag fildes (nonblock flag) s else s in
    let s := match lp with
             | Some h => if answer =? 0 then set_hook fildes (with_user_flag param h) s else s
             | None => s
             end in
    (answer, s)
  else if (cmd =? F_DUPFD) || (cmd =? F_GETFD) || (cmd =? F_SETFD) || (cmd =? F_GETFL) || (cmd =? F_GETOWN) ||
          (cmd =? F_SETOWN) || (cmd =? F_GETLK) || (cmd =? F_SETLK) || (cmd =? F_SETLKW) then (answer, s)
  else (-1, s).


(** An accepted descriptor is blocking, whatever the listening one is. *)
Definition co_accept (cli : Z) (s : hooks) : Z * hooks :=
  if cli <? 0 then (cli, s) else
  (cli, (alloc_by_fd cli (sys_flag cli false s)).2).


(** The new time-out is [val]. *)
Definition setsockopt (on : bool) (fd level option_name : Z) (val : timeval) (answer : Z) (s : hooks) : Z * hooks :=
  let s :=
    if on then
      match get_by_fd fd s with
      | Some lp =>
          if level =? SOL_SOCKET then
            if option_name =? SO_RCVTIMEO then set_hook fd (with_read_timeout val lp) s
            else if option_name =? SO_SNDTIMEO then set_hook fd (with_write_timeout val lp) s
            else s
          else s
      | None => s
      end
    else s in
  (answer, s).


(** ** Reading and writing *)

(** A call the system gets, with its answer. *)
Inductive io :=
  | APoll (fd events timeout : Z)
  | ARecv (fd nbyte answer : Z)
  | ASend (fd : Z) (data : bytes) (answer : Z).

(** [int timeout = tv_sec * 1000 + tv_usec / 1000] *)
Definition timeout_of (t : timeval) : Z := s32 (s64 (s64 (tv_sec t * 1000) + Z.quot (tv_usec t) 1000)).

Definition POLL_READ : Z := Z.lor (Z.lor POLLIN POLLERR) POLLHUP.
Definition POLL_WRITE : Z := Z.lor (Z.lor POLLOUT POLLERR) POLLHUP.

(** The hook of a descriptor that the program believes to be blocking. *)
Definition waits (on : bool) (fd : Z) (s : hooks) : option rpchook :=
  if on then h ← get_by_fd fd s; if nonblock (user_flag h) then None else Some h else None.

(** [read], [recv] and [recvfrom]. *)
Definition read (on : bool) (fd nbyte answer : Z) (s : hooks) : Z * list io :=
  match waits on fd s with
  | None => (answer, [ARecv fd nbyte answer])
  | Some lp => (answer, [APoll fd POLL_READ (timeout_of (read_timeout lp)); ARecv fd nbyte answer])
  end.

(** The loop of [write] and [send]: the last answer was [writeret] and [wrotelen] octets
    are out.  [None] when the answers run out: the coroutine still waits. *)
Fixpoint write_loop (answers : list Z) (fd timeout : Z) (buf : bytes) (wrotelen : nat) (writeret : Z) : option (Z * list io) :=
  if (wrotelen <? length buf)%nat then
    match answers with
    | [] => None
    | r :: answers =>
        let acts := [APoll fd POLL_WRITE timeout; ASend fd (drop wrotelen buf) r] in
        if r <=? 0 then Some (if (wrotelen =? 0)%nat then r else Z.of_nat wrotelen, acts)
        else '(ret, more) ← write_loop answers fd timeout buf (wrotelen + Z.to_nat r) r; Some (ret, acts ++ more)
    end
  else Some (if (writeret <=? 0) && (wrotelen =? 0)%nat then writeret else Z.of_nat wrotelen, []).

(** [write] and [send]. *)
Definition write (on : bool) (fd : Z) (buf : bytes) (answers : list Z) (s : hooks) : option (Z * list io) :=
  match answers with
  | [] => None
  | r :: answers =>
      match waits on fd s with
      | None => Some (r, [ASend fd buf r])
      | Some lp =>
          if r =? 0 then Some (r, [ASend fd buf r]) else
          '(ret, more) ← write_loop answers fd (timeout_of (write_timeout lp)) buf (if 0 <? r then Z.to_nat r else 0%nat) r;
          Some (ret, ASend fd buf r :: more)
      end
  end.


(** ** Connecting *)

(** The three waits of [connect]: [revents] after the last one. *)
Fixpoint connect_wait (n : nat) (polls : list (Z * Z)) (revents : Z) : option Z :=
  match n with
  | O => Some revents
  | S n =>
      match polls with
      | [] => None
      | (pollret, revents) :: polls => if pollret =? 1 then Some revents else connect_wait n polls revents
      end
  end.

(** [ret] and [err] are the answer and the [errno] of the system's [connect]; [so_error]
    what [getsockopt] finds.  The result comes with [errno]. *)
Definition connect (on : bool) (fd : Z) (address : bytes) (ret err : Z) (polls : list (Z * Z)) (so_error : Z) (s : hooks)
  : option (Z * Z * hooks) :=
  if negb on then Some (ret, err, s) else
  match get_by_fd fd s with
  | None => Some (ret, err, s)
  | Some lp =>
      let lp := if (length address <=? 16)%nat then with_dest (address ++ drop (length address) (dest lp)) lp else lp in
      let s := set_hook fd lp s in
      if nonblock (user_flag lp) then Some (ret, err, s) else
      if negb ((ret <? 0) && (err =? EINPROGRESS)) then Some (ret, err, s) else
      revents ← connect_wait 3 polls 0;
      if negb (Z.land revents POLLOUT =? 0) then Some (0, 0, s)
      else if negb (so_error =? 0) then Some (ret, so_error, s)
      else Some (ret, ETIMEDOUT, s)
  end.

(** ** Names *)

Definition ERANGE : Z := 34.
Definition NETDB_INTERNAL : Z := -1.

Section resolver.
(** [gethostbyname_r] with a buffer of a size: what it returns, [h_errno], and whether
    [result] is [host]. *)
Context (gethostbyname_r : Z → Z * Z * bool).

(** The [while] of [co_gethostbyname]: its condition is the value of [ret], which is
    therefore 0 when the loop ends. *)
Fixpoint resolve_loop (fuel : nat) (iBufferSize : Z) : res (Z * bool) :=
  match fuel with
  | O => Fault OutOfFuel
  | S fuel =>
      let '(rc, herr, found) := gethostbyname_r iBufferSize in
      if (rc =? ERANGE) && (herr =? NETDB_INTERNAL) then resolve_loop fuel (u64 (iBufferSize * 2))
      else Ok (iBufferSize, found)
  end.

(** [buf] is the size of the coroutine's buffer, when it has one.  The size afterwards,
    and whether [host] is returned. *)
Definition co_gethostbyname (fuel : nat) (buf : option Z) : res (Z * bool) :=
  let buf := match buf with Some n => if 1024 <? n then None else Some n | None => None end in
  resolve_loop fuel (default 1024 buf).
End resolver.

(** ** Writing *)

(** The octets the system took. *)
Definition stream (acts : list io) : bytes :=
  concat ((λ a, match a with ASend _ d r => take (Z.to_nat r) d | _ => [] end) <$> acts).

(** The system takes no more than it is given. *)
Definition honest (a : io) : Prop := match a with ASend _ d r => r ≤ Z.of_nat (length d) | _ => True end.

(** The loop ends with everything written. *)
Lemma write_done buf r :
  let ret := if (r <=? 0) && (length buf =? 0)%nat then r else Z.of_nat (length buf) in
  take (length buf) buf ++ stream [] = take (Z.to_nat ret) buf ∧ ret ≤ Z.of_nat (length buf).
Proof.
cbn. rewrite app_nil_r. case_match eqn:Eb; [|rewrite Nat2Z.id; split; [done|lia]].
apply andb_prop in Eb as [?%Z.leb_le ?%Nat.eqb_eq]. split; [|lia]. destruct buf; [by rewrite !take_nil|done].
Qed.

Lemma write_loop_stream answers fd t buf w r ret acts :
  (w ≤ length buf)%nat → write_loop answers fd t buf w r = Some (ret, acts) → Forall honest acts →
  take w buf ++ stream acts = take (Z.to_nat ret) buf ∧ ret ≤ Z.of_nat (length buf).
Proof.
revert w r ret acts. induction answers as [|a answers IH]; intros w r ret acts Hw E Hh; cbn [write_loop] in E;
  destruct (Nat.ltb_spec w (length buf)) as [Hlt|Hge]; try done.
- injection E as <- <-. assert (w = length buf) as -> by lia. apply write_done.
- destruct (Z.leb_spec a 0) as [Hle|Hpos].
  + injection E as <- <-. apply Forall_cons_1 in Hh as [_ Hh]. apply Forall_cons_1 in Hh as [Hh _]. cbn in Hh |- *.
    replace (Z.to_nat a) with 0%nat by lia. rewrite take_0, app_nil_r. destruct (Nat.eqb_spec w 0) as [->|Hne]; [|by rewrite Nat2Z.id; split; [|lia]].
    replace (Z.to_nat a) with 0%nat by lia. split; [done|lia].
  + destruct (write_loop answers _ _ _ _ _) as [[ret' more]|] eqn:El; [|done]. cbn in E. injection E as <- <-.
    apply Forall_cons_1 in Hh as [_ Hh]. apply Forall_cons_1 in Hh as [Ha Hm]. cbn in Ha. rewrite length_drop in Ha.
    destruct (IH (w + Z.to_nat a)%nat a ret' more) as [Hs Hr]; [lia|done|done|]. split; [|done]. rewrite <- Hs. cbn. rewrite app_assoc. f_equal. by rewrite take_take_drop.
- injection E as <- <-. assert (w = length buf) as -> by lia. apply write_done.
Qed.

Definition sum_answers (rs : list Z) : Z := foldr Z.add 0 rs.

Lemma sum_answers_nonneg rs : Forall (λ x, 0 < x) rs → 0 ≤ sum_answers rs.
Proof. induction 1 as [|a rs Ha _ IH]; cbn [sum_answers foldr]; [lia|]. fold (sum_answers rs). lia. Qed.

Lemma write_loop_all rs fd t buf w r :
  Forall (λ x, 0 < x) rs → Z.of_nat w + sum_answers rs = Z.of_nat (length buf) → buf ≠ [] →
  ∃ acts, write_loop rs fd t buf w r = Some (Z.of_nat (length buf), acts) ∧ Forall honest acts.
Proof.
intros Hrs. revert w r. induction Hrs as [|a rs Ha Hrs IH]; intros w r Hsum Hne; cbn [write_loop sum_answers foldr] in *.
- assert (w = length buf) as -> by lia. rewrite Nat.ltb_irrefl. exists []. split; [|constructor].
  rewrite (proj2 (Nat.eqb_neq (length buf) 0)) by (by destruct buf). by rewrite andb_false_r.
- pose proof (sum_answers_nonneg rs Hrs). fold (sum_answers rs) in Hsum. rewrite (proj2 (Nat.ltb_lt w (length buf))), (proj2 (Z.leb_gt a 0)) by lia.
  destruct (IH (w + Z.to_nat a)%nat a) as (acts & -> & Hh); [lia|done|]. eexists. split; [done|].
  constructor; [done|]. constructor; [|done]. cbn. rewrite length_drop. lia.
Qed.

(** The [write] of a coroutine on a descriptor that the program believes to be
    blocking: what the system took is a prefix of the buffer, in order and without
    gaps, and its length is what [write] returns, a negative answer standing for
    nothing; and when the system takes a part of the rest each time, however small,
    all of it is written. *)
Theorem write_sends_prefix on fd buf s :
  (∀ answers ret acts, write on fd buf answers s = Some (ret, acts) → Forall honest acts →
    stream acts = take (Z.to_nat ret) buf ∧ ret ≤ Z.of_nat (length buf)) ∧
  (∀ r rs, is_Some (waits on fd s) → buf ≠ [] → r ≠ 0 → Forall (λ x, 0 < x) rs → Z.max r 0 + sum_answers rs = Z.of_nat (length buf) →
    ∃ acts, write on fd buf (r :: rs) s = Some (Z.of_nat (length buf), acts) ∧ stream acts = buf).
Proof.
assert (∀ answers ret acts, write on fd buf answers s = Some (ret, acts) → Forall honest acts →
    stream acts = take (Z.to_nat ret) buf ∧ ret ≤ Z.of_nat (length buf)) as Hpre.
{ intros [|r answers] ret acts E Hh; [done|]. cbn [write] in E. destruct (waits on fd s) as [lp|].
  - destruct (Z.eqb_spec r 0) as [->|Hr].
    + injection E as <- <-. cbn. split; [done|lia].
    + destruct (write_loop answers _ _ _ _ _) as [[ret' more]|] eqn:El; [|done]. cbn in E. injection E as <- <-.
      apply Forall_cons_1 in Hh as [Hr0 Hh]. cbn in Hr0. apply write_loop_stream in El as [Hs Hle]; [|case_match; lia|done].
      split; [|done]. rewrite <- Hs. cbn. destruct (Z.ltb_spec 0 r); [done|]. by replace (Z.to_nat r) with 0%nat by lia.
  - injection E as <- <-. apply Forall_cons_1 in Hh as [Hr0 _]. cbn in Hr0 |- *. by rewrite app_nil_r. }
split; [done|]. intros r rs [lp Hl] Hne Hr Hrs Hsum.
destruct (write_loop_all rs fd (timeout_of (write_timeout lp)) buf (if 0 <? r then Z.to_nat r else 0%nat) r Hrs) as (acts & E & Hh); [|done|].
{ destruct (Z.ltb_spec 0 r); lia. }
assert (write on fd buf (r :: rs) s = Some (Z.of_nat (length buf), ASend fd buf r :: acts)) as Ew.
{ cbn [write]. by rewrite Hl, (proj2 (Z.eqb_neq r 0)), E by done. }
eexists. split; [done|]. destruct (Hpre _ _ _ Ew) as [-> _]; [|by rewrite Nat2Z.id, firstn_all].
constructor; [|done]. cbn. pose proof (sum_answers_nonneg rs Hrs). lia.
Qed.

Lemma write_sends_prefix_witness :
  ∃ acts, write true 5 [x61; x62; x63] [-1; 1; 2] (set_hook 5 new_hook (mkHooks ∅ {[ 5 := true ]})) = Some (3, acts) ∧ stream acts = [x61; x62; x63].
Proof.
apply (proj2 (write_sends_prefix true 5 [x61; x62; x63] (set_hook 5 new_hook (mkHooks ∅ {[ 5 := true ]})))).
- by eexists.
- done.
- done.
- repeat constructor.
- done.
Defined.

(** ** No system call blocks the thread *)









Lemma in_array_get fd s h : in_array fd = true → g_rpchook_socket_fd s !! fd = Some h → get_by_fd fd s = Some h.
Proof. intros Ha Hg. unfold get_by_fd. by rewrite Ha. Qed.

Lemma in_array_nonneg fd : in_array fd = true → 0 ≤ fd.
Proof. unfold in_array. intros [?%Z.ltb_lt _]%andb_prop. lia. Qed.























(** [co_accept] alone leaves the descriptor blocking: when nothing arrives within the
    time-out, the [read] that follows stops the thread with all its coroutines. *)
Lemma accept_alone_blocks cli nbyte answer s :
  in_array cli = true →
  let s := (co_accept cli s).2 in
  kern s !! cli = Some false ∧ (read true cli nbyte answer s).2 = [APoll cli POLL_READ 1000; ARecv cli nbyte answer].
Proof.
intros Ha. assert (0 ≤ cli) by (by apply in_array_nonneg).
unfold co_accept, alloc_by_fd. rewrite (proj2 (Z.ltb_ge cli 0)), Ha by lia. cbn [snd set_hook sys_flag kern]. split; [by rewrite lookup_insert_eq|].
unfold read, waits, get_by_fd. rewrite Ha. cbn. rewrite lookup_insert_eq. done.
Qed.

(** ** Connecting *)

(** A connection that is refused is reported by [epoll] as writable, with an error and a
    hang-up: [connect] returns 0 whatever [SO_ERROR] says. *)
Lemma connect_refused_succeeds fd address polls so_error s lp :
  get_by_fd fd s = Some lp → nonblock (user_flag lp) = false →
  ∃ s', connect true fd address (-1) EINPROGRESS ((1, EpollEvent2Poll (Z.lor EPOLLOUT (Z.lor EPOLLERR EPOLLHUP))) :: polls) so_error s = Some (0, 0, s').
Proof.
intros Hg Hn. unfold connect. rewrite Hg. cbn [negb]. eexists.
assert (user_flag (if (length address <=? 16)%nat then with_dest (address ++ drop (length address) (dest lp)) lp else lp) = user_flag lp) as -> by (by case_match).
rewrite Hn. reflexivity.
Qed.

(** ** Time-outs and flags *)

(** A time-out of zero means to wait without limit; the hooked [read] does not wait. *)
Lemma zero_timeout_no_wait fd lp s nbyte answer :
  in_array fd = true → g_rpchook_socket_fd s !! fd = Some lp → nonblock (user_flag lp) = false →
  (read true fd nbyte answer (setsockopt true fd SOL_SOCKET SO_RCVTIMEO (mkTv 0 0) 0 s).2).2 = [APoll fd POLL_READ 0; ARecv fd nbyte answer].
Proof.
intros Ha Hg Hn. unfold setsockopt, get_by_fd. rewrite Ha, Hg. cbn. unfold read, waits, get_by_fd. rewrite Ha. cbn. rewrite lookup_insert_eq. cbn. by rewrite Hn.
Qed.

(** A bad descriptor is not an error. *)
Lemma fcntl_bad_descriptor on fd cmd param answer s : fd < 0 → (fcntl on fd cmd param answer s).1 = 622.
Proof. intros Hf. unfold fcntl. by rewrite (proj2 (Z.ltb_lt fd 0)). Qed.

(** [F_DUPFD_CLOEXEC] and the other newer commands fail without reaching the system. *)
Lemma fcntl_unknown on fd answer s : 0 ≤ fd → (fcntl on fd 1030 0 answer s).1 = -1.
Proof. intros Hf. unfold fcntl. by rewrite (proj2 (Z.ltb_ge fd 0)). Qed.

(** ** Names *)

(** The resolver ends when some buffer is large enough, with a buffer less than twice as
    large as needed. *)
Lemma resolve_total gethostbyname_r need k n :
  (∀ m, need ≤ m → (gethostbyname_r m).1.1 ≠ ERANGE) → 0 < n → need ≤ n * 2 ^ Z.of_nat k → n * 2 ^ Z.of_nat k < 2 ^ 64 →
  ∃ m found, resolve_loop gethostbyname_r (S k) n = Ok (m, found) ∧ m ≤ n * 2 ^ Z.of_nat k.
Proof.
intros Hneed. revert n. induction k as [|k IH]; intros n Hn Hk Hb; cbn [resolve_loop]; destruct (gethostbyname_r n) as [[rc herr] found] eqn:E.
- change (2 ^ Z.of_nat 0) with 1 in *. rewrite Z.mul_1_r in *. pose proof (Hneed n Hk) as Hrc. rewrite E in Hrc. cbn in Hrc.
  rewrite (proj2 (Z.eqb_neq rc ERANGE)) by done. by exists n, found.
- rewrite Nat2Z.inj_succ, Z.pow_succ_r in * by lia. assert (0 < 2 ^ Z.of_nat k) by (apply Z.pow_pos_nonneg; lia).
  case_match; [|exists n, found; split; [done|nia]].
  unfold u64. rewrite Z.mod_small by nia. destruct (IH (n * 2)) as (m & f & Em & Hm); [lia|nia|nia|]. exists m, f. split; [exact Em|nia].
Qed.
