(* ===== verification/CoEnv.v ===== *)
(** [cocgi/cocgi_lib/libco/co_hook_sys_call.cpp]: the environment variables that each
    coroutine has for itself.

    [co_set_env_list] names them once; the array is sorted and searched by bisection.  A
    coroutine gets its copy of the array with its first use of the environment.  Names
    are C strings: they hold no zero octet. *)

From Stdlib Require Import ZArith Lia Bool Sorting.Sorted.
From Stdlib.Strings Require Import Byte.
From stdpp Require Import base numbers list gmap option sorting.
From S2P Require Import Prelude.

Local Open Scope nat_scope.

(** ** The array *)

Record stCoSysEnv := mkEnv { name : bytes; value : option bytes }.

(** [strcmp]: the sign of the first difference. *)
Fixpoint strcmp (a b : bytes) : comparison :=
  match a, b with
  | [], [] => Eq
  | [], _ => Lt
  | _, [] => Gt
  | x :: a, y :: b => match Z.compare (b2z x) (b2z y) with Eq => strcmp a b | c => c end
  end.

Definition co_sysenv_comp (a b : stCoSysEnv) : comparison := strcmp (name a) (name b).

(** The order [qsort] sorts by. *)
Definition env_le (a b : stCoSysEnv) : Prop := co_sysenv_comp a b ≠ Gt.

#[export] Instance env_le_dec a b : Decision (env_le a b).
Proof. unfold env_le. solve_decision. Defined.

Definition at_ (i : nat) (data : list stCoSysEnv) : res stCoSysEnv :=
  match data !! i with Some e => Ok e | None => Fault OutOfBounds end.

(** The loop that drops repeated names: [k] more turns. *)
Fixpoint uniq_loop (k lp lq : nat) (data : list stCoSysEnv) : res (nat * list stCoSysEnv) :=
  match k with
  | O => Ok (lp, data)
  | S k =>
      a ← at_ lp data;
      b ← at_ lq data;
      match co_sysenv_comp a b with
      | Eq => uniq_loop k lp (S lq) data
      | _ =>
          let lp := S lp in
          let data := if (lq =? lp) then data else <[lp := b]> data in
          uniq_loop k lp (S lq) data
      end
  end.

(** The names that are not null and not empty. *)
Definition given (names : list (option bytes)) : list stCoSysEnv :=
  omap (λ n, match n with Some (c :: n) => Some (mkEnv (c :: n) None) | _ => None end) names.

(** [g_co_sysenv]: the [cnt] entries in use, [None] before [data] is allocated. *)
Definition co_set_env_list (names : list (option bytes)) (g : option (list stCoSysEnv)) : res (option (list stCoSysEnv)) :=
  match g with
  | Some _ => Ok g
  | None =>
      let data := given names in
      if (1 <? length data) then
        let data := merge_sort env_le data in
        '(lp, data) ← uniq_loop (length data - 1) 0 1 data;
        Ok (Some (take (lp + 1) data))
      else Ok (Some data)
  end.

(** [bsearch] of the C library, as glibc has it. *)
Fixpoint bsearch (fuel l u : nat) (key : stCoSysEnv) (data : list stCoSysEnv) : res (option nat) :=
  if (l <? u) then
    match fuel with
    | O => Fault OutOfFuel
    | S fuel =>
        let idx := (l + u) / 2 in
        p ← at_ idx data;
        match co_sysenv_comp key p with
        | Lt => bsearch fuel l idx key data
        | Gt => bsearch fuel (S idx) u key data
        | Eq => Ok (Some idx)
        end
    end
  else Ok None.

(** ** The functions *)

(** [g_co_sysenv] and the [pvEnv] of each coroutine. *)
Record envs := mkEnvs { g_co_sysenv : option (list stCoSysEnv); pvEnv : gmap nat (list stCoSysEnv) }.

(** Answered here, or passed on to the system. *)
Inductive eout := Done | Value (v : option bytes) | System.

Definition dup_co_sysenv_arr (arr : list stCoSysEnv) : list stCoSysEnv := arr.

(** The coroutine's array, copied when it has none. *)
Definition own_env (self : nat) (g : list stCoSysEnv) (s : envs) : list stCoSysEnv * envs :=
  match pvEnv s !! self with
  | Some arr => (arr, s)
  | None => let arr := dup_co_sysenv_arr g in (arr, mkEnvs (g_co_sysenv s) (<[self := arr]> (pvEnv s)))
  end.

Definition set_own (self : nat) (arr : list stCoSysEnv) (s : envs) : envs := mkEnvs (g_co_sysenv s) (<[self := arr]> (pvEnv s)).

(** [on] is [co_is_enable_sys_hook()], which implies that [self] is not null. *)
Definition setenv (on : bool) (self : nat) (n : bytes) (v : option bytes) (overwrite : bool) (s : envs) : res (eout * envs) :=
  match (if on then g_co_sysenv s else None) with
  | None => Ok (System, s)
  | Some g =>
      let '(arr, s) := own_env self g s in
      r ← bsearch (length arr) 0 (length arr) (mkEnv n None) arr;
      match r with
      | Some i =>
          e ← at_ i arr;
          if overwrite || bool_decide (value e = None)
          then Ok (Done, set_own self (<[i := mkEnv (name e) v]> arr) s)
          else Ok (Done, s)
      | None => Ok (System, s)
      end
  end.

Definition unsetenv (on : bool) (self : nat) (n : bytes) (s : envs) : res (eout * envs) :=
  match (if on then g_co_sysenv s else None) with
  | None => Ok (System, s)
  | Some g =>
      let '(arr, s) := own_env self g s in
      r ← bsearch (length arr) 0 (length arr) (mkEnv n None) arr;
      match r with
      | Some i => e ← at_ i arr; Ok (Done, set_own self (<[i := mkEnv (name e) None]> arr) s)
      | None => Ok (System, s)
      end
  end.

Definition getenv (on : bool) (self : nat) (n : bytes) (s : envs) : res (eout * envs) :=
  match (if on then g_co_sysenv s else None) with
  | None => Ok (System, s)
  | Some g =>
      let '(arr, s) := own_env self g s in
      r ← bsearch (length arr) 0 (length arr) (mkEnv n None) arr;
      match r with
      | Some i => e ← at_ i arr; Ok (Value (value e), s)
      | None => Ok (System, s)
      end
  end.

(** ** The order *)

Lemma strcmp_refl a : strcmp a a = Eq.
Proof. induction a as [|x a IH]; [done|]. cbn. by rewrite Z.compare_refl. Qed.

Lemma strcmp_eq a b : strcmp a b = Eq → a = b.
Proof.
revert b. induction a as [|x a IH]; intros [|y b]; try done. cbn. destruct (Z.compare_spec (b2z x) (b2z y)) as [E| |]; try done.
intros H. apply IH in H as ->. by apply b2z_inj in E as ->.
Qed.

Lemma strcmp_opp a b : strcmp b a = CompOpp (strcmp a b).
Proof.
revert b. induction a as [|x a IH]; intros [|y b]; try done. cbn. rewrite (Z.compare_antisym (b2z x) (b2z y)).
destruct (Z.compare (b2z x) (b2z y)); cbn; done.
Qed.

Lemma strcmp_trans a b c : strcmp a b = Lt → strcmp b c = Lt → strcmp a c = Lt.
Proof.
revert b c. induction a as [|x a IH]; intros [|y b] [|z c]; try done. cbn.
destruct (Z.compare_spec (b2z x) (b2z y)), (Z.compare_spec (b2z y) (b2z z)), (Z.compare_spec (b2z x) (b2z z)); try done; try lia.
apply IH.
Qed.

Definition env_lt (a b : stCoSysEnv) : Prop := co_sysenv_comp a b = Lt.

#[export] Instance env_lt_trans : Transitive env_lt.
Proof. intros a b c. apply strcmp_trans. Qed.

#[export] Instance env_le_total : Total env_le.
Proof. intros a b. unfold env_le, co_sysenv_comp. rewrite (strcmp_opp (name a)). destruct (strcmp (name a) (name b)); cbn; auto. Qed.

#[export] Instance env_le_trans : Transitive env_le.
Proof.
intros a b c. unfold env_le, co_sysenv_comp. intros Hab Hbc. destruct (strcmp (name a) (name b)) eqn:E1; [|clear Hab|done].
- by apply strcmp_eq in E1 as ->.
- destruct (strcmp (name b) (name c)) eqn:E2; [|clear Hbc|done].
  + apply strcmp_eq in E2 as <-. by rewrite E1.
  + by rewrite (strcmp_trans _ _ _ E1 E2).
Qed.

(** ** Dropping repeated names *)

(** What the loop computes: the entries whose name differs from the one before. *)
Fixpoint uniq (a : stCoSysEnv) (l : list stCoSysEnv) : list stCoSysEnv :=
  match l with
  | [] => []
  | b :: l => if decide (co_sysenv_comp a b = Eq) then uniq a l else b :: uniq b l
  end.

Lemma at_mid (l1 l2 : list stCoSysEnv) x : at_ (length l1) (l1 ++ x :: l2) = Ok x.
Proof. unfold at_. by rewrite list_lookup_middle. Qed.

(** One turn: a repeated name joins the gap, another one is moved to its front. *)
Lemma uniq_turn k kept a gap b rest :
  uniq_loop (S k) (length kept) (length (kept ++ a :: gap)) (kept ++ a :: gap ++ b :: rest) =
    if decide (co_sysenv_comp a b = Eq)
    then uniq_loop k (length kept) (length (kept ++ a :: gap ++ [b])) (kept ++ a :: (gap ++ [b]) ++ rest)
    else uniq_loop k (length (kept ++ [a])) (length ((kept ++ [a]) ++ gap ++ [b])) ((kept ++ [a]) ++ (match gap with [] => [b] | _ :: g => b :: g ++ [b] end) ++ rest).
Proof.
cbn [uniq_loop]. rewrite at_mid. cbn [mbind res_bind]. rewrite app_comm_cons, app_assoc, at_mid. cbn [mbind res_bind].
assert (S (length (kept ++ a :: gap)) = length (kept ++ a :: gap ++ [b])) as El by (rewrite !length_app; cbn; rewrite length_app; cbn; lia).
assert ((kept ++ a :: gap) ++ b :: rest = kept ++ a :: (gap ++ [b]) ++ rest) as Ed by (by rewrite <- !app_assoc).
assert (length ((kept ++ [a]) ++ gap ++ [b]) = length (kept ++ a :: gap ++ [b])) as El2 by (by rewrite <- app_assoc).
case_decide as Hc; [by rewrite Hc, El, Ed|]. assert (S (length kept) = length (kept ++ [a])) as Ek by (rewrite length_app; cbn; lia).
assert ((if length (kept ++ a :: gap) =? S (length kept) then (kept ++ a :: gap) ++ b :: rest else <[S (length kept) := b]> ((kept ++ a :: gap) ++ b :: rest)) =
  (kept ++ [a]) ++ (match gap with [] => [b] | _ :: g => b :: g ++ [b] end) ++ rest) as Eu.
{ destruct gap as [|c gap].
  - rewrite (proj2 (Nat.eqb_eq _ _)) by (rewrite length_app; cbn; lia). by rewrite <- !app_assoc.
  - rewrite (proj2 (Nat.eqb_neq _ _)) by (rewrite length_app; cbn; lia). rewrite <- !app_assoc, Ek. cbn.
    replace (kept ++ a :: c :: gap ++ b :: rest) with ((kept ++ [a]) ++ c :: gap ++ b :: rest) by (by rewrite <- app_assoc).
    rewrite insert_app_r_alt, Nat.sub_diag by lia. cbn. by rewrite <- !app_assoc. }
rewrite Eu, El, <- El2, Ek. destruct (co_sysenv_comp a b); done.
Qed.

(** [kept ++ [a]] is final, [gap] has been passed over. *)
Lemma uniq_loop_ok rest kept a gap :
  ∃ lp data, uniq_loop (length rest) (length kept) (length (kept ++ a :: gap)) (kept ++ a :: gap ++ rest) = Ok (lp, data) ∧
    take (lp + 1) data = kept ++ a :: uniq a rest.
Proof.
revert kept a gap. induction rest as [|b rest IH]; intros kept a gap; cbn [length uniq].
- eexists _, _. split; [done|]. rewrite app_nil_r, take_app_ge by lia. by replace (length kept + 1 - length kept) with 1 by lia.
- rewrite uniq_turn. case_decide; [apply IH|].
  destruct (IH (kept ++ [a]) b (match gap with [] => [] | _ :: g => g ++ [b] end)) as (lp & data & E & Ht).
  exists lp, data. split; [|by rewrite Ht, <- app_assoc]. rewrite <- E. f_equal.
  + destruct gap; rewrite !length_app; cbn; rewrite ?length_app; cbn; lia.
  + by destruct gap.
Qed.

Lemma env_le_lt a b : env_le a b → co_sysenv_comp a b ≠ Eq → env_lt a b.
Proof. unfold env_le, env_lt. by destruct (co_sysenv_comp a b). Qed.

Lemma env_lt_le a b : env_lt a b → env_le a b.
Proof. unfold env_le, env_lt. by intros ->. Qed.

(** On a sorted array the names that are left are in strict order, and no name is lost. *)
Lemma uniq_sorted a l :
  StronglySorted env_le (a :: l) →
  StronglySorted env_lt (a :: uniq a l) ∧ ∀ n, n ∈ (name <$> a :: uniq a l) ↔ n ∈ (name <$> a :: l).
Proof.
revert a. induction l as [|b l IH]; intros a Hs; [split; [by repeat constructor|done]|]. inversion Hs as [|? ? Hs' Hf]; subst.
apply Forall_cons_1 in Hf as [Hab Hf]. cbn [uniq]. case_decide as Hc.
- destruct (IH a) as [H1 H2]; [by inversion Hs'; constructor|]. split; [done|]. intros n. rewrite H2. cbn. rewrite !elem_of_cons.
  unfold co_sysenv_comp in Hc. apply strcmp_eq in Hc as ->. tauto.
- destruct (IH b Hs') as [H1 H2]. split.
  + constructor; [done|]. apply env_le_lt in Hab; [|done]. constructor; [done|]. inversion H1; subst. eapply list.Forall_impl; [done|]. intros x Hx. by transitivity b.
  + intros n. cbn. rewrite elem_of_cons. cbn in H2. by rewrite (H2 n), !elem_of_cons.
Qed.

(** The array of [co_set_env_list]: the names that were given, each once, in order. *)
Lemma co_set_env_list_ok names :
  ∃ g, co_set_env_list names None = Ok (Some g) ∧ StronglySorted env_lt g ∧
    (∀ n, n ∈ (name <$> g) ↔ n ∈ (name <$> given names)) ∧ Forall (λ e, value e = None) g.
Proof.
unfold co_set_env_list. assert (Forall (λ e, value e = None) (given names)) as Hv.
{ apply Forall_forall. intros e. unfold given. rewrite list_elem_of_omap. intros (n & _ & E). by destruct n as [[|? ?]|]; try done; injection E as <-. }
destruct (Nat.ltb_spec 1 (length (given names))) as [Hl|Hl].
2:{ eexists. split; [done|]. split; [|done]. destruct (given names) as [|e [|? ?]]; [constructor|by repeat constructor|cbn in Hl; lia]. }
pose proof (merge_sort_Permutation env_le (given names)) as Hp. pose proof (StronglySorted_merge_sort env_le (given names)) as Hs.
destruct (merge_sort env_le (given names)) as [|a rest] eqn:Em; [apply Permutation_length in Hp; cbn in Hp; lia|].
destruct (uniq_loop_ok rest [] a []) as (lp & data & E & Ht). cbn [length app] in E. replace (length (a :: rest) - 1) with (length rest) by (cbn; lia).
rewrite E. cbn [mbind res_bind]. rewrite Ht. destruct (uniq_sorted a rest Hs) as [H1 H2]. eexists. split; [done|]. split; [done|].
assert (∀ n, n ∈ (name <$> a :: rest) ↔ n ∈ (name <$> given names)) as Hmem by (intros n; by rewrite Hp).
split; [intros n; cbn [app]; by rewrite H2|]. rewrite <- Hp in Hv. clear -Hv. cbn [app].
revert a Hv. induction rest as [|b rest IH]; intros a Hv; [done|]. apply Forall_cons_1 in Hv as [Ha Hv]. cbn [uniq]. case_decide.
- apply Forall_cons_1 in Hv as [_ Hv]. apply (IH a). by constructor.
- constructor; [done|]. by apply IH.
Qed.

(** ** Searching *)

(** An element that compares below or above the key tells where the key can be. *)
Lemma bsearch_ok fuel l u key arr :
  StronglySorted env_lt arr → u ≤ length arr → u - l ≤ fuel →
  (∀ i e, arr !! i = Some e → name e = name key → l ≤ i < u) →
  ∃ r, bsearch fuel l u key arr = Ok r ∧
    match r with
    | Some i => ∃ e, arr !! i = Some e ∧ name e = name key
    | None => ∀ i e, arr !! i = Some e → name e ≠ name key
    end.
Proof.
intros Hs. revert l u. induction fuel as [|fuel IH]; intros l u Hu Hf Hin; cbn [bsearch]; destruct (Nat.ltb_spec l u) as [Hlt|Hge]; try lia;
  try (exists None; split; [done|]; intros i e He Hn; specialize (Hin i e He Hn); lia).
assert (l ≤ (l + u) / 2 < u) as Hm by (split; [apply Nat.div_le_lower_bound|apply Nat.Div0.div_lt_upper_bound]; lia).
set (m := (l + u) / 2) in *. destruct (arr !! m) as [p|] eqn:Ep; [|apply lookup_ge_None in Ep; lia]. unfold at_. rewrite Ep. cbn [mbind res_bind].
assert (∀ i e, arr !! i = Some e → name e = name key → i < m → co_sysenv_comp key p = Lt) as Hlow.
{ intros i e He Hn Hi. pose proof (sorted_at env_lt arr i m e p Hs Hi He Ep) as Hc. unfold env_lt, co_sysenv_comp in *. by rewrite <- Hn. }
assert (∀ i e, arr !! i = Some e → name e = name key → m < i → co_sysenv_comp key p = Gt) as Hhigh.
{ intros i e He Hn Hi. pose proof (sorted_at env_lt arr m i p e Hs Hi Ep He) as Hc. unfold env_lt, co_sysenv_comp in *. rewrite <- Hn, strcmp_opp, Hc. done. }
assert (∀ i e, arr !! i = Some e → name e = name key → i = m → co_sysenv_comp key p = Eq) as Hmid.
{ intros i e He Hn ->. assert (e = p) as -> by congruence. unfold co_sysenv_comp. rewrite <- Hn. apply strcmp_refl. }
destruct (co_sysenv_comp key p) eqn:Ec.
- exists (Some m). split; [done|]. exists p. split; [done|]. by apply strcmp_eq in Ec.
- apply IH; [lia|lia|]. intros i e He Hn. pose proof (Hin i e He Hn). destruct (Nat.lt_trichotomy i m) as [?|[->|Hg]]; [lia| |].
  + by pose proof (Hmid m e He Hn eq_refl).
  + by pose proof (Hhigh i e He Hn Hg).
- apply IH; [lia|lia|]. intros i e He Hn. pose proof (Hin i e He Hn). destruct (Nat.lt_trichotomy i m) as [Hl|[->|Hg]]; [| |lia].
  + by pose proof (Hlow i e He Hn Hl).
  + by pose proof (Hmid m e He Hn eq_refl).
Qed.

(** ** The environment as maps *)

Inductive eop := SetEnv (n : bytes) (v : option bytes) (overwrite : bool) | UnsetEnv (n : bytes) | GetEnv (n : bytes).

Definition run_eop (self : nat) (o : eop) (s : envs) : res (eout * envs) :=
  match o with
  | SetEnv n v overwrite => setenv true self n v overwrite s
  | UnsetEnv n => unsetenv true self n s
  | GetEnv n => getenv true self n s
  end.

(** The specification: a map from a coroutine and one of the [listed] names to a value. *)
Definition spec_eop (listed : list bytes) (self : nat) (o : eop) (A : gmap (nat * bytes) bytes) : eout * gmap (nat * bytes) bytes :=
  match o with
  | SetEnv n v overwrite =>
      if decide (n ∈ listed) then
        (Done, if overwrite || bool_decide (A !! (self, n) = None)
               then match v with Some v => <[(self, n) := v]> A | None => delete (self, n) A end else A)
      else (System, A)
  | UnsetEnv n => if decide (n ∈ listed) then (Done, delete (self, n) A) else (System, A)
  | GetEnv n => if decide (n ∈ listed) then (Value (A !! (self, n)), A) else (System, A)
  end.

Fixpoint run_eops (os : list (nat * eop)) (s : envs) : res (list eout) :=
  match os with
  | [] => Ok []
  | (c, o) :: os => '(r, s) ← run_eop c o s; rs ← run_eops os s; Ok (r :: rs)
  end.

Fixpoint spec_eops (listed : list bytes) (os : list (nat * eop)) (A : gmap (nat * bytes) bytes) : list eout :=
  match os with
  | [] => []
  | (c, o) :: os => let '(r, A) := spec_eop listed c o A in r :: spec_eops listed os A
  end.

(** A coroutine's array is the common one, with the values of the map. *)
Definition own_rel (g : list stCoSysEnv) (A : gmap (nat * bytes) bytes) (c : nat) (arr : list stCoSysEnv) : Prop :=
  name <$> arr = name <$> g ∧ ∀ e, e ∈ arr → value e = A !! (c, name e).

Record env_rel (g : list stCoSysEnv) (s : envs) (A : gmap (nat * bytes) bytes) : Prop := {
  er_g : g_co_sysenv s = Some g;
  er_sorted : StronglySorted env_lt g;
  er_null : Forall (λ e, value e = None) g;
  er_own c arr : pvEnv s !! c = Some arr → own_rel g A c arr;
  er_none c n : pvEnv s !! c = None → A !! (c, n) = None;
}.

Lemma sorted_names a b : name <$> a = name <$> b → StronglySorted env_lt a → StronglySorted env_lt b.
Proof.
intros E Hs. revert b E. induction Hs as [|x a Hs IH Hf]; intros [|y b] E; try done; [constructor|]. cbn in E. injection E as Exy E. constructor; [by apply IH|].
rewrite Forall_forall in Hf |- *. intros e He. apply list_elem_of_lookup in He as [i Hi].
assert ((name <$> a) !! i = Some (name e)) as Hn by (rewrite E, list_lookup_fmap, Hi; done). rewrite list_lookup_fmap in Hn.
destruct (a !! i) as [e'|] eqn:Ei; [|done]. injection Hn as Hn. specialize (Hf e' (list_elem_of_lookup_2 _ _ _ Ei)). unfold env_lt, co_sysenv_comp in *.
by rewrite <- Exy, <- Hn.
Qed.

Lemma own_env_ok g s A c :
  env_rel g s A → ∃ arr s', own_env c g s = (arr, s') ∧ env_rel g s' A ∧ pvEnv s' !! c = Some arr ∧ own_rel g A c arr.
Proof.
intros H. unfold own_env. destruct (pvEnv s !! c) as [arr|] eqn:Ec.
- exists arr, s. split_and!; try done. by apply H.
- assert (own_rel g A c g) as Ho.
  { split; [done|]. intros e He. pose proof (er_null _ _ _ H) as Hv. rewrite Forall_forall in Hv. rewrite (Hv e He). symmetry. by apply (er_none _ _ _ H). }
  eexists _, _. split; [done|]. split; [|split; [cbn; by rewrite lookup_insert_eq|done]]. destruct H as [Hg Hs Hn Hown Hnone]. split; cbn; try done.
  + intros d arr. intros [[<- <-]|[_ ?]]%lookup_insert_Some; [done|by apply Hown].
  + intros d n Hd. apply lookup_insert_None in Hd as [Hd _]. by apply Hnone.
Qed.

(** The search in a coroutine's array. *)
Lemma own_search g s A c n :
  env_rel g s A → ∃ arr s', own_env c g s = (arr, s') ∧ env_rel g s' A ∧ pvEnv s' !! c = Some arr ∧
    ∃ r, bsearch (length arr) 0 (length arr) (mkEnv n None) arr = Ok r ∧
      match r with
      | Some i => ∃ e, arr !! i = Some e ∧ name e = n ∧ value e = A !! (c, n) ∧ n ∈ (name <$> g)
      | None => (n ∉ (name <$> g))
      end.
Proof.
intros H. destruct (own_env_ok g s A c H) as (arr & s' & E & H' & Hc & Hn & Hv). exists arr, s'. split_and!; try done.
destruct (bsearch_ok (length arr) 0 (length arr) (mkEnv n None) arr) as (r & Er & Hr); [|lia|lia| |].
- eapply sorted_names; [symmetry; exact Hn|]. by apply H.
- intros i e Hi _. apply lookup_lt_Some in Hi. lia.
- exists r. split; [done|]. destruct r as [i|].
  + destruct Hr as (e & He & Hen). cbn in Hen. subst n. exists e. pose proof (list_elem_of_lookup_2 _ _ _ He). split_and!; try done; [by apply Hv|].
    rewrite <- Hn. apply list_elem_of_fmap. by exists e.
  + rewrite <- Hn. intros (e & -> & He)%list_elem_of_fmap. apply list_elem_of_lookup in He as [i Hi]. by apply (Hr i e).
Qed.

Lemma set_own_rel g s A A' c arr i e v :
  env_rel g s A → pvEnv s !! c = Some arr → arr !! i = Some e →
  A' !! (c, name e) = v → (∀ k, k ≠ (c, name e) → A' !! k = A !! k) →
  env_rel g (set_own c (<[i := mkEnv (name e) v]> arr) s) A'.
Proof.
intros H Hc He Hv Hother. destruct (er_own _ _ _ H c arr Hc) as [Hn Hval]. destruct H as [Hg Hs Hnull Hown Hnone].
assert (StronglySorted env_lt arr) as Hsa by (eapply sorted_names; [symmetry; exact Hn|done]).
split; cbn; try done.
- intros d arr'. intros [[<- <-]|[Hne Hd]]%lookup_insert_Some.
  + split.
    * rewrite list_fmap_insert. cbn. rewrite list_insert_id; [done|]. rewrite list_lookup_fmap, He. done.
    * intros e' [j Hj]%list_elem_of_lookup. destruct (decide (i = j)) as [<-|Hij].
      -- rewrite list_lookup_insert_eq in Hj by (by eapply lookup_lt_Some). injection Hj as <-. done.
      -- rewrite list_lookup_insert_ne in Hj by done. rewrite Hother; [apply Hval; by eapply list_elem_of_lookup_2|]. intros [= En].
         destruct (Nat.lt_trichotomy i j) as [Hl|[?|Hl]]; [|done|].
         ++ pose proof (sorted_at _ _ _ _ _ _ Hsa Hl He Hj) as Hlt. unfold env_lt, co_sysenv_comp in Hlt. by rewrite En, strcmp_refl in Hlt.
         ++ pose proof (sorted_at _ _ _ _ _ _ Hsa Hl Hj He) as Hlt. unfold env_lt, co_sysenv_comp in Hlt. by rewrite En, strcmp_refl in Hlt.
  + destruct (Hown d arr' Hd) as [? Hvd]. split; [done|]. intros e' He'. rewrite Hother by congruence. by apply Hvd.
- intros d n [Hd Hne]%lookup_insert_None. rewrite Hother by congruence. by apply Hnone.
Qed.

Lemma run_eop_ok g s A c o :
  env_rel g s A → ∃ s', run_eop c o s = Ok ((spec_eop (name <$> g) c o A).1, s') ∧ env_rel g s' (spec_eop (name <$> g) c o A).2.
Proof.
intros H. pose proof (er_g _ _ _ H) as Hg.
destruct o as [n v ow|n|n]; cbn [run_eop spec_eop]; unfold setenv, unsetenv, getenv; rewrite Hg;
  destruct (own_search g s A c n H) as (arr & s' & E & H' & Hc & r & Er & Hr); rewrite E; cbn [mbind res_bind]; rewrite Er; cbn [mbind res_bind];
  (destruct r as [i|]; [destruct Hr as (e & He & <- & Hval & Hin); rewrite decide_True by done; unfold at_; rewrite He; cbn [mbind res_bind]
                       |rewrite decide_False by done; by exists s']).
- rewrite Hval. destruct (ow || bool_decide (A !! (c, name e) = None)); cbn [fst snd]; [|by exists s']. eexists. split; [done|].
  apply (set_own_rel g s' A); try done; destruct v; (by rewrite ?lookup_insert_eq, ?lookup_delete_eq) || (intros k Hk; by rewrite ?lookup_insert_ne, ?lookup_delete_ne).
- eexists. split; [done|]. cbn [fst snd]. apply (set_own_rel g s' A); try done; [by rewrite lookup_delete_eq|]. intros k Hk. by rewrite lookup_delete_ne.
- exists s'. by rewrite Hval.
Qed.

(** C31: The variables named by [co_set_env_list], whatever the order, with repetitions and
    null or empty names: every coroutine sees each of them as a variable of its own, as
    if they were a map from coroutine and name to value; all other variables go to the
    system. *)
Theorem environment_private names os :
  ∃ g, co_set_env_list names None = Ok (Some g) ∧
    run_eops os (mkEnvs (Some g) ∅) = Ok (spec_eops (name <$> given names) os ∅).
Proof.
destruct (co_set_env_list_ok names) as (g & E & Hs & Hn & Hv). exists g. split; [done|].
assert (env_rel g (mkEnvs (Some g) ∅) ∅) as H by (by split).
assert (∀ c o A, spec_eop (name <$> given names) c o A = spec_eop (name <$> g) c o A) as Hspec.
{ intros c [n v ow|n|n] A; cbn [spec_eop]; pose proof (Hn n); repeat case_decide; done || tauto. }
revert H. generalize (mkEnvs (Some g) ∅) as s. generalize (∅ : gmap (nat * bytes) bytes) as A.
induction os as [|[c o] os IH]; intros A s H; [done|]. cbn [run_eops spec_eops]. rewrite Hspec.
destruct (run_eop_ok g s A c o H) as (s' & Er & H'). destruct (spec_eop (name <$> g) c o A) as [r A']. cbn [fst snd] in *.
rewrite Er. cbn [mbind res_bind]. by rewrite (IH A' s' H').
Qed.

(** Two coroutines set the same variable. *)
Example environment_demo :
  (g ← co_set_env_list [Some [x62]; None; Some [x61]; Some []; Some [x62]] None;
   run_eops [(1, SetEnv [x62] (Some [x31]) true); (2, GetEnv [x62]); (2, SetEnv [x62] (Some [x32]) true); (1, GetEnv [x62]); (1, GetEnv [x63])] (mkEnvs g ∅))
  = Ok [Done; Value None; Done; Value (Some [x31]); System].
Proof. vm_compute. reflexivity. Qed.
