(* ===== verification/OsUnix.v ===== *)
(** [fastcgi/fastcgi_lib/os_unix.cpp]: listening addresses and the choice of a client in
    [OS_Accept].

    What the system answers is a list of moments: each is one turn of the inner loop of
    [OS_Accept], with the answer of [accept] and whether the signal that asks for the end
    arrives before the call or during it.  [USE_LOCKING], [HAVE_SOCKLEN] and
    [HAVE_SOCKADDR_UN_SUN_LEN] are undefined in [fcgi_config.h]. *)

From Stdlib Require Import ZArith Lia Bool.
From Stdlib.Strings Require Import Byte String.
From stdpp Require Import base numbers list option.
From S2P Require Import Prelude CxxString.

Local Open Scope Z_scope.

(** ** Addresses *)

(** [sizeof(sun_path)] and [MAXPATHLEN]. *)
Definition sun_path_size : Z := 108.
Definition MAXPATHLEN : Z := 4096.

(** The path that is copied and the length of the address, or -1. *)
Definition OS_BuildSockAddrUn (bindPath : bytes) : option (bytes * Z) :=
  let bindPathLen := u32 (size bindPath) in
  if sun_path_size <? bindPathLen then None else Some (bindPath, 2 + bindPathLen).

(** [strchr( s,c )]: what is before the first [c], and what is after it. *)
Fixpoint split_at (c : byte) (s : bytes) : option (bytes * bytes) :=
  match s with
  | [] => None
  | b :: s => if decide (b = c) then Some ([], s) else '(a, r) ← split_at c s; Some (b :: a, r)
  end.

Definition atoi (s : bytes) : Z := s32 (atol s).

(** Where the name stands for: [short port] is read after the first colon. *)
Inductive bind_to := BindUnix (path : bytes) | BindTcp (host : bytes) (port : Z).

(** The first lines of [OS_CreateLocalIpcFd] and of [OS_FcgiConnect]. *)
Definition parse_bind (bindPath : bytes) : res bind_to :=
  if MAXPATHLEN <=? size bindPath then Fault OutOfBounds else
  match split_at x3a bindPath with
  | None => Ok (BindUnix bindPath)
  | Some (host, tp) =>
      let port := s16 (atoi tp) in
      if port =? 0 then Ok (BindUnix bindPath) else Ok (BindTcp host (u16 port))
  end.

(** ** Clients *)

Section accept.
(** [inet_addr], of the C library. *)
Context (inet_addr : bytes → Z).

Fixpoint client_loop (fuel : nat) (cur : bytes) (addr : Z) : bool :=
  match fuel with
  | O => false
  | S fuel =>
      match split_at x2c cur with
      | Some (c, next) => (inet_addr c =? addr) || client_loop fuel next addr
      | None => inet_addr cur =? addr
      end
  end.

Definition ClientAddrOK (addr : Z) (clientList : option bytes) : bool :=
  match clientList with
  | None | Some [] => true
  | Some l => client_loop (S (length l)) l addr
  end.

Definition EINTR : Z := 4.
Definition EPROTO : Z := 71.
Definition ENETUNREACH : Z := 101.
Definition ECONNABORTED : Z := 103.
Definition ECONNRESET : Z := 104.
Definition ETIMEDOUT : Z := 110.
Definition EHOSTUNREACH : Z := 113.

Definition is_reasonable_accept_errno (error : Z) : bool :=
  (error =? EPROTO) || (error =? ECONNABORTED) || (error =? ECONNRESET) || (error =? ETIMEDOUT) ||
  (error =? EHOSTUNREACH) || (error =? ENETUNREACH).

(** The address of a client: over IPv4, over a Unix socket, with what [is_af_unix_keeper]
    finds, or of another family. *)
Inductive peer := Inet (addr : Z) | Unix (keeper : bool) | OtherFamily.

Inductive answer := Conn (fd : Z) (p : peer) | AcceptFailed (errno : Z).

(** One turn: [early] and [late] say that the signal arrives before [accept] is called,
    or while it waits. *)
Record moment := mkMoment { early : bool; reply : answer; late : bool }.

(** [socket], [sa], [errno], [shutdownPending] and the descriptors closed. *)
Record accepting := mkAcc { socket : Z; sa : option peer; errno : Z; shutdownPending : bool; closed : list Z }.

Definition close_socket (a : accepting) : accepting :=
  mkAcc (socket a) (sa a) (errno a) (shutdownPending a) (closed a ++ [socket a]).

(** The [do] loop around [accept]; [None] when the answers run out while it waits. *)
Fixpoint accept_do (ts : list moment) (fail_on_intr : bool) (a : accepting) : option (list moment * accepting) :=
  match ts with
  | [] => None
  | t :: ts =>
      let pend := shutdownPending a || early t in
      if pend then Some (ts, mkAcc (socket a) (sa a) (errno a) true (closed a)) else
      let pend := late t in
      match reply t with
      | Conn fd p => Some (ts, mkAcc fd (Some p) (errno a) pend (closed a))
      | AcceptFailed e =>
          let a := mkAcc (-1) (sa a) e pend (closed a) in
          if (e =? EINTR) && negb fail_on_intr && negb pend then accept_do ts fail_on_intr a else Some (ts, a)
      end
  end.

Inductive accept_end :=
  | Returned (fd : Z) (a : accepting)
  | Leave (ts : list moment) (a : accepting)    (** out of the inner loop *)
  | Waiting (a : accepting).                    (** in [accept], or out of turns *)

(** The inner [for(;;)]. *)
Fixpoint accept_inner (fuel : nat) (ts : list moment) (fail_on_intr : bool) (addrs : option bytes) (a : accepting) : accept_end :=
  match fuel with
  | O => Waiting a
  | S fuel =>
      match accept_do ts fail_on_intr a with
      | None => Waiting a
      | Some (ts, a) =>
          if socket a <? 0 then
            if shutdownPending a || negb (is_reasonable_accept_errno (errno a)) then Returned (-1) a
            else accept_inner fuel ts fail_on_intr addrs (mkAcc (socket a) (sa a) 0 (shutdownPending a) (closed a))
          else
            match sa a with
            | Some (Inet addr) =>
                if ClientAddrOK addr addrs then Leave ts a
                else accept_inner fuel ts fail_on_intr addrs (close_socket a)
            | _ => Leave ts a
            end
      end
  end.

(** The outer one: a connection over a Unix socket that has nothing to read is dropped. *)
Fixpoint accept_outer (fuel : nat) (ts : list moment) (fail_on_intr : bool) (addrs : option bytes) (a : accepting) : accept_end :=
  match fuel with
  | O => Waiting a
  | S fuel =>
      match accept_inner (S (length ts)) ts fail_on_intr addrs a with
      | Leave ts a =>
          match sa a with
          | Some (Unix false) => accept_outer fuel ts fail_on_intr addrs (close_socket a)
          | _ => Returned (socket a) a
          end
      | r => r
      end
  end.

Definition OS_Accept (ts : list moment) (fail_on_intr : bool) (addrs : option bytes) : accept_end :=
  accept_outer (S (length ts)) ts fail_on_intr addrs (mkAcc (-1) None 0 false []).
End accept.

(** ** Addresses *)

Lemma split_at_app c a r : (c ∉ a) → split_at c (a ++ c :: r) = Some (a, r).
Proof.
induction a as [|b a IH]; intros Hc; cbn [split_at app].
- by rewrite decide_True.
- rewrite elem_of_cons in Hc. rewrite decide_False by (intros ->; tauto). by rewrite IH by tauto.
Qed.

Lemma split_at_None c s : (c ∉ s) → split_at c s = None.
Proof.
induction s as [|b s IH]; intros Hc; [done|]. rewrite elem_of_cons in Hc. cbn [split_at].
rewrite decide_False by (intros ->; tauto). by rewrite IH by tauto.
Qed.

Lemma split_at_Some c s a r : split_at c s = Some (a, r) → s = a ++ c :: r ∧ (c ∉ a).
Proof.
revert a r. induction s as [|b s IH]; intros a r; [done|]. cbn [split_at]. case_decide as Hd.
- intros [= <- <-]. subst. split; [done|apply not_elem_of_nil].
- destruct (split_at c s) as [[a' r']|]; [|done]. cbn. intros [= <- <-]. destruct (IH a' r' eq_refl) as [-> Ha]. split; [done|].
  rewrite elem_of_cons. intros [->|?]; tauto.
Qed.

Lemma span_digits ds : Forall (λ b, isdigit b = true) ds → span isdigit ds = (ds, []).
Proof. induction 1 as [|b ds Hb _ IH]; [done|]. cbn. by rewrite Hb, IH. Qed.

Lemma atoi_print n : 0 ≤ n < 2 ^ 31 → atoi (print_dec n) = n.
Proof.
intros Hn. destruct (print_dec_spec n) as (Hd & Hv & Hne); [lia|]. unfold atoi, atol.
assert (span isspace (print_dec n) = ([], print_dec n)) as ->.
{ destruct (print_dec n) as [|b ds]; [done|]. cbn. rewrite digit_not_space; [done|]. by apply Forall_cons_1 in Hd as [? _]. }
assert (read_sign (print_dec n) = (false, print_dec n)) as ->.
{ destruct (print_dec n) as [|b ds]; [done|]. apply Forall_cons_1 in Hd as [Hb _]. by destruct b. }
rewrite (span_digits _ Hd), Hv. unfold s32. rewrite Z.min_r by lia. apply swrap_small; lia.
Qed.

(** A name "host:port" is a TCP address for the ports 1 to 65535. *)
Lemma parse_bind_tcp host port :
  (x3a ∉ host) → 0 < port < 65536 → size (host ++ x3a :: print_dec port) < MAXPATHLEN →
  parse_bind (host ++ x3a :: print_dec port) = Ok (BindTcp host port).
Proof.
intros Hh Hp Hs. unfold parse_bind. rewrite (proj2 (Z.leb_gt _ _)) by done. rewrite split_at_app by done.
rewrite atoi_print by lia. assert (u16 (s16 port) = port) as Hu.
{ unfold u16, s16. rewrite swrap_mod by lia. apply Z.mod_small. lia. }
rewrite (proj2 (Z.eqb_neq _ _)); [by rewrite Hu|]. intros E. rewrite E in Hu. change (u16 0) with 0 in Hu. lia.
Qed.

(** A port that is a multiple of 65536 makes the whole name the path of a Unix socket. *)
Lemma parse_bind_wraps host k :
  (x3a ∉ host) → 0 ≤ k < 32768 → size (host ++ x3a :: print_dec (65536 * k)) < MAXPATHLEN →
  parse_bind (host ++ x3a :: print_dec (65536 * k)) = Ok (BindUnix (host ++ x3a :: print_dec (65536 * k))).
Proof.
intros Hh Hk Hs. unfold parse_bind. rewrite (proj2 (Z.leb_gt _ _)) by done. rewrite split_at_app by done.
rewrite atoi_print by lia. unfold s16, swrap. rewrite (Z.mul_comm 65536), Z_mod_mult. done.
Qed.

(** ** Clients *)

Fixpoint split_list (fuel : nat) (s : bytes) : list bytes :=
  match fuel with
  | O => []
  | S fuel => match split_at x2c s with Some (a, r) => a :: split_list fuel r | None => [s] end
  end.

(** The names between the commas. *)
Definition names_of (s : bytes) : list bytes := split_list (S (length s)) s.

Section clients.
Context (inet_addr : bytes → Z).

Lemma client_loop_spec fuel s addr :
  client_loop inet_addr fuel s addr = existsb (λ n, inet_addr n =? addr) (split_list fuel s).
Proof.
revert s. induction fuel as [|fuel IH]; intros s; [done|]. cbn [client_loop split_list]. destruct (split_at x2c s) as [[a r]|]; cbn [existsb].
- by rewrite IH.
- by rewrite orb_false_r.
Qed.

(** A client is accepted when there is no list, or one of the names is its address. *)
Lemma ClientAddrOK_spec addr l :
  ClientAddrOK inet_addr addr l = true ↔
  match l with None | Some [] => True | Some l => ∃ n, n ∈ names_of l ∧ inet_addr n = addr end.
Proof.
unfold ClientAddrOK. destruct l as [[|b l]|]; [done| |done]. rewrite client_loop_spec, existsb_exists. unfold names_of. split.
- intros (n & Hn & E%Z.eqb_eq). exists n. by rewrite list_elem_of_In.
- intros (n & Hn & E). exists n. rewrite list_elem_of_In in Hn. split; [done|]. by apply Z.eqb_eq.
Qed.

(** ** [OS_Accept] without a signal *)

Definition welcome (addrs : option bytes) (p : peer) : bool :=
  match p with Inet addr => ClientAddrOK inet_addr addr addrs | Unix keeper => keeper | OtherFamily => true end.

(** The first welcome client; the ones before it, which are closed; or an error. *)
Inductive choice := Chosen (fd : Z) (dropped : list Z) | Failed_ (errno : Z) (dropped : list Z) | NoneYet (dropped : list Z).

Fixpoint choose (fail_on_intr : bool) (addrs : option bytes) (rs : list answer) (dropped : list Z) : choice :=
  match rs with
  | [] => NoneYet dropped
  | Conn fd p :: rs => if welcome addrs p then Chosen fd dropped else choose fail_on_intr addrs rs (dropped ++ [fd])
  | AcceptFailed e :: rs =>
      if ((e =? EINTR) && negb fail_on_intr) || is_reasonable_accept_errno e
      then choose fail_on_intr addrs rs dropped else Failed_ e dropped
  end.

(** What the call did, as a choice. *)
Definition outcome (r : accept_end) : choice :=
  match r with
  | Returned fd a => if fd <? 0 then Failed_ (errno a) (closed a) else Chosen fd (closed a)
  | Leave _ a | Waiting a => NoneYet (closed a)
  end.

Definition quiet (t : moment) : Prop := early t = false ∧ late t = false ∧ match reply t with Conn fd _ => 0 ≤ fd | AcceptFailed _ => True end.

(** The [do] loop stops at the first answer that is not an interrupted call. *)
Lemma accept_do_quiet ts fi a :
  Forall quiet ts → shutdownPending a = false →
  match accept_do ts fi a with
  | None => ∀ addrs d, choose fi addrs (reply <$> ts) d = NoneYet d
  | Some (ts', a') =>
      shutdownPending a' = false ∧ closed a' = closed a ∧ Forall quiet ts' ∧ (length ts' < length ts)%nat ∧
      ∃ t, quiet t ∧ (∀ addrs d, choose fi addrs (reply <$> ts) d = choose fi addrs (reply t :: (reply <$> ts')) d) ∧
        match reply t with
        | Conn fd p => socket a' = fd ∧ sa a' = Some p
        | AcceptFailed e => socket a' = -1 ∧ errno a' = e ∧ (e =? EINTR) && negb fi = false
        end
  end.
Proof.
revert a. induction ts as [|t ts IH]; intros a Hq Hs; [done|]. apply Forall_cons_1 in Hq as [Ht Hq]. pose proof Ht as (He & Hl & Hfd).
cbn [accept_do]. rewrite Hs, He. cbn [orb]. rewrite Hl. destruct (reply t) as [fd p|e] eqn:Er.
- split_and!; try done; [cbn; lia|]. exists t. cbn [fmap list_fmap]. rewrite Er. done.
- destruct ((e =? EINTR) && negb fi) eqn:Ei; cbn [negb andb].
  + specialize (IH (mkAcc (-1) (sa a) e false (closed a)) Hq eq_refl). destruct (accept_do ts fi _) as [[ts' a']|].
    * destruct IH as (? & ? & ? & ? & t' & Hqt & Hch & Hr). split_and!; try done; [cbn; lia|]. exists t'. split_and!; try done.
      intros addrs d. cbn [fmap list_fmap choose]. rewrite Er. cbn [choose]. rewrite Ei. cbn [orb]. apply Hch.
    * intros addrs d. cbn [fmap list_fmap choose]. rewrite Er. cbn [choose]. rewrite Ei. cbn [orb]. apply IH.
  + split_and!; try done; [cbn; lia|]. exists t. cbn [fmap list_fmap]. rewrite Er. done.
Qed.

Lemma accept_inner_quiet fuel ts fi addrs a :
  Forall quiet ts → shutdownPending a = false → (length ts < fuel)%nat →
  match accept_inner inet_addr fuel ts fi addrs a with
  | Leave ts' a' =>
      shutdownPending a' = false ∧ Forall quiet ts' ∧ (length ts' < length ts)%nat ∧ 0 ≤ socket a' ∧
      ∃ p, sa a' = Some p ∧ (∀ addr, p = Inet addr → welcome addrs p = true) ∧
        choose fi addrs (reply <$> ts) (closed a) = choose fi addrs (Conn (socket a') p :: (reply <$> ts')) (closed a')
  | r => outcome r = choose fi addrs (reply <$> ts) (closed a)
  end.
Proof.
revert ts a. induction fuel as [|fuel IH]; intros ts a Hq Hs Hf; [lia|]. cbn [accept_inner].
pose proof (accept_do_quiet ts fi a Hq Hs) as Hdo. destruct (accept_do ts fi a) as [[ts1 a1]|]; [|by cbn; rewrite Hdo].
destruct Hdo as (Hs1 & Hc1 & Hq1 & Hl1 & t & Hqt & Hch & Hr). rewrite Hch. destruct Hqt as (_ & _ & Hfd).
destruct (reply t) as [fd p|e] eqn:Er.
- destruct Hr as [Hsk Hsa]. rewrite Hsk, (proj2 (Z.ltb_ge _ _)), Hsa by done.
  assert (shutdownPending a1 = false ∧ Forall quiet ts1 ∧ (length ts1 < length ts)%nat ∧ 0 ≤ socket a1 ∧
    ∀ q, q = p → (∀ addr, q = Inet addr → welcome addrs q = true) →
      ∃ p, sa a1 = Some p ∧ (∀ addr, p = Inet addr → welcome addrs p = true) ∧
        choose fi addrs (Conn fd q :: (reply <$> ts1)) (closed a) = choose fi addrs (Conn (socket a1) p :: (reply <$> ts1)) (closed a1))
    as (? & ? & ? & ? & Hleave).
  { split_and!; try done; [by rewrite Hsk|]. intros q -> Hw. exists p. split_and!; try done. by rewrite Hsk, Hc1. }
  destruct p as [addr|keeper|]; [|split_and!; try done; by apply Hleave..].
  destruct (ClientAddrOK inet_addr addr addrs) eqn:Ea; [split_and!; try done; apply Hleave; [done|]; by intros ? [= <-]|].
  specialize (IH ts1 (close_socket a1) Hq1 Hs1 ltac:(lia)). cbn [choose welcome]. rewrite Ea.
  replace (closed a ++ [fd]) with (closed (close_socket a1)) by (cbn; by rewrite Hc1, Hsk).
  destruct (accept_inner inet_addr fuel ts1 fi addrs (close_socket a1)); try done.
  destruct IH as (? & ? & ? & ? & IH). split_and!; try done. lia.
- destruct Hr as (Hsk & He & Hei). rewrite Hsk. cbn [Z.ltb Z.compare]. rewrite Hs1, He. cbn [orb choose]. rewrite Hei. cbn [orb].
  destruct (is_reasonable_accept_errno e); cbn [negb].
  + specialize (IH ts1 (mkAcc (-1) (sa a1) 0 false (closed a1)) Hq1 eq_refl ltac:(lia)). cbn [closed] in IH.
    rewrite <- Hc1. destruct (accept_inner inet_addr fuel ts1 fi addrs _); try done. destruct IH as (? & ? & ? & ? & IH). split_and!; try done. lia.
  + cbn. by rewrite He, Hc1.
Qed.

(** C23: As long as no shutdown is requested, before or during a call of [accept], and
    [accept] gives descriptors that are not negative, [OS_Accept] returns the first client
    that is welcome, or the first error that is not temporary; the clients before it are
    closed, each once, and no other. (With a shutdown requested the loop can close one
    descriptor again and again, [shutdown_spins].) *)
Theorem accept_first_welcome ts fi addrs :
  Forall quiet ts → outcome (OS_Accept inet_addr ts fi addrs) = choose fi addrs (reply <$> ts) [].
Proof.
unfold OS_Accept. intros Hq. change (@nil Z) with (closed (mkAcc (-1) None 0 false [])) at 2.
assert (shutdownPending (mkAcc (-1) None 0 false []) = false) as Hs by done. revert Hs. generalize (mkAcc (-1) None 0 false []) as a.
assert (length ts < S (length ts))%nat as Hf by lia. revert Hf. generalize (S (length ts)) at 1 2 as fuel. intros fuel.
revert ts Hq. induction fuel as [|fuel IH]; intros ts Hq Hf a Hs; [lia|]. cbn [accept_outer].
pose proof (accept_inner_quiet (S (length ts)) ts fi addrs a Hq Hs ltac:(lia)) as Hin.
destruct (accept_inner inet_addr _ ts fi addrs a) as [fd' a'|ts' a'|a']; try done.
destruct Hin as (Hs' & Hq' & Hl' & Hsk & p & Hsa & Hw & Hch). rewrite Hsa, Hch. cbn [choose].
assert (∀ b, outcome (Returned (socket a') a') = if b : bool then Chosen (socket a') (closed a') else outcome (Returned (socket a') a')) as Hret.
{ intros []; [|done]. cbn. by rewrite (proj2 (Z.ltb_ge _ _)). }
destruct p as [addr|[]|]; cbn [welcome]; try by rewrite (Hret true).
- pose proof (Hw addr eq_refl) as Ha. cbn in Ha. rewrite Ha. by rewrite (Hret true).
- change (closed a' ++ [socket a']) with (closed (close_socket a')). apply IH; [done|lia|done].
Qed.

(** ** The end *)

(** A request for the end that finds no client turned away is obeyed. *)
Lemma shutdown_returns t ts fi addrs : early t = true → OS_Accept inet_addr (t :: ts) fi addrs = Returned (-1) (mkAcc (-1) None 0 true []).
Proof. intros He. unfold OS_Accept. cbn. by rewrite He. Qed.

Lemma inner_reject fuel ts ts' fi addrs a a1 addr :
  accept_do ts fi a = Some (ts', a1) → 0 ≤ socket a1 → sa a1 = Some (Inet addr) → ClientAddrOK inet_addr addr addrs = false →
  accept_inner inet_addr (S fuel) ts fi addrs a = accept_inner inet_addr fuel ts' fi addrs (close_socket a1).
Proof. intros E Hfd Hsa Hno. cbn [accept_inner]. rewrite E, (proj2 (Z.ltb_ge _ _)), Hsa, Hno by done. done. Qed.

Lemma inner_spins ts fi addrs a addr :
  shutdownPending a = true → 0 ≤ socket a → sa a = Some (Inet addr) → ClientAddrOK inet_addr addr addrs = false →
  ∃ a', accept_inner inet_addr (S (length ts)) ts fi addrs a = Waiting a' ∧ closed a' = closed a ++ replicate (length ts) (socket a).
Proof.
revert a. induction ts as [|t ts IH]; intros a Hs Hfd Hsa Hno.
{ exists a. cbn. by rewrite app_nil_r. }
cbn [length]. rewrite (inner_reject _ _ ts _ _ _ (mkAcc (socket a) (sa a) (errno a) true (closed a)) addr); try done;
  [|cbn; by rewrite Hs].
destruct (IH (close_socket (mkAcc (socket a) (sa a) (errno a) true (closed a)))) as (a' & E & Hc); try done.
exists a'. split; [exact E|]. rewrite Hc. cbn. by rewrite <- app_assoc.
Qed.

(** Once a client has been turned away, a request for the end is never obeyed: the
    descriptor of that client is still in [socket], the loop takes it for a new client,
    turns it away and closes it again, for as long as one looks. *)
Theorem shutdown_spins fd addr t ts fi addrs :
  0 ≤ fd → ClientAddrOK inet_addr addr addrs = false → early t = true →
  ∃ a, OS_Accept inet_addr (mkMoment false (Conn fd (Inet addr)) false :: t :: ts) fi addrs = Waiting a ∧
    closed a = replicate (S (S (length ts))) fd.
Proof.
intros Hfd Hno He. unfold OS_Accept. cbn [accept_outer]. change (length (_ :: _ :: ts)) with (S (S (length ts))).
rewrite (inner_reject _ _ (t :: ts) _ _ _ (mkAcc fd (Some (Inet addr)) 0 false []) addr) by done.
rewrite (inner_reject _ _ ts _ _ _ (mkAcc fd (Some (Inet addr)) 0 true [fd]) addr) by (done || cbn; by rewrite He).
destruct (inner_spins ts fi addrs (close_socket (mkAcc fd (Some (Inet addr)) 0 true [fd])) addr) as (a & E & Hc); try done.
exists a. by rewrite E.
Qed.
End clients.

(** An address list with one name, over an [inet_addr] that knows two. *)
Definition demo_inet (n : bytes) : Z := if decide (n = [x31]) then 1 else if decide (n = [x32]) then 2 else -1.

Lemma accept_first_welcome_witness :
  outcome (OS_Accept demo_inet [mkMoment false (AcceptFailed EINTR) false; mkMoment false (Conn 7 (Inet 3)) false;
    mkMoment false (Conn 8 (Unix false)) false; mkMoment false (Conn 9 (Inet 2)) false] false (Some [x31; x2c; x32])) = Chosen 9 [7; 8].
Proof. rewrite accept_first_welcome; [by vm_compute|]. repeat constructor; cbn; lia. Defined.

Lemma shutdown_spins_witness :
  ∃ a, OS_Accept demo_inet [mkMoment false (Conn 7 (Inet 3)) false; mkMoment true (AcceptFailed 0) false; mkMoment false (AcceptFailed 0) false]
    false (Some [x31]) = Waiting a ∧ closed a = [7; 7; 7].
Proof. apply (shutdown_spins demo_inet 7 3 (mkMoment true (AcceptFailed 0) false) [mkMoment false (AcceptFailed 0) false]); [lia|by vm_compute|done]. Defined.
