(* ===== verification/OsAsync.v ===== *)
(** [fastcgi/fastcgi_lib/os_unix.cpp]: the table of asynchronous operations, [OS_DoIo] and
    [OS_Close].

    [select], [read] and [write] are answers of the system (a failing [select] ends the
    process and is left out); the completion procedures of the callers are a function of
    the state, and the calls to them are recorded.  The table has two entries for each
    descriptor and is grown by doubling. *)

From Stdlib Require Import ZArith Lia Bool.
From Stdlib.Strings Require Import Byte.
From stdpp Require Import base numbers list gmap option.
From S2P Require Import Prelude.

Local Open Scope Z_scope.

(** ** State *)

(** [AioInfo]: [procPtr] is a procedure of the caller, or null. *)
Record AioInfo := mkAio { procPtr : option nat; clientData : Z; fd : Z; len : Z; offset : Z; inUse : bool }.

Definition no_aio : AioInfo := mkAio None 0 0 0 0 false.

(** The static variables; a null [asyncIoTable] is [None]. *)
Record aio := mkState {
  asyncIoInUse : bool;
  asyncIoTable : option (list AioInfo);
  readFdSet : gset Z; writeFdSet : gset Z;
  readFdSetPost : gset Z; writeFdSetPost : gset Z;
  numRdPosted : Z; numWrPosted : Z; maxFd : Z;
}.

Definition FD_SETSIZE : Z := 1024.
Definition fd_ok (f : Z) : res () := if (0 <=? f) && (f <? FD_SETSIZE) then Ok () else Fault OutOfBounds.

Definition AIO_RD_IX (f : Z) : Z := f * 2.
Definition AIO_WR_IX (f : Z) : Z := f * 2 + 1.

Definition set_table (t : list AioInfo) (s : aio) : aio :=
  mkState (asyncIoInUse s) (Some t) (readFdSet s) (writeFdSet s) (readFdSetPost s) (writeFdSetPost s) (numRdPosted s) (numWrPosted s) (maxFd s).
Definition set_in_use (s : aio) : aio :=
  mkState true (asyncIoTable s) (readFdSet s) (writeFdSet s) (readFdSetPost s) (writeFdSetPost s) (numRdPosted s) (numWrPosted s) (maxFd s).
Definition set_maxFd (m : Z) (s : aio) : aio :=
  mkState (asyncIoInUse s) (asyncIoTable s) (readFdSet s) (writeFdSet s) (readFdSetPost s) (writeFdSetPost s) (numRdPosted s) (numWrPosted s) m.
Definition set_rd (r p : gset Z) (n : Z) (s : aio) : aio :=
  mkState (asyncIoInUse s) (asyncIoTable s) r (writeFdSet s) p (writeFdSetPost s) n (numWrPosted s) (maxFd s).
Definition set_wr (r p : gset Z) (n : Z) (s : aio) : aio :=
  mkState (asyncIoInUse s) (asyncIoTable s) (readFdSet s) r (readFdSetPost s) p (numRdPosted s) n (maxFd s).

Definition table (s : aio) : res (list AioInfo) := match asyncIoTable s with Some t => Ok t | None => Fault OutOfBounds end.

Definition entry (i : Z) (s : aio) : res AioInfo :=
  t ← table s;
  match (if i <? 0 then None else t !! Z.to_nat i) with Some e => Ok e | None => Fault OutOfBounds end.
Definition set_entry (i : Z) (e : AioInfo) (s : aio) : res aio :=
  t ← table s;
  if (i <? 0) || (Z.of_nat (length t) <=? i) then Fault OutOfBounds else Ok (set_table (<[Z.to_nat i := e]> t) s).

(** ** Posting *)

(** The table part of [OS_LibInit]; [asyncIoTableSize] is 16. *)
Definition OS_LibInit (s : aio) : aio :=
  mkState (asyncIoInUse s) (Some (replicate 16 no_aio)) ∅ ∅ ∅ ∅ (numRdPosted s) (numWrPosted s) (maxFd s).

Definition initial : aio := mkState false None ∅ ∅ ∅ ∅ 0 0 (-1).

Definition GrowAsyncTable (t : list AioInfo) : list AioInfo := t ++ replicate (length t) no_aio.

(** [while (index >= asyncIoTableSize) GrowAsyncTable();] *)
Fixpoint grow (fuel : nat) (index : Z) (t : list AioInfo) : res (list AioInfo) :=
  if index <? Z.of_nat (length t) then Ok t else
  match fuel with
  | O => Fault OutOfFuel
  | S fuel => grow fuel index (GrowAsyncTable t)
  end.

(** The common part of [OS_AsyncRead] and [OS_AsyncWrite]. *)
Definition post (index f off l : Z) (proc : nat) (data : Z) (s : aio) : res aio :=
  let s := set_in_use s in
  let s := if maxFd s <? f then set_maxFd f s else s in
  t ← table s;
  t ← grow (Z.to_nat (index + 1)) index t;
  let s := set_table t s in
  e ← entry index s;
  assert_ (negb (inUse e)) ;;
  set_entry index (mkAio (Some proc) data f l off true) s.

Definition OS_AsyncRead (f off l : Z) (proc : nat) (data : Z) (s : aio) : res aio :=
  assert_ (bool_decide (is_Some (asyncIoTable s))) ;;
  s ← post (AIO_RD_IX f) f off l proc data s;
  fd_ok f ;;
  Ok (set_rd ({[ f ]} ∪ readFdSet s) (readFdSetPost s) (numRdPosted s) s).

Definition OS_AsyncWrite (f off l : Z) (proc : nat) (data : Z) (s : aio) : res aio :=
  s ← post (AIO_WR_IX f) f off l proc data s;
  fd_ok f ;;
  Ok (set_wr ({[ f ]} ∪ writeFdSet s) (writeFdSetPost s) (numWrPosted s) s).

(** [STDIN_FILENO] is 0; the table is not grown. *)
Definition OS_AsyncReadStdin (l : Z) (proc : nat) (data : Z) (s : aio) : res aio :=
  let s := set_in_use s in
  e ← entry (AIO_RD_IX 0) s;
  assert_ (negb (inUse e)) ;;
  s ← set_entry (AIO_RD_IX 0) (mkAio (Some proc) data 0 l 0 true) s;
  let s := set_rd ({[ 0 ]} ∪ readFdSet s) (readFdSetPost s) (numRdPosted s) s in
  Ok (if maxFd s <? 0 then set_maxFd 0 s else s).

(** ** Closing *)

Definition unuse (e : AioInfo) : AioInfo := mkAio (procPtr e) (clientData e) (fd e) (len e) (offset e) false.
Definition clear_use (i : Z) (s : aio) : res aio :=
  e ← entry i s;
  if inUse e then set_entry i (unuse e) s else Ok s.

(** What [poll] and [read] answer while what the client still sends is thrown away. *)
Inductive drain_step := PollFails | PollTimeout | ReadSome | ReadEnd | ReadFails.

(** The [do] loop: the answers that are left, [None] when it still waits. *)
Fixpoint drain_client (ss : list drain_step) : option (list drain_step) :=
  match ss with
  | [] => None
  | ReadSome :: ss => drain_client ss
  | _ :: ss => Some ss
  end.

(** The table's part of [OS_Close]. *)
Definition forget_fd (f : Z) (s : aio) : res aio :=
  if asyncIoInUse s then
    fd_ok f ;;
    let s := set_rd (readFdSet s ∖ {[ f ]}) (readFdSetPost s ∖ {[ f ]}) (numRdPosted s) s in
    s ← clear_use (AIO_RD_IX f) s;
    let s := set_wr (writeFdSet s ∖ {[ f ]}) (writeFdSetPost s ∖ {[ f ]}) (numWrPosted s) s in
    s ← clear_use (AIO_WR_IX f) s;
    Ok (if maxFd s =? f then set_maxFd (maxFd s - 1) s else s)
  else Ok s.

Inductive close_end := NotOpen | StillWaiting | Closed (drained : nat).

(** [shut] says that [shutdown(fd, 1)] succeeded. *)
Definition OS_Close (f : Z) (shut : bool) (ss : list drain_step) (s : aio) : res (close_end * aio) :=
  if f =? -1 then Ok (NotOpen, s) else
  s ← forget_fd f s;
  if shut : bool then
    match drain_client ss with
    | None => Ok (StillWaiting, s)
    | Some r => Ok (Closed (length ss - length r), s)
    end
  else Ok (Closed 0, s).

Definition OS_CloseRead (f : Z) (s : aio) : res aio :=
  e ← entry (AIO_RD_IX f) s;
  if inUse e then
    s ← set_entry (AIO_RD_IX f) (unuse e) s;
    Ok (set_rd (readFdSet s ∖ {[ f ]}) (readFdSetPost s) (numRdPosted s) s)
  else Ok s.

(** ** Completion *)

(** A call to a completion procedure, [(procPtr)(clientData, len)]. *)
Record call := Call { c_proc : nat; c_data : Z; c_len : Z }.

Section doio.
(** What [read] and [write] return for a descriptor and a length, and what a completion
    procedure does when it is called with its data and that result. *)
Context (sys_read sys_write : Z → Z → Z) (complete : nat → Z → Z → aio → res aio).

(** The descriptors from 0 to [maxFd] in the order of the loops. *)
Definition fds_upto (m : Z) : list Z := Z.of_nat <$> seq 0 (Z.to_nat (m + 1)).

(** After [select] has left the sets [rd] and [wr]: the completed ones are posted. *)
Fixpoint post_ready (fs : list Z) (rd wr : gset Z) (s : aio) : aio :=
  match fs with
  | [] => s
  | f :: fs =>
      let s := if decide (f ∈ rd) then set_rd (readFdSet s ∖ {[ f ]}) ({[ f ]} ∪ readFdSetPost s) (numRdPosted s + 1) s else s in
      let s := if decide (f ∈ wr) then set_wr (writeFdSet s ∖ {[ f ]}) ({[ f ]} ∪ writeFdSetPost s) (numWrPosted s + 1) s else s in
      post_ready fs rd wr s
  end.

(** One completed operation: the entry is freed, then its procedure is called. *)
Definition finish (e : AioInfo) (i n : Z) (s : aio) : res (list call * aio) :=
  s ← set_entry i (mkAio None (clientData e) (fd e) (len e) (offset e) false) s;
  match procPtr e with
  | Some p => s ← complete p (clientData e) n s; Ok ([Call p (clientData e) n], s)
  | None => Fault OutOfBounds
  end.

Definition complete_read (f : Z) (s : aio) : res (list call * aio) :=
  if decide (f ∈ readFdSetPost s) then
    e ← entry (AIO_RD_IX f) s;
    if inUse e then
      finish e (AIO_RD_IX f) (sys_read (fd e) (len e)) (set_rd (readFdSet s) (readFdSetPost s ∖ {[ f ]}) (numRdPosted s - 1) s)
    else Ok ([], s)
  else Ok ([], s).

Definition complete_write (f : Z) (s : aio) : res (list call * aio) :=
  if decide (f ∈ writeFdSetPost s) then
    e ← entry (AIO_WR_IX f) s;
    if inUse e then
      finish e (AIO_WR_IX f) (sys_write (fd e) (len e)) (set_wr (writeFdSet s) (writeFdSetPost s ∖ {[ f ]}) (numWrPosted s - 1) s)
    else Ok ([], s)
  else Ok ([], s).

(** The last loop; [maxFd] is read again in every turn, a procedure may raise it. *)
Fixpoint dispatch (fuel : nat) (f : Z) (s : aio) : res (list call * aio) :=
  match fuel with
  | O => Ok ([], s)
  | S fuel =>
      if maxFd s <? f then Ok ([], s) else
      '(cr, s) ← complete_read f s;
      '(cw, s) ← complete_write f s;
      '(cs, s) ← dispatch fuel (f + 1) s;
      Ok (cr ++ cw ++ cs, s)
  end.

(** [select]: the subsets of the two sets it leaves. *)
Definition OS_DoIo (select : gset Z → gset Z → gset Z * gset Z) (s : aio) : res (list call * aio) :=
  let s := set_in_use s in
  let upto := list_to_set (fds_upto (maxFd s)) in
  let s :=
    if (numRdPosted s =? 0) && (numWrPosted s =? 0) then
      let '(rd, wr) := select (readFdSet s ∩ upto) (writeFdSet s ∩ upto) in
      post_ready (fds_upto (maxFd s)) rd wr s
    else s in
  if (numRdPosted s =? 0) && (numWrPosted s =? 0) then Ok ([], s) else
  dispatch (Z.to_nat FD_SETSIZE) 0 s.
End doio.

(** ** Invariant *)

(** The operations that wait for [select] and the ones it has completed. *)
Record side (t : list AioInfo) (m : Z) (ix : Z → Z) (sel done_ : gset Z) (n : Z) : Prop := {
  sd_disjoint : sel ## done_;
  sd_count : n = Z.of_nat (base.size done_);
  sd_entry f : f ∈ sel ∪ done_ → 0 ≤ f ≤ m ∧ ∃ e, t !! Z.to_nat (ix f) = Some e ∧ inUse e = true ∧ is_Some (procPtr e);
}.

Record aio_inv (s : aio) : Prop := {
  ai_table : ∃ t, asyncIoTable s = Some t ∧ (0 < length t)%nat ∧
    side t (maxFd s) AIO_RD_IX (readFdSet s) (readFdSetPost s) (numRdPosted s) ∧
    side t (maxFd s) AIO_WR_IX (writeFdSet s) (writeFdSetPost s) (numWrPosted s);
  ai_max : maxFd s < FD_SETSIZE;
}.

Lemma entry_ok s t i e : asyncIoTable s = Some t → 0 ≤ i → t !! Z.to_nat i = Some e → entry i s = Ok e.
Proof. intros E Hi He. unfold entry, table. rewrite E. cbn. rewrite (proj2 (Z.ltb_ge _ _)) by lia. by rewrite He. Qed.

Lemma set_entry_ok s t i e : asyncIoTable s = Some t → 0 ≤ i < Z.of_nat (length t) → set_entry i e s = Ok (set_table (<[Z.to_nat i := e]> t) s).
Proof.
intros E Hi. unfold set_entry, table. rewrite E. cbn [mbind res_bind]. by rewrite (proj2 (Z.ltb_ge _ _)), (proj2 (Z.leb_gt _ _)) by lia.
Qed.

(** ** Growing *)

Lemma grow_ok fuel index t :
  (0 < length t)%nat → index < Z.of_nat (length t) + Z.of_nat fuel →
  ∃ t', grow fuel index t = Ok t' ∧ index < Z.of_nat (length t') ∧ (length t ≤ length t')%nat ∧
    (∀ i e, t !! i = Some e → t' !! i = Some e) ∧ (∀ i e, t' !! i = Some e → t !! i = Some e ∨ e = no_aio).
Proof.
revert t. induction fuel as [|fuel IH]; intros t Ht Hi; cbn [grow]; destruct (Z.ltb_spec index (Z.of_nat (length t))); try (by exists t; split_and!; auto); [lia|].
destruct (IH (GrowAsyncTable t)) as (t' & E & H1 & H2 & H3 & H4).
- unfold GrowAsyncTable. rewrite length_app. lia.
- unfold GrowAsyncTable. rewrite length_app, length_replicate. lia.
- unfold GrowAsyncTable in H2. rewrite length_app in H2. exists t'. split_and!; [done|done|lia| |].
  + intros i e He. apply H3. unfold GrowAsyncTable. by apply lookup_app_l_Some.
  + intros i e He. apply H4 in He as [He|He]; [|by right]. unfold GrowAsyncTable in He. apply lookup_app_Some in He as [He|[_ He]]; [by left|].
    right. by apply lookup_replicate_1 in He as [? _].
Qed.

Lemma side_mono t t' m m' ix sel d n :
  side t m ix sel d n → m ≤ m' → (∀ f e, f ∈ sel ∪ d → t !! Z.to_nat (ix f) = Some e → t' !! Z.to_nat (ix f) = Some e) → side t' m' ix sel d n.
Proof.
intros [? ? He] Hm Ht. split; [done|done|]. intros f Hf. destruct (He f Hf) as (? & e & E & ?). split; [lia|]. exists e. split; [by apply Ht|done].
Qed.

(** A new operation waits for [select]. *)
Lemma side_add t m ix sel d n f e :
  side t m ix sel d n → f ∉ d → 0 ≤ f ≤ m → (Z.to_nat (ix f) < length t)%nat →
  inUse e = true → is_Some (procPtr e) → (∀ g, g ∈ sel ∪ d → g ≠ f → Z.to_nat (ix g) ≠ Z.to_nat (ix f)) →
  side (<[Z.to_nat (ix f) := e]> t) m ix ({[ f ]} ∪ sel) d n.
Proof.
intros [Hd Hn He] Hf Hm Hl Hu Hp Hinj. split; [apply disjoint_union_l; split; [by apply disjoint_singleton_l|done]|done|].
intros g Hg. destruct (decide (g = f)) as [->|Hne].
- split; [done|]. exists e. by rewrite list_lookup_insert_eq.
- assert (g ∈ sel ∪ d) as Hg' by (rewrite !elem_of_union, elem_of_singleton in *; tauto).
  destruct (He g Hg') as (? & e' & E & ?). split; [done|]. exists e'. rewrite list_lookup_insert_ne; [done|].
  apply not_eq_sym, Hinj; done.
Qed.

Lemma free_not_posted t m ix sel d n f e :
  side t m ix sel d n → t !! Z.to_nat (ix f) = Some e → inUse e = false → f ∉ sel ∪ d.
Proof. intros [_ _ He] E Hu Hf. destruct (He f Hf) as (_ & e' & E' & Hu' & _). congruence. Qed.

(** The entry a read of [f] would use is free. *)
Definition free_entry (i : Z) (s : aio) : Prop :=
  ∀ t e, asyncIoTable s = Some t → t !! Z.to_nat i = Some e → inUse e = false.

Lemma post_ok index f off l p d s :
  aio_inv s → 0 ≤ f < FD_SETSIZE → (index = AIO_RD_IX f ∨ index = AIO_WR_IX f) →
  free_entry index s →
  ∃ t t', asyncIoTable s = Some t ∧ (Z.to_nat index < length t')%nat ∧ (∀ i e, t !! i = Some e → t' !! i = Some e) ∧
    (∀ e, t' !! Z.to_nat index = Some e → inUse e = false) ∧
    post index f off l p d s =
      Ok (set_table (<[Z.to_nat index := mkAio (Some p) d f l off true]> t')
            (set_maxFd (Z.max (maxFd s) f) (set_in_use s))).
Proof.
intros [(t & Et & Hlen & _) Hmax] Hf Hix Hfree. assert (0 ≤ index) as Hi by (unfold AIO_RD_IX, AIO_WR_IX in Hix; lia).
destruct (grow_ok (Z.to_nat (index + 1)) index t Hlen) as (t' & Eg & H1 & H2 & H3 & H4); [lia|]. exists t, t'.
assert (is_Some (t' !! Z.to_nat index)) as [e He] by (apply lookup_lt_is_Some; lia).
assert (∀ e, t' !! Z.to_nat index = Some e → inUse e = false) as Hfr by (intros e' [He'| ->]%H4; [by eapply Hfree|done]).
split_and!; [done|lia|done|done|]. unfold post. cbn [set_in_use maxFd].
set (s1 := if maxFd s <? f then _ else _).
assert (s1 = set_maxFd (Z.max (maxFd s) f) (set_in_use s)) as -> by (unfold s1; destruct (Z.ltb_spec (maxFd s) f); cbn; unfold set_maxFd, set_in_use; cbn; f_equal; lia).
unfold table. cbn [set_maxFd set_in_use asyncIoTable]. rewrite Et. cbn [mbind res_bind]. rewrite Eg. cbn [mbind res_bind].
rewrite (entry_ok _ t' index e) by done. cbn [mbind res_bind]. rewrite (Hfr e He). cbn [negb assert_ mbind res_bind].
rewrite (set_entry_ok _ t') by (done || lia). done.
Qed.

Lemma fd_ok_ok f : 0 ≤ f < FD_SETSIZE → fd_ok f = Ok ().
Proof. intros H. unfold fd_ok. by rewrite (proj2 (Z.leb_le _ _)), (proj2 (Z.ltb_lt _ _)) by lia. Qed.

(** The entries of the completed operations that are left have not changed. *)
Definition kept (s s' : aio) : Prop :=
  ∀ t t', asyncIoTable s = Some t → asyncIoTable s' = Some t' →
    (∀ f, f ∈ readFdSetPost s' → t' !! Z.to_nat (AIO_RD_IX f) = t !! Z.to_nat (AIO_RD_IX f)) ∧
    (∀ f, f ∈ writeFdSetPost s' → t' !! Z.to_nat (AIO_WR_IX f) = t !! Z.to_nat (AIO_WR_IX f)).

Lemma OS_AsyncRead_ok f off l p d s :
  aio_inv s → 0 ≤ f < FD_SETSIZE → free_entry (AIO_RD_IX f) s →
  ∃ s', OS_AsyncRead f off l p d s = Ok s' ∧ aio_inv s' ∧ f ∈ readFdSet s' ∧ kept s s' ∧
    readFdSetPost s' = readFdSetPost s ∧ writeFdSetPost s' = writeFdSetPost s ∧ maxFd s ≤ maxFd s'.
Proof.
intros H Hf Hfree. destruct (post_ok (AIO_RD_IX f) f off l p d s H Hf) as (t & t' & Et & Hl & Hkeep & Hfr & E); [by left|done|].
destruct H as [(t0 & Et0 & Hlen & Hr & Hw) Hmax]. assert (t0 = t) as -> by congruence.
unfold OS_AsyncRead. rewrite bool_decide_true by (by rewrite Et). cbn [assert_ mbind res_bind]. rewrite E. cbn [mbind res_bind].
rewrite fd_ok_ok by done. cbn [mbind res_bind]. eexists. split; [done|]. cbn. 
pose proof (side_mono _ t' _ (Z.max (maxFd s) f) _ _ _ _ Hr ltac:(lia) ltac:(intros; by apply Hkeep)) as Hr'.
pose proof (side_mono _ t' _ (Z.max (maxFd s) f) _ _ _ _ Hw ltac:(lia) ltac:(intros; by apply Hkeep)) as Hw'.
assert (f ∉ readFdSet s ∪ readFdSetPost s) as Hn.
{ assert (is_Some (t' !! Z.to_nat (AIO_RD_IX f))) as [e He] by (by apply lookup_lt_is_Some). by eapply free_not_posted; [exact Hr'|exact He|apply Hfr]. }
split_and!; try done; [|apply elem_of_union; left; by apply elem_of_singleton| |lia].
2:{ intros t1 t2 E1 [= <-]. assert (t1 = t) as -> by congruence. cbn. split; intros g Hg.
    - destruct (sd_entry _ _ _ _ _ _ Hr g) as (? & e & He & _); [by apply elem_of_union_r|]. rewrite He, list_lookup_insert_ne; [by apply Hkeep|].
      assert (g ≠ f) by (intros ->; by apply Hn, elem_of_union_r). unfold AIO_RD_IX. lia.
    - destruct (sd_entry _ _ _ _ _ _ Hw g) as (? & e & He & _); [by apply elem_of_union_r|]. rewrite He, list_lookup_insert_ne; [by apply Hkeep|].
      unfold AIO_RD_IX, AIO_WR_IX. lia. }
split; [|cbn; lia]. eexists. split; [done|]. rewrite length_insert. split; [lia|]. cbn. split.
- apply side_add; try done; [rewrite elem_of_union in Hn; tauto|lia|]. intros g Hg Hne. destruct (sd_entry _ _ _ _ _ _ Hr' g Hg) as [? _]. unfold AIO_RD_IX. lia.
- eapply side_mono; [exact Hw'|lia|]. intros g e Hg He. destruct (sd_entry _ _ _ _ _ _ Hw' g Hg) as [? _].
  rewrite list_lookup_insert_ne; [done|]. unfold AIO_RD_IX, AIO_WR_IX. lia.
Qed.

(** ** Completing *)

(** An operation of the descriptor [f] is taken out of the completed ones. *)
Lemma side_take t m ix sel d n f e :
  side t m ix sel d n → f ∈ d → (∀ g, g ∈ sel ∪ d → g ≠ f → Z.to_nat (ix g) ≠ Z.to_nat (ix f)) →
  side (<[Z.to_nat (ix f) := e]> t) m ix sel (d ∖ {[ f ]}) (n - 1).
Proof.
intros [Hd Hn He] Hf Hinj. split.
- intros g Hg [Hg' _]%elem_of_difference. by apply (Hd g).
- rewrite size_difference by (by apply singleton_subseteq_l). rewrite size_singleton.
  assert (base.size ({[ f ]} : gset Z) ≤ base.size d)%nat as Hle by (apply subseteq_size; by apply singleton_subseteq_l).
  rewrite size_singleton in Hle. lia.
- intros g Hg. rewrite elem_of_union, elem_of_difference, elem_of_singleton in Hg.
  assert (g ≠ f) as Hne by (intros ->; destruct Hg as [Hg|[_ Hg]]; [by apply (Hd f)|done]).
  assert (g ∈ sel ∪ d) as Hg' by (rewrite elem_of_union; tauto). destruct (He g Hg') as (? & e' & E & ?). split; [done|]. exists e'.
  rewrite list_lookup_insert_ne; [done|]. by apply not_eq_sym, Hinj.
Qed.

Lemma side_other t m ix sel d n i e :
  side t m ix sel d n → (∀ g, g ∈ sel ∪ d → Z.to_nat (ix g) ≠ i) → side (<[i := e]> t) m ix sel d n.
Proof.
intros H Hi. eapply side_mono; [exact H|lia|]. intros g e' Hg He. rewrite list_lookup_insert_ne; [done|]. by apply not_eq_sym, Hi.
Qed.

(** A completion procedure may post and cancel what has not completed. *)
Definition tidy (complete : nat → Z → Z → aio → res aio) : Prop :=
  ∀ p d n s, aio_inv s → ∃ s', complete p d n s = Ok s' ∧ aio_inv s' ∧ kept s s' ∧
    readFdSetPost s' = readFdSetPost s ∧ writeFdSetPost s' = writeFdSetPost s ∧ maxFd s ≤ maxFd s'.

Section drains.
Context (sys_read sys_write : Z → Z → Z) (complete : nat → Z → Z → aio → res aio) (Htidy : tidy complete).

(** The call that completes the operation of an entry, with the answer of the system. *)
Definition call_of (answer : Z → Z → Z) (t : list AioInfo) (i : Z) : list call :=
  match t !! Z.to_nat i with
  | Some e => match procPtr e with Some p => [Call p (clientData e) (answer (fd e) (len e))] | None => [] end
  | None => []
  end.

(** The calls for the descriptors [fs], of the reads in [rd] and the writes in [wr]. *)
Definition calls_at (t : list AioInfo) (rd wr : gset Z) (f : Z) : list call :=
  (if decide (f ∈ rd) then call_of sys_read t (AIO_RD_IX f) else []) ++
  (if decide (f ∈ wr) then call_of sys_write t (AIO_WR_IX f) else []).
Definition completions (t : list AioInfo) (rd wr : gset Z) (fs : list Z) : list call := concat (calls_at t rd wr <$> fs).

Lemma absent (f : Z) (d : gset Z) : f ∉ d → d ∖ {[ f ]} = d.
Proof. intros H. apply set_eq. intros g. rewrite elem_of_difference, elem_of_singleton. split; [tauto|]. intros Hg. split; [done|]. by intros ->. Qed.

Lemma kept_refl s : kept s s.
Proof. intros t t' E E'. assert (t' = t) as -> by congruence. done. Qed.

Lemma complete_read_ok f s t :
  aio_inv s → asyncIoTable s = Some t →
  ∃ s', complete_read sys_read complete f s = Ok (if decide (f ∈ readFdSetPost s) then call_of sys_read t (AIO_RD_IX f) else [], s') ∧ aio_inv s' ∧
    kept s s' ∧ readFdSetPost s' = readFdSetPost s ∖ {[ f ]} ∧ writeFdSetPost s' = writeFdSetPost s ∧ maxFd s ≤ maxFd s'.
Proof.
intros H Et. unfold complete_read. case_decide as Hf; [|exists s; rewrite absent by done; split_and!; try done; apply kept_refl].
pose proof H as [(t0 & Et0 & Hlen & Hr & Hw) Hmax]. assert (t0 = t) as -> by congruence.
destruct (sd_entry _ _ _ _ _ _ Hr f) as (Hrange & e & He & Hu & [p Hp]); [by apply elem_of_union_r|].
pose proof (lookup_lt_Some _ _ _ He) as Hlt. assert (0 ≤ AIO_RD_IX f) by (unfold AIO_RD_IX; lia).
rewrite (entry_ok s t _ e) by done. cbn [mbind res_bind]. rewrite Hu. unfold finish, call_of. rewrite He.
rewrite (set_entry_ok _ t) by (done || lia). cbn [mbind res_bind]. rewrite Hp.
destruct (Htidy p (clientData e) (sys_read (fd e) (len e)) (set_table (<[Z.to_nat (AIO_RD_IX f) := mkAio None (clientData e) (fd e) (len e) (offset e) false]> t)
  (set_rd (readFdSet s) (readFdSetPost s ∖ {[f]}) (numRdPosted s - 1) s))) as (s' & E & Hi & Hk & E1 & E2 & E3).
- split; [|done]. eexists. split; [done|]. rewrite length_insert. split; [done|]. cbn. split.
  + apply side_take; [done..|]. intros g Hg Hne. destruct (sd_entry _ _ _ _ _ _ Hr g Hg) as [? _]. unfold AIO_RD_IX. lia.
  + apply side_other; [done|]. intros g Hg. destruct (sd_entry _ _ _ _ _ _ Hw g Hg) as [? _]. unfold AIO_RD_IX, AIO_WR_IX. lia.
- exists s'. rewrite E. split_and!; try done. intros t1 t' Et1 Et'. assert (t1 = t) as -> by congruence. destruct (Hk _ _ eq_refl Et') as [K1 K2].
  split; intros g Hg; [rewrite (K1 g Hg)|rewrite (K2 g Hg)]; apply list_lookup_insert_ne.
  + rewrite E1 in Hg. cbn in Hg. apply elem_of_difference in Hg as [Hg Hne]. rewrite elem_of_singleton in Hne.
    destruct (sd_entry _ _ _ _ _ _ Hr g) as [? _]; [by apply elem_of_union_r|]. unfold AIO_RD_IX. lia.
  + rewrite E2 in Hg. destruct (sd_entry _ _ _ _ _ _ Hw g) as [? _]; [by apply elem_of_union_r|]. unfold AIO_RD_IX, AIO_WR_IX. lia.
Qed.

Lemma complete_write_ok f s t :
  aio_inv s → asyncIoTable s = Some t →
  ∃ s', complete_write sys_write complete f s = Ok (if decide (f ∈ writeFdSetPost s) then call_of sys_write t (AIO_WR_IX f) else [], s') ∧ aio_inv s' ∧
    kept s s' ∧ writeFdSetPost s' = writeFdSetPost s ∖ {[ f ]} ∧ readFdSetPost s' = readFdSetPost s ∧ maxFd s ≤ maxFd s'.
Proof.
intros H Et. unfold complete_write. case_decide as Hf; [|exists s; rewrite absent by done; split_and!; try done; apply kept_refl].
pose proof H as [(t0 & Et0 & Hlen & Hr & Hw) Hmax]. assert (t0 = t) as -> by congruence.
destruct (sd_entry _ _ _ _ _ _ Hw f) as (Hrange & e & He & Hu & [p Hp]); [by apply elem_of_union_r|].
pose proof (lookup_lt_Some _ _ _ He) as Hlt. assert (0 ≤ AIO_WR_IX f) by (unfold AIO_WR_IX; lia).
rewrite (entry_ok s t _ e) by done. cbn [mbind res_bind]. rewrite Hu. unfold finish, call_of. rewrite He.
rewrite (set_entry_ok _ t) by (done || lia). cbn [mbind res_bind]. rewrite Hp.
destruct (Htidy p (clientData e) (sys_write (fd e) (len e)) (set_table (<[Z.to_nat (AIO_WR_IX f) := mkAio None (clientData e) (fd e) (len e) (offset e) false]> t)
  (set_wr (writeFdSet s) (writeFdSetPost s ∖ {[f]}) (numWrPosted s - 1) s))) as (s' & E & Hi & Hk & E1 & E2 & E3).
- split; [|done]. eexists. split; [done|]. rewrite length_insert. split; [done|]. cbn. split.
  + apply side_other; [done|]. intros g Hg. destruct (sd_entry _ _ _ _ _ _ Hr g Hg) as [? _]. unfold AIO_RD_IX, AIO_WR_IX. lia.
  + apply side_take; [done..|]. intros g Hg Hne. destruct (sd_entry _ _ _ _ _ _ Hw g Hg) as [? _]. unfold AIO_WR_IX. lia.
- exists s'. rewrite E. split_and!; try done. intros t1 t' Et1 Et'. assert (t1 = t) as -> by congruence. destruct (Hk _ _ eq_refl Et') as [K1 K2].
  split; intros g Hg; [rewrite (K1 g Hg)|rewrite (K2 g Hg)]; apply list_lookup_insert_ne.
  + rewrite E1 in Hg. destruct (sd_entry _ _ _ _ _ _ Hr g) as [? _]; [by apply elem_of_union_r|]. unfold AIO_RD_IX, AIO_WR_IX. lia.
  + rewrite E2 in Hg. cbn in Hg. apply elem_of_difference in Hg as [Hg Hne]. rewrite elem_of_singleton in Hne.
    destruct (sd_entry _ _ _ _ _ _ Hw g) as [? _]; [by apply elem_of_union_r|]. unfold AIO_WR_IX. lia.
Qed.

(** Every posted descriptor is from [f] on. *)
Definition from (f : Z) (s : aio) : Prop := ∀ g, g ∈ readFdSetPost s ∪ writeFdSetPost s → f ≤ g.

(** The calls depend on the entries of the completed operations only. *)
Lemma completions_ext t t' rd wr rd' wr' fs :
  (∀ g, g ∈ fs → (g ∈ rd ↔ g ∈ rd') ∧ (g ∈ wr ↔ g ∈ wr')) →
  (∀ g, g ∈ rd' → t' !! Z.to_nat (AIO_RD_IX g) = t !! Z.to_nat (AIO_RD_IX g)) →
  (∀ g, g ∈ wr' → t' !! Z.to_nat (AIO_WR_IX g) = t !! Z.to_nat (AIO_WR_IX g)) →
  completions t' rd' wr' fs = completions t rd wr fs.
Proof.
intros Hs Hr Hw. unfold completions. f_equal. apply list_fmap_ext. intros i g Hg. apply list_elem_of_lookup_2 in Hg. destruct (Hs g Hg) as [E1 E2].
unfold calls_at, call_of. f_equal.
- destruct (decide (g ∈ rd')) as [Hin|Hni]; [rewrite decide_True by tauto; by rewrite Hr|by rewrite decide_False by tauto].
- destruct (decide (g ∈ wr')) as [Hin|Hni]; [rewrite decide_True by tauto; by rewrite Hw|by rewrite decide_False by tauto].
Qed.

Lemma completions_none t fs : completions t ∅ ∅ fs = [].
Proof. unfold completions. induction fs as [|f fs IH]; [done|]. cbn. unfold calls_at at 1. rewrite !decide_False by apply not_elem_of_empty. done. Qed.

(** Nothing is left when the loop has passed [maxFd]. *)
Lemma passed_empty s f : aio_inv s → from f s → maxFd s < f → readFdSetPost s = ∅ ∧ writeFdSetPost s = ∅.
Proof.
intros [(t & _ & _ & Hr & Hw) _] Hfrom Hm. split; apply set_eq; intros g; (split; [|by intros ?%not_elem_of_empty]); intros Hg; exfalso.
- pose proof (Hfrom g ltac:(by apply elem_of_union_l)). destruct (sd_entry _ _ _ _ _ _ Hr g) as [? _]; [by apply elem_of_union_r|]. lia.
- pose proof (Hfrom g ltac:(by apply elem_of_union_r)). destruct (sd_entry _ _ _ _ _ _ Hw g) as [? _]; [by apply elem_of_union_r|]. lia.
Qed.

Lemma dispatch_ok fuel f s t :
  aio_inv s → asyncIoTable s = Some t → from f s → FD_SETSIZE ≤ f + Z.of_nat fuel →
  ∃ s', dispatch sys_read sys_write complete fuel f s = Ok (completions t (readFdSetPost s) (writeFdSetPost s) (seqZ f (Z.of_nat fuel)), s') ∧
    aio_inv s' ∧ readFdSetPost s' = ∅ ∧ writeFdSetPost s' = ∅.
Proof.
revert f s t. induction fuel as [|fuel IH]; intros f s t H Et Hfrom Hf; cbn [dispatch].
- exists s. split; [done|]. split; [done|]. apply (passed_empty s f); try done. pose proof (ai_max _ H). lia.
- destruct (Z.ltb_spec (maxFd s) f) as [Hm|Hm].
  { destruct (passed_empty s f H Hfrom Hm) as [-> ->]. exists s. rewrite completions_none. split; [done|]. split; [done|]. by apply (passed_empty s f). }
  destruct (complete_read_ok f s t H Et) as (s1 & E1 & H1 & K1 & R1 & W1 & M1). rewrite E1. cbn [mbind res_bind].
  pose proof (ai_table _ H1) as (t1 & Et1 & _). destruct (complete_write_ok f s1 t1 H1 Et1) as (s2 & E2 & H2 & K2 & W2 & R2 & M2). rewrite E2. cbn [mbind res_bind].
  pose proof (ai_table _ H2) as (t2 & Et2 & _). destruct (K1 _ _ Et Et1) as [K1r K1w], (K2 _ _ Et1 Et2) as [K2r K2w].
  destruct (IH (f + 1) s2 t2 H2 Et2) as (s' & E & H' & Hr & Hw); [|lia|].
  { intros g Hg. rewrite R2, R1, W2, W1 in Hg. rewrite elem_of_union, !elem_of_difference, !elem_of_singleton in Hg.
    assert (f ≤ g) by (apply Hfrom, elem_of_union; tauto). lia. }
  exists s'. rewrite E. cbn [mbind res_bind]. split; [|done]. do 2 f_equal.
  rewrite (seqZ_cons f) by lia. replace (Z.pred (Z.of_nat (S fuel))) with (Z.of_nat fuel) by lia. rewrite <- Z.add_1_r. unfold completions at 2. cbn [fmap list_fmap concat].
  unfold calls_at at 1. rewrite <- app_assoc. f_equal. f_equal.
  + rewrite <- W1. destruct (decide (f ∈ writeFdSetPost s1)) as [Hd|]; [|done]. unfold call_of. by rewrite K1w.
  + apply completions_ext.
    * intros g Hg%elem_of_seqZ. rewrite R2, R1, W2, W1, !elem_of_difference, !elem_of_singleton. split; (split; [|tauto]); intros; (split; [done|lia]).
    * intros g Hg. rewrite (K2r g Hg). apply K1r. by rewrite <- R2.
    * intros g Hg. rewrite (K2w g Hg). apply K1w. rewrite W2 in Hg. by apply elem_of_difference in Hg as [? _].
Qed.

(** ** A round *)

Lemma side_post t m ix sel d n f :
  side t m ix sel d n → f ∈ sel → side t m ix (sel ∖ {[ f ]}) ({[ f ]} ∪ d) (n + 1).
Proof.
intros [Hd Hn He] Hf. split.
- intros g [Hg Hne]%elem_of_difference [Hg'|Hg']%elem_of_union; [done|]. by apply (Hd g).
- rewrite size_union by (apply disjoint_singleton_l; intros Hf'; by apply (Hd f)). rewrite size_singleton. lia.
- intros g Hg. apply He. rewrite !elem_of_union, elem_of_difference, elem_of_singleton in *. destruct Hg as [[? _]|[->|?]]; tauto.
Qed.

Lemma post_ready_ok fs rd wr s :
  aio_inv s → NoDup fs → (∀ f, f ∈ fs → f ∈ rd → f ∈ readFdSet s) → (∀ f, f ∈ fs → f ∈ wr → f ∈ writeFdSet s) →
  aio_inv (post_ready fs rd wr s).
Proof.
revert s. induction fs as [|f fs IH]; intros s H Hnd Hr Hw; [done|]. apply list.NoDup_cons in Hnd as [Hf Hnd]. cbn [post_ready].
assert (∀ g, g ∈ fs → g ∈ f :: fs) as Hin by (intros; apply elem_of_cons; by right).
assert (∀ g, g ∈ fs → g ≠ f) as Hne by (by intros g Hg ->).
set (s1 := if decide (f ∈ rd) then _ else s). assert (aio_inv s1 ∧ (∀ g, g ∈ fs → g ∈ rd → g ∈ readFdSet s1) ∧ writeFdSet s1 = writeFdSet s) as (H1 & R1 & W1).
{ unfold s1. case_decide as Hd; [|by split_and!; auto]. destruct H as [(t & Et & Hlen & Hrd & Hwr) Hmax]. split_and!; [|cbn|done].
  - split; [|done]. exists t. cbn. split_and!; try done. apply side_post; [done|]. apply Hr; [apply elem_of_cons; by left|done].
  - intros g Hg Hgr. apply elem_of_difference. split; [by apply Hr; auto|]. rewrite elem_of_singleton. by apply Hne. }
set (s2 := if decide (f ∈ wr) then _ else s1).
assert (aio_inv s2 ∧ (∀ g, g ∈ fs → g ∈ wr → g ∈ writeFdSet s2) ∧ readFdSet s2 = readFdSet s1) as (H2 & W2 & R2).
{ unfold s2. case_decide as Hd; [|split_and!; [done| |done]; intros g Hg Hgw; rewrite W1; auto].
  destruct H1 as [(t & Et & Hlen & Hrd & Hwr) Hmax]. split_and!; [|cbn|done].
  - split; [|done]. exists t. cbn. split_and!; try done. apply side_post; [done|]. rewrite W1. apply Hw; [apply elem_of_cons; by left|done].
  - intros g Hg Hgr. apply elem_of_difference. rewrite W1. split; [by apply Hw; auto|]. rewrite elem_of_singleton. by apply Hne. }
apply IH; [done|done| |done]. intros g Hg Hgr. rewrite R2. by apply R1.
Qed.

Lemma fds_upto_NoDup m : NoDup (fds_upto m).
Proof. unfold fds_upto. apply NoDup_fmap_2; [intros ? ? ?; lia|]. apply NoDup_seq. Qed.

(** What [select] has reported is posted, and no entry changes. *)
Lemma post_ready_sets fs rd wr s :
  NoDup fs → asyncIoTable (post_ready fs rd wr s) = asyncIoTable s ∧
  (∀ g, g ∈ readFdSetPost (post_ready fs rd wr s) ↔ g ∈ readFdSetPost s ∨ g ∈ fs ∧ g ∈ rd) ∧
  (∀ g, g ∈ writeFdSetPost (post_ready fs rd wr s) ↔ g ∈ writeFdSetPost s ∨ g ∈ fs ∧ g ∈ wr).
Proof.
revert s. induction fs as [|f fs IH]; intros s Hnd; cbn [post_ready].
{ split_and!; [done|..]; intros g; rewrite elem_of_nil; tauto. }
apply list.NoDup_cons in Hnd as [_ Hnd]. cbn zeta. match goal with |- context [post_ready fs rd wr ?x] => destruct (IH x Hnd) as (E & Er & Ew) end.
split_and!; [rewrite E|intros g; rewrite Er|intros g; rewrite Ew]; cbn zeta; repeat case_decide; cbn [asyncIoTable readFdSetPost writeFdSetPost set_rd set_wr];
  rewrite ?elem_of_cons, ?elem_of_union, ?elem_of_singleton; try done; clear IH E Er Ew; intuition (subst; tauto).
Qed.

(** One call for each posted operation. *)
Lemma side_calls answer t m ix sel d n fs :
  side t m ix sel d n → NoDup fs → (∀ g, g ∈ d → g ∈ fs) →
  length (concat ((λ f, if decide (f ∈ d) then call_of answer t (ix f) else []) <$> fs)) = base.size d.
Proof.
intros H Hnd Hin. transitivity (length (filter (λ f, f ∈ d) fs)).
- clear Hin Hnd. induction fs as [|f fs IH]; [done|]. rewrite filter_cons. cbn [fmap list_fmap concat]. rewrite length_app, IH. case_decide as Hd; [|done].
  destruct (sd_entry _ _ _ _ _ _ H f) as (_ & e & He & _ & [p Hp]); [by apply elem_of_union_r|]. unfold call_of. by rewrite He, Hp.
- rewrite <- (size_list_to_set (C := gset Z)) by (by apply list.NoDup_filter). f_equal. apply set_eq. intros g.
  rewrite elem_of_list_to_set, list_elem_of_filter. split; [tauto|auto].
Qed.

Lemma length_concat_app {A B} (f g : A → list B) l :
  length (concat ((λ x, f x ++ g x) <$> l)) = (length (concat (f <$> l)) + length (concat (g <$> l)))%nat.
Proof. induction l as [|x l IH]; [done|]. cbn. rewrite !length_app, IH. lia. Qed.

Lemma posted_calls s t :
  aio_inv s → asyncIoTable s = Some t →
  length (completions t (readFdSetPost s) (writeFdSetPost s) (seqZ 0 FD_SETSIZE)) = (base.size (readFdSetPost s) + base.size (writeFdSetPost s))%nat.
Proof.
intros [(t0 & Et0 & _ & Hr & Hw) Hmax] Et. assert (t0 = t) as -> by congruence. unfold completions, calls_at. rewrite length_concat_app. f_equal.
- eapply side_calls; [exact Hr|apply NoDup_seqZ|]. intros g Hg. destruct (sd_entry _ _ _ _ _ _ Hr g) as [? _]; [by apply elem_of_union_r|].
  apply elem_of_seqZ. lia.
- eapply side_calls; [exact Hw|apply NoDup_seqZ|]. intros g Hg. destruct (sd_entry _ _ _ _ _ _ Hw g) as [? _]; [by apply elem_of_union_r|].
  apply elem_of_seqZ. lia.
Qed.

(** What this call is to complete: what was left over or, when nothing was, what [select]
    reports of the operations that wait. *)
Definition reported (select : gset Z → gset Z → gset Z * gset Z) (s : aio) : gset Z * gset Z :=
  if decide (readFdSetPost s = ∅ ∧ writeFdSetPost s = ∅) then select (readFdSet s) (writeFdSet s) else (readFdSetPost s, writeFdSetPost s).

(** The members of a side are descriptors up to [maxFd]. *)
Lemma side_upto t m ix sel d n : side t m ix sel d n → sel ∩ list_to_set (fds_upto m) = sel.
Proof.
intros H. apply set_eq. intros g. rewrite elem_of_intersection, elem_of_list_to_set. split; [tauto|]. intros Hg. split; [done|].
destruct (sd_entry _ _ _ _ _ _ H g) as [? _]; [by apply elem_of_union_l|]. unfold fds_upto. rewrite list_elem_of_fmap. exists (Z.to_nat g).
split; [lia|]. apply elem_of_seq. lia.
Qed.

Lemma side_none t m ix sel d n : side t m ix sel d n → n = 0 ↔ d = ∅.
Proof.
intros H. rewrite (sd_count _ _ _ _ _ _ H). split; [|intros ->; by rewrite size_empty]. intros Hz. apply leibniz_equiv, size_empty_inv. lia.
Qed.

(** The first half of [OS_DoIo]: what is to be completed is posted. *)
Lemma doio_posts select s t :
  aio_inv s → asyncIoTable s = Some t → (∀ r w, (select r w).1 ⊆ r ∧ (select r w).2 ⊆ w) →
  let s1 := if (numRdPosted s =? 0) && (numWrPosted s =? 0) then
      let '(rd, wr) := select (readFdSet s ∩ list_to_set (fds_upto (maxFd s))) (writeFdSet s ∩ list_to_set (fds_upto (maxFd s))) in
      post_ready (fds_upto (maxFd s)) rd wr s
    else s in
  aio_inv s1 ∧ asyncIoTable s1 = Some t ∧ readFdSetPost s1 = (reported select s).1 ∧ writeFdSetPost s1 = (reported select s).2.
Proof.
intros H Et Hsel. pose proof H as [(t0 & Et0 & Hlen & Hr & Hw) Hmax]. assert (t0 = t) as -> by congruence.
rewrite (side_upto _ _ _ _ _ _ Hr), (side_upto _ _ _ _ _ _ Hw). unfold reported. destruct (Hsel (readFdSet s) (writeFdSet s)) as [Hsr Hsw].
destruct (select (readFdSet s) (writeFdSet s)) as [rd wr]. cbn in Hsr, Hsw. case_decide as Hd; cbn zeta.
- destruct Hd as [Hd1 Hd2]. assert (numRdPosted s = 0) as -> by (by apply (side_none _ _ _ _ _ _ Hr)). assert (numWrPosted s = 0) as -> by (by apply (side_none _ _ _ _ _ _ Hw)).
  cbn [Z.eqb andb].
  destruct (post_ready_sets (fds_upto (maxFd s)) rd wr s (fds_upto_NoDup _)) as (E & Er & Ew). split_and!; [|congruence|..].
  + apply post_ready_ok; [done|apply fds_upto_NoDup|intros; by apply Hsr|intros; by apply Hsw].
  + apply set_eq. intros g. rewrite Er, Hd1. rewrite elem_of_empty, <- (elem_of_list_to_set (C := gset Z)). cbn [fst].
    split; [tauto|]. intros Hg. right. split; [|done]. apply Hsr in Hg. rewrite <- (side_upto _ _ _ _ _ _ Hr) in Hg. by apply elem_of_intersection in Hg as [_ ?].
  + apply set_eq. intros g. rewrite Ew, Hd2. rewrite elem_of_empty, <- (elem_of_list_to_set (C := gset Z)). cbn [snd].
    split; [tauto|]. intros Hg. right. split; [|done]. apply Hsw in Hg. rewrite <- (side_upto _ _ _ _ _ _ Hw) in Hg. by apply elem_of_intersection in Hg as [_ ?].
- assert ((numRdPosted s =? 0) && (numWrPosted s =? 0) = false) as ->; [|done].
  apply not_true_iff_false. intros [E1%Z.eqb_eq E2%Z.eqb_eq]%andb_prop. apply Hd. split; [by apply (side_none _ _ _ _ _ _ Hr)|by apply (side_none _ _ _ _ _ _ Hw)].
Qed.

(** C24: [OS_DoIo] completes every operation that [select] reports or, when operations of an
    earlier call were left over, those, and leaves none: the procedures of exactly these
    operations are called, once each, in the order of the descriptors and the read before
    the write, with their data and with what [read] or [write] returned for their
    descriptor and length; the counters return to zero, so that the next call waits in
    [select] again, and the table describes exactly the operations that are posted.  The
    completion procedures may post and cancel operations that have not completed; they may
    not close or replace one that has. *)
Theorem doio_completes select s t :
  aio_inv s → asyncIoTable s = Some t → (∀ r w, (select r w).1 ⊆ r ∧ (select r w).2 ⊆ w) →
  let '(rd, wr) := reported select s in
  ∃ s', OS_DoIo sys_read sys_write complete select s = Ok (completions t rd wr (seqZ 0 FD_SETSIZE), s') ∧
    length (completions t rd wr (seqZ 0 FD_SETSIZE)) = (base.size rd + base.size wr)%nat ∧ aio_inv s' ∧
    readFdSetPost s' = ∅ ∧ writeFdSetPost s' = ∅ ∧ numRdPosted s' = 0 ∧ numWrPosted s' = 0.
Proof.
intros H Et Hsel. destruct (doio_posts select (set_in_use s) t) as (H1 & Et1 & R1 & W1); [by destruct H; split|done|done|].
change (reported select (set_in_use s)) with (reported select s) in *. destruct (reported select s) as [rd wr] eqn:Erep. cbn [fst snd] in *.
unfold OS_DoIo. set (s1 := if (numRdPosted (set_in_use s) =? 0) && (numWrPosted (set_in_use s) =? 0) then _ else set_in_use s).
change (aio_inv s1) in H1. change (asyncIoTable s1 = Some t) in Et1. change (readFdSetPost s1 = rd) in R1. change (writeFdSetPost s1 = wr) in W1.
clearbody s1. pose proof (posted_calls s1 t H1 Et1) as Hlen. rewrite R1, W1 in Hlen.
assert (∀ s', aio_inv s' → readFdSetPost s' = ∅ → writeFdSetPost s' = ∅ → numRdPosted s' = 0 ∧ numWrPosted s' = 0) as Hzero.
{ intros s' [(t' & _ & _ & Hr & Hw) _] Er Ew. split; [by apply (side_none _ _ _ _ _ _ Hr)|by apply (side_none _ _ _ _ _ _ Hw)]. }
cbn zeta. destruct ((numRdPosted s1 =? 0) && (numWrPosted s1 =? 0)) eqn:Ez.
- exists s1. apply andb_prop in Ez as [Er%Z.eqb_eq Ew%Z.eqb_eq]. pose proof (ai_table _ H1) as (t' & _ & _ & Hr & Hw).
  apply (side_none _ _ _ _ _ _ Hr) in Er. apply (side_none _ _ _ _ _ _ Hw) in Ew. destruct (Hzero s1 H1 Er Ew).
  assert (completions t rd wr (seqZ 0 FD_SETSIZE) = []) as Hnil by (rewrite <- R1, <- W1, Er, Ew; apply completions_none).
  rewrite Hnil in *. by split_and!.
- destruct (dispatch_ok (Z.to_nat FD_SETSIZE) 0 s1 t H1 Et1) as (s' & E & H' & Hr & Hw); [|unfold FD_SETSIZE; lia|].
  { intros g Hg. pose proof (ai_table _ H1) as (t' & _ & _ & Hr & Hw). rewrite elem_of_union in Hg. destruct Hg as [Hg|Hg].
    - destruct (sd_entry _ _ _ _ _ _ Hr g) as [? _]; [by apply elem_of_union_r|]. lia.
    - destruct (sd_entry _ _ _ _ _ _ Hw g) as [? _]; [by apply elem_of_union_r|]. lia. }
  exists s'. destruct (Hzero s' H' Hr Hw). rewrite R1, W1 in E. by split_and!.
Qed.
End drains.

(** A completion procedure that reads again. *)
Definition read_again (p : nat) (d n : Z) (s : aio) : res aio :=
  match asyncIoTable s with
  | Some t => if match t !! 10%nat with Some e => inUse e | None => false end then Ok s else OS_AsyncRead 5 0 100 p d s
  | None => Ok s
  end.

Lemma read_again_tidy : tidy read_again.
Proof.
intros p d n s H. unfold read_again. pose proof H as [(t & Et & _) _]. rewrite Et.
destruct (match t !! 10%nat with Some e => inUse e | None => false end) eqn:Eu; [exists s; split_and!; try done; apply kept_refl|].
destruct (OS_AsyncRead_ok 5 0 100 p d s H) as (s' & E & H' & _ & E0 & E1 & E2 & E3); [unfold FD_SETSIZE; lia| |].
- intros t' e Et' He. assert (t' = t) as -> by congruence. change (Z.to_nat (AIO_RD_IX 5)) with 10%nat in He. by rewrite He in Eu.
- exists s'. done.
Qed.

(** Two reads are posted and both complete; one of them posts a read of a third. *)
Definition two_reads : res aio :=
  s ← OS_AsyncRead 3 0 10 1 70 (OS_LibInit initial); OS_AsyncRead 20 0 12 2 80 s.
Definition two_state : aio := match two_reads with Ok s => s | Fault _ => initial end.

Lemma init_inv : aio_inv (OS_LibInit initial).
Proof.
split; [|by vm_compute]. eexists. split; [reflexivity|]. split; [cbn; lia|]. split; split; cbn; try done; intros f Hf; exfalso;
  apply elem_of_union in Hf as [Hf|Hf]; by apply not_elem_of_empty in Hf.
Qed.

Lemma doio_completes_witness :
  ∃ s', OS_DoIo (λ _ n, n - 3) (λ _ _, 0) read_again (λ r w, (r, w)) two_state = Ok ([Call 1 70 7; Call 2 80 9], s') ∧
    numRdPosted s' = 0 ∧ readFdSet s' = {[ 5 ]}.
Proof.
destruct (OS_AsyncRead_ok 3 0 10 1 70 (OS_LibInit initial) init_inv) as (s1 & E1 & H1 & _); [unfold FD_SETSIZE; lia| |].
{ intros t e [= <-] He. cbn in He. by injection He as <-. }
destruct (OS_AsyncRead_ok 20 0 12 2 80 s1 H1) as (s2 & E2 & H2 & _); [unfold FD_SETSIZE; lia| |].
{ revert E1. vm_compute. intros [= <-] t e [= <-]. done. }
assert (two_state = s2) as Es by (unfold two_state, two_reads; rewrite E1; cbn [mbind res_bind]; by rewrite E2).
destruct (ai_table _ H2) as (t & Et & _). rewrite <- Es in Et, H2.
pose proof (doio_completes (λ _ n, n - 3) (λ _ _, 0) read_again read_again_tidy (λ r w, (r, w)) two_state t H2 Et ltac:(done)) as Hd.
destruct (reported _ _) as [rd wr]. destruct Hd as (s' & E & _ & _ & _ & _ & Hn & _).
assert ((λ r, (r.1, bool_decide (readFdSet r.2 = {[ 5 ]}))) <$> OS_DoIo (λ _ n, n - 3) (λ _ _, 0) read_again (λ r w, (r, w)) two_state
  = Ok ([Call 1 70 7; Call 2 80 9], true)) as Ev by (vm_compute; reflexivity).
rewrite E in Ev. injection Ev as Ec Ev. exists s'. split_and!; [by rewrite E, Ec|done|by apply bool_decide_eq_true in Ev].
Defined.

(** ** Closing a completed descriptor *)

(** When a counter is not zero and nothing is posted, [OS_DoIo] neither waits nor
    completes anything, whatever is ready: nothing the table holds will complete. *)
Lemma doio_stuck sys_read sys_write complete select s :
  readFdSetPost s = ∅ → writeFdSetPost s = ∅ → numRdPosted s ≠ 0 → OS_DoIo sys_read sys_write complete select s = Ok ([], set_in_use s).
Proof.
intros Hr Hw Hn. assert ((numRdPosted (set_in_use s) =? 0) = false) as En by (by apply Z.eqb_neq). unfold OS_DoIo. rewrite En. cbn [andb].
rewrite En. cbn [andb].
assert (∀ fuel f, dispatch sys_read sys_write complete fuel f (set_in_use s) = Ok ([], set_in_use s)) as Hd; [|apply Hd].
induction fuel as [|fuel IH]; intros f; [done|]. cbn [dispatch]. case_match; [done|]. unfold complete_read, complete_write. cbn [set_in_use readFdSetPost writeFdSetPost].
rewrite Hr, decide_False by apply not_elem_of_empty. cbn [mbind res_bind]. cbn [set_in_use writeFdSetPost]. rewrite Hw, decide_False by apply not_elem_of_empty.
cbn [mbind res_bind]. by rewrite IH.
Qed.

(** It happens: two reads complete together and the procedure of the first closes the
    descriptor of the second. *)
Definition close_other (p : nat) (d n : Z) (s : aio) : res aio := '(_, s) ← OS_Close 20 false [] s; Ok s.

Example close_leaves_count :
  match OS_DoIo (λ _ _, 10) (λ _ _, 0) close_other (λ r w, (r, w)) two_state with
  | Ok (_, s) => numRdPosted s = 1 ∧ readFdSetPost s = ∅ ∧ writeFdSetPost s = ∅
  | Fault _ => False
  end.
Proof. vm_compute. split_and!; reflexivity. Qed.

(** [OS_Close] indexes the table with descriptors it was never grown for. *)
Lemma close_out_of_table f ss s t :
  asyncIoInUse s = true → asyncIoTable s = Some t → 0 ≤ f < FD_SETSIZE → Z.of_nat (length t) ≤ AIO_RD_IX f →
  OS_Close f true ss s = Fault OutOfBounds.
Proof.
intros Hu Et Hf Hl. unfold OS_Close, forget_fd. rewrite (proj2 (Z.eqb_neq _ _)) by lia. rewrite Hu, fd_ok_ok by done. cbn [mbind res_bind].
unfold clear_use, entry, table. cbn [set_rd asyncIoTable]. rewrite Et. cbn [mbind res_bind].
rewrite (proj2 (Z.ltb_ge (AIO_RD_IX f) 0)) by (unfold AIO_RD_IX; lia).
assert (t !! Z.to_nat (AIO_RD_IX f) = None) as -> by (apply lookup_ge_None_2; unfold AIO_RD_IX in *; lia). done.
Qed.
