(* ===== verification/EventLoop.v ===== *)
(** [mucgi/muduo_net/EventLoop.cc]: the loop, its pending functors and the wake-up
    descriptor, with other threads.

    The loop thread is a program counter that runs through [loop()]; what a channel's
    callback or a functor does with the loop is a list of actions.  Another thread that
    calls [queueInLoop] or [quit] first changes the loop's members and then writes to the
    event descriptor; between the two it is one of the threads that [owe] a wake-up.
    The thread that made the loop may queue functors and ask for an end before it calls
    [loop()] and after it returned, and may call [loop()] again.  Every order of the
    steps of all threads is a run. *)

From Stdlib Require Import ZArith Lia Bool.
From Stdlib.Strings Require Import Byte.
From stdpp Require Import base numbers list option relations.
From S2P Require Import Prelude.

Local Open Scope Z_scope.

(** ** State *)

(** A functor is known by a number. *)
Record EventLoop := mkLoop {
  looping_ : bool; quit_ : bool; eventHandling_ : bool; callingPendingFunctors_ : bool;
  iteration_ : Z;
  pendingFunctors_ : list nat;
  wakeupFd_ : nat;               (** the counter of the event descriptor *)
}.

Definition EventLoop_ctor : EventLoop := mkLoop false false false false 0 [] 0.

Definition set_looping b l := mkLoop b (quit_ l) (eventHandling_ l) (callingPendingFunctors_ l) (iteration_ l) (pendingFunctors_ l) (wakeupFd_ l).
Definition set_quit b l := mkLoop (looping_ l) b (eventHandling_ l) (callingPendingFunctors_ l) (iteration_ l) (pendingFunctors_ l) (wakeupFd_ l).
Definition set_handling b l := mkLoop (looping_ l) (quit_ l) b (callingPendingFunctors_ l) (iteration_ l) (pendingFunctors_ l) (wakeupFd_ l).
Definition set_calling b l := mkLoop (looping_ l) (quit_ l) (eventHandling_ l) b (iteration_ l) (pendingFunctors_ l) (wakeupFd_ l).
Definition set_iteration n l := mkLoop (looping_ l) (quit_ l) (eventHandling_ l) (callingPendingFunctors_ l) n (pendingFunctors_ l) (wakeupFd_ l).
Definition set_pending fs l := mkLoop (looping_ l) (quit_ l) (eventHandling_ l) (callingPendingFunctors_ l) (iteration_ l) fs (wakeupFd_ l).
Definition set_wakeupFd n l := mkLoop (looping_ l) (quit_ l) (eventHandling_ l) (callingPendingFunctors_ l) (iteration_ l) (pendingFunctors_ l) n.

(** ** Operations *)

Definition wakeup (l : EventLoop) : EventLoop := set_wakeupFd (S (wakeupFd_ l)) l.

(** [EventLoop::handleRead]: the counter is read and cleared. *)
Definition handleRead (l : EventLoop) : EventLoop := set_wakeupFd 0 l.

Definition push (f : nat) (l : EventLoop) : EventLoop := set_pending (pendingFunctors_ l ++ [f]) l.

(** [queueInLoop] and [quit] in the loop's own thread. *)
Definition queueInLoop (f : nat) (l : EventLoop) : EventLoop :=
  let l := push f l in
  if callingPendingFunctors_ l then wakeup l else l.
Definition quit (l : EventLoop) : EventLoop := set_quit true l.

(** What a callback does with the loop: it queues, or runs at once, or ends the loop. *)
Inductive act := Queue (f : nat) | Quit.

Definition do_act (a : act) (l : EventLoop) : EventLoop :=
  match a with Queue f => queueInLoop f l | Quit => quit l end.
Definition do_acts (acts : list act) (l : EventLoop) : EventLoop := foldl (λ l a, do_act a l) l acts.

(** An active channel: the one of the event descriptor, or another with its callback. *)
Inductive channel := WakeupChannel | Other (acts : list act).

Definition handleEvent (ch : channel) (l : EventLoop) : EventLoop :=
  match ch with WakeupChannel => handleRead l | Other acts => do_acts acts l end.

(** ** The loop thread *)

Inductive pc :=
  | Before                        (** [loop()] has not been called *)
  | Head                          (** at [while (!quit_)] *)
  | Polling                       (** in [poll] *)
  | Handling (cs : list channel)  (** the active channels still to be handled *)
  | Running (fs : list nat)       (** the functors still to be called *)
  | After.

(** [owe] other threads have changed the loop and not yet written to the descriptor.  For
    the theorems, [asked] and [ran] list the functors queued and called, and [early] those
    not yet taken that the loop's own thread queued outside [loop()]. *)
Record sys := mkSys { lp : EventLoop; at_ : pc; owe : nat; early : list nat; asked : list nat; ran : list nat }.

(** The loop's own thread is not in [loop()]. *)
Definition outside (p : pc) : bool := match p with Before | After => true | _ => false end.

Definition queued (acts : list act) : list nat := concat ((λ a, match a with Queue f => [f] | Quit => [] end) <$> acts).
Arguments queued : simpl never.

Definition loop_enter (l : EventLoop) : res EventLoop :=
  assert_ (negb (looping_ l)) ;; Ok (set_quit false (set_looping true l)).

(** [doPendingFunctors] up to its loop: the vector is swapped out. *)
Definition swap_functors (l : EventLoop) : list nat * EventLoop := (pendingFunctors_ l, set_pending [] (set_calling true l)).

Section steps.
(** What the functor with a number does with the loop. *)
Context (body : nat → list act).

Inductive step : sys → sys → Prop :=
  (* the loop thread *)
  | s_own l p o e a r x : outside p = true → step (mkSys l p o e a r) (mkSys (do_act x l) p o (e ++ queued [x]) (a ++ queued [x]) r)
  | s_enter l l' p o e a r : outside p = true → loop_enter l = Ok l' → step (mkSys l p o e a r) (mkSys l' Head o e a r)
  | s_poll l o e a r : quit_ l = false → step (mkSys l Head o e a r) (mkSys l Polling o e a r)
  | s_leave l o e a r : quit_ l = true → step (mkSys l Head o e a r) (mkSys (set_looping false l) After o e a r)
  | s_polled l cs o e a r :
      (** [poll] reports the event descriptor exactly when its counter is not zero *)
      (WakeupChannel ∈ cs ↔ (0 < wakeupFd_ l)%nat) →
      step (mkSys l Polling o e a r) (mkSys (set_handling true (set_iteration (iteration_ l + 1) l)) (Handling cs) o e a r)
  | s_handle l ch cs o e a r :
      step (mkSys l (Handling (ch :: cs)) o e a r)
           (mkSys (handleEvent ch l) (Handling cs) o e (a ++ match ch with Other acts => queued acts | _ => [] end) r)
  | s_swap l fs l' o e a r :
      swap_functors (set_handling false l) = (fs, l') → step (mkSys l (Handling []) o e a r) (mkSys l' (Running fs) o [] a r)
  | s_run l f fs o e a r :
      step (mkSys l (Running (f :: fs)) o e a r) (mkSys (do_acts (body f) l) (Running fs) o e (a ++ queued (body f)) (r ++ [f]))
  | s_ran l o e a r : step (mkSys l (Running []) o e a r) (mkSys (set_calling false l) Head o e a r)
  (* other threads *)
  | s_push l p o e a r f : step (mkSys l p o e a r) (mkSys (push f l) p (S o) e (a ++ [f]) r)
  | s_quit l p o e a r : step (mkSys l p o e a r) (mkSys (set_quit true l) p (S o) e a r)
  | s_wake l p o e a r : step (mkSys l p (S o) e a r) (mkSys (wakeup l) p o e a r).

Definition start : sys := mkSys EventLoop_ctor Before 0 [] [] [].

(** ** Invariant *)

(** The functors between the swap and their call. *)
Definition taken (p : pc) : list nat := match p with Running fs => fs | _ => [] end.

(** Someone has written to the descriptor, or is about to. *)
Definition woken (s : sys) : Prop := (0 < wakeupFd_ (lp s) + owe s)%nat.

(** The loop thread is not on its way from [poll] to the swap of the functors. *)
Definition committed (p : pc) : Prop := match p with Handling _ => False | _ => True end.

Record loop_inv (s : sys) : Prop := {
  v_order : asked s = ran s ++ taken (at_ s) ++ pendingFunctors_ (lp s);
  v_calling : callingPendingFunctors_ (lp s) = match at_ s with Running _ => true | _ => false end;
  v_early : pendingFunctors_ (lp s) = [] → early s = [];
  v_pending : committed (at_ s) → pendingFunctors_ (lp s) ≠ [] → woken s ∨ pendingFunctors_ (lp s) = early s;
  v_quit : at_ s = Polling → quit_ (lp s) = true → woken s;
  v_looping : at_ s ≠ Before → at_ s ≠ After → looping_ (lp s) = true;
}.

Lemma do_acts_frame acts l :
  looping_ (do_acts acts l) = looping_ l ∧ callingPendingFunctors_ (do_acts acts l) = callingPendingFunctors_ l ∧
  pendingFunctors_ (do_acts acts l) = pendingFunctors_ l ++ queued acts ∧ (wakeupFd_ l ≤ wakeupFd_ (do_acts acts l))%nat ∧
  (callingPendingFunctors_ l = true → queued acts ≠ [] → (0 < wakeupFd_ (do_acts acts l))%nat).
Proof.
unfold do_acts. revert l. induction acts as [|a acts IH]; intros l; cbn [foldl].
{ rewrite app_nil_r. split_and!; try done; lia. }
destruct (IH (do_act a l)) as (I1 & I2 & I3 & I4 & I5). destruct a as [f|]; cbn [do_act] in *.
- unfold queueInLoop in *. cbn [push callingPendingFunctors_ set_pending] in *. change (queued (Queue f :: acts)) with (f :: queued acts).
  destruct (callingPendingFunctors_ l) eqn:Ec; cbn [wakeup set_wakeupFd push set_pending looping_ callingPendingFunctors_ pendingFunctors_ wakeupFd_] in *;
    rewrite I1, I2, I3, <- app_assoc; split_and!; try done; lia.
- change (queued (Quit :: acts)) with (queued acts). rewrite I1, I2, I3. split_and!; done.
Qed.

Lemma do_act_iteration x l : iteration_ (do_act x l) = iteration_ l.
Proof. destruct x as [f|]; [|done]. cbn. unfold queueInLoop. by destruct (callingPendingFunctors_ _). Qed.

Lemma do_acts_iteration acts l : iteration_ (do_acts acts l) = iteration_ l.
Proof. unfold do_acts. revert l. induction acts as [|x acts IH]; intros l; [done|]. cbn [foldl]. by rewrite IH, do_act_iteration. Qed.

Lemma start_inv : loop_inv start.
Proof. by split. Qed.

(** Outside [loop()] the loop's own thread queues without a wake-up. *)
Lemma do_act_outside x l :
  callingPendingFunctors_ l = false →
  looping_ (do_act x l) = looping_ l ∧ callingPendingFunctors_ (do_act x l) = false ∧ wakeupFd_ (do_act x l) = wakeupFd_ l ∧
  pendingFunctors_ (do_act x l) = pendingFunctors_ l ++ queued [x].
Proof. intros Hc. destruct x as [f|]; unfold queued; cbn; unfold queueInLoop; cbn; rewrite ?Hc, ?app_nil_r; by split_and!. Qed.

(** The members a step does not touch. *)
Ltac frame Hl := try done; try (intros _ _; by apply Hl).

Lemma step_inv s s' : loop_inv s → step s s' → loop_inv s'.
Proof.
intros [Ho Hc He Hp Hq Hl] Hst.
destruct Hst as [l p o e a r x Eo|l l' p o e a r Eo E|l o e a r Eq|l o e a r Eq|l cs o e a r Hw|l ch cs o e a r|l fs l' o e a r E|l f fs o e a r|l o e a r|l p o e a r f|l p o e a r|l p o e a r]; cbn in *.
- assert (callingPendingFunctors_ l = false ∧ committed p ∧ p ≠ Polling ∧ taken p = []) as (Hc' & Hcm & Hnp & Ht) by (destruct p; done).
  destruct (do_act_outside x l Hc') as (I1 & I2 & I3 & I4). split; cbn; try done.
  + by rewrite I4, Ho, Ht, !app_assoc.
  + rewrite I2. by destruct p.
  + rewrite I4. intros [Hn1 Hn2]%app_nil. by rewrite He, Hn2.
  + intros _ Hne. unfold woken in *. cbn in *. rewrite I3, I4 in *.
    destruct (pendingFunctors_ l) as [|g gs] eqn:Eg; [right; by rewrite He|]. destruct (Hp Hcm ltac:(done)) as [?|<-]; [by left|by right].
  + intros ? ?. rewrite I1. by apply Hl.
- unfold loop_enter in E. destruct (negb (looping_ l)); [|done]. cbn in E. injection E as <-.
  assert (callingPendingFunctors_ l = false ∧ committed p ∧ taken p = []) as (Hc' & Hcm & Ht) by (destruct p; done).
  rewrite Ht in Ho. split; cbn; frame Hl. intros _ Hne. by apply Hp.
- split; cbn; frame Hl. intros _. congruence.
- split; cbn; frame Hl.
- split; cbn; frame Hl.
- destruct ch as [|acts]; cbn.
  + rewrite app_nil_r. split; cbn; frame Hl.
  + destruct (do_acts_frame acts l) as (I1 & I2 & I3 & I4 & I5). split; cbn; frame Hl.
    * rewrite I3, Ho. by rewrite !app_assoc.
    * by rewrite I2.
    * rewrite I3. intros [Hn _]%app_nil. by apply He.
    * intros _ _. rewrite I1. by apply Hl.
- unfold swap_functors in E. injection E as <- <-. split; cbn; frame Hl. by rewrite app_nil_r.
- destruct (do_acts_frame (body f) l) as (I1 & I2 & I3 & I4 & I5). split; cbn; frame Hl.
  + rewrite I3, Ho, <- !app_assoc. cbn. by rewrite <- !app_assoc.
  + by rewrite I2.
  + rewrite I3. intros [Hn _]%app_nil. by apply He.
  + intros _ Hne. unfold woken in *. cbn in *. rewrite I3 in *. destruct (decide (queued (body f) = [])) as [En|En].
    * rewrite En, app_nil_r in *. destruct (Hp I Hne) as [?|?]; [left; lia|by right].
    * left. assert (0 < wakeupFd_ (do_acts (body f) l))%nat; [by apply I5|lia].
  + intros _ _. rewrite I1. by apply Hl.
- split; cbn; frame Hl.
- split; cbn; frame Hl; [by rewrite Ho, <- !app_assoc|by intros []%app_nil| |]; intros; [left|]; unfold woken; cbn; lia.
- split; cbn; frame Hl; intros; [left|]; unfold woken; cbn; lia.
- split; cbn; frame Hl; [intros Hcm Hne; destruct (Hp Hcm Hne) as [Hwk|?]; [left|by right]|intros Hat Hqu; pose proof (Hq Hat Hqu) as Hwk]; unfold woken in *; cbn in *; lia.
Qed.

Lemma reachable_loop_inv s : rtc step start s → loop_inv s.
Proof.
intros H. assert (∀ s1 s2, rtc step s1 s2 → loop_inv s1 → loop_inv s2) as Hr.
{ induction 1 as [|x y z Hxy _ IH]; [done|]. intros Hx. apply IH. by eapply step_inv. }
by eapply Hr, start_inv.
Qed.

(** ** Progress *)

(** Left alone, the loop thread calls the functors it has taken. *)
Lemma run_taken l fs o e a r : ∃ l' a', rtc step (mkSys l (Running fs) o e a r) (mkSys l' Head o e a' (r ++ fs)) ∧ iteration_ l' = iteration_ l.
Proof.
revert l a r. induction fs as [|f fs IH]; intros l a r.
- eexists _, _. rewrite app_nil_r. split; [eapply rtc_l; [apply s_ran|done]|done].
- destruct (IH (do_acts (body f) l) (a ++ queued (body f)) (r ++ [f])) as (l' & a' & Hr & Hi). exists l', a'.
  split; [eapply rtc_l; [apply s_run|]; by rewrite <- app_assoc in Hr|]. by rewrite Hi, do_acts_iteration.
Qed.

(** Left alone, it handles the active channels; functors they queue come after. *)
Lemma run_handling cs l o e a r :
  ∃ l' a' q, rtc step (mkSys l (Handling cs) o e a r) (mkSys l' (Handling []) o e a' r) ∧
    pendingFunctors_ l' = pendingFunctors_ l ++ q ∧ iteration_ l' = iteration_ l.
Proof.
revert l a. induction cs as [|ch cs IH]; intros l a; [exists l, a, []; by rewrite app_nil_r|].
destruct (IH (handleEvent ch l) (a ++ match ch with Other acts => queued acts | _ => [] end)) as (l' & a' & q & Hr & Hq & Hi).
assert (∃ q', pendingFunctors_ (handleEvent ch l) = pendingFunctors_ l ++ q' ∧ iteration_ (handleEvent ch l) = iteration_ l) as (q' & Hq' & Hi').
{ destruct ch as [|acts]; cbn; [exists []; by rewrite app_nil_r|]. destruct (do_acts_frame acts l) as (_ & _ & -> & _).
  eexists. by rewrite do_acts_iteration. }
exists l', a', (q' ++ q). split_and!; [eapply rtc_l; [apply s_handle|done]|by rewrite Hq, Hq', app_assoc|congruence].
Qed.

(** From [poll], with the channels [cs] active, to the next look at [quit_]. *)
Lemma one_round l (cs : list channel) o e a r :
  (WakeupChannel ∈ cs ↔ (0 < wakeupFd_ l)%nat) →
  ∃ s', rtc step (mkSys l Polling o e a r) s' ∧ at_ s' = Head ∧ iteration_ (lp s') = iteration_ l + 1.
Proof.
intros Hw. destruct (run_handling cs (set_handling true (set_iteration (iteration_ l + 1) l)) o e a r) as (l1 & a1 & q & Hr1 & _ & Hi1). cbn in Hi1.
destruct (run_taken (set_pending [] (set_calling true (set_handling false l1))) (pendingFunctors_ l1) o [] a1 r) as (l2 & a2 & Hr2 & Hi2).
eexists. split; [eapply rtc_l; [by apply s_polled|]; etransitivity; [exact Hr1|]; eapply rtc_l; [by apply s_swap|exact Hr2]|].
split; [done|]. cbn. rewrite Hi2. exact Hi1.
Qed.

(** The functors that are called before the loop next looks at [quit_], after those
    called already. *)
Definition due (s : sys) : list nat := ran s ++ taken (at_ s) ++ match at_ s with Handling _ => pendingFunctors_ (lp s) | _ => [] end.

(** From the moment [poll] was entered with [fs] to be called: [poll] has not returned
    and they are pending, or it has and they are due. *)
Definition since (n : Z) (fs : list nat) (s : sys) : Prop :=
  at_ s ≠ Before ∧ (at_ s = Polling ∧ iteration_ (lp s) = n ∧ fs `prefix_of` (ran s ++ pendingFunctors_ (lp s)) ∨
    n < iteration_ (lp s) ∧ fs `prefix_of` due s).

Lemma step_since n fs s s' : step s s' → since n fs s → since n fs s'.
Proof.
intros Hst [Hnb Hs]. unfold since, due in *.
destruct Hst as [l p o e a r x Eo|l l' p o e a r Eo E|l o e a r Eq|l o e a r Eq|l cs o e a r Hw|l ch cs o e a r|l fs' l' o e a r E|l f fs' o e a r|l o e a r|l p o e a r f|l p o e a r|l p o e a r]; cbn in *.
- destruct p; try done. split; [done|]. destruct Hs as [[? _]|[Hi Hs]]; [done|]. right. split; [|done]. by rewrite do_act_iteration.
- split; [done|]. destruct Hs as [[-> _]|[Hi Hs]]; [done|]. right. unfold loop_enter in E. destruct (negb _); [|done]. injection E as <-. cbn.
  by destruct p.
- split; [done|]. destruct Hs as [[? _]|Hs]; [done|]. by right.
- split; [done|]. destruct Hs as [[? _]|Hs]; [done|]. by right.
- split; [done|]. right. destruct Hs as [(_ & Hi & Hs)|[Hi Hs]]; (split; [lia|]); [done|]. rewrite app_nil_r in Hs. by apply prefix_app_r.
- split; [done|]. destruct Hs as [[? _]|[Hi Hs]]; [done|]. right. destruct ch as [|acts]; [done|]. cbn.
  destruct (do_acts_frame acts l) as (_ & _ & -> & _). rewrite do_acts_iteration. split; [done|]. rewrite app_assoc. by apply prefix_app_r.
- split; [done|]. destruct Hs as [[? _]|[Hi Hs]]; [done|]. right. injection E as <- <-. by rewrite app_nil_r.
- split; [done|]. destruct Hs as [[? _]|[Hi Hs]]; [done|]. right. rewrite do_acts_iteration. by rewrite <- app_assoc.
- split; [done|]. destruct Hs as [[? _]|[Hi Hs]]; [done|]. by right.
- split; [done|]. destruct Hs as [(Hat & Hi & Hs)|[Hi Hs]]; [left; split_and!; try done; rewrite app_assoc; by apply prefix_app_r|right].
  split; [done|]. destruct p; try done. cbn in *. rewrite app_assoc. by apply prefix_app_r.
- split; [done|]. destruct p; done.
- split; [done|]. destruct p; done.
Qed.

Lemma run_since n fs s s' : rtc step s s' → since n fs s → since n fs s'.
Proof. induction 1 as [|x y z Hxy _ IH]; [done|]. intros Hx. apply IH. by eapply step_since. Qed.

(** C21: In every interleaving of the loop with other threads, the loop's own thread
    queueing and asking for an end before [loop()] and after it as well: every functor
    queued is called at most once and in the order of the calls to [queueInLoop], and none
    is lost; while the loop waits in [poll] with functors pending, the event descriptor has
    been written to or a thread is about to write to it, so that [poll] does not go on
    waiting, unless all that are pending were queued by the loop's own thread outside
    [loop()], which wakes no one; the same holds with an end requested.  Whatever all
    threads do from then on, once that [poll] has returned and the loop tests [quit_]
    again, it has called all that were pending; and it can always get there. *)
Theorem no_lost_wakeup s :
  rtc step start s →
  asked s = ran s ++ taken (at_ s) ++ pendingFunctors_ (lp s) ∧
  (at_ s = Polling → pendingFunctors_ (lp s) ≠ [] → (0 < wakeupFd_ (lp s) + owe s)%nat ∨ pendingFunctors_ (lp s) = early s) ∧
  (at_ s = Polling → quit_ (lp s) = true → (0 < wakeupFd_ (lp s) + owe s)%nat) ∧
  (at_ s = Polling → ∀ s', rtc step s s' → at_ s' = Head → iteration_ (lp s) < iteration_ (lp s') →
     (ran s ++ pendingFunctors_ (lp s)) `prefix_of` ran s') ∧
  (at_ s = Polling → ∃ s', rtc step s s' ∧ at_ s' = Head ∧ iteration_ (lp s') = iteration_ (lp s) + 1).
Proof.
intros Hr. pose proof (reachable_loop_inv s Hr) as H. split_and!; [by apply H| | | |].
- intros Hat. apply (v_pending _ H). by rewrite Hat.
- apply (v_quit _ H).
- intros Hat s' Hr' Hat' Hi. destruct (run_since (iteration_ (lp s)) (ran s ++ pendingFunctors_ (lp s)) s s' Hr') as [_ [[Hp _]|[_ Hd]]].
  + split; [by rewrite Hat|]. by left.
  + by rewrite Hat' in Hp.
  + unfold due in Hd. rewrite Hat' in Hd. cbn in Hd. by rewrite app_nil_r in Hd.
- intros Hat. destruct s as [l p o e a r]. cbn in *. subst p. apply (one_round l (if (0 <? wakeupFd_ l)%nat then [WakeupChannel] else [])).
  destruct (Nat.ltb_spec 0 (wakeupFd_ l)); [rewrite list_elem_of_singleton; by split|]. rewrite elem_of_nil. split; [done|lia].
Qed.
End steps.

(** The loop's own thread queues functor 0 before [loop()]; while the loop waits, another
    thread queues functor 1, which queues functor 2. *)
Definition chain (f : nat) : list act := if (f =? 1)%nat then [Queue 2] else [].

Lemma no_lost_wakeup_witness :
  ∃ s, rtc (step chain) start s ∧ at_ s = Polling ∧ ran s = [0%nat; 1%nat] ∧ pendingFunctors_ (lp s) = [2%nat] ∧
    ((0 < wakeupFd_ (lp s) + owe s)%nat ∨ [2%nat] = early s) ∧
    ∀ s', rtc (step chain) s s' → at_ s' = Head → iteration_ (lp s) < iteration_ (lp s') → [0; 1; 2]%nat `prefix_of` ran s'.
Proof.
assert (∃ s, rtc (step chain) start s ∧ at_ s = Polling ∧ ran s = [0%nat; 1%nat] ∧ pendingFunctors_ (lp s) = [2%nat]) as (s & Hr & Hat & Hra & Hp).
{ eexists. split.
  - eapply rtc_l; [by apply (s_own _ _ _ _ _ _ _ (Queue 0))|].
    eapply rtc_l; [by apply s_enter|]. eapply rtc_l; [by apply s_poll|]. eapply rtc_l; [by apply (s_push _ _ _ _ _ _ _ 1%nat)|].
    eapply rtc_l; [by apply s_wake|]. eapply rtc_l; [apply (s_polled _ _ [WakeupChannel])|].
    { rewrite list_elem_of_singleton. cbn. split; [lia|done]. }
    eapply rtc_l; [apply s_handle|]. eapply rtc_l; [by apply s_swap|]. eapply rtc_l; [apply s_run|]. eapply rtc_l; [apply s_run|].
    eapply rtc_l; [apply s_ran|]. eapply rtc_l; [by apply s_poll|]. done.
  - done. }
exists s. split_and!; try done.
- rewrite <- Hp. destruct (no_lost_wakeup chain s Hr) as (_ & Hw & _). apply Hw; [done|]. by rewrite Hp.
- destruct (no_lost_wakeup chain s Hr) as (_ & _ & _ & Hu & _). specialize (Hu Hat). by rewrite Hra, Hp in Hu.
Defined.

(** A functor that the loop's own thread queues before [loop()] wakes no one: the loop
    reaches [poll] with the functor pending and nothing to make [poll] return. *)
Lemma early_functor_waits f :
  ∃ s, rtc (step chain) start s ∧ at_ s = Polling ∧ pendingFunctors_ (lp s) = [f] ∧ wakeupFd_ (lp s) = 0%nat ∧ owe s = 0%nat.
Proof.
eexists. split.
- eapply rtc_l; [by apply (s_own _ _ _ _ _ _ _ (Queue f))|]. eapply rtc_l; [by apply s_enter|]. eapply rtc_l; [by apply s_poll|]. done.
- done.
Qed.

(** An end requested before [loop()] is forgotten. *)
Lemma early_quit_lost l l' : loop_enter (quit l) = Ok l' → quit_ l' = false.
Proof. unfold loop_enter. destruct (negb _); [|done]. cbn. by intros [= <-]. Qed.
