(* ===== verification/LoopThread.v ===== *)
(** [mucgi/muduo_net/EventLoopThread.cc] with [muduo_base/Thread.cc], [Mutex.h] and
    [Condition.h]: how a thread is started, hands the address of its loop to the thread that
    started it, and is ended.

    The thread that owns the object ([Starter]) and the one it starts ([Looper]) are program
    counters; an [act] is a step of one of them, a wake-up of the condition variable for no
    reason, a call of [quit] by someone else, or the begin of the destructor.  Every list of
    actions is a schedule.  The loop itself is an [EventLoop]: between its entry and the step at
    which [while (!quit_)] ends it, what it does is the matter of [EventLoop.v]. *)

From Stdlib Require Import ZArith Lia Bool.
From stdpp Require Import base numbers list option.
From S2P Require Import Prelude EventLoop.

(** ** State *)

Inductive actor := Starter | Looper.

#[global] Instance actor_eq_dec : EqDecision actor.
Proof. solve_decision. Defined.

(** The owner of the object: in [startLoop], between its calls, in the destructor. *)
Inductive starter_pc :=
  | SIdle
  | SLock                   (** the thread is started; at [MutexLockGuard lock] *)
  | STest                   (** at [while (loop_ == NULL)], with the lock *)
  | SWait (signalled : bool)
  | SUnlock
  | SRet                    (** at [return loop_] *)
  | SDone (r : bool)        (** returned; [false] is the null pointer *)
  | DTest                   (** at [if (loop_ != NULL)] *)
  | DQuit
  | DJoin0                  (** at [thread_.join()] *)
  | DJoin                   (** in [pthread_join] *)
  | DMembers                (** at the destructors of the members *)
  | DEnd.

#[global] Instance starter_pc_eq_dec : EqDecision starter_pc.
Proof. solve_decision. Defined.

(** [threadFunc]. *)
Inductive looper_pc :=
  | LNone
  | LCallback
  | LLock
  | LStore
  | LNotify
  | LUnlock
  | LEnter                  (** at [loop.loop()] *)
  | LLoop
  | LNull                   (** at [loop_ = NULL] *)
  | LExit                   (** at the end of the scope of [loop] *)
  | LDone.

Record EventLoopThread := mkThread {
  loop_ : bool;             (** not null *)
  exiting_ : bool;
  started_ : bool;
  joined_ : bool;
  detached : bool;
  mutex_ : option actor;     (** who has locked the mutex *)
  holder_ : option actor;
  the_loop : option EventLoop;  (** the local variable of [threadFunc] *)
  sat : starter_pc;
  lat : looper_pc;
}.

Definition EventLoopThread_ctor : EventLoopThread := mkThread false false false false false None None None SIdle LNone.

Definition set_loop v s := mkThread v (exiting_ s) (started_ s) (joined_ s) (detached s) (mutex_ s) (holder_ s) (the_loop s) (sat s) (lat s).
Definition set_exiting v s := mkThread (loop_ s) v (started_ s) (joined_ s) (detached s) (mutex_ s) (holder_ s) (the_loop s) (sat s) (lat s).
Definition set_started v s := mkThread (loop_ s) (exiting_ s) v (joined_ s) (detached s) (mutex_ s) (holder_ s) (the_loop s) (sat s) (lat s).
Definition set_joined v s := mkThread (loop_ s) (exiting_ s) (started_ s) v (detached s) (mutex_ s) (holder_ s) (the_loop s) (sat s) (lat s).
Definition set_detached v s := mkThread (loop_ s) (exiting_ s) (started_ s) (joined_ s) v (mutex_ s) (holder_ s) (the_loop s) (sat s) (lat s).
Definition set_mutex o h s := mkThread (loop_ s) (exiting_ s) (started_ s) (joined_ s) (detached s) o h (the_loop s) (sat s) (lat s).
Definition set_the_loop v s := mkThread (loop_ s) (exiting_ s) (started_ s) (joined_ s) (detached s) (mutex_ s) (holder_ s) v (sat s) (lat s).
Definition go_s p s := mkThread (loop_ s) (exiting_ s) (started_ s) (joined_ s) (detached s) (mutex_ s) (holder_ s) (the_loop s) p (lat s).
Definition go_l p s := mkThread (loop_ s) (exiting_ s) (started_ s) (joined_ s) (detached s) (mutex_ s) (holder_ s) (the_loop s) (sat s) p.

(** ** Mutex, condition, thread *)

(** [MutexLock::lock]; [None] while the mutex is taken. *)
Definition lock (t : actor) (s : EventLoopThread) : option EventLoopThread :=
  match mutex_ s with None => Some (set_mutex (Some t) (Some t) s) | Some _ => None end.
Definition unlock (s : EventLoopThread) : EventLoopThread := set_mutex None None s.

(** [Condition::wait] up to the release of the mutex, and [notify]. *)
Definition cond_wait (s : EventLoopThread) : EventLoopThread := go_s (SWait false) (unlock s).
Definition notify (s : EventLoopThread) : EventLoopThread :=
  match sat s with SWait _ => go_s (SWait true) s | _ => s end.

(** [Thread::start], for a [pthread_create] that succeeds, and [join] up to its wait. *)
Definition thread_start (s : EventLoopThread) : res EventLoopThread :=
  assert_ (negb (started_ s)) ;; Ok (go_l LCallback (set_the_loop (Some EventLoop_ctor) (set_started true s))).
Definition thread_join (s : EventLoopThread) : res EventLoopThread :=
  assert_ (started_ s) ;; assert_ (negb (joined_ s)) ;; Ok (set_joined true s).

(** [~Condition], [~MutexLock] and [~Thread]. *)
Definition destroy_members (s : EventLoopThread) : res EventLoopThread :=
  assert_ (bool_decide (holder_ s = None)) ;;
  Ok (if started_ s && negb (joined_ s) then set_detached true s else s).

(** A use of the loop; the object may be gone. *)
Definition on_loop (f : EventLoop → res EventLoop) (s : EventLoopThread) : res EventLoopThread :=
  match the_loop s with
  | None => Fault OutOfBounds
  | Some l => l ← f l; Ok (set_the_loop (Some l) s)
  end.

(** ** Steps *)

Section threads.
(** What [callback_] does with the loop, if there is one. *)
Context (callback_ : option (list EventLoop.act)).

(** [startLoop] and the destructor.  [None]: the thread is blocked or has nothing to do. *)
Definition starter_step (s : EventLoopThread) : option (res EventLoopThread) :=
  match sat s with
  | SIdle => Some (assert_ (negb (started_ s)) ;; s ← thread_start s; Ok (go_s SLock s))
  | SLock => s ← lock Starter s; Some (Ok (go_s STest s))
  | STest => Some (Ok (if loop_ s then go_s SUnlock s else cond_wait s))
  | SWait true => s ← lock Starter s; Some (Ok (go_s STest s))
  | SWait false => None
  | SUnlock => Some (Ok (go_s SRet (unlock s)))
  | SRet => Some (Ok (go_s (SDone (loop_ s)) s))
  | SDone _ => None
  | DTest => Some (Ok (go_s (if loop_ s then DQuit else DMembers) s))
  | DQuit => Some (s ← on_loop (λ l, Ok (wakeup (quit l))) s; Ok (go_s DJoin0 s))
  | DJoin0 => Some (s ← thread_join s; Ok (go_s DJoin s))
  | DJoin => match lat s with LDone => Some (Ok (go_s DMembers s)) | _ => None end
  | DMembers => Some (s ← destroy_members s; Ok (go_s DEnd s))
  | DEnd => None
  end.

(** [threadFunc] *)
Definition looper_step (s : EventLoopThread) : option (res EventLoopThread) :=
  match lat s with
  | LNone => None
  | LCallback => Some (s ← (match callback_ with Some acts => on_loop (λ l, Ok (do_acts acts l)) s | None => Ok s end);
                       Ok (go_l LLock s))
  | LLock => s ← lock Looper s; Some (Ok (go_l LStore s))
  | LStore => Some (Ok (go_l LNotify (set_loop true s)))
  | LNotify => Some (Ok (go_l LUnlock (notify s)))
  | LUnlock => Some (Ok (go_l LEnter (unlock s)))
  | LEnter => Some (s ← on_loop loop_enter s; Ok (go_l LLoop s))
  | LLoop => match the_loop s with
             | Some l => if quit_ l then Some (s ← on_loop (λ l, Ok (set_looping false l)) s; Ok (go_l LNull s)) else None
             | None => Some (Fault OutOfBounds)
             end
  | LNull => Some (Ok (go_l LExit (set_loop false s)))
  | LExit => Some (Ok (go_l LDone (set_the_loop None s)))
  | LDone => None
  end.

Inductive act := Step (t : actor) | Spurious | OtherQuit | Destroy.

Definition exec (a : act) (s : EventLoopThread) : option (res EventLoopThread) :=
  match a with
  | Step Starter => starter_step s
  | Step Looper => looper_step s
  | Spurious => match sat s with SWait _ => Some (Ok (go_s (SWait true) s)) | _ => None end
  | OtherQuit => match the_loop s with Some l => Some (Ok (set_the_loop (Some (wakeup (quit l))) s)) | None => None end
  | Destroy => match sat s with SIdle | SDone _ => Some (Ok (go_s DTest (set_exiting true s))) | _ => None end
  end.

Fixpoint run (acts : list act) (s : EventLoopThread) : option (res EventLoopThread) :=
  match acts with
  | [] => Some (Ok s)
  | a :: acts => match exec a s with Some (Ok s) => run acts s | r => r end
  end.

Definition reachable (s : EventLoopThread) : Prop := ∃ acts, run acts EventLoopThread_ctor = Some (Ok s).

(** ** Invariant *)

Definition s_locked (p : starter_pc) : bool := match p with STest | SUnlock => true | _ => false end.
Definition l_locked (p : looper_pc) : bool := match p with LStore | LNotify | LUnlock => true | _ => false end.
(** [loop_] points to the loop. *)
Definition published (p : looper_pc) : bool := match p with LNotify | LUnlock | LEnter | LLoop | LNull => true | _ => false end.
Definition alive (p : looper_pc) : bool := match p with LNone | LDone => false | _ => true end.
(** The waiting thread will still be notified. *)
Definition notifies (p : looper_pc) : bool := match p with LCallback | LLock | LStore | LNotify => true | _ => false end.
(** The loop has been handed over; it has ended. *)
Definition handed (p : looper_pc) : bool := match p with LEnter | LLoop | LNull | LExit | LDone => true | _ => false end.
Definition ended (p : looper_pc) : bool := match p with LExit | LDone => true | _ => false end.

(** The loop object exists, and [loop()] is running. *)
Definition loop_at (l : looper_pc) (o : option EventLoop) : bool :=
  match o with
  | None => negb (alive l)
  | Some x => alive l && Bool.eqb (looping_ x) (match l with LLoop => true | _ => false end)
  end.

Definition is_LNone (l : looper_pc) : bool := match l with LNone => true | _ => false end.

(** What the positions of the two threads say about each other. *)
Definition compatible (p : starter_pc) (l : looper_pc) : bool :=
  match p with
  | SIdle => is_LNone l
  | SLock | SWait true => negb (is_LNone l)
  | STest => negb (is_LNone l) && negb (l_locked l)
  | SWait false => notifies l || ended l
  | SUnlock | SRet | SDone true | DQuit | DJoin0 | DJoin => handed l
  | SDone false => ended l
  | DTest => is_LNone l || handed l
  | DMembers | DEnd => is_LNone l || ended l
  end.

(** Where the thread can have been joined. *)
Definition joined_at (p : starter_pc) (l : looper_pc) : bool :=
  match p, l with DJoin, _ | DMembers, LDone | DEnd, LDone => true | _, _ => false end.

Record thread_inv (s : EventLoopThread) : Prop := {
  i_pcs : compatible (sat s) (lat s) = true;
  i_mutex : mutex_ s = if s_locked (sat s) then Some Starter else if l_locked (lat s) then Some Looper else None;
  i_holder : holder_ s = mutex_ s;
  i_loop : loop_ s = published (lat s);
  i_object : loop_at (lat s) (the_loop s) = true;
  i_started : started_ s = negb (is_LNone (lat s));
  i_joined : implb (joined_ s) (joined_at (sat s) (lat s)) = true;
}.

Lemma thread_ctor_inv : thread_inv EventLoopThread_ctor.
Proof. split; cbn; done. Qed.

(** A step keeps the invariant and fails no assertion; the only failure is a [quit] of a loop
    that no longer exists. *)
Definition step_ok (s : EventLoopThread) (r : res EventLoopThread) : Prop :=
  match r with
  | Ok s' => thread_inv s'
  | Fault f => f = OutOfBounds ∧ sat s = DQuit ∧ lat s = LDone
  end.

(** With both positions known the invariant computes. *)
Ltac open_inv s H :=
  destruct s as [lo ex st jo de mu ho lp p l]; destruct H as [Ip Im Ih Il Io Is Ij];
  cbn [loop_ exiting_ started_ joined_ detached mutex_ holder_ the_loop sat lat] in *; subst.
Ltac close_inv :=
  cbn in *; repeat match goal with
  | H : Some _ = Some _ |- _ => injection H as <-
  | H : _ && _ = true |- _ => apply andb_true_iff in H as [? ?]
  end; cbn in *; try done; try (split; cbn; done).

Lemma starter_step_ok s r : thread_inv s → starter_step s = Some r → step_ok s r.
Proof.
intros H E. open_inv s H. destruct p as [| | |[]| | |[]| | | | | |], l; try discriminate Ip; clear Ip.
all: destruct lp as [lp|]; try discriminate Io; destruct jo; try discriminate Ij; close_inv.
Qed.

Lemma do_acts_looping acts l : looping_ (do_acts acts l) = looping_ l.
Proof. by destruct (do_acts_frame acts l) as (? & _). Qed.

Lemma looper_step_ok s r : thread_inv s → looper_step s = Some r → step_ok s r.
Proof.
intros H E. open_inv s H. destruct l, p as [| | |[]| | |[]| | | | | |]; try discriminate Ip; clear Ip.
all: destruct lp as [lp|]; try discriminate Io; destruct jo; try discriminate Ij; cbn in E, Io.
all: try (destruct callback_; cbn in E).
all: try (unfold loop_enter in E; apply eqb_prop in Io; rewrite Io in E; cbn in E).
all: try (destruct (quit_ lp); cbn in E; [|done]).
all: close_inv; by split; cbn; rewrite ?do_acts_looping.
Qed.

Lemma exec_ok a s r : thread_inv s → exec a s = Some r → step_ok s r.
Proof.
intros H E. destruct a as [[]| | |]; cbn [exec] in E; [by apply starter_step_ok|by apply looper_step_ok|..].
- open_inv s H. destruct p; cbn in E; try done. injection E as <-. split; cbn in *; try done.
  by destruct signalled, l.
- destruct (the_loop s) as [l|] eqn:El; [|done]. injection E as <-. destruct H as [Ip Im Ih Il Io Is Ij].
  split; cbn; try done. by rewrite El in Io.
- open_inv s H. destruct p as [| | | | | |[]| | | | | |]; cbn in E; try done; injection E as <-; split; cbn in *; try done.
  all: by destruct l, jo.
Qed.

Lemma run_inv acts s s' : thread_inv s → run acts s = Some (Ok s') → thread_inv s'.
Proof.
revert s. induction acts as [|a acts IH]; intros s H E; cbn [run] in E; [by injection E as <-|].
destruct (exec a s) as [[s1|]|] eqn:E1; try done. apply (IH s1); [|done]. apply (exec_ok _ _ _ H E1).
Qed.

Lemma reachable_thread_inv s : reachable s → thread_inv s.
Proof. intros [acts E]. exact (run_inv _ _ _ thread_ctor_inv E). Qed.

(** ** Termination *)

Definition rank_s (p : starter_pc) (handed_over : bool) : nat :=
  match p with
  | SIdle => 8
  | SLock | SWait true => if handed_over then 4 else 7
  | STest => if handed_over then 3 else 6
  | SWait false => 5
  | SUnlock => 2
  | SRet => 1
  | SDone _ => 0
  | DTest => 5
  | DQuit => 4
  | DJoin0 => 3
  | DJoin => 2
  | DMembers => 1
  | DEnd => 0
  end.
Definition rank_l (l : looper_pc) : nat :=
  match l with
  | LNone => 10 | LCallback => 9 | LLock => 8 | LStore => 7 | LNotify => 6 | LUnlock => 5
  | LEnter => 4 | LLoop => 3 | LNull => 2 | LExit => 1 | LDone => 0
  end.
Definition rank (s : EventLoopThread) : nat := rank_s (sat s) (loop_ s) + 4 * rank_l (lat s).

(** Every step of one of the two threads brings both nearer to their ends. *)
Lemma step_rank t s s' : thread_inv s → exec (Step t) s = Some (Ok s') → (rank s' < rank s)%nat.
Proof.
intros H E. destruct t; cbn [exec] in E; open_inv s H.
- unfold starter_step in E. destruct p as [| | |[]| | |[]| | | | | |], l; try discriminate Ip; clear Ip.
  all: destruct lp as [lp|]; try discriminate Io; destruct jo; try discriminate Ij; close_inv.
  all: cbn; lia.
- destruct l, p as [| | |[]| | |[]| | | | | |]; try discriminate Ip; clear Ip.
  all: destruct lp as [lp|]; try discriminate Io; cbn in E, Io.
  all: try (destruct callback_; cbn in E).
  all: try (unfold loop_enter in E; apply eqb_prop in Io; rewrite Io in E; cbn in E).
  all: try (destruct (quit_ lp); cbn in E; [|done]).
  all: close_inv; cbn; lia.
Qed.

Definition is_step (a : act) : Prop := match a with Step _ => True | _ => False end.

Lemma run_rank acts s s' :
  thread_inv s → Forall is_step acts → run acts s = Some (Ok s') → (length acts + rank s' ≤ rank s)%nat.
Proof.
intros H Ha. revert s H. induction Ha as [|a acts Ha _ IH]; intros s H E; cbn [run] in E; [injection E as <-; cbn; lia|].
destruct (exec a s) as [[s1|]|] eqn:E1; try done. destruct a as [t| | |]; try done.
pose proof (step_rank _ _ _ H E1). pose proof (IH s1 (exec_ok _ _ _ H E1) E). cbn. lia.
Qed.

(** A property of the state that steps keep holds after a schedule of steps. *)
Lemma run_steps (P : EventLoopThread → Prop) acts s s' :
  (∀ t s s', thread_inv s → P s → exec (Step t) s = Some (Ok s') → P s') →
  thread_inv s → P s → Forall is_step acts → run acts s = Some (Ok s') → P s'.
Proof.
intros HP H HPs Ha. revert s H HPs. induction Ha as [|a acts Ha _ IH]; intros s H HPs E; cbn [run] in E; [by injection E as <-|].
destruct (exec a s) as [[s1|]|] eqn:E1; try done. destruct a as [t| | |]; try done.
exact (IH s1 (exec_ok _ _ _ H E1) (HP _ _ _ H HPs E1) E).
Qed.

Definition enabled (s : EventLoopThread) : Prop := ∃ t s', exec (Step t) s = Some (Ok s').

(** *** Handing over *)

(** Nobody has ended the loop so far. *)
Definition unasked (s : EventLoopThread) : bool :=
  match lat s with
  | LNull | LExit | LDone => false
  | LLoop => match the_loop s with Some l => negb (quit_ l) | None => false end
  | _ => true
  end.
Definition starting (p : starter_pc) : bool :=
  match p with SIdle | SLock | STest | SWait _ | SUnlock | SRet | SDone true => true | _ => false end.

Definition handing (s : EventLoopThread) : Prop := starting (sat s) = true ∧ unasked s = true.

Lemma handing_step t s s' : thread_inv s → handing s → exec (Step t) s = Some (Ok s') → handing s'.
Proof.
intros H [Hs Hu] E. destruct t; cbn [exec] in E; open_inv s H; unfold handing, unasked in *; cbn in Hs, Hu.
- destruct p as [| | |[]| | |[]| | | | | |], l; try discriminate Ip; try discriminate Hs; try discriminate Hu; clear Ip.
  all: destruct lp as [lp|]; try discriminate Io; close_inv.
- destruct l, p as [| | |[]| | |[]| | | | | |]; try discriminate Ip; try discriminate Hs; try discriminate Hu; clear Ip.
  all: destruct lp as [lp|]; try discriminate Io; cbn in E, Io.
  all: try (destruct callback_; cbn in E).
  all: try (unfold loop_enter in E; apply eqb_prop in Io; rewrite Io in E; cbn in E).
  all: try (destruct (quit_ lp); cbn in E; [|done]).
  all: close_inv.
Qed.

Lemma handing_progress s : thread_inv s → handing s → sat s ≠ SDone true → enabled s.
Proof.
intros H [Hs Hu] Hd. open_inv s H; unfold unasked in Hu; cbn in Hs, Hu.
destruct p as [| | |[]| | |[]| | | | | |]; try discriminate Hs; try done; destruct l; try discriminate Ip; try discriminate Hu.
all: first [by exists Starter; eexists | destruct lp as [lp|]; try discriminate Io].
all: try (by exists Looper; eexists).
all: exists Looper; cbn; destruct callback_; by eexists.
Qed.

(** C25: [startLoop] returns the loop: as long as nobody asks the loop to end, whatever the order in
    which the two threads take their steps, they take no more than [rank] of them, and they do
    not stop before [startLoop] has returned the address of the loop. *)
Theorem startLoop_returns s acts s' :
  reachable s → handing s → Forall is_step acts → run acts s = Some (Ok s') →
  (length acts ≤ rank s)%nat ∧ (sat s' = SDone true ∨ enabled s').
Proof.
intros Hr Hh Ha E. apply reachable_thread_inv in Hr. split.
- pose proof (run_rank _ _ _ Hr Ha E). lia.
- pose proof (run_inv _ _ _ Hr E) as Hi. pose proof (run_steps handing _ _ _ handing_step Hr Hh Ha E) as Hh'.
  destruct (sat s') as [| | | | | |[]| | | | | |] eqn:Ep; [..|by left| | | | | | |].
  all: right; apply handing_progress; [done|done|by rewrite Ep].
Qed.

(** No assertion fails in any schedule, and the address that [startLoop] returned is that of
    a loop that exists until it has ended. *)
Theorem handover_safe acts a s r :
  run acts EventLoopThread_ctor = Some (Ok s) →
  exec a s ≠ Some (Fault AssertFail) ∧
  (sat s = SDone r → r = true ∧ is_Some (the_loop s) ∨ ended (lat s) = true).
Proof.
intros E. assert (thread_inv s) as H by (apply reachable_thread_inv; by exists acts). split.
- intros Ea. apply (exec_ok _ _ _ H) in Ea. by destruct Ea.
- intros Ep. destruct H as [Ip _ _ _ Io _ _]. rewrite Ep in Ip. destruct r; cbn in Ip; [|by right].
  destruct (the_loop s); [by left|]. right. by destruct (lat s).
Qed.

(** *** Ending *)

Definition ending (s : EventLoopThread) : bool :=
  match sat s with
  | DTest | DQuit => match lat s with LLoop => unasked s | _ => false end
  | DJoin0 => match lat s with LLoop => negb (unasked s) | LNull | LExit | LDone => true | _ => false end
  | DJoin => match lat s with LLoop => joined_ s && negb (unasked s) | LNull | LExit | LDone => joined_ s | _ => false end
  | DMembers | DEnd => joined_ s
  | _ => false
  end.

Lemma ending_step t s s' : thread_inv s → ending s = true → exec (Step t) s = Some (Ok s') → ending s' = true.
Proof.
intros H He E. destruct t; cbn [exec] in E; open_inv s H; unfold ending, unasked in *; cbn in He.
- destruct p as [| | |[]| | |[]| | | | | |], l; try discriminate Ip; try discriminate He; clear Ip.
  all: destruct lp as [lp|]; try discriminate Io; destruct jo; try discriminate Ij; close_inv.
- destruct l, p as [| | |[]| | |[]| | | | | |]; try discriminate Ip; try discriminate He; clear Ip.
  all: destruct lp as [lp|]; try discriminate Io; cbn in E, Io, He.
  all: try (destruct (quit_ lp); cbn in E; [|done]); close_inv.
Qed.

Lemma ending_progress s : thread_inv s → ending s = true → sat s ≠ DEnd → enabled s.
Proof.
intros H He Hd. open_inv s H; unfold ending, unasked in He; cbn in He.
destruct p as [| | |[]| | |[]| | | | | |]; try discriminate He; try done; destruct l; try discriminate Ip; try discriminate He.
all: destruct jo; try discriminate Ij; try discriminate He; destruct lp as [lp|]; try discriminate Io; try discriminate He.
all: first [by exists Starter; eexists | by exists Looper; eexists | idtac].
all: exists Looper; cbn in *; destruct (quit_ lp); [by eexists|done].
Qed.

(** The destructor of an object whose thread is in [loop()] ends the loop, waits for the thread
    and returns, in every schedule of the two threads. *)
Theorem destructor_returns s acts s' :
  reachable s → sat s = DTest → lat s = LLoop → unasked s = true → Forall is_step acts → run acts s = Some (Ok s') →
  (length acts ≤ rank s)%nat ∧ (enabled s' ∨ (sat s' = DEnd ∧ joined_ s' = true ∧ lat s' = LDone)).
Proof.
intros Hr Hp Hl Hu Ha E. apply reachable_thread_inv in Hr. split.
- pose proof (run_rank _ _ _ Hr Ha E). lia.
- pose proof (run_inv _ _ _ Hr E) as Hi.
  assert (ending s' = true) as He.
  { apply (run_steps (λ s, ending s = true) acts s); [apply ending_step|done| |done|done]. unfold ending. by rewrite Hp, Hl. }
  destruct (decide (sat s' = DEnd)) as [Ed|Ed]; [right|left; by apply ending_progress].
  unfold ending in He. rewrite Ed in He. destruct Hi as [_ _ _ _ _ _ Ij]. rewrite He, Ed in Ij. cbn in Ij.
  split_and!; [done|done|]. by destruct (lat s').
Qed.
End threads.

(** ** Schedules *)

(** A thread without an initial callback hands its loop over. *)
Definition hand_over : list act :=
  [Step Starter; Step Looper; Step Looper; Step Looper; Step Looper; Step Looper; Step Starter; Step Starter; Step Starter].

Lemma startLoop_returns_witness :
  ∃ s, run None hand_over EventLoopThread_ctor = Some (Ok s) ∧
    (length hand_over ≤ rank EventLoopThread_ctor)%nat ∧ (sat s = SDone true ∨ enabled None s).
Proof.
eexists. split; [vm_compute; reflexivity|].
apply (startLoop_returns None EventLoopThread_ctor hand_over); [by exists []|by split|by repeat constructor|vm_compute; reflexivity].
Defined.

(** The destructor runs after [startLoop] has returned and before the thread is in [loop()]:
    the entry of [loop()] forgets the request to end, and both threads wait for ever. *)
Example destructor_hangs :
  ∃ s, run None (hand_over ++ [Step Starter; Destroy; Step Starter; Step Starter; Step Starter; Step Looper]) EventLoopThread_ctor = Some (Ok s) ∧
    sat s = DJoin ∧ lat s = LLoop ∧ ∀ a, a ≠ OtherQuit → exec None a s = None.
Proof. eexists. split; [vm_compute; reflexivity|]. split_and!; [done|done|]. intros [[]| | |] Ha; [reflexivity..|by destruct Ha|reflexivity]. Qed.

(** A loop that ends before the starting thread has the lock is never handed over: [loop_] is
    null again, and nobody will notify. *)
Example startLoop_hangs :
  ∃ s, run None ([Step Starter; Step Looper; Step Looper; Step Looper; Step Looper; Step Looper; Step Looper; OtherQuit;
                  Step Looper; Step Looper; Step Looper; Step Starter; Step Starter]) EventLoopThread_ctor = Some (Ok s) ∧
    sat s = SWait false ∧ ∀ t, exec None (Step t) s = None.
Proof. eexists. split; [vm_compute; reflexivity|]. split; [done|]. intros []; reflexivity. Qed.

(** [return loop_] reads the member without the lock: a loop that ended meanwhile gives null. *)
Example startLoop_null :
  ∃ s, run None (hand_over ++ [Step Looper; OtherQuit; Step Looper; Step Looper; Step Starter]) EventLoopThread_ctor = Some (Ok s) ∧
    sat s = SDone false.
Proof. eexists. split; [vm_compute; reflexivity|done]. Qed.

(** The destructor tests [loop_] without the lock: it can call [quit] on a loop that is gone. *)
Example quit_of_dead_loop :
  run None (hand_over ++ [Step Starter; Step Looper; Destroy; Step Starter; OtherQuit; Step Looper; Step Looper; Step Looper; Step Starter])
    EventLoopThread_ctor = Some (Fault OutOfBounds).
Proof. reflexivity. Qed.
