(* ===== verification/Server.v ===== *)
(** [mucgi/muduo_net/TcpServer.cc], [EventLoopThreadPool.cc] and [Acceptor.cc]: which loop
    a new connection gets, the name it is stored under, its removal, and what the
    acceptor does when no descriptor is left.

    A connection and a loop are known by a number.  What [connectEstablished] and
    [connectDestroyed] do is in [TcpConn]; here they are entries of the queue of the
    connection's loop. *)

From Stdlib Require Import ZArith Lia Bool.
From Stdlib.Strings Require Import Byte.
From stdpp Require Import base numbers list gmap option.
From S2P Require Import Prelude CxxString.

Local Open Scope Z_scope.

(** ** The pool of loops *)

Record EventLoopThreadPool := mkPool { baseLoop_ : nat; started_ : bool; loops_ : list nat; next_ : Z }.

(** [start]: the loops of the threads are [loops]. *)
Definition pool_start (loops : list nat) (p : EventLoopThreadPool) : res EventLoopThreadPool :=
  assert_ (negb (started_ p)) ;; Ok (mkPool (baseLoop_ p) true loops (next_ p)).

Definition getNextLoop (p : EventLoopThreadPool) : res (nat * EventLoopThreadPool) :=
  assert_ (started_ p) ;;
  match loops_ p with
  | [] => Ok (baseLoop_ p, p)
  | _ =>
      match (if next_ p <? 0 then None else loops_ p !! Z.to_nat (next_ p)) with
      | None => Fault OutOfBounds
      | Some l =>
          let n := s32 (next_ p + 1) in
          let n := if Z.of_nat (length (loops_ p)) <=? u64 n then 0 else n in
          Ok (l, mkPool (baseLoop_ p) (started_ p) (loops_ p) n)
      end
  end.

Definition getLoopForHash (hashCode : Z) (p : EventLoopThreadPool) : res nat :=
  match loops_ p with
  | [] => Ok (baseLoop_ p)
  | _ =>
      match loops_ p !! Z.to_nat (hashCode mod Z.of_nat (length (loops_ p))) with
      | Some l => Ok l
      | None => Fault OutOfBounds
      end
  end.

Definition getAllLoops (p : EventLoopThreadPool) : res (list nat) :=
  assert_ (started_ p) ;; Ok (match loops_ p with [] => [baseLoop_ p] | ls => ls end).

(** ** The server *)

(** What is queued in, or run by, the loop of a connection. *)
Inductive job := Establish (conn : nat) | Destroy (conn : nat).

Record TcpServer := mkServer {
  ipPort_ : bytes; name_ : bytes;
  threadPool_ : EventLoopThreadPool;
  nextConnId_ : Z;
  connections_ : gmap bytes nat;
  names : gmap nat (bytes * nat);     (** a connection's own name and loop *)
  jobs : list (nat * job) }.          (** with the loop each is given to *)

(** [snprintf(buf, 64, "-%s#%d", ...)]; a negative number never appears before the
    counter overflows. *)
Definition conn_suffix (ipPort : bytes) (id : Z) : bytes := take 63 ([x2d] ++ ipPort ++ [x23] ++ print_dec id).

Definition newConnection (conn : nat) (s : TcpServer) : res TcpServer :=
  '(ioLoop, pool) ← getNextLoop (threadPool_ s);
  let connName := name_ s ++ conn_suffix (ipPort_ s) (nextConnId_ s) in
  Ok (mkServer (ipPort_ s) (name_ s) pool (s32 (nextConnId_ s + 1)) (<[connName := conn]> (connections_ s))
        (<[conn := (connName, ioLoop)]> (names s)) (jobs s ++ [(ioLoop, Establish conn)])).

Definition removeConnectionInLoop (conn : nat) (s : TcpServer) : res TcpServer :=
  match names s !! conn with
  | None => Fault OutOfBounds
  | Some (connName, ioLoop) =>
      let n := if decide (is_Some (connections_ s !! connName)) then 1%nat else 0%nat in
      assert_ (n =? 1)%nat ;;
      Ok (mkServer (ipPort_ s) (name_ s) (threadPool_ s) (nextConnId_ s) (delete connName (connections_ s))
            (names s) (jobs s ++ [(ioLoop, Destroy conn)]))
  end.

(** ** The acceptor *)

(** [acceptChannel_], [idleFd_] and whether it listens. *)
Record Acceptor := mkAcceptor { listenning_ : bool; reading_ : bool; idleFd_ : Z }.

Definition listen (a : Acceptor) : Acceptor := mkAcceptor true true (idleFd_ a).

Definition EMFILE : Z := 24.

(** What [accept] answers; on [EMFILE], what the second [accept] and [open] answer. *)
Inductive accepted := Accepted (fd : Z) | AcceptError (errno : Z) (again reopened : Z).

(** The connection handed on, and the descriptors closed. *)
Definition handleRead (callback : bool) (r : accepted) (a : Acceptor) : option Z * list Z * Acceptor :=
  match r with
  | Accepted fd => if callback : bool then (Some fd, [], a) else (None, [fd], a)
  | AcceptError errno again reopened =>
      if errno =? EMFILE
      then (None, [idleFd_ a; again], mkAcceptor (listenning_ a) (reading_ a) reopened)
      else (None, [], a)
  end.

(** [TcpServer::start] *)
Definition start (loops : list nat) (started : bool) (s : TcpServer) (a : Acceptor) : res (TcpServer * Acceptor) :=
  if started then Ok (s, a) else
  p ← pool_start loops (threadPool_ s);
  assert_ (negb (listenning_ a)) ;;
  Ok (mkServer (ipPort_ s) (name_ s) p (nextConnId_ s) (connections_ s) (names s) (jobs s), listen a).

(** ** The choice of a loop *)

Definition pool_ok (p : EventLoopThreadPool) : Prop :=
  started_ p = true ∧ Z.of_nat (length (loops_ p)) < 2 ^ 31 ∧
  match loops_ p with [] => True | _ => 0 ≤ next_ p < Z.of_nat (length (loops_ p)) end.

Lemma getNextLoop_ok p :
  pool_ok p → ∃ l p', getNextLoop p = Ok (l, p') ∧ pool_ok p' ∧ loops_ p' = loops_ p ∧ baseLoop_ p' = baseLoop_ p ∧
    match loops_ p with
    | [] => l = baseLoop_ p
    | ls => ls !! Z.to_nat (next_ p) = Some l ∧ next_ p' = (next_ p + 1) mod Z.of_nat (length ls)
    end.
Proof.
intros (Hs & Hb & Hn). unfold getNextLoop. rewrite Hs. cbn [assert_ mbind res_bind]. destruct (loops_ p) as [|l0 ls] eqn:El.
- exists (baseLoop_ p), p. split_and!; try done. unfold pool_ok. by rewrite Hs, El.
- rewrite (proj2 (Z.ltb_ge (next_ p) 0)) by lia. destruct ((l0 :: ls) !! Z.to_nat (next_ p)) as [l|] eqn:Eg.
  2:{ apply lookup_ge_None in Eg. lia. }
  assert (s32 (next_ p + 1) = next_ p + 1) as -> by (unfold s32; apply swrap_small; lia).
  unfold u64. rewrite (Z.mod_small (next_ p + 1)) by lia. eexists l, _. split; [done|]. cbn [started_ loops_ next_ baseLoop_].
  set (n := Z.of_nat (length (l0 :: ls))) in *. destruct (Z.leb_spec n (next_ p + 1)) as [Hge|Hlt].
  + assert (next_ p + 1 = n) as -> by lia. rewrite Z_mod_same_full. split_and!; try done; unfold pool_ok; cbn [started_ loops_ next_]; split_and!; done || lia.
  + rewrite Z.mod_small by lia. split_and!; try done; unfold pool_ok; cbn [started_ loops_ next_]; split_and!; done || lia.
Qed.

(** [k] calls in a row. *)
Fixpoint next_loops (k : nat) (p : EventLoopThreadPool) : res (list nat * EventLoopThreadPool) :=
  match k with
  | O => Ok ([], p)
  | S k => '(l, p) ← getNextLoop p; '(ls, p) ← next_loops k p; Ok (l :: ls, p)
  end.

(** The loops take turns: the [i]-th of a series of calls gets the loop [i] places on. *)
Lemma round_robin k p :
  pool_ok p → loops_ p ≠ [] →
  ∃ ls p', next_loops k p = Ok (ls, p') ∧ length ls = k ∧
    ∀ i, (i < k)%nat → ls !! i = loops_ p !! Z.to_nat ((next_ p + Z.of_nat i) mod Z.of_nat (length (loops_ p))).
Proof.
revert p. induction k as [|k IH]; intros p H Hne; [exists [], p; split_and!; try done; lia|].
destruct (getNextLoop_ok p H) as (l & p1 & E1 & H1 & El & _ & Hl). destruct (IH p1 H1) as (ls & p2 & E2 & Hlen & Hi); [by rewrite El|].
cbn [next_loops]. rewrite E1. cbn [mbind res_bind]. rewrite E2. cbn [mbind res_bind]. exists (l :: ls), p2. split_and!; [done|cbn; lia|].
destruct H as (_ & _ & Hn). destruct (loops_ p) as [|l0 ls0] eqn:Ep; [done|]. destruct Hl as [Hg Hnx]. intros [|i] Hlt.
- change ((l :: ls) !! 0%nat) with (Some l). change (Z.of_nat 0) with 0. rewrite Z.add_0_r, Z.mod_small by lia. done.
- cbn [lookup list_lookup]. rewrite Hi by lia. rewrite El, Hnx. f_equal. f_equal. rewrite Zplus_mod_idemp_l. f_equal. lia.
Qed.

(** The loop of the [i]-th connection from now on: the loops take turns. *)
Definition turn (p : EventLoopThreadPool) (i : nat) : nat :=
  match loops_ p with
  | [] => baseLoop_ p
  | ls => default 0%nat (ls !! Z.to_nat ((next_ p + Z.of_nat i) mod Z.of_nat (length ls)))
  end.

Lemma getNextLoop_turn p :
  pool_ok p → ∃ l p', getNextLoop p = Ok (l, p') ∧ pool_ok p' ∧ l = turn p 0 ∧ ∀ i, turn p' i = turn p (S i).
Proof.
intros H. destruct (getNextLoop_ok p H) as (l & p' & E & H' & El & Eb & Hl). exists l, p'. split_and!; try done; unfold turn; rewrite ?El, ?Eb.
- destruct H as (_ & _ & Hn). destruct (loops_ p) as [|l0 ls]; [done|]. destruct Hl as [Hg _].
  rewrite Z.add_0_r, Z.mod_small by lia. by rewrite Hg.
- intros i. destruct (loops_ p) as [|l0 ls]; [done|]. destruct Hl as [_ ->]. f_equal. f_equal. f_equal. rewrite Zplus_mod_idemp_l. f_equal. lia.
Qed.

(** ** Names *)

(** The decimal digits determine the number. *)
Lemma print_dec_inj a b : 0 ≤ a → 0 ≤ b → print_dec a = print_dec b → a = b.
Proof.
intros Ha Hb E. destruct (print_dec_spec a Ha) as (_ & Va & _), (print_dec_spec b Hb) as (_ & Vb & _). congruence.
Qed.

Lemma dec_digits_length fuel k n acc :
  0 ≤ n < 10 ^ Z.of_nat (S k) → (length (dec_digits fuel n acc) ≤ S k + length acc)%nat.
Proof.
revert k n acc. induction fuel as [|fuel IH]; intros k n acc Hn; cbn [dec_digits]; [lia|].
destruct (Z.ltb_spec n 10) as [Hlt|Hge]; [cbn; lia|]. destruct k as [|k]; [change (10 ^ Z.of_nat 1) with 10 in Hn; lia|].
etransitivity; [apply (IH k)|cbn [length]; lia]. rewrite (Nat2Z.inj_succ (S k)), Z.pow_succ_r in Hn by lia.
split; [apply Z.div_pos; lia|]. apply Z.div_lt_upper_bound; lia.
Qed.

(** A number of [int] range has at most ten digits. *)
Lemma print_dec_length n : 0 ≤ n < 2 ^ 31 → (length (print_dec n) ≤ 10)%nat.
Proof. intros Hn. apply (dec_digits_length _ 9); lia. Qed.

(** No name is cut off by the 64 characters of [buf]: an address and port take at most 51
    (45 characters for IPv6, a colon and five digits). *)
Lemma conn_suffix_full ipPort id :
  (length ipPort ≤ 51)%nat → 0 ≤ id < 2 ^ 31 → conn_suffix ipPort id = [x2d] ++ ipPort ++ [x23] ++ print_dec id.
Proof.
intros Hl Hi. unfold conn_suffix. apply take_ge. pose proof (print_dec_length id Hi). rewrite !length_app. cbn [length]. lia.
Qed.

Lemma conn_suffix_inj ipPort a b :
  (length ipPort ≤ 51)%nat → 0 ≤ a < 2 ^ 31 → 0 ≤ b < 2 ^ 31 → conn_suffix ipPort a = conn_suffix ipPort b → a = b.
Proof.
intros Hl Ha Hb. rewrite !conn_suffix_full by done. intros E. apply app_inv_head, app_inv_head, app_inv_head in E. apply print_dec_inj; lia || done.
Qed.

(** ** Connections *)

Inductive sop := New (conn : nat) | Remove (conn : nat).

Definition run_sop (o : sop) (s : TcpServer) : res TcpServer :=
  match o with New c => newConnection c s | Remove c => removeConnectionInLoop c s end.

Fixpoint run_sops (os : list sop) (s : TcpServer) : res TcpServer :=
  match os with [] => Ok s | o :: os => s ← run_sop o s; run_sops os s end.

(** The connections that are open: a connection is new once, and removed once, after. *)
Fixpoint live (os : list sop) (open_ used : gset nat) : option (gset nat) :=
  match os with
  | [] => Some open_
  | New c :: os => if decide (c ∈ used) then None else live os ({[ c ]} ∪ open_) ({[ c ]} ∪ used)
  | Remove c :: os => if decide (c ∈ open_) then live os (open_ ∖ {[ c ]}) used else None
  end.

Record server_inv (open_ used : gset nat) (s : TcpServer) : Prop := {
  sv_pool : pool_ok (threadPool_ s);
  sv_ip : (length (ipPort_ s) ≤ 51)%nat;
  sv_next : 0 < nextConnId_ s < 2 ^ 31;
  sv_used c : c ∈ used ↔ is_Some (names s !! c);
  sv_open c : c ∈ open_ ↔ ∃ n l, names s !! c = Some (n, l) ∧ connections_ s !! n = Some c;
  sv_stored n c : connections_ s !! n = Some c → c ∈ open_ ∧ ∃ l, names s !! c = Some (n, l);
  sv_old c n l : names s !! c = Some (n, l) → ∃ id, 0 < id < nextConnId_ s ∧ n = name_ s ++ conn_suffix (ipPort_ s) id;
  sv_distinct c c' n l l' : names s !! c = Some (n, l) → names s !! c' = Some (n, l') → c = c';
}.

Lemma new_inv open_ used s c :
  server_inv open_ used s → c ∉ used → nextConnId_ s + 1 < 2 ^ 31 →
  ∃ s' l, newConnection c s = Ok s' ∧ server_inv ({[ c ]} ∪ open_) ({[ c ]} ∪ used) s' ∧ nextConnId_ s' = nextConnId_ s + 1 ∧
    jobs s' = jobs s ++ [(l, Establish c)] ∧ names s' = <[c := (name_ s ++ conn_suffix (ipPort_ s) (nextConnId_ s), l)]> (names s) ∧
    l = turn (threadPool_ s) 0 ∧ (∀ i, turn (threadPool_ s') i = turn (threadPool_ s) (S i)) ∧
    base.size (connections_ s') = S (base.size (connections_ s)).
Proof.
intros [Hp Hip Hn Hu Ho Hs Hold Hd] Hc Hnext. destruct (getNextLoop_turn _ Hp) as (l & p' & E & Hp' & Ht0 & Ht).
unfold newConnection. rewrite E. cbn [mbind res_bind]. set (nm := name_ s ++ conn_suffix (ipPort_ s) (nextConnId_ s)).
assert (∀ d n' l', names s !! d = Some (n', l') → n' ≠ nm) as Hfresh.
{ intros d n' l' Hd' ->. destruct (Hold _ _ _ Hd') as (id & Hid & En). apply app_inv_head, conn_suffix_inj in En; [lia|done|lia..]. }
assert (connections_ s !! nm = None) as Hnone.
{ destruct (connections_ s !! nm) as [d|] eqn:Ed; [|done]. destruct (Hs _ _ Ed) as (_ & l' & Hl'). by apply Hfresh in Hl'. }
assert (names s !! c = None) as Hcn.
{ destruct (names s !! c) as [[n' l']|] eqn:Ec; [|done]. exfalso. apply Hc, Hu. by rewrite Ec. }
assert (s32 (nextConnId_ s + 1) = nextConnId_ s + 1) as Es by (unfold s32; apply swrap_small; lia).
eexists _, l. split; [done|]. cbn [nextConnId_ jobs names connections_]. split_and!; [|done|done|done|done|done|by apply map_size_insert_None].
split; cbn [threadPool_ ipPort_ nextConnId_ names connections_ name_]; [done|done|lia|..].
- intros d. rewrite elem_of_union, elem_of_singleton, Hu. destruct (decide (c = d)) as [<-|Hne].
  + rewrite lookup_insert_eq. split; [by eexists|by left].
  + rewrite lookup_insert_ne by done. split; [intros [->|?]; done|by right].
- intros d. rewrite elem_of_union, elem_of_singleton, Ho. destruct (decide (c = d)) as [<-|Hne].
  + split; [|by left]. intros _. exists nm, l. by rewrite !lookup_insert_eq.
  + rewrite lookup_insert_ne by done. split.
    * intros [->|(n' & l' & H1 & H2)]; [done|]. exists n', l'. split; [done|]. rewrite lookup_insert_ne; [done|]. by apply not_eq_sym, (Hfresh d n' l').
    * intros (n' & l' & H1 & H2). right. exists n', l'. rewrite lookup_insert_ne in H2; [done|]. by apply not_eq_sym, (Hfresh d n' l').
- intros n' d Hnd. destruct (decide (nm = n')) as [<-|Hne].
  + rewrite lookup_insert_eq in Hnd. injection Hnd as <-. split; [apply elem_of_union; left; by apply elem_of_singleton|]. exists l. by rewrite lookup_insert_eq.
  + rewrite lookup_insert_ne in Hnd by done. destruct (Hs _ _ Hnd) as (? & l' & Hl'). split; [by apply elem_of_union_r|].
    exists l'. rewrite lookup_insert_ne; [done|]. intros ->. congruence.
- intros d n' l' Hd'. destruct (decide (c = d)) as [<-|Hne].
  + rewrite lookup_insert_eq in Hd'. injection Hd' as <- <-. exists (nextConnId_ s). split; [lia|done].
  + rewrite lookup_insert_ne in Hd' by done. destruct (Hold _ _ _ Hd') as (id & ? & ?). exists id. split; [lia|done].
- intros d d' n' l1 l2 H1 H2. apply lookup_insert_Some in H1 as [[<- E1]|[Hne1 H1]], H2 as [[<- E2]|[Hne2 H2]]; try done.
  + injection E1 as <- <-. by apply Hfresh in H2.
  + injection E2 as <- <-. by apply Hfresh in H1.
  + by eapply Hd.
Qed.

Lemma remove_inv open_ used s c :
  server_inv open_ used s → c ∈ open_ →
  ∃ s' n l, removeConnectionInLoop c s = Ok s' ∧ server_inv (open_ ∖ {[ c ]}) used s' ∧ nextConnId_ s' = nextConnId_ s ∧
    names s !! c = Some (n, l) ∧ jobs s' = jobs s ++ [(l, Destroy c)] ∧ names s' = names s ∧ threadPool_ s' = threadPool_ s.
Proof.
intros [Hp Hip Hn Hu Ho Hs Hold Hd] Hc. destruct (proj1 (Ho c) Hc) as (n & l & Hnm & Hcn).
unfold removeConnectionInLoop. rewrite Hnm. rewrite decide_True by (by rewrite Hcn). cbn [Nat.eqb assert_ mbind res_bind].
eexists _, n, l. split; [done|]. split_and!; try done. split; cbn [threadPool_ ipPort_ nextConnId_ names connections_ name_]; try done.
- intros d. rewrite elem_of_difference, elem_of_singleton, Ho. split.
  + intros [(n' & l' & H1 & H2) Hne]. exists n', l'. split; [done|]. rewrite lookup_delete_ne; [done|]. intros <-. apply Hne. congruence.
  + intros (n' & l' & H1 & H2). apply lookup_delete_Some in H2 as [Hne H2]. split; [by exists n', l'|]. intros ->. congruence.
- intros n' d Hnd. apply lookup_delete_Some in Hnd as [Hne Hnd]. destruct (Hs _ _ Hnd) as (? & l' & Hl'). split; [|by exists l'].
  apply elem_of_difference. split; [done|]. rewrite elem_of_singleton. intros ->. congruence.
Qed.

(** What the loops are to be given: the [k]-th new connection of the run is established
    in the loop whose turn it is, and a removed one is destroyed in the loop where it was
    established; [own] gives the loops of the connections so far. *)
Fixpoint loop_jobs (turn : nat → nat) (k : nat) (own : gmap nat nat) (os : list sop) : list (nat * job) :=
  match os with
  | [] => []
  | New c :: os => (turn k, Establish c) :: loop_jobs turn (S k) (<[c := turn k]> own) os
  | Remove c :: os => match own !! c with Some l => (l, Destroy c) :: loop_jobs turn k own os | None => [] end
  end.

Lemma loop_jobs_turn t t' k k' own os :
  (∀ i, t (k + i)%nat = t' (k' + i)%nat) → loop_jobs t k own os = loop_jobs t' k' own os.
Proof.
revert k k' own. induction os as [|[c|c] os IH]; intros k k' own H; cbn [loop_jobs]; [done| |].
- pose proof (H 0%nat) as H0. rewrite !Nat.add_0_r in H0. rewrite H0. f_equal. apply IH. intros i. rewrite !Nat.add_succ_comm. apply H.
- destruct (own !! c); [|done]. f_equal. by apply IH.
Qed.

(** C22: A server on which connections open and close in any order, each opened once and
    closed once, until the counter of names reaches the end of an [int]: no assertion
    fails, no index is out of range, the map holds exactly the open connections, each
    under a name of its own, and what the loops are given is, in this order: for each new
    connection, its establishment in the loop whose turn it is, and for each removed one,
    its destruction in the loop where it was established, and nothing else. *)
Theorem server_tracks_connections os s open_ used open' :
  server_inv open_ used s → live os open_ used = Some open' → nextConnId_ s + Z.of_nat (length os) < 2 ^ 31 →
  ∃ s', run_sops os s = Ok s' ∧
    (∀ c, c ∈ open' ↔ ∃ n, connections_ s' !! n = Some c) ∧
    (∀ n n' c, connections_ s' !! n = Some c → connections_ s' !! n' = Some c → n = n') ∧
    jobs s' = jobs s ++ loop_jobs (turn (threadPool_ s)) 0 (snd <$> names s) os.
Proof.
revert s open_ used. induction os as [|o os IH]; intros s open_ used H Hl Hb.
- injection Hl as <-. exists s. split; [done|]. split_and!.
  + intros c. rewrite (sv_open _ _ _ H). split; [intros (n & l & _ & ?); by exists n|]. intros (n & Hn).
    destruct (sv_stored _ _ _ H _ _ Hn) as (_ & l & ?). by exists n, l.
  + intros n n' c H1 H2. destruct (sv_stored _ _ _ H _ _ H1) as (_ & l & ?), (sv_stored _ _ _ H _ _ H2) as (_ & l' & ?). congruence.
  + by rewrite app_nil_r.
- cbn [length] in Hb. destruct o as [c|c]; cbn [live] in Hl; case_decide as Hc; try done; cbn [loop_jobs].
  + destruct (new_inv open_ used s c H Hc) as (s1 & l & E1 & H1 & Hn1 & Hj1 & Hnm & Hl0 & Ht & _); [lia|].
    destruct (IH s1 _ _ H1 Hl) as (s' & E & Ho & Hd & Hj); [lia|]. exists s'. cbn [run_sops run_sop]. rewrite E1. cbn [mbind res_bind].
    split_and!; [done..|]. rewrite Hj, Hj1, <- app_assoc, Hnm, fmap_insert, <- Hl0. cbn [app snd]. do 2 f_equal.
    by apply loop_jobs_turn.
  + destruct (remove_inv open_ used s c H Hc) as (s1 & n & l & E1 & H1 & Hn1 & Hnc & Hj1 & Hnm & Hp).
    destruct (IH s1 _ _ H1 Hl) as (s' & E & Ho & Hd & Hj); [lia|]. exists s'. cbn [run_sops run_sop]. rewrite E1. cbn [mbind res_bind].
    split_and!; [done..|]. rewrite Hj, Hj1, <- app_assoc, Hnm, Hp, lookup_fmap, Hnc. done.
Qed.

(** A server with two loops. *)
Definition demo_server : TcpServer := mkServer [x30] [x73] (mkPool 0 true [1; 2]%nat 0) 1 ∅ ∅ [].

Lemma demo_server_inv : server_inv ∅ ∅ demo_server.
Proof.
split; cbn; [done|lia|lia|..].
- intros c. rewrite elem_of_empty, lookup_empty. split; [done|]. by intros [? ?].
- intros c. rewrite elem_of_empty. split; [done|]. by intros (n & l & ? & _).
- intros n c. by rewrite lookup_empty.
- intros c n l. by rewrite lookup_empty.
- intros c c' n l l'. by rewrite lookup_empty.
Qed.

Lemma server_tracks_connections_witness :
  ∃ s', run_sops [New 10; New 11; Remove 10; New 12] demo_server = Ok s' ∧
    (∃ n, connections_ s' !! n = Some 11%nat) ∧ ¬ (∃ n, connections_ s' !! n = Some 10%nat) ∧
    jobs s' = [(1%nat, Establish 10); (2%nat, Establish 11); (1%nat, Destroy 10); (1%nat, Establish 12)].
Proof.
destruct (server_tracks_connections [New 10; New 11; Remove 10; New 12] demo_server ∅ ∅ {[ 11%nat; 12%nat ]} demo_server_inv)
  as (s' & E & Ho & _ & Hj); [by vm_compute|by vm_compute|].
exists s'. split_and!; [done| | |].
- apply Ho, elem_of_union_l. by apply elem_of_singleton.
- rewrite <- Ho. rewrite elem_of_union, !elem_of_singleton. lia.
- rewrite Hj. vm_compute. reflexivity.
Defined.

(** ** The acceptor *)

(** Out of descriptors, the acceptor takes the connection with its reserve, drops it, and
    has the reserve again. *)
Lemma acceptor_sheds again reopened a :
  handleRead true (AcceptError EMFILE again reopened) a =
    (None, [idleFd_ a; again], mkAcceptor (listenning_ a) (reading_ a) reopened).
Proof. done. Qed.
