(* ===== verification/Dates.v ===== *)
(** [mucgi/muduo_base/Date.cc], [Timestamp.h] and the UTC half of [TimeZone.cc]: Julian
    day numbers, calendar dates and seconds since 1970.

    [int] arithmetic is written with its wrap-around; [÷] and [Z.rem] are the truncating
    division of C.  The reference is the rule of the Gregorian calendar, [next_day]. *)

From Stdlib Require Import ZArith Lia Bool.
From stdpp Require Import base numbers list option.
From S2P Require Import Prelude.

Local Open Scope Z_scope.

Local Infix "÷" := Z.quot (at level 40, left associativity) : Z_scope.
Local Notation "a +! b" := (s32 (a + b)) (at level 50, left associativity) : Z_scope.
Local Notation "a -! b" := (s32 (a - b)) (at level 50, left associativity) : Z_scope.
Local Notation "a *! b" := (s32 (a * b)) (at level 40, left associativity) : Z_scope.

(** ** Date *)

Record YearMonthDay := mkYMD { year : Z; month : Z; day : Z }.

Definition getJulianDayNumber (year month day : Z) : Z :=
  let a := (14 -! month) ÷ 12 in
  let y := year +! 4800 -! a in
  let m := month +! (12 *! a) -! 3 in
  day +! ((153 *! m) +! 2) ÷ 5 +! (y *! 365) +! y ÷ 4 -! y ÷ 100 +! y ÷ 400 -! 32045.

Definition getYearMonthDay (julianDayNumber : Z) : YearMonthDay :=
  let a := julianDayNumber +! 32044 in
  let b := ((4 *! a) +! 3) ÷ 146097 in
  let c := a -! (b *! 146097) ÷ 4 in
  let d := ((4 *! c) +! 3) ÷ 1461 in
  let e := c -! (1461 *! d) ÷ 4 in
  let m := ((5 *! e) +! 2) ÷ 153 in
  mkYMD ((b *! 100) +! d -! 4800 +! m ÷ 10) (m +! 3 -! (12 *! (m ÷ 10))) (e -! ((153 *! m) +! 2) ÷ 5 +! 1).

Definition kJulianDayOf1970_01_01 : Z := getJulianDayNumber 1970 1 1.
Definition kDaysPerWeek : Z := 7.

Definition julian (d : YearMonthDay) : Z := getJulianDayNumber (year d) (month d) (day d).

(** Conversion unfolds [julian] first and the arithmetic last. *)
Strategy expand [julian].
Strategy 1000 [getJulianDayNumber getYearMonthDay s32].

Definition weekDay (julianDayNumber : Z) : Z := Z.rem (julianDayNumber +! 1) kDaysPerWeek.

(** ** UTC *)

Definition kSecondsPerDay : Z := 24 * 60 * 60.

(** The members of [struct tm] that are filled in. *)
Record tm := mkTm { tm_sec : Z; tm_min : Z; tm_hour : Z; tm_mday : Z; tm_mon : Z; tm_year : Z; tm_wday : Z; tm_yday : Z; tm_isdst : Z; tm_gmtoff : Z }.

Definition fillHMS (seconds : Z) : Z * Z * Z :=
  let seconds := u32 seconds in
  let minutes := seconds / 60 in
  (minutes / 60, minutes mod 60, seconds mod 60).

(** The seconds of the day and the days, rounded down. *)
Definition split_days (secondsSinceEpoch : Z) : Z * Z :=
  let seconds := s32 (Z.rem secondsSinceEpoch kSecondsPerDay) in
  let days := s32 (secondsSinceEpoch ÷ kSecondsPerDay) in
  if seconds <? 0 then (seconds +! kSecondsPerDay, days -! 1) else (seconds, days).

Definition toUtcTime (secondsSinceEpoch : Z) (yday : bool) : tm :=
  let '(seconds, days) := split_days secondsSinceEpoch in
  let '(hour, min, sec) := fillHMS seconds in
  let date := days +! kJulianDayOf1970_01_01 in
  let ymd := getYearMonthDay date in
  mkTm sec min hour (day ymd) (month ymd -! 1) (year ymd -! 1900) (weekDay date)
    (if yday then date -! getJulianDayNumber (year ymd) 1 1 else 0) 0 0.

(** The overload with six numbers; [time_t] has 64 bits. *)
Definition fromUtcTime_ymd (year month day hour minute seconds : Z) : Z :=
  let date := getJulianDayNumber year month day in
  let secondsInDay := (hour *! 3600) +! (minute *! 60) +! seconds in
  let days := date -! kJulianDayOf1970_01_01 in
  s64 (s64 (days * kSecondsPerDay) + secondsInDay).

Definition fromUtcTime (utc : tm) : Z :=
  fromUtcTime_ymd (tm_year utc +! 1900) (tm_mon utc +! 1) (tm_mday utc) (tm_hour utc) (tm_min utc) (tm_sec utc).

(** ** The calendar *)

Definition leap (y : Z) : bool := (y mod 4 =? 0) && (negb (y mod 100 =? 0) || (y mod 400 =? 0)).

Definition days_in_month (y m : Z) : Z :=
  if m =? 2 then if leap y then 29 else 28
  else if (m =? 4) || (m =? 6) || (m =? 9) || (m =? 11) then 30 else 31.

Definition valid_date (d : YearMonthDay) : Prop := 1 ≤ month d ≤ 12 ∧ 1 ≤ day d ≤ days_in_month (year d) (month d).

Definition next_day (d : YearMonthDay) : YearMonthDay :=
  if day d <? days_in_month (year d) (month d) then mkYMD (year d) (month d) (day d + 1)
  else if month d <? 12 then mkYMD (year d) (month d + 1) 1
  else mkYMD (year d + 1) 1 1.

(** ** Arithmetic *)

(** Removes the wrap-around from the inside out, where the ranges are known. *)
Ltac no_wrap :=
  repeat match goal with
  | |- context [s32 ?e] => lazymatch e with context [s32 _] => fail | _ => rewrite (s32_id e) by lia end
  end.

(** The days before a year that begins in March, and before a month of it. *)
Definition before_year (y : Z) : Z := y * 365 + y / 4 - y / 100 + y / 400.
Definition before_month (m : Z) : Z := (153 * m + 2) / 5.

(** A date seen from the March before it: the years since March of -4800 and the months
    since March. *)
Definition march_year (d : YearMonthDay) : Z := year d + 4800 - (if month d <=? 2 then 1 else 0).
Definition march_month (d : YearMonthDay) : Z := if month d <=? 2 then month d + 9 else month d - 3.

(** The dates from the first of March -4800 to the year 1000000. *)
Definition in_range (d : YearMonthDay) : Prop := 0 ≤ march_year d ≤ 1400000.

Lemma julian_spec d :
  valid_date d → in_range d → julian d = before_year (march_year d) + before_month (march_month d) + day d - 32045.
Proof.
intros [Hm Hd] Hr. unfold in_range in Hr.
assert (1 ≤ day d ≤ 31) as Hd' by (unfold days_in_month in Hd; repeat case_match; lia).
unfold julian, getJulianDayNumber. set (a := (14 -! month d) ÷ 12).
assert (a = if month d <=? 2 then 1 else 0) as Ea.
{ unfold a. no_wrap. rewrite Z.quot_div_nonneg by lia. destruct (Z.leb_spec (month d) 2); Z.to_euclidean_division_equations; lia. }
assert (0 ≤ a ≤ 1) by (rewrite Ea; case_match; lia).
assert (march_year d = year d + 4800 - a) as Ey by (unfold march_year; rewrite Ea; lia).
assert (march_month d = month d + 12 * a - 3) as Em by (unfold march_month; rewrite Ea; case_match; lia).
clearbody a. assert (0 ≤ month d + 12 * a - 3 ≤ 11) by (rewrite <- Em; unfold march_month; destruct (Z.leb_spec (month d) 2); lia).
no_wrap. rewrite <- Ey, <- Em in *. rewrite !Z.quot_div_nonneg by lia. fold (before_month (march_month d)).
assert (0 ≤ before_month (march_month d) ≤ 338) by (unfold before_month; Z.to_euclidean_division_equations; lia).
assert (0 ≤ march_year d / 4 ≤ march_year d ∧ 0 ≤ march_year d / 100 ≤ march_year d ∧ 0 ≤ march_year d / 400 ≤ march_year d) as (? & ? & ?)
  by (Z.to_euclidean_division_equations; lia).
no_wrap. unfold before_year. lia.
Qed.

(** A century and a year in it. *)
Lemma before_year_century b r : 0 ≤ r < 100 → before_year (100 * b + r) = 146097 * b / 4 + 1461 * r / 4.
Proof. intros Hr. unfold before_year. Z.to_euclidean_division_equations; lia. Qed.

(** The last day of a March year exists when the next year is a leap year. *)
Definition year_day_ok (y e : Z) : Prop := 0 ≤ e ≤ 364 ∨ e = 365 ∧ leap (y + 1) = true.

Lemma leap_march b r : 0 ≤ r < 100 → leap (100 * b + r + 1) = true → r mod 4 = 3 ∧ (r = 99 → b mod 4 = 3).
Proof.
intros Hr Hl. unfold leap in Hl. apply andb_prop in Hl as [H4%Z.eqb_eq H]. split; [Z.to_euclidean_division_equations; lia|].
intros ->. apply orb_prop in H as [H|H%Z.eqb_eq].
- apply negb_true_iff, Z.eqb_neq in H. exfalso. apply H. replace (100 * b + 99 + 1) with ((b + 1) * 100) by lia. apply Z.mod_mul. lia.
- Z.to_euclidean_division_equations; lia.
Qed.

(** The steps of [getYearMonthDay]: century, year and day of the year. *)
Lemma ymd_century b r e : 0 ≤ b → 0 ≤ r < 100 → year_day_ok (100 * b + r) e → (4 * (146097 * b / 4 + (1461 * r / 4 + e)) + 3) / 146097 = b.
Proof.
intros Hb Hr He. symmetry. apply (Z.div_unique_pos _ _ _ (4 * (146097 * b / 4 + (1461 * r / 4 + e)) + 3 - 146097 * b)); [|lia].
destruct He as [He|[-> Hl]]; [|destruct (leap_march b r Hr Hl) as [H4 H99]]; Z.to_euclidean_division_equations; lia.
Qed.

Lemma ymd_year b r e : 0 ≤ r < 100 → year_day_ok (100 * b + r) e → (4 * (1461 * r / 4 + e) + 3) / 1461 = r.
Proof.
intros Hr He. symmetry. apply (Z.div_unique_pos _ _ _ (4 * (1461 * r / 4 + e) + 3 - 1461 * r)); [|lia].
destruct He as [He|[-> Hl]]; [|destruct (leap_march b r Hr Hl) as [H4 _]]; Z.to_euclidean_division_equations; lia.
Qed.

Lemma ymd_month m d : 0 ≤ m ≤ 11 → 1 ≤ d → before_month m + d - 1 < before_month (m + 1) → (5 * (before_month m + d - 1) + 2) / 153 = m.
Proof.
intros Hm Hd Hlt. unfold before_month in *. symmetry. apply (Z.div_unique_pos _ _ _ (5 * ((153 * m + 2) / 5 + d - 1) + 2 - 153 * m)); [|lia].
Z.to_euclidean_division_equations; lia.
Qed.

(** [getYearMonthDay] on the day with number [e] of a March year. *)
Lemma ymd_spec y m d :
  0 ≤ y ≤ 1400000 → 0 ≤ m ≤ 11 → 1 ≤ d → before_month m + d - 1 < before_month (m + 1) → year_day_ok y (before_month m + d - 1) →
  getYearMonthDay (before_year y + before_month m + d - 32045) = mkYMD (y - 4800 + m / 10) (m + 3 - 12 * (m / 10)) d.
Proof.
intros Hy Hm Hd Hlt He. set (e := before_month m + d - 1) in *. assert (0 ≤ e ≤ 365) as Hbe by (destruct He as [?|[? _]]; lia).
pose proof (Z.div_mod y 100 ltac:(lia)) as Ey. pose proof (Z.mod_pos_bound y 100 ltac:(lia)) as Hr. set (b := y / 100) in *. set (r := y mod 100) in *.
assert (0 ≤ b ≤ 14000) as Hb by lia. rewrite Ey in He |- *. rewrite before_year_century by done.
pose proof (ymd_century b r e ltac:(lia) Hr He) as E1. pose proof (ymd_year b r e Hr He) as E2. pose proof (ymd_month m d Hm Hd Hlt) as E3. fold e in E3.
assert (0 ≤ 146097 * b / 4 ≤ 146097 * b ∧ 0 ≤ 1461 * r / 4 ≤ 36160) as [Hq1 Hq2] by (Z.to_euclidean_division_equations; lia).
assert (146097 * b / 4 ≤ 511339500) as Hq3 by (Z.to_euclidean_division_equations; lia).
replace (146097 * b / 4 + 1461 * r / 4 + before_month m + d - 32045) with (146097 * b / 4 + (1461 * r / 4 + e) - 32044) by lia.
assert (0 ≤ before_month m ≤ 337) as Hbm by (unfold before_month; Z.to_euclidean_division_equations; lia).
unfold getYearMonthDay. no_wrap. replace (146097 * b / 4 + (1461 * r / 4 + e) - 32044 + 32044) with (146097 * b / 4 + (1461 * r / 4 + e)) by lia.
rewrite (Z.quot_div_nonneg _ 146097), E1 by lia. no_wrap. rewrite (Z.quot_div_nonneg (b * 146097)), (Z.mul_comm b 146097) by lia. no_wrap.
replace (146097 * b / 4 + (1461 * r / 4 + e) - 146097 * b / 4) with (1461 * r / 4 + e) by lia. no_wrap.
rewrite (Z.quot_div_nonneg _ 1461), E2 by lia. no_wrap. rewrite (Z.quot_div_nonneg (1461 * r)) by lia. no_wrap.
replace (1461 * r / 4 + e - 1461 * r / 4) with e by lia. no_wrap. rewrite (Z.quot_div_nonneg _ 153), E3 by lia.
rewrite (Z.quot_div_nonneg m 10) by lia. assert (0 ≤ m / 10 ≤ 1) by (Z.to_euclidean_division_equations; lia). no_wrap.
rewrite (Z.quot_div_nonneg (153 * m + 2)) by lia. fold (before_month m). no_wrap. f_equal; lia.
Qed.

(** ** The calendar and the day numbers *)

Lemma leap_4800 y : leap (y + 4800) = leap y.
Proof.
unfold leap. replace (y + 4800) with (y + 12 * 400) by lia. rewrite Z_mod_plus_full.
replace (y + 12 * 400) with (y + 48 * 100) by lia. rewrite Z_mod_plus_full. replace (y + 48 * 100) with (y + 1200 * 4) by lia. by rewrite Z_mod_plus_full.
Qed.

(** What a valid date is from March on. *)
Lemma march_ok d :
  valid_date d → 0 ≤ march_month d ≤ 11 ∧ before_month (march_month d) + day d - 1 < before_month (march_month d + 1) ∧
    year_day_ok (march_year d) (before_month (march_month d) + day d - 1).
Proof.
intros [Hm Hd]. unfold march_month, march_year, before_month, year_day_ok.
assert (month d = 1 ∨ month d = 2 ∨ month d = 3 ∨ month d = 4 ∨ month d = 5 ∨ month d = 6 ∨ month d = 7 ∨ month d = 8 ∨ month d = 9 ∨ month d = 10 ∨ month d = 11 ∨ month d = 12)
  as Hc by lia.
destruct (Z.eqb_spec (month d) 2) as [E2|Hne].
- rewrite E2 in *. cbn [Z.leb Z.compare Pos.compare Pos.compare_cont]. change (days_in_month (year d) 2) with (if leap (year d) then 29 else 28) in Hd.
  replace (year d + 4800 - 1 + 1) with (year d + 4800) by lia. rewrite leap_4800. change ((153 * (2 + 9) + 2) / 5) with 337. change ((153 * (2 + 9 + 1) + 2) / 5) with 367.
  destruct (leap (year d)); split_and!; lia.
- destruct Hc as [Hc|[Hc|[Hc|[Hc|[Hc|[Hc|[Hc|[Hc|[Hc|[Hc|[Hc|Hc]]]]]]]]]]]; rewrite Hc in *; try done; cbn in Hd |- *; split_and!;
    Z.to_euclidean_division_equations; lia.
Qed.

Lemma march_back d :
  mkYMD (march_year d - 4800 + march_month d / 10) (march_month d + 3 - 12 * (march_month d / 10)) (day d) = d ∨ ¬ (1 ≤ month d ≤ 12).
Proof.
destruct d as [y m d]. cbn. unfold march_year, march_month. cbn. destruct (decide (1 ≤ m ≤ 12)) as [Hm|Hm]; [left|by right].
destruct (Z.leb_spec m 2); f_equal; Z.to_euclidean_division_equations; lia.
Qed.

(** Day number and date are inverse. *)
Lemma ymd_julian d : valid_date d → in_range d → getYearMonthDay (julian d) = d.
Proof.
intros Hv Hr. rewrite julian_spec by done. destruct (march_ok d Hv) as (Hm & Hlt & He). destruct Hv as [Hm' Hd'].
rewrite ymd_spec; try done; [|lia]. by destruct (march_back d).
Qed.

Lemma next_day_valid d : valid_date d → valid_date (next_day d).
Proof.
intros [Hm Hd]. unfold next_day, valid_date. destruct (Z.ltb_spec (day d) (days_in_month (year d) (month d))); [cbn; lia|].
assert (∀ y m, 28 ≤ days_in_month y m) as Hmin by (intros y m; unfold days_in_month; repeat case_match; lia).
destruct (Z.ltb_spec (month d) 12); cbn [year month day]; pose proof (Hmin (year d) (month d + 1)); pose proof (Hmin (year d + 1) 1); lia.
Qed.

(** A year that begins in March has 365 or 366 days. *)
Lemma before_year_next y : before_year (y + 1) = before_year y + 365 + (if leap (y + 1) then 1 else 0).
Proof.
unfold before_year, leap. destruct (Z.eqb_spec ((y + 1) mod 4) 0), (Z.eqb_spec ((y + 1) mod 100) 0), (Z.eqb_spec ((y + 1) mod 400) 0); cbn [andb orb negb];
  Z.to_euclidean_division_equations; lia.
Qed.

Lemma next_day_julian d : valid_date d → in_range d → in_range (next_day d) → julian (next_day d) = julian d + 1.
Proof.
intros Hv Hr Hr'. rewrite !julian_spec by (done || by apply next_day_valid). destruct Hv as [Hm Hd]. unfold next_day in *.
destruct (Z.ltb_spec (day d) (days_in_month (year d) (month d))) as [Hlt|Hge]; [unfold march_year, march_month; cbn; lia|].
assert (day d = days_in_month (year d) (month d)) as -> by lia. clear Hd Hge. destruct d as [y m d0]. cbn [year month day] in *.
destruct (Z.eqb_spec m 2) as [->|Hne].
- change (2 <? 12) with true. cbn iota. unfold march_year, march_month. cbn [year month day]. change (2 <=? 2) with true. change (2 + 1 <=? 2) with false. cbn iota.
  change (days_in_month y 2) with (if leap y then 29 else 28). pose proof (before_year_next (y + 4799)) as E.
  replace (y + 4799 + 1) with (y + 4800) in E by lia. rewrite leap_4800 in E. replace (y + 4800 - 0) with (y + 4800) by lia. replace (y + 4800 - 1) with (y + 4799) by lia.
  rewrite E. change (before_month (2 + 9)) with 337. change (before_month (2 + 1 - 3)) with 0. destruct (leap y); lia.
- assert (m = 1 ∨ m = 3 ∨ m = 4 ∨ m = 5 ∨ m = 6 ∨ m = 7 ∨ m = 8 ∨ m = 9 ∨ m = 10 ∨ m = 11 ∨ m = 12) as Hc by lia.
  set (d' := if m <? 12 then _ else _). assert (march_year d' = march_year (mkYMD y m d0)) as ->.
  { unfold d', march_year. destruct (Z.ltb_spec m 12); cbn [year month]; [destruct (Z.leb_spec (m + 1) 2)|change (1 <=? 2) with true]; destruct (Z.leb_spec m 2); lia. }
  unfold d', march_month, before_month, days_in_month. destruct Hc as [->|[->|[->|[->|[->|[->|[->|[->|[->|[->| ->]]]]]]]]]];
    repeat case_match; cbn [year month day] in *; try done; Z.to_euclidean_division_equations; lia.
Qed.

(** The first date of the day numbers' domain, and the date [n] days after it. *)
Definition first_date : YearMonthDay := mkYMD (-4800) 3 1.
Definition date_at (n : nat) : YearMonthDay := Nat.iter n next_day first_date.

Lemma before_year_lower y : 0 ≤ y → 365 * y ≤ before_year y.
Proof. intros Hy. unfold before_year. Z.to_euclidean_division_equations; lia. Qed.

Lemma march_year_next d : valid_date d → march_year d ≤ march_year (next_day d) ≤ march_year d + 1.
Proof.
intros [Hm _]. unfold next_day, march_year. destruct (day d <? _); [cbn [year month]; lia|].
destruct (Z.ltb_spec (month d) 12); cbn [year month]; [destruct (Z.leb_spec (month d + 1) 2)|change (1 <=? 2) with true]; destruct (Z.leb_spec (month d) 2); lia.
Qed.

Lemma date_at_ok n :
  Z.of_nat n ≤ 510000000 → valid_date (date_at n) ∧ in_range (date_at n) ∧ julian (date_at n) = Z.of_nat n - 32044.
Proof.
induction n as [|n IH]; intros Hn; [by vm_compute|]. destruct IH as (Hv & Hr & Hj); [lia|]. change (date_at (S n)) with (next_day (date_at n)).
assert (march_year (date_at n) ≤ 1399999) as Hy.
{ rewrite julian_spec in Hj by done. pose proof (before_year_lower (march_year (date_at n)) ltac:(apply Hr)). destruct (march_ok _ Hv) as (Hm & _).
  assert (0 ≤ before_month (march_month (date_at n))) by (unfold before_month; apply Z.div_pos; lia). destruct Hv as [_ Hd]. lia. }
pose proof (march_year_next _ Hv). assert (in_range (next_day (date_at n))) as Hr' by (unfold in_range in *; lia).
split_and!; [by apply next_day_valid|done|]. rewrite next_day_julian by done. lia.
Qed.

(** C39: Day numbers and dates follow the Gregorian calendar: counting days from the first
    of March -4800 with the rule for the length of months, the date reached after [n]
    days has the number [getJulianDayNumber] gives, and [getYearMonthDay] gives it
    back, for more than a million years and without overflow of [int]. *)
Theorem calendar_exact n :
  Z.of_nat n ≤ 510000000 →
  valid_date (date_at n) ∧ julian (date_at n) = Z.of_nat n - 32044 ∧ getYearMonthDay (Z.of_nat n - 32044) = date_at n.
Proof. intros Hn. destruct (date_at_ok n Hn) as (Hv & Hr & Hj). split_and!; [done..|]. rewrite <- Hj. by apply ymd_julian. Qed.

Lemma calendar_exact_witness : getYearMonthDay (1461 - 32044) = mkYMD (-4796) 3 1 ∧ julian (mkYMD (-4796) 3 1) = 1461 - 32044.
Proof.
assert (date_at 1461 = mkYMD (-4796) 3 1) as E by (vm_compute; reflexivity). change 1461 with (Z.of_nat 1461) at 1 2. rewrite <- E.
split; apply calendar_exact; lia.
Defined.

(** Every day number is the number of a date. *)
Lemma julian_ymd j :
  -32044 ≤ j ≤ 509967956 → valid_date (getYearMonthDay j) ∧ in_range (getYearMonthDay j) ∧ julian (getYearMonthDay j) = j.
Proof.
intros Hj. destruct (date_at_ok (Z.to_nat (j + 32044))) as (Hv & Hr & Ej); [lia|]. assert (getYearMonthDay j = date_at (Z.to_nat (j + 32044))) as ->; [|split_and!; [done..|lia]].
rewrite <- (ymd_julian _ Hv Hr). f_equal. lia.
Qed.

(** ** UTC *)

Lemma k1970 : kJulianDayOf1970_01_01 = 2440588.
Proof. vm_compute. reflexivity. Qed.

(** The days of the year before a date. *)
Fixpoint days_before (y : Z) (m : nat) : Z := match m with O => 0 | S m => days_before y m + days_in_month y (Z.of_nat m + 1) end.

Lemma days_before_eq y m :
  1 ≤ m ≤ 12 → days_before y (Z.to_nat (m - 1)) = if m <=? 2 then 31 * (m - 1) else before_month (m - 3) + 59 + (if leap y then 1 else 0).
Proof.
intros Hm. assert (days_in_month y (Z.of_nat 1 + 1) = 28 + if leap y then 1 else 0) as E2.
{ change (days_in_month y (Z.of_nat 1 + 1)) with (if leap y then 29 else 28). by destruct (leap y). }
generalize dependent (if leap y then 1 else 0). intros L E2.
assert (m = 1 ∨ m = 2 ∨ m = 3 ∨ m = 4 ∨ m = 5 ∨ m = 6 ∨ m = 7 ∨ m = 8 ∨ m = 9 ∨ m = 10 ∨ m = 11 ∨ m = 12) as Hc by lia.
destruct Hc as [->|[->|[->|[->|[->|[->|[->|[->|[->|[->|[->| ->]]]]]]]]]]].
all: match goal with |- context [Z.to_nat ?e] => let k := eval vm_compute in (Z.to_nat e) in change (Z.to_nat e) with k end.
all: cbn [days_before]; rewrite ?E2; repeat match goal with |- context [days_in_month ?y0 ?k] => first [change (days_in_month y0 k) with 31 | change (days_in_month y0 k) with 30] end.
all: match goal with |- context [?a <=? ?b] => let k := eval vm_compute in (a <=? b) in change (a <=? b) with k end; cbn iota; unfold before_month;
  Z.to_euclidean_division_equations; lia.
Qed.

Lemma year_day d :
  valid_date d → in_range d → 0 ≤ year d + 4799 → julian d - julian (mkYMD (year d) 1 1) = days_before (year d) (Z.to_nat (month d - 1)) + day d - 1.
Proof.
intros Hv Hr Hy.
assert (valid_date (mkYMD (year d) 1 1)) as Hv1 by (unfold valid_date; cbn; lia).
assert (in_range (mkYMD (year d) 1 1)) as Hr1 by (unfold in_range, march_year in *; cbn; repeat case_match; lia).
rewrite !julian_spec by done. clear Hv1 Hr1. destruct Hv as [Hm Hd]. unfold in_range in Hr. clear Hr Hd. destruct d as [y m d]. cbn [year month day] in *.
pose proof (before_year_next (y + 4799)) as E. replace (y + 4799 + 1) with (y + 4800) in E by lia. rewrite leap_4800 in E.
unfold march_year at 2, march_month at 2. cbn [year month day]. change (1 <=? 2) with true. cbn iota. replace (y + 4800 - 1) with (y + 4799) by lia.
change (before_month (1 + 9)) with 306.
assert (m = 1 ∨ m = 2 ∨ m = 3 ∨ m = 4 ∨ m = 5 ∨ m = 6 ∨ m = 7 ∨ m = 8 ∨ m = 9 ∨ m = 10 ∨ m = 11 ∨ m = 12) as Hc by lia.
unfold march_year, march_month, before_month. cbn [year month day].
set (L := if leap y then 1 else 0) in *.
destruct Hc as [->|[->|[->|[->|[->|[->|[->|[->|[->|[->|[->| ->]]]]]]]]]]]; rewrite days_before_eq by lia; fold L;
  repeat match goal with |- context [?a <=? ?b] => let k := eval vm_compute in (a <=? b) in change (a <=? b) with k end; cbn iota;
  unfold before_month; rewrite ?(Z.sub_0_r (y + 4800)), ?E; replace (y + 4800 - 1) with (y + 4799) by lia; Z.to_euclidean_division_equations; lia.
Qed.

Lemma split_days_spec t : -200000000000 ≤ t ≤ 40000000000000 → split_days t = (t mod 86400, t / 86400).
Proof.
intros Ht. unfold split_days, kSecondsPerDay. change (24 * 60 * 60) with 86400.
assert (-86400 < Z.rem t 86400 < 86400 ∧ -3000000 ≤ t ÷ 86400 ≤ 463000000) as [Hr Hq] by (Z.to_euclidean_division_equations; lia).
cbv zeta. no_wrap. destruct (Z.ltb_spec (Z.rem t 86400) 0); f_equal; no_wrap; Z.to_euclidean_division_equations; lia.
Qed.

(** The time of day, and back. *)
Lemma fillHMS_spec s : 0 ≤ s < 86400 → ∃ h m x, fillHMS s = (h, m, x) ∧ 0 ≤ h < 24 ∧ 0 ≤ m < 60 ∧ 0 ≤ x < 60 ∧ h * 3600 + m * 60 + x = s.
Proof.
intros Hs. unfold fillHMS, u32. rewrite Z.mod_small by lia. eexists _, _, _. split; [done|]. Z.to_euclidean_division_equations; lia.
Qed.

Lemma julian_eq y m d : getJulianDayNumber y m d = julian (mkYMD y m d).
Proof. reflexivity. Qed.

(** The members of the broken-down time. *)
Lemma utc_fields t yday :
  -200000000000 ≤ t ≤ 40000000000000 →
  let D := t / 86400 in
  let ymd := getYearMonthDay (D + 2440588) in
  ∃ h mi x yd, toUtcTime t yday = mkTm x mi h (day ymd) (month ymd - 1) (year ymd - 1900) ((D + 4) mod 7) yd 0 0 ∧
    0 ≤ h < 24 ∧ 0 ≤ mi < 60 ∧ 0 ≤ x < 60 ∧ h * 3600 + mi * 60 + x = t mod 86400 ∧
    valid_date ymd ∧ -4700 ≤ year ymd ≤ 1395201 ∧ julian ymd = D + 2440588 ∧
    (yday = true → yd = days_before (year ymd) (Z.to_nat (month ymd - 1)) + day ymd - 1).
Proof.
intros Ht D ymd. unfold toUtcTime. rewrite (split_days_spec t Ht). fold D.
destruct (fillHMS_spec (t mod 86400)) as (h & mi & x & -> & Hh & Hmi & Hx & Hs); [apply Z.mod_pos_bound; lia|].
rewrite k1970. assert (-2400000 ≤ D ≤ 463000000) as HD by (unfold D; Z.to_euclidean_division_equations; lia).
rewrite (s32_id (D + 2440588)) by lia. fold ymd. destruct (julian_ymd (D + 2440588)) as (Hv & Hr & Hj); [lia|]. fold ymd in Hv, Hr, Hj. pose proof Hv as [Hm Hd].
assert (1 ≤ day ymd ≤ 31) as Hd' by (unfold days_in_month in Hd; repeat case_match; lia).
assert (-4700 ≤ year ymd ≤ 1395201) as Hy.
{ unfold in_range in Hr. pose proof Hj as Hj'. rewrite julian_spec in Hj' by done. unfold before_year in Hj'.
  assert (0 ≤ before_month (march_month ymd) ≤ 337) by (unfold before_month, march_month; destruct (month ymd <=? 2) eqn:?; Z.to_euclidean_division_equations; lia).
  assert (100 ≤ march_year ymd) by (Z.to_euclidean_division_equations; lia). unfold march_year in *. destruct (month ymd <=? 2); lia. }
eexists h, mi, x, _. split; [no_wrap; do 2 f_equal; unfold weekDay, kDaysPerWeek; no_wrap; Z.to_euclidean_division_equations; lia|].
do 7 (split; [done|]). intros ->. pose proof (year_day ymd Hv Hr ltac:(lia)) as Ey. rewrite Hj in Ey.
assert (0 ≤ days_before (year ymd) (Z.to_nat (month ymd - 1)) ≤ 335).
{ rewrite days_before_eq by lia. unfold before_month. destruct (month ymd <=? 2) eqn:?, (leap (year ymd)); Z.to_euclidean_division_equations; lia. }
rewrite julian_eq. no_wrap. lia.
Qed.

Lemma fromUtc_toUtc t yday : -200000000000 ≤ t ≤ 40000000000000 → fromUtcTime (toUtcTime t yday) = t.
Proof.
intros Ht. destruct (utc_fields t yday Ht) as (h & mi & x & yd & -> & Hh & Hmi & Hx & Hs & Hv & Hy & Hj & _). set (D := t / 86400) in *.
assert (-2400000 ≤ D ≤ 463000000 ∧ t = D * 86400 + t mod 86400) as [HD Et] by (unfold D; Z.to_euclidean_division_equations; lia).
destruct (getYearMonthDay (D + 2440588)) as [y m d]. destruct Hv as [Hm Hd]. cbn [year month day] in *.
unfold fromUtcTime, fromUtcTime_ymd. cbn [tm_year tm_mon tm_mday tm_hour tm_min tm_sec]. no_wrap.
replace (y - 1900 + 1900) with y by lia. replace (m - 1 + 1) with m by lia. rewrite julian_eq, Hj, k1970. no_wrap.
unfold s64, kSecondsPerDay. rewrite (swrap_small 64 (_ * _)) by lia. rewrite swrap_small by lia. lia.
Qed.

(** [toUtcTime] and [fromUtcTime] over more than a million years, before 1970 too: the
    broken-down time is a date of the Gregorian calendar and a time of the day, its day
    number counts the days since 1970, the day of the week and the day of the year are
    right, and [fromUtcTime] gives the seconds back. *)
Theorem utc_roundtrip t yday :
  -200000000000 ≤ t ≤ 40000000000000 →
  let u := toUtcTime t yday in
  let d := mkYMD (tm_year u + 1900) (tm_mon u + 1) (tm_mday u) in
  fromUtcTime u = t ∧ 0 ≤ tm_hour u < 24 ∧ 0 ≤ tm_min u < 60 ∧ 0 ≤ tm_sec u < 60 ∧
  valid_date d ∧ julian d = t / 86400 + 2440588 ∧ tm_wday u = (t / 86400 + 4) mod 7 ∧
  (yday = true → tm_yday u = days_before (year d) (Z.to_nat (tm_mon u)) + tm_mday u - 1).
Proof.
intros Ht. cbv zeta. split; [by apply fromUtc_toUtc|]. destruct (utc_fields t yday Ht) as (h & mi & x & yd & -> & Hh & Hmi & Hx & _ & Hv & _ & Hj & Hyd).
cbn [tm_year tm_mon tm_mday tm_hour tm_min tm_sec tm_wday tm_yday]. destruct (getYearMonthDay _) as [y m d]. cbn [year month day] in *.
replace (y - 1900 + 1900) with y by lia. replace (m - 1 + 1) with m by lia.
split; [exact Hh|split; [exact Hmi|split; [exact Hx|split; [exact Hv|split; [exact Hj|split; [reflexivity|exact Hyd]]]]]].
Qed.

Lemma utc_roundtrip_witness :
  toUtcTime 951827696 true = mkTm 56 34 12 29 1 100 2 59 0 0 ∧ fromUtcTime (toUtcTime 951827696 true) = 951827696 ∧
  fromUtcTime (toUtcTime (-1) false) = -1.
Proof.
split; [vm_compute; reflexivity|]. split.
- apply (utc_roundtrip 951827696 true). lia.
- apply (utc_roundtrip (-1) false). lia.
Defined.
