(* ===== verification/TimeZone.v ===== *)
(** [mucgi/muduo_base/TimeZone.cc]: time zone files, the search for the rule in force, and
    local time.

    A read from the file is a function of the octets that are left; [Ok None] is the
    [logic_error] that [readTimeZoneFile] catches, a [Fault] is undefined behaviour.
    [gmtime_r] and [timegm] of the C library are the functions of [Dates], which are
    proved there to follow the calendar. *)

From Stdlib Require Import ZArith Lia Bool.
From Stdlib.Strings Require Import Byte.
From stdpp Require Import base numbers list option sorting.
From S2P Require Import Prelude Endian Dates.

Local Open Scope Z_scope.

(** ** Data *)

Record Transition := mkTrans { gmttime : Z; localtime : Z; localtimeIdx : Z }.
Record Localtime := mkLocal { gmtOffset : Z; isDst : bool; arrbIdx : Z }.

(** [TimeZone::Data]; [names] is not used. *)
Record Data := mkData { transitions : list Transition; localtimes : list Localtime; abbreviation : bytes }.

(** ** The file *)

Definition file (A : Type) : Type := bytes → res (option (A * bytes)).

Definition fret {A} (a : A) : file A := λ s, Ok (Some (a, s)).
Definition fthrow {A} : file A := λ _, Ok None.
Definition fbind {A B} (m : file A) (k : A → file B) : file B :=
  λ s, r ← m s; match r with Some (a, s) => k a s | None => Ok None end.
Local Notation "x <-- m ; k" := (fbind m (λ x, k)) (at level 100, m at next level, right associativity).

(** [char buf[n]] needs a size that is not negative. *)
Definition readBytes (n : Z) : file bytes := λ s,
  if n <? 0 then Fault OutOfBounds else
  if Z.of_nat (length s) <? n then Ok None else Ok (Some (take (Z.to_nat n) s, drop (Z.to_nat n) s)).

Definition readInt32 : file Z := λ s,
  if (length s <? 4)%nat then Ok None else Ok (Some (s32 (be_load (take 4 s)), drop 4 s)).

Definition readUInt8 : file Z := λ s, match s with [] => Ok None | b :: s => Ok (Some (b2z b, s)) end.

(** A loop of [n] reads into a vector. *)
Fixpoint read_many {A} (n : nat) (m : file A) : file (list A) :=
  match n with
  | O => fret []
  | S n => x <-- m; xs <-- read_many n m; fret (x :: xs)
  end.

Definition read_type : file Localtime :=
  gmtoff <-- readInt32; isdst <-- readUInt8; abbrind <-- readUInt8;
  fret (mkLocal gmtoff (negb (isdst =? 0)) abbrind).

(** The loop over the types: the ones read so far stay in [data] when a read throws.
    [None] for the octets left when it has. *)
Fixpoint read_types (n : nat) (acc : list Localtime) (s : bytes) : res (list Localtime * option bytes) :=
  match n with
  | O => Ok (acc, Some s)
  | S n => r ← read_type s; match r with Some (l, s) => read_types n (acc ++ [l]) s | None => Ok (acc, None) end
  end.

(** [time_t localtime = trans[i] + data->localtimes[localIdx].gmtOffset] *)
Fixpoint make_transitions (ts : list Z) (idx : list Z) (ls : list Localtime) : res (list Transition) :=
  match ts, idx with
  | t :: ts, i :: idx =>
      match ls !! Z.to_nat i with
      | None => Fault OutOfBounds
      | Some l => rest ← make_transitions ts idx ls; Ok (mkTrans t (s64 (t + gmtOffset l)) i :: rest)
      end
  | _, _ => Ok []
  end.

Definition TZif : bytes := [x54; x5a; x69; x66].

(** The part before the types: the counts and the two vectors. *)
Definition read_head : file (Z * Z * list Z * list Z) :=
  head <-- readBytes 4;
  if decide (head = TZif) then
    _ <-- readBytes 1; _ <-- readBytes 15;
    _ <-- readInt32; _ <-- readInt32; _ <-- readInt32;
    timecnt <-- readInt32; typecnt <-- readInt32; charcnt <-- readInt32;
    (* [reserve] of a negative number throws [length_error] *)
    if timecnt <? 0 then fthrow else
    trans <-- read_many (Z.to_nat timecnt) readInt32;
    idx <-- read_many (Z.to_nat timecnt) readUInt8;
    fret (typecnt, charcnt, trans, idx)
  else fthrow.

(** [data] afterwards; the function returns [true] in every case.  [None]: the file
    cannot be opened. *)
Definition readTimeZoneFile (contents : option bytes) : res Data :=
  match contents with
  | None => Ok (mkData [] [] [])
  | Some s =>
      h ← read_head s;
      match h with
      | None => Ok (mkData [] [] [])
      | Some ((typecnt, charcnt, trans, idx), s) =>
          '(ls, s) ← read_types (Z.to_nat typecnt) [] s;
          match s with
          | None => Ok (mkData [] ls [])
          | Some s =>
              ts ← make_transitions trans idx ls;
              a ← readBytes charcnt s;
              Ok (mkData ts ls (match a with Some (a, _) => a | None => [] end))
          end
      end
  end.

Definition TimeZone_file (contents : option bytes) : res (option Data) := d ← readTimeZoneFile contents; Ok (Some d).
Definition TimeZone_fixed (eastOfUtc : Z) (name : bytes) : option Data := Some (mkData [] [mkLocal eastOfUtc false 0] name).

(** ** The rule in force *)

(** [Comp]: which of the two times is compared. *)
Definition key (compareGmt : bool) (t : Transition) : Z := if compareGmt then gmttime t else localtime t.

(** [std::lower_bound]: [first] and [len]. *)
Fixpoint lower_bound (fuel : nat) (gmt : bool) (v : Z) (first len : nat) (ts : list Transition) : res nat :=
  match len with
  | O => Ok first
  | _ =>
      match fuel with
      | O => Fault OutOfFuel
      | S fuel =>
          let half := Nat.div2 len in
          match ts !! (first + half)%nat with
          | None => Fault OutOfBounds
          | Some m => if key gmt m <? v then lower_bound fuel gmt v (first + half + 1) (len - half - 1) ts
                      else lower_bound fuel gmt v first half ts
          end
      end
  end.

Definition local_at (i : Z) (d : Data) : res Localtime :=
  match (if i <? 0 then None else localtimes d !! Z.to_nat i) with Some l => Ok l | None => Fault OutOfBounds end.

Definition findLocaltime (d : Data) (v : Z) (gmt : bool) : res Localtime :=
  match transitions d with
  | [] => local_at 0 d
  | front :: _ =>
      if v <? key gmt front then local_at 0 d else
      i ← lower_bound (length (transitions d)) gmt v 0 (length (transitions d)) (transitions d);
      match transitions d !! i with
      | Some t =>
          if v =? key gmt t then local_at (localtimeIdx t) d else
          assert_ (negb (i =? 0)%nat) ;;
          match transitions d !! (i - 1)%nat with
          | Some t => local_at (localtimeIdx t) d
          | None => Fault OutOfBounds
          end
      | None =>
          match transitions d !! (length (transitions d) - 1)%nat with
          | Some t => local_at (localtimeIdx t) d
          | None => Fault OutOfBounds
          end
      end
  end.

(** ** Local time *)

Definition with_zone (dst : bool) (off : Z) (u : tm) : tm :=
  mkTm (tm_sec u) (tm_min u) (tm_hour u) (tm_mday u) (tm_mon u) (tm_year u) (tm_wday u) (tm_yday u) (if dst then 1 else 0) off.

(** The result comes with [tm_zone]; a null [data_] is [None]. *)
Definition toLocalTime (data_ : option Data) (seconds : Z) : res (tm * bytes) :=
  match data_ with
  | None => Fault AssertFail
  | Some d =>
      local ← findLocaltime d seconds true;
      let localSeconds := s64 (seconds + gmtOffset local) in
      let u := with_zone (isDst local) (gmtOffset local) (toUtcTime localSeconds true) in
      if Z.of_nat (length (abbreviation d)) <? arrbIdx local then Fault OutOfBounds
      else Ok (u, drop (Z.to_nat (arrbIdx local)) (abbreviation d))
  end.

Definition fromLocalTime (data_ : option Data) (localTm : tm) : res Z :=
  match data_ with
  | None => Fault AssertFail
  | Some d =>
      let seconds := fromUtcTime localTm in
      local ← findLocaltime d seconds false;
      seconds ←
        (if tm_isdst localTm =? 0 then Ok seconds else
         '(tryTm, _) ← toLocalTime data_ (s64 (seconds - gmtOffset local));
         if (tm_isdst tryTm =? 0) && (tm_hour tryTm =? tm_hour localTm) && (tm_min tryTm =? tm_min localTm)
         then Ok (s64 (seconds - 3600)) else Ok seconds);
      Ok (s64 (seconds - gmtOffset local))
  end.

(** ** Reading what was written *)

(** A version 1 file: the counts that are not used, the transitions with their types, the
    types and the abbreviations. *)
Definition be32 (x : Z) : bytes := be_store 4 (u32 x).
Definition encode_type (l : Localtime) : bytes := be32 (gmtOffset l) ++ [z2b (if isDst l then 1 else 0)] ++ [z2b (arrbIdx l)].

Definition encode (isgmtcnt isstdcnt leapcnt : Z) (ts : list (Z * Z)) (ls : list Localtime) (abbr : bytes) : bytes :=
  TZif ++ [x00] ++ replicate 15 x00 ++ be32 isgmtcnt ++ be32 isstdcnt ++ be32 leapcnt ++
  be32 (Z.of_nat (length ts)) ++ be32 (Z.of_nat (length ls)) ++ be32 (Z.of_nat (length abbr)) ++
  concat ((λ t, be32 t.1) <$> ts) ++ concat ((λ t, [z2b t.2]) <$> ts) ++ concat (encode_type <$> ls) ++ abbr.

Definition int32 (x : Z) : Prop := - 2 ^ 31 ≤ x < 2 ^ 31.

Lemma readInt32_be x s : int32 x → readInt32 (be32 x ++ s) = Ok (Some (x, s)).
Proof.
intros Hx. unfold readInt32, be32. rewrite length_app, length_be_store. change (4 + length s <? 4)%nat with false.
rewrite take_app_length', drop_app_length' by (by rewrite length_be_store). rewrite be_load_store. change (8 * Z.of_nat 4) with 32. unfold u32. rewrite Z.mod_mod by done.
assert (s32 (x mod 2 ^ 32) = s32 x) as -> by (unfold s32, swrap; by rewrite Z.mod_mod). unfold s32. by rewrite swrap_small by (unfold int32 in Hx; lia).
Qed.

Lemma readUInt8_z2b x s : 0 ≤ x < 256 → readUInt8 (z2b x :: s) = Ok (Some (x, s)).
Proof. intros Hx. cbn. by rewrite b2z_z2b, Z.mod_small. Qed.

Lemma readBytes_app b s : readBytes (Z.of_nat (length b)) (b ++ s) = Ok (Some (b, s)).
Proof.
unfold readBytes. rewrite (proj2 (Z.ltb_ge (Z.of_nat (length b)) 0)) by lia. rewrite (proj2 (Z.ltb_ge _ _)) by (rewrite length_app; lia).
by rewrite Nat2Z.id, take_app_length, drop_app_length.
Qed.

Lemma read_many_app {A B} (m : file A) (f : B → A) (enc : B → bytes) xs s :
  (∀ x s, x ∈ xs → m (enc x ++ s) = Ok (Some (f x, s))) → read_many (length xs) m (concat (enc <$> xs) ++ s) = Ok (Some (f <$> xs, s)).
Proof.
induction xs as [|x xs IH]; intros H; [done|]. cbn [length read_many]. unfold fbind. cbn [fmap list_fmap concat]. rewrite <- app_assoc, H by (by left).
cbn [mbind res_bind]. rewrite IH by (intros; apply H; by right). done.
Qed.

Definition type_ok (l : Localtime) : Prop := int32 (gmtOffset l) ∧ 0 ≤ arrbIdx l < 256.

Lemma read_type_app l s : type_ok l → read_type (encode_type l ++ s) = Ok (Some (l, s)).
Proof.
intros [Ho Ha]. unfold read_type, fbind, encode_type. rewrite <- !app_assoc, readInt32_be by done. cbn [mbind res_bind].
rewrite <- (app_comm_cons [] _ (z2b _)), <- (app_comm_cons [] s). cbn [app]. rewrite readUInt8_z2b by (case_match; lia). cbn [mbind res_bind].
rewrite readUInt8_z2b by done. cbn. destruct l as [o [] a]; done.
Qed.

Lemma read_types_app ls acc s :
  Forall type_ok ls → read_types (length ls) acc (concat (encode_type <$> ls) ++ s) = Ok (acc ++ ls, Some s).
Proof.
intros Hls. revert acc. induction Hls as [|l ls Hl _ IH]; intros acc; cbn [length read_types fmap list_fmap concat]; [by rewrite app_nil_r|].
rewrite <- app_assoc, read_type_app by done. cbn [mbind res_bind]. by rewrite IH, <- app_assoc.
Qed.

(** The transitions that the file describes. *)
Definition transition_of (ls : list Localtime) (t : Z * Z) : Transition :=
  mkTrans t.1 (match ls !! Z.to_nat t.2 with Some l => t.1 + gmtOffset l | None => 0 end) t.2.

Definition time_ok (ls : list Localtime) (t : Z * Z) : Prop := int32 t.1 ∧ 0 ≤ t.2 < Z.of_nat (length ls) ∧ t.2 < 256.

Lemma make_transitions_ok ts ls :
  Forall type_ok ls → Forall (time_ok ls) ts → make_transitions (fst <$> ts) (snd <$> ts) ls = Ok (transition_of ls <$> ts).
Proof.
intros Hls Hts. induction Hts as [|[t i] ts (Ht & Hi & _) _ IH]; [done|]. cbn in Hi, Ht. rewrite !fmap_cons. cbn [make_transitions fst snd]. unfold transition_of at 1. cbn [fst snd].
destruct (ls !! Z.to_nat i) as [l|] eqn:El; [|apply lookup_ge_None in El; lia].
rewrite IH. cbn [mbind res_bind]. do 2 f_equal. f_equal. unfold s64. apply swrap_small; [lia|].
destruct (Forall_lookup_1 _ _ _ _ Hls El) as [Ho _]. unfold int32 in *. lia.
Qed.

(** A time zone file gives the transitions, types and abbreviations that were written
    to it, whatever follows them. *)
Theorem zone_file_roundtrip a b c ts ls abbr rest :
  int32 a → int32 b → int32 c → Z.of_nat (length ts) < 2 ^ 31 → Z.of_nat (length ls) < 2 ^ 31 → Z.of_nat (length abbr) < 2 ^ 31 →
  Forall (time_ok ls) ts → Forall type_ok ls →
  readTimeZoneFile (Some (encode a b c ts ls abbr ++ rest)) = Ok (mkData (transition_of ls <$> ts) ls abbr).
Proof.
intros Ha Hb Hc Hnt Hnl Hna Hts Hls. unfold readTimeZoneFile, encode. rewrite <- !app_assoc.
assert (∀ n, Z.of_nat n < 2 ^ 31 → int32 (Z.of_nat n)) as Hint by (unfold int32; lia).
set (tail := concat (encode_type <$> ls) ++ abbr ++ rest).
assert (read_head (TZif ++ [x00] ++ replicate 15 x00 ++ be32 a ++ be32 b ++ be32 c ++ be32 (Z.of_nat (length ts)) ++ be32 (Z.of_nat (length ls)) ++
  be32 (Z.of_nat (length abbr)) ++ concat ((λ t, be32 t.1) <$> ts) ++ concat ((λ t, [z2b t.2]) <$> ts) ++ tail) =
  Ok (Some ((Z.of_nat (length ls), Z.of_nat (length abbr), fst <$> ts, snd <$> ts), tail))) as ->.
{ unfold read_head, fbind. change 4 with (Z.of_nat (length TZif)). rewrite readBytes_app. cbn [mbind res_bind]. rewrite decide_True by done.
  change 1 with (Z.of_nat (length [x00])) at 1. rewrite readBytes_app. cbn [mbind res_bind].
  change 15 with (Z.of_nat (length (replicate 15 x00))) at 1. rewrite readBytes_app. cbn [mbind res_bind].
  rewrite !readInt32_be by auto. cbn [mbind res_bind]. repeat (rewrite readInt32_be by auto; cbn [mbind res_bind]).
  rewrite (proj2 (Z.ltb_ge _ 0)) by lia. rewrite Nat2Z.id. rewrite list.Forall_forall in Hts.
  rewrite (read_many_app readInt32 fst (λ t, be32 t.1)) by (intros t s0 Ht; apply readInt32_be; by apply (Hts t Ht)). cbn [mbind res_bind].
  rewrite (read_many_app readUInt8 snd (λ t, [z2b t.2])); [done|]. intros t s0 Ht. apply readUInt8_z2b. destruct (Hts t Ht) as (_ & ? & ?). lia. }
cbn [mbind res_bind]. rewrite Nat2Z.id. unfold tail. rewrite read_types_app by done. cbn [mbind res_bind app]. rewrite make_transitions_ok by done. cbn [mbind res_bind].
by rewrite readBytes_app.
Qed.

Definition demo_types : list Localtime := [mkLocal 3600 false 0; mkLocal 7200 true 4].

Lemma zone_file_roundtrip_witness :
  readTimeZoneFile (Some (encode 0 0 0 [(1000000, 1); (2000000, 0)] demo_types [x43; x45; x54; x00; x43; x53; x54; x00] ++ [x61])) =
  Ok (mkData [mkTrans 1000000 1007200 1; mkTrans 2000000 2003600 0] demo_types [x43; x45; x54; x00; x43; x53; x54; x00]).
Proof.
rewrite zone_file_roundtrip; [reflexivity|..]; try (unfold int32; lia); try (cbn; lia).
- repeat constructor; cbn; unfold int32; lia.
- repeat constructor; cbn; unfold int32; lia.
Defined.

(** A file that cannot be read, or is cut off, still gives a time zone: [valid()] holds, and
    the first use of it reads the front of an empty vector. *)
Lemma unreadable_zone_valid t :
  ∃ d, TimeZone_file None = Ok (Some d) ∧ TimeZone_file (Some [x54; x5a]) = Ok (Some d) ∧ toLocalTime (Some d) t = Fault OutOfBounds.
Proof. exists (mkData [] [] []). split_and!; reflexivity. Qed.

(** ** The rule in force *)

(** The reference: the rules one after the other, each with the time it begins. *)
Fixpoint regime (cur : Localtime) (ts : list (Z * Localtime)) (v : Z) : Localtime :=
  match ts with
  | [] => cur
  | (T, l) :: ts => if v <? T then cur else regime l ts v
  end.

Definition earlier (a b : Z * Localtime) : Prop := a.1 < b.1.

#[export] Instance earlier_trans : Transitive earlier.
Proof. intros a b c. unfold earlier. lia. Qed.

(** The vector describes the rules of [rs]. *)
Definition describes (gmt : bool) (d : Data) (cur : Localtime) (rs : list (Z * Localtime)) : Prop :=
  localtimes d !! 0%nat = Some cur ∧
  Forall2 (λ t r, key gmt t = r.1 ∧ local_at (localtimeIdx t) d = Ok r.2) (transitions d) rs.

Lemma regime_at cur rs k T l v :
  Sorted.StronglySorted earlier rs → rs !! k = Some (T, l) → T ≤ v → (∀ r, rs !! S k = Some r → v < r.1) → regime cur rs v = l.
Proof.
intros Hs. revert cur k. induction Hs as [|[T0 l0] rs Hs IH Hf]; intros cur k Hk Hv Hn; [done|]. cbn [regime]. destruct k as [|k].
- injection Hk as -> ->. rewrite (proj2 (Z.ltb_ge v T)) by done. destruct rs as [|[T1 l1] rs]; [done|]. cbn [regime].
  by rewrite (proj2 (Z.ltb_lt v T1)) by apply (Hn _ eq_refl).
- cbn in Hk. assert (T0 < T) by (apply (Forall_lookup_1 _ _ _ _ Hf Hk)). rewrite (proj2 (Z.ltb_ge v T0)) by lia. by apply (IH _ k).
Qed.

(** The elements before the result are smaller than [v], the others are not. *)
Lemma lower_bound_ok fuel gmt v first len ts :
  (len ≤ fuel)%nat → (first + len ≤ length ts)%nat →
  (∀ i j a b, (i < j)%nat → ts !! i = Some a → ts !! j = Some b → key gmt a < key gmt b) →
  (∀ i a, (i < first)%nat → ts !! i = Some a → key gmt a < v) →
  (∀ i a, (first + len ≤ i)%nat → ts !! i = Some a → v ≤ key gmt a) →
  ∃ i, lower_bound fuel gmt v first len ts = Ok i ∧ (i ≤ length ts)%nat ∧
    (∀ j a, (j < i)%nat → ts !! j = Some a → key gmt a < v) ∧ (∀ j a, (i ≤ j)%nat → ts !! j = Some a → v ≤ key gmt a).
Proof.
revert first len. induction fuel as [|fuel IH]; intros first len Hf Hl Hs Hlo Hhi.
{ destruct len; [|lia]. exists first. cbn. split_and!; [done|lia|done|]. intros j a Hj. apply Hhi. lia. }
cbn [lower_bound]. destruct len as [|len]; [exists first; split_and!; [done|lia|done|]; intros j a Hj; apply Hhi; lia|].
assert (Nat.div2 (S len) < S len)%nat as Hh by (apply Nat.lt_div2; lia). set (half := Nat.div2 (S len)) in *.
destruct (ts !! (first + half)%nat) as [m|] eqn:Em; [|apply lookup_ge_None in Em; lia].
destruct (Z.ltb_spec (key gmt m) v) as [Hlt|Hge].
- apply IH; [lia|lia|done| |].
  + intros i a Hi Ha. destruct (decide (i = (first + half)%nat)) as [->|]; [congruence|].
    assert (key gmt a < key gmt m) by (apply (Hs i (first + half)%nat a m); [lia|done|done]). lia.
  + intros i a Hi. apply Hhi. lia.
- apply IH; [lia|lia|done|done|]. intros i a Hi Ha. destruct (decide (i = (first + half)%nat)) as [->|]; [congruence|].
  assert (key gmt m < key gmt a) by (apply (Hs (first + half)%nat i m a); [lia|done|done]). lia.
Qed.

Lemma find_regime gmt d cur rs v :
  describes gmt d cur rs → Sorted.StronglySorted earlier rs → findLocaltime d v gmt = Ok (regime cur rs v).
Proof.
intros [H0 Hd] Hs. unfold findLocaltime. assert (local_at 0 d = Ok cur) as E0 by (unfold local_at; change (0 <? 0) with false; change (Z.to_nat 0) with 0%nat; by rewrite H0).
destruct (transitions d) as [|front ts] eqn:Et; [by apply Forall2_nil_inv_l in Hd as ->|].
rewrite <- Et in *. set (tr := transitions d) in *.
assert (∀ i t, tr !! i = Some t → ∃ r, rs !! i = Some r ∧ key gmt t = r.1 ∧ local_at (localtimeIdx t) d = Ok r.2) as Hl.
{ intros i t Hi. destruct (Forall2_lookup_l _ _ _ _ _ Hd Hi) as (r & Hr & ? & ?). by exists r. }
assert (∀ i r, rs !! i = Some r → ∃ t, tr !! i = Some t ∧ key gmt t = r.1) as Hrl.
{ intros i r Hi. destruct (Forall2_lookup_r _ _ _ _ _ Hd Hi) as (t & Ht & ? & ?). by exists t. }
destruct (Hl 0%nat front) as ([T0 l0] & Hr0 & Hk0 & _); [by rewrite Et|]. destruct rs as [|r0 rs]; [done|]. injection Hr0 as ->. cbn [fst] in Hk0.
rewrite Hk0. destruct (Z.ltb_spec v T0) as [Hlt|Hge]; [cbn [regime]; by rewrite (proj2 (Z.ltb_lt v T0))|].
destruct (lower_bound_ok (length tr) gmt v 0 (length tr) tr) as (i & Ei & Hil & Hlo & Hhi); [lia|lia| |lia| |].
{ intros i j a b Hij Ha Hb. destruct (Hl i a Ha) as (ra & Hra & -> & _), (Hl j b Hb) as (rb & Hrb & -> & _). by apply (sorted_at earlier _ i j _ _ Hs Hij). }
{ intros i a Hi Ha. apply lookup_lt_Some in Ha. lia. }
rewrite Ei. cbn [mbind res_bind].
(* the rule that begins at the element before [i] *)
assert (∀ k t, tr !! k = Some t → key gmt t ≤ v → (∀ t', tr !! S k = Some t' → v < key gmt t') →
  local_at (localtimeIdx t) d = Ok (regime cur ((T0, l0) :: rs) v)) as Hat.
{ intros k t Hk Hv Hn. destruct (Hl k t Hk) as ([T l] & Hr & Hkey & ->). cbn [fst snd] in *. f_equal. symmetry. apply (regime_at _ _ k T); [done|done|lia|].
  intros r Hr'. destruct (Hrl _ _ Hr') as (t' & Ht' & <-). by apply Hn. }
assert (i ≠ 0%nat → ∃ t, tr !! (i - 1)%nat = Some t ∧ key gmt t < v) as Hprev.
{ intros Hi. destruct (tr !! (i - 1)%nat) as [t|] eqn:E; [|apply lookup_ge_None in E; lia]. exists t. split; [done|]. apply (Hlo (i - 1)%nat); [lia|done]. }
destruct (tr !! i) as [t|] eqn:Eti.
- destruct (Z.eqb_spec v (key gmt t)) as [Ev|Hne].
  + apply (Hat i t Eti); [lia|]. intros t' Ht'. destruct (Hl i t Eti) as (a & Ha & Hka & _), (Hl (S i) t' Ht') as (b & Hb & Hkb & _).
    assert (earlier a b) as Hab by (apply (sorted_at earlier _ i (S i) _ _ Hs); [lia|done|done]). unfold earlier in Hab. lia.
  + pose proof (Hhi i t (le_n i) Eti). destruct (Nat.eqb_spec i 0) as [->|Hi].
    { exfalso. assert (t = front) as -> by (rewrite Et in Eti; by injection Eti). lia. }
    cbn [negb assert_ mbind res_bind]. destruct (Hprev Hi) as (p & Ep & Hp). rewrite Ep. apply (Hat (i - 1)%nat p Ep); [lia|].
    intros t'. replace (S (i - 1)) with i by lia. rewrite Eti. intros [= <-]. lia.
- apply lookup_ge_None in Eti. assert (i = length tr) as -> by lia. assert (length tr ≠ 0%nat) as Hne by (rewrite Et; done).
  destruct (Hprev Hne) as (p & Ep & Hp). rewrite Ep. apply (Hat _ p Ep); [lia|]. intros t' Ht'. apply lookup_lt_Some in Ht'. lia.
Qed.

(** ** Local time *)

Definition local_keys (rs : list (Z * Localtime)) : list (Z * Localtime) := (λ r, (r.1 + gmtOffset r.2, r.2)) <$> rs.

(** Rules more than two hours apart; a rule that sets clocks back ends summer time, by an
    hour. *)
Fixpoint zone_ok (cur : Localtime) (rs : list (Z * Localtime)) : Prop :=
  match rs with
  | [] => True
  | (T, l) :: rs =>
      (gmtOffset cur ≤ gmtOffset l ∨ isDst cur = true ∧ isDst l = false ∧ gmtOffset cur = gmtOffset l + 3600) ∧
      match rs with (T', _) :: _ => T + 7200 ≤ T' | [] => True end ∧
      zone_ok l rs
  end.

Lemma zone_sorted cur rs : zone_ok cur rs → Sorted.StronglySorted earlier rs ∧ Sorted.StronglySorted earlier (local_keys rs).
Proof.
intros H. assert (Sorted.Sorted earlier rs ∧ Sorted.Sorted earlier (local_keys rs)) as [H1 H2]; [|split; apply (Sorted_StronglySorted earlier); assumption].
revert cur H. induction rs as [|[T l] rs IH]; intros cur H; [split; constructor|]. destruct H as (_ & Hg & Hz). destruct (IH _ Hz) as [H1 H2].
destruct rs as [|[T' l'] rs]; [split; by repeat constructor|]. destruct Hz as (Ho & _). split; (constructor; [done|]); constructor; unfold earlier; cbn; lia.
Qed.

(** Local time never falls behind the beginning of a rule that has begun. *)
Lemma local_begun cur rs T l v : zone_ok cur ((T, l) :: rs) → T ≤ v → T + gmtOffset l ≤ v + gmtOffset (regime l rs v).
Proof.
revert cur T l. induction rs as [|[T' l'] rs IH]; intros cur T l (Ho & Hg & Hz) Hv; cbn [regime]; [lia|].
destruct (Z.ltb_spec v T'); [lia|]. pose proof (IH l T' l' Hz ltac:(lia)). destruct Hz as (Ho' & _). lia.
Qed.

(** The rule found for the local time is the rule of the moment, or the moment is in the
    hour that summer time repeats. *)
Lemma local_regime cur rs v :
  zone_ok cur rs →
  let l := regime cur rs v in
  let r := regime cur (local_keys rs) (v + gmtOffset l) in
  r = l ∨ isDst l = true ∧ isDst r = false ∧ gmtOffset l = gmtOffset r + 3600 ∧ regime cur rs (v + 3600) = r.
Proof.
revert cur. induction rs as [|[T l] rs IH]; intros cur Hz; [by left|]. pose proof Hz as (Ho & Hg & Hz').
change (local_keys ((T, l) :: rs)) with ((T + gmtOffset l, l) :: local_keys rs). cbn [regime]. destruct (Z.ltb_spec v T) as [Hlt|Hge].
- destruct (Z.ltb_spec (v + gmtOffset cur) (T + gmtOffset l)) as [Hl|Hl]; [by left|].
  destruct Ho as [Ho|(Hd & Hd' & Ho)]; [lia|]. right. rewrite (proj2 (Z.ltb_ge (v + 3600) T)) by lia.
  assert (regime l (local_keys rs) (v + gmtOffset cur) = l ∧ regime l rs (v + 3600) = l) as [-> ->]; [|done].
  destruct rs as [|[T' l'] rs]; [done|]. destruct Hz' as (Ho' & _).
  change (local_keys ((T', l') :: rs)) with ((T' + gmtOffset l', l') :: local_keys rs). cbn [regime].
  rewrite (proj2 (Z.ltb_lt (v + gmtOffset cur) (T' + gmtOffset l'))), (proj2 (Z.ltb_lt (v + 3600) T')) by lia. done.
- pose proof (local_begun cur rs T l v Hz Hge) as Hb. rewrite (proj2 (Z.ltb_ge (v + gmtOffset (regime l rs v)) (T + gmtOffset l))) by lia.
  rewrite (proj2 (Z.ltb_ge (v + 3600) T)) by lia. by apply IH.
Qed.

(** A time zone whose vectors describe the rules. *)
Record zone_data (d : Data) (cur : Localtime) (rs : list (Z * Localtime)) : Prop := {
  zd_gmt : describes true d cur rs;
  zd_local : describes false d cur (local_keys rs);
  zd_ok : zone_ok cur rs;
  zd_types l : l ∈ localtimes d → -100000 ≤ gmtOffset l ≤ 100000 ∧ 0 ≤ arrbIdx l ≤ Z.of_nat (length (abbreviation d));
}.

Lemma regime_type d cur rs gmt v : describes gmt d cur rs → regime cur rs v ∈ localtimes d.
Proof.
intros [H0 Hd]. assert (cur ∈ localtimes d) as Hc by (by eapply list_elem_of_lookup_2). clear H0. revert cur Hc.
induction Hd as [|t [T l] ts rs [_ Hl] _ IH]; intros cur Hc; [done|]. cbn [regime]. destruct (v <? T); [done|]. apply IH.
unfold local_at in Hl. destruct (_ <? 0); [done|]. destruct (localtimes d !! _) as [l'|] eqn:E; [|done]. injection Hl as <-. by eapply list_elem_of_lookup_2.
Qed.

Lemma toLocalTime_ok d cur rs t :
  zone_data d cur rs → -190000000000 ≤ t ≤ 39000000000000 →
  let l := regime cur rs t in
  toLocalTime (Some d) t =
    Ok (with_zone (isDst l) (gmtOffset l) (toUtcTime (t + gmtOffset l) true), drop (Z.to_nat (arrbIdx l)) (abbreviation d)).
Proof.
intros H Ht. unfold toLocalTime. destruct (zone_sorted _ _ (zd_ok _ _ _ H)) as [Hs _]. rewrite (find_regime true d cur rs t (zd_gmt _ _ _ H) Hs). cbn [mbind res_bind].
destruct (zd_types _ _ _ H (regime cur rs t)) as [Ho Ha]; [by eapply regime_type, H|]. cbv zeta. unfold s64. rewrite swrap_small by lia.
by rewrite (proj2 (Z.ltb_ge _ (arrbIdx _))) by lia.
Qed.

(** C40: In a time zone whose rules are at least two hours apart, and whose clocks go back
    only at the end of summer time and then by exactly one hour, [toLocalTime] never
    fails, and [fromLocalTime] gives back the moment [toLocalTime] was given, in the hour
    that is repeated when summer time ends too.  The moment is between -180000000000 and
    38000000000000 seconds from 1970, and offsets are at most 100000 seconds. (Where
    summer time is half an hour the round trip fails, [half_hour_zone].) *)
Theorem local_time_roundtrip d cur rs t :
  zone_data d cur rs → -180000000000 ≤ t ≤ 38000000000000 →
  ∃ u zone, toLocalTime (Some d) t = Ok (u, zone) ∧ fromLocalTime (Some d) u = Ok t.
Proof.
intros H Ht. pose proof (toLocalTime_ok d cur rs t H ltac:(lia)) as Et. cbv zeta in Et. rewrite Et. eexists _, _. split; [done|].
set (l := regime cur rs t) in *. destruct (zd_types _ _ _ H l) as [Ho _]; [by eapply regime_type, H|].
set (s := t + gmtOffset l) in *. unfold fromLocalTime.
assert (fromUtcTime (with_zone (isDst l) (gmtOffset l) (toUtcTime s true)) = s) as -> by (apply (fromUtc_toUtc s true); lia).
destruct (zone_sorted _ _ (zd_ok _ _ _ H)) as [_ Hs]. rewrite (find_regime false d cur _ s (zd_local _ _ _ H) Hs). cbn [mbind res_bind].
pose proof (local_regime cur rs t (zd_ok _ _ _ H)) as Hr. cbv zeta in Hr. fold l s in Hr. set (r := regime cur (local_keys rs) s) in *.
destruct (zd_types _ _ _ H r) as [Ho' _]; [by eapply regime_type, H|]. cbn [with_zone tm_isdst tm_hour tm_min].
assert (s64 (s - gmtOffset r) = s - gmtOffset r) as Es by (unfold s64; apply swrap_small; lia). rewrite !Es.
destruct Hr as [Hr|(Hd & Hd' & Hoff & Hr)].
- rewrite Hr. replace (s - gmtOffset l) with t by lia. destruct (isDst l) eqn:Ed; cbn [Z.eqb Pos.eqb mbind res_bind].
  + rewrite Et. cbn [mbind res_bind with_zone tm_isdst]. rewrite ?Ed. cbn [Z.eqb andb mbind res_bind]. rewrite <- Hr, Es, Hr. f_equal. lia.
  + rewrite <- Hr, Es, Hr. f_equal. lia.
- rewrite Hd. cbn [Z.eqb Pos.eqb]. replace (s - gmtOffset r) with (t + 3600) by lia.
  pose proof (toLocalTime_ok d cur rs (t + 3600) H ltac:(lia)) as Et'. cbv zeta in Et'. rewrite Hr in Et'. rewrite Et'. cbn [mbind res_bind with_zone tm_isdst tm_hour tm_min].
  replace (t + 3600 + gmtOffset r) with s by lia. rewrite Hd', !Z.eqb_refl. cbn [andb mbind res_bind]. unfold s64.
  rewrite (swrap_small 64 (s - 3600)), swrap_small by lia. f_equal. lia.
Qed.

(** Two rules: summer time at 1000000, winter time at 20000000. *)
Definition demo_zone : Data := mkData [mkTrans 1000000 1007200 1; mkTrans 20000000 20003600 0] demo_types [x43; x45; x54; x00; x43; x53; x54; x00].

Lemma demo_zone_data : zone_data demo_zone (mkLocal 3600 false 0) [(1000000, mkLocal 7200 true 4); (20000000, mkLocal 3600 false 0)].
Proof.
split.
- split; [done|]. by repeat constructor.
- split; [done|]. by repeat constructor.
- cbn. split_and!; lia.
- intros l. change (localtimes demo_zone) with [mkLocal 3600 false 0; mkLocal 7200 true 4]. rewrite !elem_of_cons, elem_of_nil. intros [->|[->|[]]]; cbn; lia.
Qed.

(** The last hour of summer time, which is repeated. *)
Lemma local_time_roundtrip_witness :
  ∃ u zone, toLocalTime (Some demo_zone) 19999000 = Ok (u, zone) ∧ fromLocalTime (Some demo_zone) u = Ok 19999000.
Proof. apply (local_time_roundtrip demo_zone _ _ 19999000 demo_zone_data). lia. Defined.

(** Summer time of half an hour, as on Lord Howe Island: a moment in the time that is
    repeated comes back half an hour early. *)
Example half_hour_zone :
  let d := mkData [mkTrans 1000000 1039600 1; mkTrans 20000000 20037800 0] [mkLocal 37800 false 0; mkLocal 39600 true 0] [x00] in
  ('(u, _) ← toLocalTime (Some d) 19999000; fromLocalTime (Some d) u) = Ok 19997200.
Proof. vm_compute. reflexivity. Qed.
