(* ===== verification/FcgxPrintf.v ===== *)
(** [FCGX_VFPrintF] of [fastcgi/fastcgi_lib/fcgiapp.cpp]: formatted output to a stream.

    The variable arguments are a list of typed values, and asking for another type than the
    next one is undefined behaviour.  [sprintf] of the C library, for one conversion, is an
    argument of the model; so is the stream it writes to, with [FCGX_PutStr].  A write past
    the end of a buffer is a [Fault]. *)

From Stdlib Require Import ZArith Lia Bool.
From Stdlib.Strings Require Import Byte.
From stdpp Require Import base numbers list option.
From S2P Require Import Prelude CxxString Fcgx FcgxWriter.

Local Open Scope Z_scope.

(** ** Arguments *)

(** A floating-point value is known by a number and its binary exponent: the absolute value
    is below [2 ^ exp].  For a [double] that is what [frexp] gives; for a [long double],
    [dexp] is what [frexp] gives for the value converted to [double], where one that is
    too large becomes an infinity, whose exponent is unspecified. *)
Inductive varg :=
  | VInt (z : Z) | VLong (z : Z) | VStr (s : option bytes) | VPtr (z : Z)
  | VDouble (v exp : Z) | VLDouble (v exp dexp : Z)
  | VIntPtr (p : nat) | VLongPtr (p : nat) | VShortPtr (p : nat).

Definition char_at (i : nat) (f : bytes) : byte := default x00 (f !! i).

(** ** Conversion specifiers *)

(** [fmtBuff], [minWidth], [precision], [sizeModifier], [op] and [specifierLength]. *)
Record spec := mkSpec { fmtBuff : bytes; minWidth : Z; precision : Z; sizeModifier : byte; op : byte; specifierLength : nat }.

Definition is_modifier (b : byte) : bool := match b with x6c | x4c | x68 => true | _ => false end.
Definition is_flag (b : byte) : bool := match b with x2d | x30 | x2b | x20 | x23 => true | _ => false end.

(** The fast path: no flags, width or precision. *)
Definition fast_scan (f : bytes) : spec :=
  let o := char_at 1 f in
  if is_modifier o then mkSpec [x25; o; char_at 2 f] 0 (-1) o (char_at 2 f) 3
  else mkSpec [x25; o] 0 (-1) x20 o 2.

Definition print_int (z : Z) : bytes := if z <? 0 then x2d :: print_dec (- z) else print_dec z.

(** The width: its value, its text, what follows, and the arguments left.  [None] is
    [goto ErrorReturn]. *)
Definition scan_width (p : bytes) (a : list varg) : res (option (Z * bytes * bytes * list varg)) :=
  let '(ds, q) := span isdigit p in
  match ds with
  | [] =>
      if decide (char_at 0 p = x2a) then
        match a with
        | VInt w :: a => if 999999 <? s32 (Z.abs w) then Ok None else Ok (Some (w, print_int w, drop 1 p, a))
        | _ => Fault OutOfBounds
        end
      else Ok (Some (0, [], p, a))
  | _ => if (length ds <=? 6)%nat then Ok (Some (digits_value 0 ds, ds, q, a)) else Ok None
  end.

(** The precision, with the point. *)
Definition scan_precision (p : bytes) (a : list varg) : res (option (Z * bytes * bytes * list varg)) :=
  if decide (char_at 0 p = x2e) then
    let p := drop 1 p in
    let '(ds, q) := span isdigit p in
    match ds with
    | [] =>
        if decide (char_at 0 p = x2a) then
          match a with
          | VInt n :: a =>
              let n := if n <? 0 then 0 else n in
              if 999999 <? n then Ok None else Ok (Some (n, x2e :: print_int n, drop 1 p, a))
          | _ => Fault OutOfBounds
          end
        else Ok (Some (0, [x2e], p, a))
    | _ => if (length ds <=? 6)%nat then Ok (Some (digits_value 0 ds, x2e :: ds, q, a)) else Ok None
    end
  else Ok (Some (-1, [], p, a)).

Definition FMT_BUFFLEN : nat := 25.

(** The slow path: the whole grammar. *)
Definition slow_scan (f : bytes) (a : list varg) : res (option (spec * list varg)) :=
  let '(flags, p) := span is_flag (drop 1 f) in
  if (5 <? length flags)%nat then Ok None else
  w ← scan_width p a;
  match w with
  | None => Ok None
  | Some (width, wtext, p, a) =>
      r ← scan_precision p a;
      match r with
      | None => Ok None
      | Some (prec, ptext, p, a) =>
          let '(modifier, mtext, p) := if is_modifier (char_at 0 p) then (char_at 0 p, [char_at 0 p], drop 1 p) else (x20, [], p) in
          let o := char_at 0 p in
          let fmt := [x25] ++ flags ++ wtext ++ ptext ++ mtext ++ [o] in
          assert_ (length fmt <? FMT_BUFFLEN)%nat ;;
          Ok (Some (mkSpec fmt width prec modifier o (length f - length p + 1), a))
      end
  end.

(** ** Values *)

Inductive kind := KInt | KUnsigned | KChar | KStr | KPtr | KCount | KFixed | KFloat | KPercent | KEnd | KNone.

Definition kind_of (o : byte) : kind :=
  match o with
  | x64 | x69 => KInt
  | x75 | x6f | x78 | x58 => KUnsigned
  | x63 => KChar
  | x73 => KStr
  | x70 => KPtr
  | x6e => KCount
  | x66 => KFixed
  | x65 | x45 | x67 | x47 => KFloat
  | x25 => KPercent
  | x00 => KEnd
  | _ => KNone
  end.

(** The argument of a conversion as [sprintf] gets it; [None] is [goto ErrorReturn]. *)
Definition value_of (o m : byte) (a : list varg) : res (option (varg * list varg)) :=
  match kind_of o, m with
  | KInt, x20 => match a with VInt z :: a => Ok (Some (VInt z, a)) | _ => Fault OutOfBounds end
  | KInt, x6c => match a with VLong z :: a => Ok (Some (VLong z, a)) | _ => Fault OutOfBounds end
  | KInt, x68 => match a with VInt z :: a => Ok (Some (VInt (s16 z), a)) | _ => Fault OutOfBounds end
  | KUnsigned, x20 => match a with VInt z :: a => Ok (Some (VInt (u32 z), a)) | _ => Fault OutOfBounds end
  | KUnsigned, x6c => match a with VLong z :: a => Ok (Some (VLong (u64 z), a)) | _ => Fault OutOfBounds end
  | KUnsigned, x68 => match a with VInt z :: a => Ok (Some (VInt (u16 z), a)) | _ => Fault OutOfBounds end
  | KChar, x20 => match a with VInt z :: a => Ok (Some (VInt z, a)) | _ => Fault OutOfBounds end
  | KPtr, x20 => match a with VPtr z :: a => Ok (Some (VPtr z, a)) | _ => Fault OutOfBounds end
  | KFloat, x20 => match a with VDouble v e :: a => Ok (Some (VDouble v e, a)) | _ => Fault OutOfBounds end
  | KFloat, x4c => match a with VLDouble v e de :: a => Ok (Some (VLDouble v e de, a)) | _ => Fault OutOfBounds end
  | _, _ => Ok None
  end.

(** [%n]: where the count goes, and at which width. *)
Definition store_of (m : byte) (count : Z) (a : list varg) : res (option ((nat * Z) * list varg)) :=
  match m with
  | x20 => match a with VIntPtr p :: a => Ok (Some ((p, count), a)) | _ => Fault OutOfBounds end
  | x6c => match a with VLongPtr p :: a => Ok (Some ((p, count), a)) | _ => Fault OutOfBounds end
  | x68 => match a with VShortPtr p :: a => Ok (Some ((p, s16 count), a)) | _ => Fault OutOfBounds end
  | _ => Ok None
  end.

(** "(null)" *)
Definition null_text : bytes := [x28; x6e; x75; x6c; x6c; x29].

(** The bound of the slow path, an [int], with the argument of [%s] and [%f] already read. *)
Definition bound (sp : spec) (a : list varg) : res (option (Z * option varg * list varg)) :=
  let precision := precision sp in
  match kind_of (op sp) with
  | KInt | KUnsigned | KChar | KPtr => Ok (Some (Z.max precision 46, None, a))
  | KStr =>
      match a with
      | VStr s :: a =>
          let s := default null_text s in
          let n := Z.of_nat (length (c_string s)) in
          Ok (Some (if precision =? -1 then s32 n else Z.min precision n, Some (VStr (Some s)), a))
      | _ => Fault OutOfBounds
      end
  | KFixed =>
      let precision := if precision =? -1 then 6 else precision in
      let need exp := s32 (precision + 3 + (if 0 <? exp then exp / 3 else 0)) in
      match sizeModifier sp, a with
      | x20, VDouble v e :: a => Ok (Some (need e, Some (VDouble v e), a))
      | x4c, VLDouble v e de :: a => Ok (Some (need de, Some (VLDouble v e de), a))
      | x20, _ | x4c, _ => Fault OutOfBounds
      | _, _ => Ok None
      end
  | KFloat => Ok (Some ((if precision =? -1 then 6 else precision) + 8, None, a))
  | _ => Ok None
  end.

Definition PRINTF_BUFFLEN : Z := 100.

(** The buffer for [buffReqd] octets: its length, and that of [auxBuffPtr] afterwards, 0 when
    it is null. *)
Definition buffer_for (buffReqd auxBuffLen : Z) : Z * Z :=
  if buffReqd <=? PRINTF_BUFFLEN then (PRINTF_BUFFLEN, auxBuffLen) else
  let aux := if (auxBuffLen =? 0) || (auxBuffLen <? buffReqd) then buffReqd else auxBuffLen in
  (aux, aux).

(** ** One conversion *)

Section printf.
Context (sprintf : bytes → varg → bytes).

(** [sprintf(buffPtr, fmtBuff, ...); buffCount = strlen(buffPtr)] *)
Definition into_buffer (buffLen : Z) (text : bytes) : res bytes :=
  if buffLen <=? Z.of_nat (length text) then Fault OutOfBounds else Ok (c_string text).

(** [performedOp], with the characters and the length of the buffer they are in. *)
Inductive outcome :=
  | Performed (text : bytes) (buffLen : Z) (stored : list (nat * Z)) (a : list varg)
  | NotPerformed
  | ErrorReturn.

(** The giant switch; [early] is the argument that the slow path has read. *)
Definition perform (fastPath : bool) (sp : spec) (buffLen : Z) (early : option varg) (count : Z) (a : list varg) : res outcome :=
  match kind_of (op sp) with
  | KStr =>
      if decide (sizeModifier sp = x20) then
        if fastPath then
          match a with
          | VStr (Some s) :: a => let t := c_string s in Ok (Performed t (s32 (s32 (Z.of_nat (length t)) + 1)) [] a)
          | _ => Fault OutOfBounds
          end
        else
          match early with
          | Some v => t ← into_buffer buffLen (sprintf (fmtBuff sp) v); Ok (Performed t buffLen [] a)
          | None => Fault OutOfBounds
          end
      else Ok ErrorReturn
  | KCount =>
      r ← store_of (sizeModifier sp) count a;
      Ok (match r with Some (w, a) => Performed [] buffLen [w] a | None => ErrorReturn end)
  | KFixed =>
      if fastPath then Ok NotPerformed else
      match early with
      | Some v => t ← into_buffer buffLen (sprintf (fmtBuff sp) v); Ok (Performed t buffLen [] a)
      | None => Fault OutOfBounds
      end
  | KPercent => if decide (sizeModifier sp = x20) then Ok (Performed [x25] buffLen [] a) else Ok ErrorReturn
  | KEnd => Ok ErrorReturn
  | KNone => Ok NotPerformed
  | _ =>
      r ← value_of (op sp) (sizeModifier sp) a;
      match r with
      | Some (v, a) => t ← into_buffer buffLen (sprintf (fmtBuff sp) v); Ok (Performed t buffLen [] a)
      | None => Ok ErrorReturn
      end
  end.

(** What a conversion leaves: text, stores, length of the specifier, [auxBuffLen], arguments. *)
Abbreviation converted := (bytes * list (nat * Z) * nat * Z * list varg)%type.

(** [buffCount] is an [int]: negative, it is an error, and it is what [FCGX_PutStr] gets. *)
Definition finish (sp : spec) (aux : Z) (o : outcome) : res (option converted) :=
  match o with
  | Performed t buffLen w a =>
      let buffCount := s32 (Z.of_nat (length t)) in
      assert_ (buffCount <? buffLen) ;;
      Ok (if buffCount <? 0 then None else Some (take (Z.to_nat buffCount) t, w, specifierLength sp, aux, a))
  | _ => Ok None
  end.

(** The [for (;;)] that runs once or twice. *)
Definition convert (f : bytes) (count aux : Z) (a : list varg) : res (option converted) :=
  o ← perform true (fast_scan f) PRINTF_BUFFLEN None count a;
  match o with
  | NotPerformed =>
      s ← slow_scan f a;
      match s with
      | None => Ok None
      | Some (sp, a) =>
          b ← bound sp a;
          match b with
          | None => Ok None
          | Some (need, early, a) =>
              let '(buffLen, aux) := buffer_for (Z.max (s32 (need + 10)) (minWidth sp)) aux in
              o ← perform false sp buffLen early count a;
              finish sp aux o
          end
      end
  | o => finish (fast_scan f) aux o
  end.

(** ** The whole format *)

Section stream.
Context {S : Type} (putStr : bytes → S → res (Z * S)).

(** The result comes with the stores of [%n] and the stream. *)
Fixpoint vfprintf_loop (fuel : nat) (f : bytes) (count aux : Z) (stores : list (nat * Z)) (a : list varg) (st : S) :
    res (Z * list (nat * Z) * S) :=
  match f with
  | [] => Ok (count, stores, st)
  | _ =>
      match fuel with
      | O => Fault OutOfFuel
      | Datatypes.S fuel =>
          let '(text, f) := span (λ b, negb (bool_decide (b = x25))) f in
          '(n, st) ← (if decide (text = []) then Ok (0, st) else as_int putStr text st);
          if n <? 0 then Ok (-1, stores, st) else
          let count := s32 (count + Z.of_nat (length text)) in
          match f with
          | [] => Ok (count, stores, st)
          | _ =>
              c ← convert f count aux a;
              match c with
              | None => Ok (-1, stores, st)
              | Some (t, w, len, aux, a) =>
                  '(n, st) ← (if decide (t = []) then Ok (0, st) else putStr t st);
                  if n <? 0 then Ok (-1, stores ++ w, st) else
                  vfprintf_loop fuel (drop len f) (s32 (count + Z.of_nat (length t))) aux (stores ++ w) a st
              end
          end
      end
  end.

Definition FCGX_VFPrintF (format : bytes) (a : list varg) (st : S) : res (Z * list (nat * Z) * S) :=
  let f := c_string format in
  vfprintf_loop (Datatypes.S (length f)) f 0 0 [] a st.
End stream.

(** ** The reference *)

(** One conversion by the whole grammar, into a buffer of any size.  Left out are a [%s] that
    makes the buffer larger than an [int] can say, and a [%Lf] whose value is beyond the range
    of a [double]. *)
Definition ref_perform (sp : spec) (a : list varg) : res (option (bytes * list (nat * Z) * nat * list varg)) :=
  let text v := c_string (sprintf (fmtBuff sp) v) in
  match kind_of (op sp) with
  | KStr =>
      match a with
      | VStr (Some s) :: a =>
          let n := Z.of_nat (length (c_string s)) in
          assert_ ((if precision sp =? -1 then n else Z.min (precision sp) n) + 10 <? 2 ^ 31) ;;
          Ok (if decide (sizeModifier sp = x20) then Some (text (VStr (Some s)), [], specifierLength sp, a) else None)
      | _ => Fault OutOfBounds
      end
  | KFixed =>
      match sizeModifier sp, a with
      | x20, VDouble v e :: a => assert_ (e <=? 1024) ;; Ok (Some (text (VDouble v e), [], specifierLength sp, a))
      | x4c, VLDouble v e de :: a =>
          assert_ ((e <=? Z.max de 0) && (de <=? 1024)) ;; Ok (Some (text (VLDouble v e de), [], specifierLength sp, a))
      | x20, _ | x4c, _ => Fault OutOfBounds
      | _, _ => Ok None
      end
  | _ => r ← value_of (op sp) (sizeModifier sp) a; Ok ('(v, a) ← r; Some (text v, [], specifierLength sp, a))
  end.

(** [%%] and [%n] take no width; widths over 99 are left out, and so is a null [%s]. *)
Definition ref_convert (f : bytes) (count : Z) (a : list varg) : res (option (bytes * list (nat * Z) * nat * list varg)) :=
  let fs := fast_scan f in
  match kind_of (op fs) with
  | KPercent => Ok (if decide (sizeModifier fs = x20) then Some ([x25], [], 2%nat, a) else None)
  | KCount => r ← store_of (sizeModifier fs) count a; Ok ('(w, a) ← r; Some ([], [w], specifierLength fs, a))
  | _ =>
      s ← slow_scan f a;
      match s with
      | None => Ok None
      | Some (sp, a) => assert_ (Z.abs (minWidth sp) <=? 99) ;; ref_perform sp a
      end
  end.

Fixpoint ref_format (fuel : nat) (f : bytes) (count : Z) (a : list varg) : res (bytes * list (nat * Z) * Z) :=
  match f with
  | [] => Ok ([], [], count)
  | _ =>
      match fuel with
      | O => Fault OutOfFuel
      | Datatypes.S fuel =>
          let '(text, f) := span (λ b, negb (bool_decide (b = x25))) f in
          let count := s32 (count + Z.of_nat (length text)) in
          match f with
          | [] => Ok (text, [], count)
          | _ =>
              c ← ref_convert f count a;
              match c with
              | None => Ok (text, [], -1)
              | Some (t, w, len, a) =>
                  '(out, ws, r) ← ref_format fuel (drop len f) (s32 (count + Z.of_nat (length t))) a;
                  Ok (text ++ t ++ out, w ++ ws, r)
              end
          end
      end
  end.
End printf.

(** ** What [sprintf] promises *)

(** The longest text of a conversion without its field width, for an argument of its type:
    the digits of 64 bits in octal with a prefix; a sign, the integer digits of a value below
    [2 ^ exp], the point and the precision; one digit, the precision and an exponent of four
    digits. *)
Definition text_length (sp : spec) (v : varg) : option Z :=
  let prec := if precision sp =? -1 then 6 else precision sp in
  match kind_of (op sp), v with
  | KInt, VInt _ | KInt, VLong _ | KUnsigned, VInt _ | KUnsigned, VLong _ => Some (Z.max (precision sp) 22 + 2)
  | KChar, VInt _ => Some 1
  | KPtr, VPtr _ => Some 18
  | KStr, VStr (Some s) =>
      let n := Z.of_nat (length (c_string s)) in
      Some (if precision sp =? -1 then n else Z.min (precision sp) n)
  | KFixed, VDouble _ e | KFixed, VLDouble _ e _ => Some (prec + 3 + Z.max 0 (e * 30103 / 100000))
  | KFloat, VDouble _ _ | KFloat, VLDouble _ _ _ => Some (prec + 9)
  | _, _ => None
  end.

Record sprintf_ok (sprintf : bytes → varg → bytes) : Prop := {
  so_str : ∀ s, sprintf [x25; x73] (VStr (Some s)) = c_string s;
  so_len : ∀ f a sp a' v n, slow_scan f a = Ok (Some (sp, a')) → text_length sp v = Some n →
    Z.of_nat (length (sprintf (fmtBuff sp) v)) ≤ Z.max (Z.abs (minWidth sp)) n;
}.

(** ** The fast path is the slow path *)

(** A character that starts none of the flags, the width and the precision. *)
Definition bare (b : byte) : bool := negb (is_flag b) && negb (isdigit b) && negb (bool_decide (b = x2a)) && negb (bool_decide (b = x2e)).

Lemma kind_bare b : kind_of b ≠ KNone → bare b = true ∧ is_modifier b = false.
Proof. by destruct b. Qed.

Lemma modifier_bare b : is_modifier b = true → bare b = true ∧ b ≠ x20.
Proof. by destruct b. Qed.

Lemma scan_bare p a :
  bare (char_at 0 p) = true →
  span is_flag p = ([], p) ∧ scan_width p a = Ok (Some (0, [], p, a)) ∧ scan_precision p a = Ok (Some (-1, [], p, a)).
Proof.
unfold bare. rewrite !andb_true_iff, !negb_true_iff, !bool_decide_eq_false.
intros (((Hf & Hd) & Hs) & Hp). unfold scan_width, scan_precision.
assert (∀ g, g (char_at 0 p) = false → span g p = ([], p)) as Hspan.
{ intros g Hg. destruct p as [|b p]; [done|]. cbn [span char_at] in *. unfold char_at in Hg. cbn in Hg. by rewrite Hg. }
rewrite (Hspan isdigit Hd). destruct (decide (char_at 0 p = x2a)), (decide (char_at 0 p = x2e)); try done.
split; [by apply Hspan|done].
Qed.

Lemma char_at_S i b f : char_at (S i) (b :: f) = char_at i f.
Proof. done. Qed.

(** Where the fast path knows the operation, the whole grammar reads the same specifier. *)
Lemma fast_slow f a :
  kind_of (op (fast_scan (x25 :: f))) ≠ KNone →
  slow_scan (x25 :: f) a = Ok (Some (fast_scan (x25 :: f), a)).
Proof.
unfold fast_scan, slow_scan. rewrite !char_at_S. change (drop 1 (x25 :: f)) with f.
destruct (is_modifier (char_at 0 f)) eqn:Em; cbn [op]; intros Hk.
- destruct (modifier_bare _ Em) as [Hb _].
  destruct (scan_bare f a Hb) as (-> & -> & E). cbn [length app Nat.ltb Nat.leb mbind res_bind]. rewrite E. cbn [mbind res_bind]. rewrite Em.
  cbn -[Nat.sub]. destruct f as [|b f]; [done|]. cbn [drop length]. rewrite drop_0. do 3 f_equal.
  f_equal. lia.
- destruct (kind_bare _ Hk) as [Hb _].
  destruct (scan_bare f a Hb) as (-> & -> & E). cbn [length app Nat.ltb Nat.leb mbind res_bind]. rewrite E. cbn [mbind res_bind]. rewrite Em.
  cbn -[Nat.sub]. do 3 f_equal. f_equal. lia.
Qed.

(** ** Buffers *)

Lemma buffer_enough n w need aux :
  0 ≤ aux → Z.abs w ≤ 99 → 0 ≤ need < 2 ^ 31 - 10 → n ≤ Z.max (Z.abs w) (need + 9) →
  let '(buffLen, aux') := buffer_for (Z.max (s32 (need + 10)) w) aux in n < buffLen ∧ n < 2 ^ 31 ∧ 0 ≤ aux'.
Proof.
intros Ha Hw Hneed Hn. rewrite s32_id by lia. unfold buffer_for, PRINTF_BUFFLEN. case_bool; [lia|].
destruct (aux =? 0) eqn:E; cbn [orb]; [lia|]. case_bool; lia.
Qed.

(** Where the reference formats, the bound that the slow path computes is in the range of an
    [int] and covers the text. *)
Lemma bound_covers sprintf sp a need early a' r :
  bound sp a = Ok (Some (need, early, a')) → ref_perform sprintf sp a = Ok r → -1 ≤ precision sp ≤ 999999 →
  0 ≤ need < 2 ^ 31 - 10 ∧
  ∀ v n, text_length sp v = Some n → match early with Some v' => v = v' | None => True end → n ≤ need + 9.
Proof.
unfold bound, ref_perform, text_length. intros Hb Hr Hp.
destruct (kind_of (op sp)); try done.
1-3, 5: injection Hb as <- <- <-; split; [lia|]; intros v n Hn _; destruct v; try done; injection Hn as <-; lia.
- destruct a as [|[| |[s|]| | | | | |] a]; try done. inv_res. cbn [default].
  destruct (Z.eqb_spec (precision sp) (-1)); rewrite ?s32_id by lia; (split; [lia|]); intros v m Hm ->; injection Hm as <-; lia.
- destruct (sizeModifier sp), a as [|[] a]; try done; injection Hb as <- <- <-; inv_res.
  all: assert (∀ x, x ≤ 1024 → 0 ≤ (if 0 <? x then x / 3 else 0) ≤ 400 ∧ Z.max 0 x / 3 ≤ (if 0 <? x then x / 3 else 0)) as Hx
    by (intros; repeat case_bool; Z.to_euclidean_division_equations; lia).
  all: match goal with |- context [s32 (_ + 3 + (if 0 <? ?x then _ else _))] => specialize (Hx x ltac:(lia)) end.
  all: rewrite s32_id by (repeat case_bool; lia); split; [repeat case_bool; lia|]; intros v' n Hn ->; injection Hn as <-.
  all: repeat case_bool; Z.to_euclidean_division_equations; lia.
- injection Hb as <- <- <-. split; [case_bool; lia|]. intros v n Hn _. destruct v; try done; injection Hn as <-; lia.
Qed.

Lemma digits_value_nonneg l acc : Forall (λ b, isdigit b = true) l → 0 ≤ acc → 0 ≤ digits_value acc l.
Proof.
intros Hl. revert acc. induction Hl as [|b l Hb _ IH]; intros acc Ha; cbn [digits_value]; [done|].
apply IH. enough (48 ≤ b2z b) by lia. by destruct b.
Qed.

Lemma digits_value_below l acc : Forall (λ b, isdigit b = true) l → digits_value acc l < (acc + 1) * 10 ^ Z.of_nat (length l).
Proof.
intros Hl. revert acc. induction Hl as [|b l Hb _ IH]; intros acc; cbn [digits_value length]; [change (10 ^ Z.of_nat 0) with 1; lia|].
eapply Z.lt_le_trans; [apply IH|]. rewrite Nat2Z.inj_succ, Z.pow_succ_r, Z.mul_assoc by lia. apply Z.mul_le_mono_nonneg_r; [apply Z.pow_nonneg; lia|].
enough (b2z b ≤ 57) by lia. by destruct b.
Qed.

Lemma digits_value_six l : Forall (λ b, isdigit b = true) l → (length l ≤ 6)%nat → digits_value 0 l ≤ 999999.
Proof.
intros Hl Hn. pose proof (digits_value_below l 0 Hl). pose proof (Z.pow_le_mono_r 10 (Z.of_nat (length l)) 6 ltac:(lia) ltac:(lia)). lia.
Qed.

Lemma scan_precision_range p a n text q a' : scan_precision p a = Ok (Some (n, text, q, a')) → -1 ≤ n ≤ 999999 ∧ (text = [] → n = -1).
Proof.
unfold scan_precision. destruct (decide _); [|intros [= <- <- <- <-]; by split].
pose proof (span_spec isdigit (drop 1 p)) as Hs. destruct (span isdigit (drop 1 p)) as [[|b ds] r].
- destruct (decide _); [|intros [= <- <- <- <-]; by split].
  destruct a as [|[z| | | | | | | |] a]; try done. destruct (z <? 0) eqn:Ez; cbn -[print_int]; try case_bool; try done; intros [= <- <- <- <-]; split; (lia || done).
- destruct Hs as (_ & Hd & _). destruct (Nat.leb_spec (length (b :: ds)) 6) as [Hlen|]; [|done]. intros [= <- <- <- <-]. split; [|done].
  pose proof (digits_value_nonneg _ 0 Hd (Z.le_refl 0)). pose proof (digits_value_six _ Hd Hlen). split; [by transitivity 0|done].
Qed.

Lemma slow_scan_precision f a sp a' : slow_scan f a = Ok (Some (sp, a')) → -1 ≤ precision sp ≤ 999999.
Proof.
unfold slow_scan. destruct (span is_flag (drop 1 f)) as [flags p]. case_bool; [done|]. intros H.
apply bind_Ok_inv in H as (w & _ & H). destruct w as [[[[w wt] q] b]|]; [|done].
apply bind_Ok_inv in H as (r & Hr & H). destruct r as [[[[n pt] q'] c]|]; [|done].
apply scan_precision_range in Hr as [Hn _]. case_bool; inv_res; by cbn [precision].
Qed.

Lemma length_c_string s : (length (c_string s) ≤ length s)%nat.
Proof.
unfold c_string. pose proof (span_spec (λ b, negb (bool_decide (b = x00))) s) as H.
destruct (span _ s) as [a r]. destruct H as (-> & _). rewrite length_app. cbn. lia.
Qed.

Lemma c_string_idem s : c_string (c_string s) = c_string s.
Proof.
unfold c_string. pose proof (span_spec (λ b, negb (bool_decide (b = x00))) s) as H.
destruct (span _ s) as [a r]. destruct H as (_ & Ha & _). cbn.
rewrite <- (app_nil_r a) at 1. by rewrite span_app.
Qed.

(** ** One conversion *)

Section exact.
Context (sprintf : bytes → varg → bytes) (Hok : sprintf_ok sprintf).

Lemma finish_text sp aux buffLen v a :
  Z.of_nat (length (sprintf (fmtBuff sp) v)) < buffLen → Z.of_nat (length (sprintf (fmtBuff sp) v)) < 2 ^ 31 →
  (o ← (t ← into_buffer buffLen (sprintf (fmtBuff sp) v); Ok (Performed t buffLen [] a)); finish sp aux o) =
  Ok (Some (c_string (sprintf (fmtBuff sp) v), [], specifierLength sp, aux, a)).
Proof.
intros H H2. unfold into_buffer. rewrite (proj2 (Z.leb_gt _ _) H). cbn [mbind res_bind finish].
pose proof (length_c_string (sprintf (fmtBuff sp) v)). set (t := c_string (sprintf (fmtBuff sp) v)) in *.
rewrite s32_id by lia. unfold assert_. rewrite (proj2 (Z.ltb_lt (Z.of_nat (length t)) buffLen)), (proj2 (Z.ltb_ge (Z.of_nat (length t)) 0)) by lia.
by rewrite Nat2Z.id, firstn_all.
Qed.

Lemma value_typed sp m a v a' : value_of (op sp) m a = Ok (Some (v, a')) → ∃ n, text_length sp v = Some n.
Proof.
unfold value_of, text_length. destruct (kind_of (op sp)), m; try done.
all: destruct a as [|[] a]; try done; intros [= <- _]; by eexists.
Qed.

(** What the two agree on; the length of the auxiliary buffer is the code's own. *)
Definition agrees (r' : option (bytes * list (nat * Z) * nat * Z * list varg)) (r : option (bytes * list (nat * Z) * nat * list varg)) : Prop :=
  match r', r with
  | Some (t', w', l', aux, a'), Some (t, w, l, a) => 0 ≤ aux ∧ t' = t ∧ w' = w ∧ l' = l ∧ a' = a
  | None, None => True
  | _, _ => False
  end.

(** The kinds whose argument is read by the switch itself. *)
Definition is_value (k : kind) : bool := match k with KInt | KUnsigned | KChar | KPtr | KFloat => true | _ => false end.

Lemma bound_value sp a : is_value (kind_of (op sp)) = true → ∃ need, bound sp a = Ok (Some (need, None, a)).
Proof. unfold bound. destruct (kind_of (op sp)); try done; by eexists. Qed.

Lemma perform_value fast sp buffLen early count a :
  is_value (kind_of (op sp)) = true →
  perform sprintf fast sp buffLen early count a =
  (r ← value_of (op sp) (sizeModifier sp) a;
   match r with
   | Some (v, a) => t ← into_buffer buffLen (sprintf (fmtBuff sp) v); Ok (Performed t buffLen [] a)
   | None => Ok ErrorReturn
   end).
Proof. unfold perform. by destruct (kind_of (op sp)). Qed.

Lemma ref_value sp a :
  is_value (kind_of (op sp)) = true →
  ref_perform sprintf sp a =
  (r ← value_of (op sp) (sizeModifier sp) a; Ok ('(v, a) ← r; Some (c_string (sprintf (fmtBuff sp) v), [], specifierLength sp, a))).
Proof. unfold ref_perform. by destruct (kind_of (op sp)). Qed.

(** A buffer that is large enough makes the switch agree with the reference. *)
Lemma value_agrees fast sp buffLen early count aux a r :
  is_value (kind_of (op sp)) = true → 0 ≤ aux →
  (∀ v n, text_length sp v = Some n → Z.of_nat (length (sprintf (fmtBuff sp) v)) < buffLen ∧ Z.of_nat (length (sprintf (fmtBuff sp) v)) < 2 ^ 31) →
  ref_perform sprintf sp a = Ok r →
  ∃ r', (o ← perform sprintf fast sp buffLen early count a; finish sp aux o) = Ok r' ∧ agrees r' r.
Proof.
intros Hk Ha Hfit. rewrite ref_value, perform_value by done.
destruct (value_of _ _ a) as [[[v a']|]|] eqn:Hv; [| |done]; intros [= <-].
- destruct (value_typed _ _ _ _ _ Hv) as [n Hn]. cbn [mbind res_bind]. rewrite finish_text by (by eapply Hfit).
  by eexists.
- by eexists.
Qed.

(** The second turn of the loop. *)
Lemma slow_convert f a sp a1 count aux r :
  slow_scan f a = Ok (Some (sp, a1)) → Z.abs (minWidth sp) ≤ 99 → 0 ≤ aux → ref_perform sprintf sp a1 = Ok r →
  ∃ r', (b ← bound sp a1;
         match b with
         | None => Ok None
         | Some (need, early, a) =>
             let '(buffLen, aux) := buffer_for (Z.max (s32 (need + 10)) (minWidth sp)) aux in
             o ← perform sprintf false sp buffLen early count a; finish sp aux o
         end) = Ok r' ∧ agrees r' r.
Proof.
intros Hs Hw Ha Hr. pose proof (slow_scan_precision _ _ _ _ Hs) as Hp.
assert (∀ need early a' v n, bound sp a1 = Ok (Some (need, early, a')) →
  match early with Some v' => v = v' | None => True end → text_length sp v = Some n →
  let '(buffLen, aux') := buffer_for (Z.max (s32 (need + 10)) (minWidth sp)) aux in
  Z.of_nat (length (sprintf (fmtBuff sp) v)) < buffLen ∧ Z.of_nat (length (sprintf (fmtBuff sp) v)) < 2 ^ 31 ∧ 0 ≤ aux') as Hfit.
{ intros need early a' v n Hb He Hn. destruct (bound_covers _ _ _ _ _ _ _ Hb Hr Hp) as [Hneed Hcov]. apply buffer_enough; [done..|].
  pose proof (so_len _ Hok _ _ _ _ _ _ Hs Hn). pose proof (Hcov v n Hn He). lia. }
destruct (is_value (kind_of (op sp))) eqn:Hk.
{ destruct (bound_value sp a1 Hk) as [need Hb]. rewrite Hb. cbn [mbind res_bind].
  pose proof (λ v n Hn, Hfit _ _ _ v n Hb I Hn) as Hfit'. destruct (bound_covers _ _ _ _ _ _ _ Hb Hr Hp) as [Hneed _].
  pose proof (buffer_enough 0 (minWidth sp) need aux Ha Hw Hneed) as Haux.
  destruct (buffer_for _ aux) as [buffLen aux']. eapply value_agrees; [done| |intros v n Hn; by destruct (Hfit' v n Hn) as (? & ? & _)|done].
  apply Haux. lia. }
assert (∀ x, is_value (kind_of (op sp)) = false → value_of (op sp) (sizeModifier sp) x = Ok None) as Hnone.
{ intros x. unfold value_of. by destruct (kind_of (op sp)). }
unfold ref_perform in Hr. rewrite Hnone in Hr by done. unfold perform, text_length, bound in *.
destruct (kind_of (op sp)) eqn:Hk'; try discriminate Hk; try (injection Hr as <-; by eexists).
- destruct a1 as [|[| |[s|]| | | | | |] a2]; try done. apply bind_Ok_inv in Hr as (? & _ & [= <-]).
  specialize (Hfit _ _ _ (VStr (Some s)) _ eq_refl eq_refl eq_refl). cbn [mbind res_bind default].
  destruct (buffer_for _ aux) as [buffLen aux']. destruct Hfit as (? & ? & ?). destruct (decide (sizeModifier sp = x20)); [|by eexists].
  rewrite finish_text by done. by eexists.
- destruct (sizeModifier sp) eqn:Hm; try (injection Hr as <-; by eexists).
  all: destruct a1 as [|[] a2]; try done; apply bind_Ok_inv in Hr as (? & _ & [= <-]).
  all: specialize (Hfit _ _ _ _ _ eq_refl eq_refl eq_refl); cbn [mbind res_bind].
  all: destruct (buffer_for _ aux) as [buffLen aux']; destruct Hfit as (? & ? & ?).
  all: rewrite finish_text by done; by eexists.
Qed.

Lemma convert_agrees f count aux a r :
  0 ≤ aux → ref_convert sprintf (x25 :: f) count a = Ok r →
  ∃ r', convert sprintf (x25 :: f) count aux a = Ok r' ∧ agrees r' r.
Proof.
intros Ha. unfold ref_convert, convert.
pose proof (fast_slow f a) as Hfs. set (fs := fast_scan (x25 :: f)) in *.
assert (minWidth fs = 0 ∧ precision fs = -1 ∧ (sizeModifier fs = x20 → specifierLength fs = 2%nat ∧ fmtBuff fs = [x25; op fs])) as (Hw & Hp & Hl).
{ subst fs. unfold fast_scan. destruct (is_modifier _) eqn:E; [|done]. by destruct (modifier_bare _ E). }
assert (kind_of (op fs) ≠ KNone → ∀ v n, text_length fs v = Some n → n < 100 →
  Z.of_nat (length (sprintf (fmtBuff fs) v)) < PRINTF_BUFFLEN ∧ Z.of_nat (length (sprintf (fmtBuff fs) v)) < 2 ^ 31) as Hfit.
{ intros Hk v n Hn Hlt. pose proof (so_len _ Hok _ _ _ _ _ _ (Hfs Hk) Hn). unfold PRINTF_BUFFLEN. lia. }
destruct (is_value (kind_of (op fs))) eqn:Hk.
{ assert (kind_of (op fs) ≠ KNone) as Hk' by (by destruct (kind_of (op fs))).
  rewrite (Hfs Hk'). cbn [mbind res_bind]. intros Hr.
  assert (ref_perform sprintf fs a = Ok r) as Hr'.
  { rewrite Hw in Hr. by destruct (kind_of (op fs)). }
  destruct (value_agrees true fs PRINTF_BUFFLEN None count aux a r) as (r' & E & ?); [done|done| |done|].
  { intros v n Hn. apply (Hfit Hk' v n Hn). revert Hn. unfold text_length. rewrite Hp.
    destruct (kind_of (op fs)), v; try done; intros [= <-]; lia. }
  exists r'. split; [|done]. destruct (perform _ _ _ _ _ _ _) as [[]|] eqn:Ep; try done.
  exfalso. revert Ep. rewrite perform_value by done. intros Ep.
  apply bind_Ok_inv in Ep as ([[v a']|] & _ & Ep); [|done]. by inv_res. }
unfold perform. destruct (kind_of (op fs)) eqn:Hk'; try discriminate Hk.
- rewrite (Hfs ltac:(done)). cbn [mbind res_bind]. rewrite Hw. cbn [Z.abs Z.leb Z.compare assert_ mbind res_bind].
  unfold ref_perform. rewrite Hk'. destruct a as [|[| |[s|]| | | | | |] a]; try done. rewrite Hp. cbn [Z.eqb Pos.eqb]. intros Hr. inv_res.
  destruct (decide (sizeModifier fs = x20)) as [Hm|]; [|by eexists]. cbn [mbind res_bind finish]. rewrite !s32_id by lia.
  unfold assert_. rewrite (proj2 (Z.ltb_lt (Z.of_nat (length (c_string s))) (Z.of_nat (length (c_string s)) + 1))), (proj2 (Z.ltb_ge (Z.of_nat _) 0)) by lia.
  cbn [mbind res_bind]. rewrite Nat2Z.id, firstn_all. eexists. split; [done|]. cbn. split_and!; try done. destruct (Hl Hm) as [_ ->].
  assert (op fs = x73) as -> by (by destruct (op fs)).
  rewrite so_str by done. by rewrite c_string_idem.
- destruct (store_of _ _ a) as [[[w a']|]|]; [| |done]; intros [= <-]; by eexists.
- destruct (slow_scan _ a) as [[[sp a']|]|] eqn:Hs; [| |done]; cbn [mbind res_bind]; [|intros [= <-]; by eexists].
  intros Hr. inv_res. eapply slow_convert; [done|lia|done|done].
- destruct (decide (sizeModifier fs = x20)) as [Hm|]; intros [= <-]; [|by eexists].
  destruct (Hl Hm) as [E _]. cbn. rewrite E. by eexists.
- rewrite (Hfs ltac:(done)). cbn [mbind res_bind]. rewrite Hw. cbn. unfold ref_perform, value_of. rewrite Hk'.
  intros [= <-]. by eexists.
- destruct (slow_scan _ a) as [[[sp a']|]|] eqn:Hs; [| |done]; cbn [mbind res_bind]; [|intros [= <-]; by eexists].
  intros Hr. inv_res. eapply slow_convert; [done|lia|done|done].
Qed.

(** ** The loop *)

Section loop.
Context {S : Type} (putStr : bytes → S → res (Z * S)) (I : bytes → S → Prop).
Context (Hput : ∀ s d st, I d st → ∃ st', putStr s st = Ok (Z.of_nat (length s), st') ∧ I (d ++ s) st').

Lemma put_text s d st :
  I d st → ∃ n st', (if decide (s = []) then Ok (0, st) else putStr s st) = Ok (n, st') ∧ 0 ≤ n ∧ I (d ++ s) st'.
Proof.
intros HI. destruct (decide (s = [])) as [->|_].
- exists 0, st. by rewrite app_nil_r.
- destruct (Hput s d st HI) as (st' & -> & ?). exists (Z.of_nat (length s)), st'. split_and!; [done|lia|done].
Qed.

Lemma put_literal s d st :
  I d st → Z.of_nat (length s) < 2 ^ 31 →
  ∃ n st', (if decide (s = []) then Ok (0, st) else as_int putStr s st) = Ok (n, st') ∧ 0 ≤ n ∧ I (d ++ s) st'.
Proof. intros HI Hs. rewrite as_int_fits by done. by apply put_text. Qed.

Lemma loop_exact fuel f count aux stores a d st out ws r :
  Z.of_nat (length f) < 2 ^ 31 → 0 ≤ aux → I d st → ref_format sprintf fuel f count a = Ok (out, ws, r) →
  ∃ st', vfprintf_loop sprintf putStr fuel f count aux stores a st = Ok (r, stores ++ ws, st') ∧ I (d ++ out) st'.
Proof.
revert f count aux stores a d st out ws r.
induction fuel as [|fuel IH]; intros f count aux stores a d st out ws r Hlen Ha HI.
{ destruct f; [|done]. intros [= <- <- <-]. exists st. by rewrite !app_nil_r. }
destruct f as [|b f]; [intros [= <- <- <-]; exists st; by rewrite !app_nil_r|].
cbn [ref_format vfprintf_loop]. pose proof (span_spec (λ b, negb (bool_decide (b = x25))) (b :: f)) as Hs.
destruct (span _ (b :: f)) as [text g]. destruct Hs as (Hsp & _ & Hg). rewrite Hsp, length_app in Hlen.
destruct (put_literal text d st HI) as (n & st1 & -> & Hn & HI1); [lia|]. cbn [mbind res_bind]. rewrite (proj2 (Z.ltb_ge n 0)) by lia.
destruct g as [|c g]; [intros [= <- <- <-]; exists st1; by rewrite app_nil_r|].
apply negb_false_iff, bool_decide_eq_true in Hg as ->.
intros Hr. apply bind_Ok_inv in Hr as (c & Hc & Hr).
destruct (convert_agrees _ _ _ _ _ Ha Hc) as (c' & -> & Hag). cbn [mbind res_bind].
destruct c' as [[[[[t' w'] l'] aux'] a']|], c as [[[[t w] l] a'']|]; try done.
- destruct Hag as (Ha' & -> & -> & -> & ->). apply bind_Ok_inv in Hr as ([[out' ws'] r'] & Hr & E). injection E as <- <- <-.
  destruct (put_text t _ st1 HI1) as (n' & st2 & -> & Hn' & HI2). cbn [mbind res_bind]. rewrite (proj2 (Z.ltb_ge n' 0)) by lia.
  assert (Z.of_nat (length (drop l (x25 :: g))) < 2 ^ 31) as Hd by (rewrite length_drop; lia).
  destruct (IH _ _ _ (stores ++ w) _ _ _ _ _ _ Hd Ha' HI2 Hr) as (st' & -> & HI').
  exists st'. by rewrite <- !app_assoc in *.
- injection Hr as <- <- <-. exists st1. by rewrite app_nil_r.
Qed.
End loop.
End exact.

(** ** Termination *)

Lemma fuel_bind {A B} (m : res A) (k : A → res B) :
  m ≠ Fault OutOfFuel → (∀ x, m = Ok x → k x ≠ Fault OutOfFuel) → m ≫= k ≠ Fault OutOfFuel.
Proof. destruct m as [x|[]]; cbn; intros H1 H2; try done. by apply H2. Qed.

Ltac fuel_step :=
  lazymatch goal with
  | |- _ ≫= _ ≠ Fault OutOfFuel => apply fuel_bind; [|intros ? _]
  | |- context [match ?x with _ => _ end] => destruct x
  | |- _ => done
  end.

Lemma slow_scan_fuel f a : slow_scan f a ≠ Fault OutOfFuel.
Proof. unfold slow_scan, scan_width, scan_precision, assert_. repeat fuel_step. Qed.

Lemma bound_fuel sp a : bound sp a ≠ Fault OutOfFuel.
Proof. unfold bound. repeat fuel_step. Qed.

Lemma perform_fuel sprintf fast sp buffLen early count a : perform sprintf fast sp buffLen early count a ≠ Fault OutOfFuel.
Proof. unfold perform, store_of, value_of, into_buffer. destruct (kind_of (op sp)); repeat fuel_step. Qed.

Lemma finish_fuel sp aux o : finish sp aux o ≠ Fault OutOfFuel.
Proof. unfold finish, assert_. repeat fuel_step. Qed.

Lemma convert_fuel sprintf f count aux a : convert sprintf f count aux a ≠ Fault OutOfFuel.
Proof.
unfold convert. apply fuel_bind; [apply perform_fuel|]. intros [] _; try apply finish_fuel.
apply fuel_bind; [apply slow_scan_fuel|]. intros [[sp a']|] _; [|done].
apply fuel_bind; [apply bound_fuel|]. intros [[[need early] a'']|] _; [|done].
destruct (buffer_for _ aux). apply fuel_bind; [apply perform_fuel|]. intros o _. apply finish_fuel.
Qed.

Lemma slow_scan_length f a sp a' : slow_scan f a = Ok (Some (sp, a')) → (0 < specifierLength sp)%nat.
Proof.
unfold slow_scan. destruct (span is_flag (drop 1 f)) as [flags p]. case_bool; [done|]. intros H.
apply bind_Ok_inv in H as ([[[[w wt] q] b]|] & _ & H); [|done].
apply bind_Ok_inv in H as ([[[[n pt] q'] c]|] & _ & H); [|done].
case_bool; inv_res; cbn [specifierLength]; lia.
Qed.

(** A conversion consumes at least one character of the format. *)
Lemma convert_progress sprintf f count aux a t w len aux' a' :
  convert sprintf f count aux a = Ok (Some (t, w, len, aux', a')) → (0 < len)%nat.
Proof.
assert (∀ sp x o, (0 < specifierLength sp)%nat → finish sp x o = Ok (Some (t, w, len, aux', a')) → (0 < len)%nat) as Hf.
{ intros sp x o Hl. unfold finish. destruct o; [|done..]. intros H. apply bind_Ok_inv in H as (? & _ & H). revert H. case_bool; [done|]. by intros [= _ _ <- _ _]. }
assert (0 < specifierLength (fast_scan f))%nat by (unfold fast_scan; case_bool; cbn; lia).
unfold convert. intros H'. apply bind_Ok_inv in H' as (o & _ & H'). destruct o; [by eapply Hf| |by eapply Hf].
apply bind_Ok_inv in H' as ([[sp a1]|] & Hs & H'); [|done]. apply slow_scan_length in Hs.
apply bind_Ok_inv in H' as ([[[need early] a2]|] & _ & H'); [|done].
destruct (buffer_for _ aux). apply bind_Ok_inv in H' as (o & _ & H'). by eapply Hf.
Qed.

(** Whatever [sprintf] does, the loop ends: the format is scanned from left to right. *)
Lemma vfprintf_terminates {S} sprintf (putStr : bytes → S → res (Z * S)) format a st :
  (∀ s st, putStr s st ≠ Fault OutOfFuel) → FCGX_VFPrintF sprintf putStr format a st ≠ Fault OutOfFuel.
Proof.
intros Hput. unfold FCGX_VFPrintF. generalize (c_string format) as f. intros f.
assert (∀ fuel f count aux stores a st, (length f < fuel)%nat →
  vfprintf_loop sprintf putStr fuel f count aux stores a st ≠ Fault OutOfFuel) as Hl; [|apply Hl; lia].
clear f a st. induction fuel as [|fuel IH]; intros f count aux stores a st Hlen; [lia|].
destruct f as [|b f]; [done|]. cbn [vfprintf_loop]. set (isp := λ b, negb (bool_decide (b = x25))).
pose proof (span_spec isp (b :: f)) as Hs. destruct (span isp (b :: f)) as [text g].
destruct Hs as (Hsp & _). apply (f_equal length) in Hsp. rewrite length_app in Hsp.
assert (∀ s st, (if decide (s = []) then Ok (0, st) else putStr s st) ≠ Fault OutOfFuel) as Hp by (intros; by case_decide).
assert (∀ s st, (if decide (s = []) then Ok (0, st) else as_int putStr s st) ≠ Fault OutOfFuel) as Hp'.
{ intros. case_decide; [done|]. unfold as_int. by case_match. }
apply fuel_bind; [apply Hp'|]. intros [n st1] _. destruct (n <? 0); [done|]. destruct g as [|c g]; [done|].
apply fuel_bind; [apply convert_fuel|]. intros [[[[[t w] len] aux'] a']|] Hc; [|done]. apply convert_progress in Hc.
apply fuel_bind; [apply Hp|]. intros [n' st2] _. destruct (n' <? 0); [done|].
apply IH. rewrite length_drop. cbn [length] in *. lia.
Qed.

(** ** The count *)

Lemma s32_add x y : s32 (s32 x + y) = s32 (x + y).
Proof.
assert ((s32 x + y) mod 2 ^ 32 = (x + y) mod 2 ^ 32) as E.
{ unfold s32. by rewrite Zplus_mod, swrap_mod, <- Zplus_mod. }
revert E. generalize (s32 x) as z. intros z E. unfold s32, swrap. by rewrite E.
Qed.

Lemma s32_idem x : s32 (s32 x) = s32 x.
Proof. pose proof (s32_add x 0) as E. by rewrite !Z.add_0_r in E. Qed.

Lemma ref_count sprintf fuel f count a out ws r :
  s32 count = count → ref_format sprintf fuel f count a = Ok (out, ws, r) → r = -1 ∨ r = s32 (count + Z.of_nat (length out)).
Proof.
revert f count a out ws r. induction fuel as [|fuel IH]; intros f count a out ws r Hc.
{ destruct f; [|done]. intros [= <- <- <-]. right. by rewrite Z.add_0_r. }
destruct f as [|b f]; [intros [= <- <- <-]; right; by rewrite Z.add_0_r|].
cbn [ref_format]. destruct (span _ (b :: f)) as [text g]. destruct g as [|c g]; [intros [= <- <- <-]; by right|].
intros Hr. apply bind_Ok_inv in Hr as ([[[[t w] l] a']|] & _ & Hr); [|injection Hr as <- <- <-; by left].
apply bind_Ok_inv in Hr as ([[out' ws'] r'] & Hr & E). injection E as <- <- <-.
apply IH in Hr as [->| ->]; [by left|right|apply s32_idem].
rewrite !s32_add, <- Z.add_assoc, s32_add, !length_app. f_equal. lia.
Qed.

(** ** The theorem *)

(** C10: [FCGX_VFPrintF] writes exactly the formatted text.  Take any [sprintf] that keeps the
    lengths its conversions document and any output stream in use.  If the reference, which
    scans every specifier by the whole grammar and has room for any text, formats the arguments
    to [out] with the stores [ws] and the result [r], then the code does not
    leave a buffer, takes the fast path without a difference, adds exactly [out] to the stream,
    makes the stores of [%n] and returns [r], which is -1 or the number of octets written.  The
    reference leaves out what the code has no room for: widths over 99, a null [%s], a [%s]
    whose text takes 2 GiB, a [%Lf] beyond the range of a [double]; the format itself is
    shorter than 2 GiB. *)
Theorem printf_exact sprintf t q rd s0 d st format a out ws r :
  sprintf_ok sprintf → wrote t q rd s0 d st → Z.of_nat (length (c_string format)) < 2 ^ 31 →
  ref_format sprintf (S (length (c_string format))) (c_string format) 0 a = Ok (out, ws, r) →
  (r = -1 ∨ r = s32 (Z.of_nat (length out))) ∧
  ∃ st', FCGX_VFPrintF sprintf FCGX_PutStr format a st = Ok (r, ws, st') ∧ wrote t q rd s0 (d ++ out) st'.
Proof.
intros Hok Hw Hlen Hr. split; [by apply (ref_count _ _ _ _ _ _ _ _ eq_refl Hr)|].
unfold FCGX_VFPrintF. apply (loop_exact sprintf Hok FCGX_PutStr (wrote t q rd s0)) with (stores := []); [|done|lia|done..].
intros s d' st'. apply (PutStr_ok (wrote t q rd s0)); [apply wrote_open|apply put_ok|apply keep_room].
Qed.

(** A [sprintf] that knows [%s] and the flags of [%c]. *)
Definition sprintf_sc (fmt : bytes) (v : varg) : bytes :=
  match v with
  | VStr (Some s) => if decide (fmt = [x25; x73]) then c_string s else []
  | VInt z => if decide (fmt !! (length fmt - 1)%nat = Some x63) then [octet z] else []
  | _ => []
  end.

Lemma short_format f a sp a' : slow_scan f a = Ok (Some (sp, a')) → length (fmtBuff sp) = 2%nat → precision sp = -1.
Proof.
unfold slow_scan. destruct (span is_flag (drop 1 f)) as [flags p]. case_bool; [done|]. intros H.
apply bind_Ok_inv in H as ([[[[w wt] q] b]|] & _ & H); [|done].
apply bind_Ok_inv in H as ([[[[n pt] q'] c]|] & Hr & H); [|done]. apply scan_precision_range in Hr as [_ Hn].
case_bool; inv_res; cbn [fmtBuff precision length]; rewrite !length_app; cbn [length]; intros Hl; apply Hn, nil_length_inv; lia.
Qed.

Lemma sprintf_sc_ok : sprintf_ok sprintf_sc.
Proof.
split; [done|]. intros f a sp a' v n Hs Hn. unfold sprintf_sc. destruct v as [z| |[s|]| | | | | |]; cbn [length]; try lia.
- case_decide; [|cbn; lia]. revert Hn. unfold text_length. destruct (kind_of (op sp)); try done; intros [= <-]; cbn; lia.
- case_decide as E; [|cbn; lia]. pose proof (short_format _ _ _ _ Hs) as Hp. rewrite E in Hp.
  specialize (Hp eq_refl). revert Hn. unfold text_length. rewrite Hp. destruct (kind_of (op sp)); try done. intros [= <-]. lia.
Qed.

(** "<%s>%-c%%%n" *)
Lemma printf_exact_witness :
  (6 = -1 ∨ 6 = s32 6) ∧
  ∃ st', FCGX_VFPrintF sprintf_sc FCGX_PutStr [x3c; x25; x73; x3e; x25; x2d; x63; x25; x25; x25; x6e]
           [VStr (Some [x61; x62]); VInt 99; VIntPtr 4]
           (mkSt (NewWriter true x00 8192 FCGI_STDOUT) (mkReq 1 1 true 0 7 1) (mkNet [] [] [])) =
         Ok (6, [(4%nat, 6)], st') ∧
    wrote FCGI_STDOUT (mkReq 1 1 true 0 7 1) [] [] [x3c; x61; x62; x3e; x63; x25] st'.
Proof.
apply (printf_exact sprintf_sc FCGI_STDOUT (mkReq 1 1 true 0 7 1) [] [] [] _ _ _ [x3c; x61; x62; x3e; x63; x25] [(4%nat, 6)] 6); [exact sprintf_sc_ok| |vm_compute; reflexivity|vm_compute; reflexivity].
apply (NewWriter_ok true x00 8192 FCGI_STDOUT (mkReq 1 1 true 0 7 1) (mkNet [] [] [])). constructor.
Defined.

(** ** Where the bounds fail *)

(** "%100d" *)
Definition wide_format : bytes := [x25; x31; x30; x30; x64].
(** "%*d", and what it becomes for a width of -500 *)
Definition star_format : bytes := [x25; x2a; x64].
Definition star_expanded : bytes := [x25; x2d; x35; x30; x30; x64].

(** A text that does not fit the buffer computed for it is written past its end. *)
Lemma slow_overflows sprintf f count a sp a1 v a2 need :
  perform sprintf true (fast_scan f) PRINTF_BUFFLEN None count a = Ok NotPerformed →
  slow_scan f a = Ok (Some (sp, a1)) → bound sp a1 = Ok (Some (need, None, a1)) →
  is_value (kind_of (op sp)) = true → value_of (op sp) (sizeModifier sp) a1 = Ok (Some (v, a2)) →
  (buffer_for (Z.max (s32 (need + 10)) (minWidth sp)) 0).1 ≤ Z.of_nat (length (sprintf (fmtBuff sp) v)) →
  convert sprintf f count 0 a = Fault OutOfBounds.
Proof.
intros Hp Hs Hb Hk Hv Hl. unfold convert. rewrite Hp. cbn [mbind res_bind]. rewrite Hs. cbn [mbind res_bind].
rewrite Hb. cbn [mbind res_bind]. destruct (buffer_for _ 0) as [buffLen aux]. cbn [fst] in Hl.
rewrite perform_value by done. rewrite Hv. cbn [mbind res_bind]. unfold into_buffer.
by rewrite (proj2 (Z.leb_le _ _) Hl).
Qed.

Lemma convert_fault {S} sprintf (putStr : bytes → S → res (Z * S)) format f a st e :
  c_string format = x25 :: f → (∀ count, convert sprintf (x25 :: f) count 0 a = Fault e) →
  FCGX_VFPrintF sprintf putStr format a st = Fault e.
Proof.
intros Hf Hc. unfold FCGX_VFPrintF. rewrite Hf. cbn [vfprintf_loop].
change (span _ (x25 :: f)) with (@nil byte, x25 :: f).
cbn -[convert vfprintf_loop]. by rewrite Hc.
Qed.

(** "%Lf" *)
Definition long_format : bytes := [x25; x4c; x66].

(** The buffer has no room for the final zero of a text as wide as the field, and a negative
    width does not count at all; a [%Lf] is measured as a [double], so that the largest [long
    double], an infinity then, gets room for no integer digits; a null [%s] is read on the fast
    path. *)
Lemma printf_overflows {S} sprintf (putStr : bytes → S → res (Z * S)) v st :
  length (sprintf wide_format (VInt 7)) = 100%nat → length (sprintf star_expanded (VInt 7)) = 500%nat →
  Z.of_nat (length (sprintf long_format (VLDouble v 16384 0))) = 4940 →
  FCGX_VFPrintF sprintf putStr wide_format [VInt 7] st = Fault OutOfBounds ∧
  FCGX_VFPrintF sprintf putStr star_format [VInt (-500); VInt 7] st = Fault OutOfBounds ∧
  FCGX_VFPrintF sprintf putStr long_format [VLDouble v 16384 0] st = Fault OutOfBounds ∧
  FCGX_VFPrintF sprintf putStr [x25; x73] [VStr None] st = Fault OutOfBounds.
Proof.
intros H1 H2 H3. split_and!; (eapply convert_fault; [reflexivity|intros count]); [| | |reflexivity].
- eapply slow_overflows; [reflexivity|reflexivity|reflexivity|reflexivity|reflexivity|].
  change (fmtBuff _) with wide_format. rewrite H1. done.
- eapply slow_overflows; [reflexivity|reflexivity|reflexivity|reflexivity|reflexivity|].
  change (fmtBuff _) with star_expanded. rewrite H2. done.
- assert (∀ (k : bytes → res outcome), (t ← into_buffer 100 (sprintf long_format (VLDouble v 16384 0)); k t) = Fault OutOfBounds) as Hk
    by (intros k; unfold into_buffer; by rewrite H3).
  unfold convert. change (perform sprintf true _ _ _ _ _) with (@Ok outcome NotPerformed). cbn [mbind res_bind].
  change (slow_scan _ _) with (@Ok (option (spec * list varg)) (Some (mkSpec long_format 0 (-1) x4c x66 3, [VLDouble v 16384 0]))). cbn [mbind res_bind].
  change (bound _ _) with (@Ok (option (Z * option varg * list varg)) (Some (9, Some (VLDouble v 16384 0), []))). cbn [mbind res_bind].
  change (buffer_for _ 0) with (100, 0). unfold perform. cbn [op kind_of fmtBuff]. by rewrite Hk.
Qed.
