(* ===== verification/FcgiStdio.v ===== *)
(** [fastcgi/fastcgi_lib/fcgi_stdio.cpp]: standard I/O for FastCGI applications.  An
    [FCGI_FILE] is a [FILE] of the C library or a stream of the current request; each function
    looks which one it is and calls one library or the other.

    The C library's functions on a [FILE] are the fields of the record [stdio], an argument of
    the model.  A pointer to a stream of the request is the name of the member that holds it,
    so that the stream is the one the request structure has at the time of the call. *)

From Stdlib Require Import ZArith Lia Bool.
From Stdlib.Strings Require Import Byte String.
From stdpp Require Import base numbers list option.
From S2P Require Import Prelude CxxString Fcgx FcgxWriter FcgxRead FcgxReader FcgxAccept FcgxLife FcgxPrintf.
Local Open Scope Z_scope.

(** ** The C library *)

(** [None] is the null pointer; the functions that change the position or the flags of a
    [FILE] return it changed. *)
Record stdio (FILE : Type) := mkStdio {
  c_fopen : bytes → bytes → option FILE;
  c_tmpfile : option FILE;
  c_fdopen : Z → bytes → option FILE;
  c_popen : bytes → bytes → option FILE;
  c_fclose : FILE → Z;
  c_pclose : FILE → Z;
  c_fflush_all : Z;
  c_fflush : FILE → Z * FILE;
  c_freopen : bytes → bytes → FILE → option FILE;
  c_setvbuf : Z → Z → FILE → Z * FILE;
  c_setbuf : Z → FILE → FILE;
  c_fseek : Z → Z → FILE → Z * FILE;
  c_ftell : FILE → Z * FILE;
  c_rewind : FILE → FILE;
  c_fgetc : FILE → Z * FILE;
  c_ungetc : Z → FILE → Z * FILE;
  c_fgets : Z → FILE → option bytes * FILE;
  c_fputc : Z → FILE → Z * FILE;
  c_fputs : bytes → FILE → Z * FILE;
  c_vfprintf : bytes → list varg → FILE → Z * list (nat * Z) * FILE;
  c_fread : Z → Z → FILE → (Z * bytes) * FILE;
  c_fwrite : bytes → Z → Z → FILE → Z * FILE;
  c_feof : FILE → Z;
  c_ferror : FILE → Z;
  c_clearerr : FILE → FILE;
  c_fileno : FILE → Z;
}.
Arguments c_fopen {_}.
Arguments c_tmpfile {_}.
Arguments c_fdopen {_}.
Arguments c_popen {_}.
Arguments c_fclose {_}.
Arguments c_pclose {_}.
Arguments c_fflush_all {_}.
Arguments c_fflush {_}.
Arguments c_freopen {_}.
Arguments c_setvbuf {_}.
Arguments c_setbuf {_}.
Arguments c_fseek {_}.
Arguments c_ftell {_}.
Arguments c_rewind {_}.
Arguments c_fgetc {_}.
Arguments c_ungetc {_}.
Arguments c_fgets {_}.
Arguments c_fputc {_}.
Arguments c_fputs {_}.
Arguments c_vfprintf {_}.
Arguments c_fread {_}.
Arguments c_fwrite {_}.
Arguments c_feof {_}.
Arguments c_ferror {_}.
Arguments c_clearerr {_}.
Arguments c_fileno {_}.

(** ** State *)

(** A stream of the request. *)
Inductive slot := SIn | SOut | SErr.

Definition stream_at (s : slot) (r : FCGX_Request) : option FCGX_Stream :=
  match s with SIn => in_ r | SOut => out_ r | SErr => err_ r end.
Definition set_stream (s : slot) (v : option FCGX_Stream) (r : FCGX_Request) : FCGX_Request :=
  match s with SIn => set_in v r | SOut => set_out v r | SErr => set_err v r end.

(** A call of the FastCGI library on a stream of the request. *)
Definition on_slot {A} (s : slot) (f : St → res (A * St)) (r : FCGX_Request) (w : World) : res (A * FCGX_Request * World) :=
  match stream_at s r with
  | Some x =>
      '(a, st) ← f (mkSt x (reqData r) (conn w));
      Ok (a, set_reqData (req st) (set_stream s (Some (str st)) r), set_conn (net st) w)
  | None => Fault OutOfBounds
  end.

Section stdio.
Context {FILE : Type} (C : stdio FILE).
(** [sprintf] for one conversion, and the memory that [FillBuffProc] finds. *)
Context (sprintf : bytes → varg → bytes) (uninit : bytes).

Record FCGI_FILE := mkFile { stdio_stream : option FILE; fcgx_stream : option slot }.

(** The request, its connection and [errno]. *)
Record env := mkEnv { rq : FCGX_Request; wd : World; errno : Z }.

Definition ESPIPE : Z := 29.
Definition set_env_errno (e : Z) (v : env) : env := mkEnv (rq v) (wd v) e.

(** The choice that every function makes. *)
Definition choose {A} (std : FILE → A * FILE) (fcgx : St → res (A * St)) (none : A) (fp : FCGI_FILE) (e : env) : res (A * FCGI_FILE * env) :=
  match stdio_stream fp with
  | Some f => let '(a, f) := std f in Ok (a, mkFile (Some f) (fcgx_stream fp), e)
  | None =>
      match fcgx_stream fp with
      | Some s => '(a, r, w) ← on_slot s fcgx (rq e) (wd e); Ok (a, fp, mkEnv r w (errno e))
      | None => Ok (none, fp, e)
      end
  end.

(** A function that only a [FILE] has. *)
Definition only_file {A} (std : FILE → A * FILE) (none : A) (e' : Z) (fp : FCGI_FILE) (e : env) : A * FCGI_FILE * env :=
  match stdio_stream fp with
  | Some f => let '(a, f) := std f in (a, mkFile (Some f) (fcgx_stream fp), e)
  | None => (none, fp, set_env_errno e' e)
  end.

(** ** Opening and closing *)

(** [malloc_ok] tells whether there is memory for the [FCGI_FILE]. *)
Definition FCGI_OpenFromFILE (malloc_ok : bool) (stream : option FILE) : option FCGI_FILE :=
  f ← stream; if malloc_ok then Some (mkFile (Some f) None) else None.

(** With the [FILE]s that are closed again. *)
Definition open_from (malloc_ok : bool) (file : option FILE) : option FCGI_FILE * list FILE :=
  let fcgi_file := FCGI_OpenFromFILE malloc_ok file in
  (fcgi_file, match file, fcgi_file with Some f, None => [f] | _, _ => [] end).

Definition FCGI_fopen (malloc_ok : bool) (path mode : bytes) := open_from malloc_ok (c_fopen C path mode).
Definition FCGI_tmpfile (malloc_ok : bool) := open_from malloc_ok (c_tmpfile C).
Definition FCGI_fdopen (malloc_ok : bool) (fd : Z) (mode : bytes) := open_from malloc_ok (c_fdopen C fd mode).
Definition FCGI_popen (malloc_ok : bool) (cmd type : bytes) := open_from malloc_ok (c_popen C cmd type).

Definition FCGI_fclose (fp : FCGI_FILE) (e : env) : res (Z * FCGI_FILE * env) :=
  match stdio_stream fp with
  | Some f => Ok (c_fclose C f, mkFile None (fcgx_stream fp), e)
  | None =>
      match fcgx_stream fp with
      | Some s => '(n, r, w) ← on_slot s FCGX_FClose (rq e) (wd e); Ok (n, mkFile None None, mkEnv r w (errno e))
      | None => Ok (EOF, fp, e)
      end
  end.

Definition FCGI_pclose (fp : FCGI_FILE) : Z * FCGI_FILE :=
  match stdio_stream fp with
  | Some f => (c_pclose C f, mkFile None (fcgx_stream fp))
  | None => (EOF, fp)
  end.

Definition FCGI_fflush (fp : option FCGI_FILE) (e : env) : res (Z * option FCGI_FILE * env) :=
  match fp with
  | None => Ok (c_fflush_all C, None, e)
  | Some fp => '(n, fp, e) ← choose (c_fflush C) FCGX_FFlush EOF fp e; Ok (n, Some fp, e)
  end.

(** [true] when the result is [fp], [false] when it is null. *)
Definition FCGI_freopen (path mode : bytes) (fp : FCGI_FILE) (e : env) : res (bool * FCGI_FILE * env) :=
  match stdio_stream fp with
  | Some f =>
      Ok (match c_freopen C path mode f with
          | Some f => (true, mkFile (Some f) (fcgx_stream fp), e)
          | None => (false, fp, e)
          end)
  | None =>
      match fcgx_stream fp with
      | Some s =>
          '(_, r, w) ← on_slot s FCGX_FClose (rq e) (wd e);
          let e := mkEnv r w (errno e) in
          Ok (match c_fopen C path mode with
              | Some f => (true, mkFile (Some f) None, e)
              | None => (false, fp, e)
              end)
      | None => Ok (false, fp, e)
      end
  end.

(** ** Position and buffering *)

Definition FCGI_setvbuf (mode size : Z) (fp : FCGI_FILE) (e : env) := only_file (c_setvbuf C mode size) (-1) (errno e) fp e.
Definition FCGI_setbuf (buf : Z) (fp : FCGI_FILE) (e : env) := only_file (λ f, ((), c_setbuf C buf f)) () (errno e) fp e.
Definition FCGI_fseek (offset whence : Z) (fp : FCGI_FILE) (e : env) := only_file (c_fseek C offset whence) (-1) ESPIPE fp e.
Definition FCGI_ftell (fp : FCGI_FILE) (e : env) := only_file (c_ftell C) (-1) ESPIPE fp e.
Definition FCGI_rewind (fp : FCGI_FILE) (e : env) := only_file (λ f, ((), c_rewind C f)) () ESPIPE fp e.
Definition FCGI_fileno (fp : FCGI_FILE) : Z := from_option (c_fileno C) (-1) (stdio_stream fp).

(** ** Reading *)

Abbreviation fill := (FillBuffProc uninit).

Definition FCGI_fgetc (fp : FCGI_FILE) (e : env) := choose (c_fgetc C) (FCGX_GetChar fill) EOF fp e.
Definition FCGI_ungetc (c : Z) (fp : FCGI_FILE) (e : env) := choose (c_ungetc C c) (FCGX_UnGetChar c) EOF fp e.
Definition FCGI_fgets (size : Z) (fp : FCGI_FILE) (e : env) := choose (c_fgets C size) (FCGX_GetLine fill size) None fp e.

(** [FCGI_gets]: the characters before the end of the line, [None] for null. *)
Fixpoint FCGI_gets_loop (fuel : nat) (s : bytes) (fp : FCGI_FILE) (e : env) : res (option bytes * FCGI_FILE * env) :=
  match fuel with
  | O => Fault OutOfFuel
  | S fuel =>
      '(c, fp, e) ← FCGI_fgetc fp e;
      if c =? 10 then Ok (Some s, fp, e) else
      if c =? EOF then Ok (match s with [] => None | _ => Some s end, fp, e) else
      FCGI_gets_loop fuel (s ++ [z2b c]) fp e
  end.

(** How much is left decides how long the loop can run; [room] is any bound on it. *)
Definition FCGI_gets (room : nat) (fp : FCGI_FILE) (e : env) := FCGI_gets_loop (S room) [] fp e.

(** The octets stored, and their number in elements; the product is passed on as an [int]. *)
Definition FCGI_fread (size nmemb : Z) (fp : FCGI_FILE) (e : env) : res (Z * bytes * FCGI_FILE * env) :=
  '(r, fp, e) ← choose (c_fread C size nmemb)
    (λ st, if u64 (size * nmemb) =? 0 then Ok ((0, []), st) else
           '(d, st) ← FCGX_GetStr fill (s32 (u64 (size * nmemb))) st;
           Ok ((u64 (Z.of_nat (length d)) / size, d), st))
    (u64 EOF, []) fp e;
  Ok (r.1, r.2, fp, e).

(** ** Writing *)

Definition FCGI_fputc (c : Z) (fp : FCGI_FILE) (e : env) := choose (c_fputc C c) (FCGX_PutChar c) EOF fp e.
Definition FCGI_fputs (s : bytes) (fp : FCGI_FILE) (e : env) := choose (c_fputs C s) (FCGX_PutS s) EOF fp e.

Definition FCGI_puts (s : bytes) (fp : FCGI_FILE) (e : env) : res (Z * FCGI_FILE * env) :=
  match stdio_stream fp, fcgx_stream fp with
  | None, None => Ok (EOF, fp, e)
  | _, _ =>
      '(n, fp, e) ← FCGI_fputs s fp e;
      if n <? 0 then Ok (n, fp, e) else FCGI_fputc 10 fp e
  end.

Definition FCGI_vfprintf (format : bytes) (ap : list varg) (fp : FCGI_FILE) (e : env) : res (Z * list (nat * Z) * FCGI_FILE * env) :=
  choose (c_vfprintf C format ap) (FCGX_VFPrintF sprintf FCGX_PutStr format ap) (EOF, []) fp e.
Definition FCGI_fprintf (format : bytes) (ap : list varg) (fp : FCGI_FILE) (e : env) : res (Z * list (nat * Z) * FCGI_FILE * env) :=
  choose (c_vfprintf C format ap) (FCGX_VFPrintF sprintf FCGX_PutStr format ap) (0, []) fp e.

(** [FCGX_PutStr] with the product as an [int]: a negative one is the length of a [memcpy]. *)
Definition FCGI_fwrite (d : bytes) (size nmemb : Z) (fp : FCGI_FILE) (e : env) : res (Z * FCGI_FILE * env) :=
  choose (c_fwrite C d size nmemb)
    (λ st, let n := s32 (u64 (size * nmemb)) in
           if u64 (size * nmemb) =? 0 then Ok (0, st) else
           if (n <? 0) || (Z.of_nat (length d) <? n) then Fault OutOfBounds else
           '(n, st) ← FCGX_PutStr (take (Z.to_nat n) d) st;
           Ok (u64 n / size, st))
    (u64 EOF) fp e.

(** ** Status *)

Definition on_stream {A} (f : FCGX_Stream → A * FCGX_Stream) (st : St) : res (A * St) :=
  let '(a, s) := f (str st) in Ok (a, mkSt s (req st) (net st)).

Definition FCGI_feof (fp : FCGI_FILE) (e : env) := choose (λ f, (c_feof C f, f)) (on_stream (λ s, (FCGX_HasSeenEOF s, s))) (-1) fp e.
Definition FCGI_ferror (fp : FCGI_FILE) (e : env) := choose (λ f, (c_ferror C f, f)) (on_stream (λ s, (FCGX_GetError s, s))) (-1) fp e.
Definition FCGI_clearerr (fp : FCGI_FILE) (e : env) := choose (λ f, ((), c_clearerr C f)) (on_stream (λ s, ((), FCGX_ClearError s))) () fp e.

(** ** The process *)

(** [acceptCalled], [isCGI], [_fcgi_sF], [environ] and the FastCGI library with its connection. *)
Record proc := mkProc {
  acceptCalled : bool;
  isCGI : bool;
  FCGI_stdin : FCGI_FILE;
  FCGI_stdout : FCGI_FILE;
  FCGI_stderr : FCGI_FILE;
  environ : option (list bytes);
  plib : Lib;
  pworld : World;
  perrno : Z;
}.

Definition with_request (r : FCGX_Request) (l : Lib) : Lib := mkLib (libInitialized l) (isFastCGI l) (webServerAddressList l) r.

(** A call on one of the three files. *)
Definition file_at (s : slot) (p : proc) : FCGI_FILE := match s with SIn => FCGI_stdin p | SOut => FCGI_stdout p | SErr => FCGI_stderr p end.
Definition set_files (fi fo fe : FCGI_FILE) (p : proc) : proc :=
  mkProc (acceptCalled p) (isCGI p) fi fo fe (environ p) (plib p) (pworld p) (perrno p).
Definition set_file (s : slot) (f : FCGI_FILE) (p : proc) : proc :=
  match s with
  | SIn => set_files f (FCGI_stdout p) (FCGI_stderr p) p
  | SOut => set_files (FCGI_stdin p) f (FCGI_stderr p) p
  | SErr => set_files (FCGI_stdin p) (FCGI_stdout p) f p
  end.
Definition with_env (e : env) (p : proc) : proc :=
  mkProc (acceptCalled p) (isCGI p) (FCGI_stdin p) (FCGI_stdout p) (FCGI_stderr p) (environ p) (with_request (rq e) (plib p)) (wd e) (errno e).
Definition on_file {A} (s : slot) (f : FCGI_FILE → env → res (A * FCGI_FILE * env)) (p : proc) : res (A * proc) :=
  '(a, fp, e) ← f (file_at s p) (mkEnv (the_request (plib p)) (pworld p) (perrno p));
  Ok (a, with_env e (set_file s fp p)).

Definition FCGI_getchar (p : proc) := on_file SIn FCGI_fgetc p.
Definition FCGI_putchar (c : Z) (p : proc) := on_file SOut (FCGI_fputc c) p.
Definition FCGI_printf (format : bytes) (ap : list varg) (p : proc) := on_file SOut (FCGI_vfprintf format ap) p.
Definition FCGI_vprintf (format : bytes) (ap : list varg) (p : proc) := on_file SOut (FCGI_vfprintf format ap) p.

(** [message] is [strerror(errno)]. *)
Definition FCGI_perror (str message : bytes) (p : proc) : res proc :=
  '(_, p) ← on_file SErr (FCGI_fputs str) p;
  '(_, p) ← on_file SErr (FCGI_fputs [x3a; x20]) p;
  '(_, p) ← on_file SErr (FCGI_fputs message) p;
  Ok p.

Definition FCGI_StartFilterData (p : proc) : res (Z * proc) :=
  match stdio_stream (FCGI_stdin p), fcgx_stream (FCGI_stdin p) with
  | Some _, _ => Ok (-1, p)
  | None, Some s => '(n, r, w) ← on_slot s FCGX_StartFilterData (the_request (plib p)) (pworld p);
                    Ok (n, with_env (mkEnv r w (perrno p)) p)
  | None, None => Fault OutOfBounds
  end.

Definition FCGI_SetExitStatus (status : Z) (p : proc) : proc :=
  match fcgx_stream (FCGI_stdin p) with
  | Some _ => let r := the_request (plib p) in
              with_env (mkEnv (set_reqData (FCGX_SetExitStatus status (reqData r)) r) (pworld p) (perrno p)) p
  | None => p
  end.

Section life.
Context (aligned : bool) (junk : byte).
(** What [OS_LibInit] returns with [errno], the environment variable with the addresses, and
    whether [getpeername] on the listening descriptor fails with [ENOTCONN]. *)
Context (init : Z * Z) (addrs : option bytes) (listener : bool).
(** [stdin], [stdout] and [stderr] of the C library. *)
Context (c_stdin c_stdout c_stderr : FILE).

Definition OS_IsFcgi : Z := if listener then 1 else 0.

(** [inl] is [exit]. *)
Definition FCGX_IsCGI (l : Lib) : Z + bool * Lib :=
  if negb (isFastCGI l =? -1) then inr (isFastCGI l =? 0, l) else
  let '(rc, l) := if libInitialized l then (0, l) else FCGX_Init init addrs l in
  if negb (rc =? 0) then inl (if rc <? 0 then rc else - rc) else
  let l := mkLib (libInitialized l) OS_IsFcgi (webServerAddressList l) (the_request l) in
  inr (isFastCGI l =? 0, l).

(** The rest of [FCGI_Accept]. *)
Definition accept_request (p : proc) : res (Z * proc) :=
  if isCGI p then
    Ok (0, mkProc (acceptCalled p) (isCGI p) (mkFile (Some c_stdin) None) (mkFile (Some c_stdout) None)
                  (mkFile (Some c_stderr) None) (environ p) (plib p) (pworld p) (perrno p))
  else
    '(rc, l, w) ← FCGX_Accept aligned junk uninit init addrs (plib p) (pworld p);
    let p := mkProc (acceptCalled p) (isCGI p) (FCGI_stdin p) (FCGI_stdout p) (FCGI_stderr p) (environ p) l w (perrno p) in
    if rc <? 0 then Ok (rc, p) else
    if 0 <? rc then Fault OutOfBounds else (* the streams were not assigned *)
    Ok (0, mkProc (acceptCalled p) (isCGI p) (mkFile None (Some SIn)) (mkFile None (Some SOut))
                  (mkFile None (Some SErr)) (envp (the_request l)) l w (perrno p)).

Definition FCGI_Accept (p : proc) : res (Z + Z * proc) :=
  if negb (acceptCalled p) then
    match FCGX_IsCGI (plib p) with
    | inl code => Ok (inl code)
    | inr (cgi, l) =>
        r ← accept_request (mkProc true cgi (FCGI_stdin p) (FCGI_stdout p) (FCGI_stderr p) (environ p) l (pworld p) (perrno p));
        Ok (inr r)
    end
  else if isCGI p then Ok (inr (EOF, p))
  else r ← accept_request p; Ok (inr r).

Definition FCGI_Finish (p : proc) : res proc :=
  if negb (acceptCalled p) || isCGI p then Ok p else
  '(l, w) ← FCGX_Finish (plib p) (pworld p);
  Ok (mkProc (acceptCalled p) (isCGI p) (mkFile (stdio_stream (FCGI_stdin p)) None) (mkFile (stdio_stream (FCGI_stdout p)) None)
             (mkFile (stdio_stream (FCGI_stderr p)) None) None l w (perrno p)).
End life.
End stdio.

(** ** Output *)

Section output.
Context {FILE : Type} (C : stdio FILE) (sprintf : bytes → varg → bytes) (uninit : bytes).

(** The process [p] with another state of one of its streams and of the connection. *)
Definition slot_state (s : slot) (p : proc) (x : FCGX_Stream) (n : Net) : @proc FILE :=
  with_env (mkEnv (set_stream s (Some x) (the_request (plib p))) (set_conn n (pworld p)) (perrno p)) p.

(** The file [s] of [p'] is a stream of the request that satisfies [I]; everything else is as
    in [p]. *)
Definition stream_is (s : slot) (p : proc) (I : St → Prop) (p' : @proc FILE) : Prop :=
  ∃ x n, p' = slot_state s p x n ∧ file_at s p = mkFile None (Some s) ∧ I (mkSt x (reqData (the_request (plib p))) n).

(** A call that the FastCGI library carries out as it should. *)
Lemma choose_ok {A} s (std : FILE → A * FILE) f none p p' (a : A) (I I' : St → Prop) :
  stream_is s p I p' →
  (∀ st, I st → ∃ st', f st = Ok (a, st') ∧ I' st' ∧ req st' = reqData (the_request (plib p))) →
  ∃ p'', on_file s (choose std f none) p' = Ok (a, p'') ∧ stream_is s p I' p''.
Proof.
intros (x & n & -> & Hf & HI) Hcall. destruct (Hcall _ HI) as ([x' q' n'] & E & HI' & Hq). cbn in Hq. subst q'.
exists (slot_state s p x' n'). split; [|by eexists _, _].
unfold on_file, choose, on_slot.
assert (file_at s (slot_state s p x n) = mkFile None (Some s)) as -> by (by destruct s).
assert (stream_at s (the_request (plib (slot_state s p x n))) = Some x ∧
  reqData (the_request (plib (slot_state s p x n))) = reqData (the_request (plib p))) as [Hs Hq] by (by destruct s).
cbn [stdio_stream fcgx_stream rq wd]. rewrite Hs, Hq. change (conn (pworld (slot_state s p x n))) with n. rewrite E. cbn [mbind res_bind].
destruct p as [? ? ? ? ? ? [? ? ? []] [] ?], s; cbn in Hf; subst; done.
Qed.

(** What the standard output of [p] carries once [d] was written to it. *)
Definition has_output (rd : list os_read) (s0 : bytes) (p : proc) (d : bytes) : @proc FILE → Prop :=
  stream_is SOut p (wrote FCGI_STDOUT (reqData (the_request (plib p))) rd s0 d).

Lemma choose_out {A} (std : FILE → A * FILE) f none rd s0 p d d' p' (a : A) :
  has_output rd s0 p d p' →
  (∀ st, wrote FCGI_STDOUT (reqData (the_request (plib p))) rd s0 d st →
     ∃ st', f st = Ok (a, st') ∧ wrote FCGI_STDOUT (reqData (the_request (plib p))) rd s0 d' st') →
  ∃ p'', on_file SOut (choose std f none) p' = Ok (a, p'') ∧ has_output rd s0 p d' p''.
Proof.
intros Ho Hcall. eapply choose_ok; [exact Ho|]. intros st Hw. destruct (Hcall st Hw) as (st' & -> & Hw').
exists st'. split_and!; [done|done|]. apply Hw'.
Qed.

Inductive ocall :=
  | Fputc (c : Z) | Fputs (s : bytes) | Puts (s : bytes) | Fwrite (d : bytes) (size nmemb : Z)
  | Printf (format : bytes) (ap : list varg).

(** The result of the call, and what it stores where its arguments point to ([%n]). *)
Definition ocall_run (c : ocall) (p : proc) : res (Z * list (nat * Z) * @proc FILE) :=
  match c with
  | Fputc c => '(z, p) ← FCGI_putchar C c p; Ok (z, [], p)
  | Fputs s => '(z, p) ← on_file SOut (FCGI_fputs C s) p; Ok (z, [], p)
  | Puts s => '(z, p) ← on_file SOut (FCGI_puts C s) p; Ok (z, [], p)
  | Fwrite d size nmemb => '(z, p) ← on_file SOut (FCGI_fwrite C d size nmemb) p; Ok (z, [], p)
  | Printf format ap => FCGI_printf C sprintf format ap p
  end.

(** The reference for a whole format: the text, the stores and the result. *)
Definition formatted (format : bytes) (ap : list varg) : res (bytes * list (nat * Z) * Z) :=
  ref_format sprintf (S (length (c_string format))) (c_string format) 0 ap.

(** What the call puts out, and what it returns and stores. *)
Definition omeant (c : ocall) : bytes :=
  match c with
  | Fputc c => [octet c]
  | Fputs s => c_string s
  | Puts s => c_string s ++ [x0a]
  | Fwrite d size nmemb => take (Z.to_nat (size * nmemb)) d
  | Printf format ap => match formatted format ap with Ok (out, _, _) => out | Fault _ => [] end
  end.
Definition oresult (c : ocall) : Z * list (nat * Z) :=
  match c with
  | Fputc c => (b2z (octet c), [])
  | Fputs s => (Z.of_nat (length (c_string s)), [])
  | Puts s => (10, [])
  | Fwrite d size nmemb => (nmemb, [])
  | Printf format ap => match formatted format ap with Ok (_, ws, r) => (r, ws) | Fault _ => (0, []) end
  end.

(** Lengths fit an [int], an array is as long as the call says, and the reference formats the
    arguments. *)
Definition ocall_ok (c : ocall) : Prop :=
  match c with
  | Fputc _ => True
  | Fputs s | Puts s => Z.of_nat (length (c_string s)) < 2 ^ 31
  | Fwrite d size nmemb => 0 < size ∧ 0 < nmemb ∧ size * nmemb < 2 ^ 31 ∧ size * nmemb ≤ Z.of_nat (length d)
  | Printf format ap => Z.of_nat (length (c_string format)) < 2 ^ 31 ∧ ∃ x, formatted format ap = Ok x
  end.

Lemma wrote_PutStr t q rd s0 d st s :
  wrote t q rd s0 d st → ∃ st', FCGX_PutStr s st = Ok (Z.of_nat (length s), st') ∧ wrote t q rd s0 (d ++ s) st'.
Proof. apply (PutStr_ok (wrote t q rd s0)); [apply wrote_open|apply put_ok|apply keep_room]. Qed.

Lemma wrote_PutChar t q rd s0 d st c :
  wrote t q rd s0 d st → ∃ st', FCGX_PutChar c st = Ok (b2z (octet c), st') ∧ wrote t q rd s0 (d ++ [octet c]) st'.
Proof. apply (PutChar_ok (wrote t q rd s0)); [apply wrote_open|apply put_ok|apply keep_room]. Qed.

Lemma wrote_PutS t q rd s0 d st s :
  Z.of_nat (length (c_string s)) < 2 ^ 31 → wrote t q rd s0 d st →
  ∃ st', FCGX_PutS s st = Ok (Z.of_nat (length (c_string s)), st') ∧ wrote t q rd s0 (d ++ c_string s) st'.
Proof. intros Hs Hw. unfold FCGX_PutS. rewrite as_int_fits by done. by apply wrote_PutStr. Qed.

Lemma wrote_printf t q rd s0 d st format ap out ws r :
  sprintf_ok sprintf → Z.of_nat (length (c_string format)) < 2 ^ 31 → formatted format ap = Ok (out, ws, r) →
  wrote t q rd s0 d st →
  ∃ st', FCGX_VFPrintF sprintf FCGX_PutStr format ap st = Ok ((r, ws), st') ∧ wrote t q rd s0 (d ++ out) st'.
Proof.
intros Hok Hlen Hr Hw. unfold FCGX_VFPrintF.
by apply (loop_exact sprintf Hok FCGX_PutStr (wrote t q rd s0)) with (stores := []); [intros s d' st'; apply wrote_PutStr| | |..].
Qed.

(** [%s] never reaches [sprintf]. *)
Lemma print_string t q rd s0 d st s :
  Z.of_nat (length (c_string s)) + 1 < 2 ^ 31 → wrote t q rd s0 d st →
  ∃ st', FCGX_VFPrintF sprintf FCGX_PutStr [x25; x73] [VStr (Some s)] st = Ok ((s32 (Z.of_nat (length (c_string s))), []), st') ∧
    wrote t q rd s0 (d ++ c_string s) st'.
Proof.
intros Hlen Hw. assert (convert sprintf [x25; x73] 0 0 [VStr (Some s)] = Ok (Some (c_string s, [], 2%nat, 0, []))) as Hc.
{ assert (perform sprintf true (fast_scan [x25; x73]) PRINTF_BUFFLEN None 0 [VStr (Some s)] =
    Ok (Performed (c_string s) (s32 (s32 (Z.of_nat (length (c_string s))) + 1)) [] [])) as E by reflexivity.
  unfold convert. rewrite E. cbn [mbind res_bind finish]. rewrite !s32_id by lia. unfold assert_.
  rewrite (proj2 (Z.ltb_lt (Z.of_nat (length (c_string s))) (Z.of_nat (length (c_string s)) + 1))) by lia.
  rewrite (proj2 (Z.ltb_ge (Z.of_nat (length (c_string s))) 0)) by lia. by rewrite Nat2Z.id, firstn_all. }
destruct (put_text FCGX_PutStr (wrote t q rd s0) (λ x d st, wrote_PutStr t q rd s0 d st x) (c_string s) d st Hw)
  as (n & st' & Ep & Hn & Hw').
exists st'. split; [|done]. unfold FCGX_VFPrintF. change (c_string [x25; x73]) with [x25; x73].
cbn [vfprintf_loop length]. change (span _ [x25; x73]) with (@nil byte, [x25; x73]).
cbn -[convert vfprintf_loop FCGX_PutStr decide s32]. change (s32 (0 + Z.of_nat 0)) with 0. cbn [decide list_eq_dec].
destruct (decide ([] = [])) as [_|]; [|done]. cbn -[convert vfprintf_loop FCGX_PutStr decide s32].
rewrite Hc. cbn -[vfprintf_loop FCGX_PutStr decide s32]. rewrite Ep. cbn -[s32].
by rewrite (proj2 (Z.ltb_ge n 0)) by lia.
Qed.

Lemma fwrite_ok t q rd s0 d st x size nmemb :
  ocall_ok (Fwrite x size nmemb) → wrote t q rd s0 d st →
  let n := s32 (u64 (size * nmemb)) in
  ∃ st', (if u64 (size * nmemb) =? 0 then Ok (0, st) else
          if (n <? 0) || (Z.of_nat (length x) <? n) then Fault OutOfBounds else
          '(n, st) ← FCGX_PutStr (take (Z.to_nat n) x) st; Ok (u64 n / size, st)) = Ok (nmemb, st') ∧
    wrote t q rd s0 (d ++ take (Z.to_nat (size * nmemb)) x) st'.
Proof.
intros (Hs & Hn & Hb & Hl) Hw. assert (0 < size * nmemb) as Hp by nia.
assert (u64 (size * nmemb) = size * nmemb) as -> by (unfold u64; rewrite Z.mod_small; lia).
rewrite s32_id by lia. cbn zeta. rewrite (proj2 (Z.eqb_neq (size * nmemb) 0)) by lia.
rewrite (proj2 (Z.ltb_ge (size * nmemb) 0)) by lia.
rewrite (proj2 (Z.ltb_ge (Z.of_nat (length x)) (size * nmemb))) by lia. cbn [orb].
destruct (wrote_PutStr _ _ _ _ _ _ (take (Z.to_nat (size * nmemb)) x) Hw) as (st' & -> & Hw'). cbn [mbind res_bind].
exists st'. split; [|done]. rewrite length_take_le by lia. rewrite Z2Nat.id by lia.
assert (u64 (size * nmemb) = size * nmemb) as -> by (unfold u64; rewrite Z.mod_small; lia).
rewrite Z.mul_comm, Z.div_mul by lia. done.
Qed.

Lemma on_file_bind {A B} s (f : FCGI_FILE → env → res (A * @FCGI_FILE FILE * env)) (g : A → FCGI_FILE → env → res (B * FCGI_FILE * env)) p :
  on_file s (λ fp e, '(a, fp, e) ← f fp e; g a fp e) p = ('(a, p) ← on_file s f p; on_file s (g a) p).
Proof.
unfold on_file. destruct (f _ _) as [[[a fp] [r w x]]|]; [|done]. cbn.
destruct s; cbn; by destruct (g a fp (mkEnv r w x)) as [[[b fp'] e']|].
Qed.

Lemma puts_ok rd s0 p d p' s :
  Z.of_nat (length (c_string s)) < 2 ^ 31 → has_output rd s0 p d p' →
  ∃ p'', on_file SOut (FCGI_puts C s) p' = Ok (10, p'') ∧ has_output rd s0 p (d ++ c_string s ++ [x0a]) p''.
Proof.
intros Hs Ho. destruct (choose_out (c_fputs C s) (FCGX_PutS s) EOF rd s0 p d _ p' _ Ho (λ st, wrote_PutS _ _ _ _ _ st s Hs))
  as (p1 & E1 & Ho1).
destruct (choose_out (c_fputc C 10) (FCGX_PutChar 10) EOF rd s0 p _ _ p1 _ Ho1 (λ st, wrote_PutChar _ _ _ _ _ st 10))
  as (p2 & E2 & Ho2).
exists p2. rewrite app_assoc. split; [|done].
transitivity (on_file SOut (λ fp e, '(n, fp, e) ← FCGI_fputs C s fp e; if n <? 0 then Ok (n, fp, e) else FCGI_fputc C 10 fp e) p').
- destruct Ho as (so & n & -> & Hf & _). unfold on_file. cbn [file_at slot_state with_env FCGI_stdout] in *. by rewrite Hf.
- rewrite (on_file_bind SOut (FCGI_fputs C s) (λ n fp e, if n <? 0 then Ok (n, fp, e) else FCGI_fputc C 10 fp e)).
  rewrite (E1 : on_file SOut (FCGI_fputs C s) p' = _). cbn [mbind res_bind]. by rewrite (proj2 (Z.ltb_ge (Z.of_nat (length (c_string s))) 0)) by lia.
Qed.

(** [FCGI_printf] of a page, which needs no [sprintf]. *)
Lemma printf_page rd s0 p d p' s :
  Z.of_nat (length (c_string s)) + 1 < 2 ^ 31 → has_output rd s0 p d p' →
  ∃ p'', FCGI_printf C sprintf [x25; x73] [VStr (Some s)] p' = Ok ((s32 (Z.of_nat (length (c_string s))), []), p'') ∧
    has_output rd s0 p (d ++ c_string s) p''.
Proof. intros Hs Ho. by apply (choose_out _ _ _ _ _ _ d); [|intros st; apply print_string]. Qed.

(** A call whose result is a number. *)
Lemma out_number rd s0 p d (m : res (Z * @proc FILE)) (z : Z) :
  (∃ p'', m = Ok (z, p'') ∧ has_output rd s0 p d p'') →
  ∃ p'', ('(z, p) ← m; Ok (z, @nil (nat * Z), p)) = Ok (z, [], p'') ∧ has_output rd s0 p d p''.
Proof. intros (p'' & -> & Ho). by exists p''. Qed.

Lemma ocall_run_ok rd s0 p d p' c :
  sprintf_ok sprintf → has_output rd s0 p d p' → ocall_ok c →
  ∃ p'', ocall_run c p' = Ok (oresult c, p'') ∧ has_output rd s0 p (d ++ omeant c) p''.
Proof.
intros Hok Ho Hc. destruct c as [c|s|s|x size nmemb|format ap]; cbn [ocall_run oresult omeant]; [apply out_number..|].
- by apply (choose_out _ _ _ _ _ _ d); [|intros st; apply wrote_PutChar].
- by apply (choose_out _ _ _ _ _ _ d); [|intros st; apply wrote_PutS].
- by apply puts_ok.
- by apply (choose_out _ _ _ _ _ _ d); [|intros st; apply fwrite_ok].
- destruct Hc as (Hlen & [[out ws] r] & Hf). rewrite Hf.
  by apply (choose_out _ _ _ _ _ _ d); [|intros st; apply wrote_printf].
Qed.

(** The results of the calls with their stores, in order. *)
Fixpoint ocalls (cs : list ocall) (p : proc) : res (list (Z * list (nat * Z)) * @proc FILE) :=
  match cs with
  | [] => Ok ([], p)
  | c :: cs => '(z, w, p) ← ocall_run c p; '(zs, p) ← ocalls cs p; Ok ((z, w) :: zs, p)
  end.

(** C12: Standard output of a request carries exactly what was printed.  Take any sequence of
    [putchar], [fputs], [puts], [fwrite] and [printf] calls on the standard output of a FastCGI
    request, where strings are shorter than 2 GiB, an array is not empty, has the size that
    [fwrite] is told and is shorter than 2 GiB, and [printf] gets a format and arguments that
    the reference of C10 formats with a [sprintf] that keeps its documented lengths.  While the
    socket takes the octets, in any portions, each call returns what the C library documents
    (the octet, a non-negative number, the number of elements, the number of octets printed or
    -1 after a malformed specifier), makes its [%n] stores, and adds its text to the output
    stream of the request; the other files, the environment and the request itself stay as they
    were. *)
Theorem stdio_output rd s0 p d p' cs :
  sprintf_ok sprintf → has_output rd s0 p d p' → Forall ocall_ok cs →
  ∃ p'', ocalls cs p' = Ok (oresult <$> cs, p'') ∧ has_output rd s0 p (d ++ concat (omeant <$> cs)) p''.
Proof.
intros Hok Ho Hcs. revert d p' Ho. induction Hcs as [|c cs Hc _ IH]; intros d p' Ho; cbn [ocalls fmap list_fmap concat].
{ exists p'. by rewrite app_nil_r. }
destruct (ocall_run_ok _ _ _ _ _ _ Hok Ho Hc) as (p1 & -> & Ho1). destruct (oresult c). cbn [mbind res_bind].
destruct (IH _ _ Ho1) as (p2 & -> & Ho2). exists p2. by rewrite app_assoc.
Qed.

(** ** Input *)

Definition has_input (out rest : bytes) (p : proc) (d : bytes) : @proc FILE → Prop :=
  stream_is SIn p (stream_holds FCGI_STDIN (reqData (the_request (plib p))) out rest d).
Definition input_over (out rest : bytes) (p : proc) : @proc FILE → Prop :=
  stream_is SIn p (stream_ends FCGI_STDIN (reqData (the_request (plib p))) out rest).

Lemma stream_holds_req t q out rest d st : stream_holds t q out rest d st → req st = q.
Proof. intros (k & c & p & w & now & d' & reply & R & _). by destruct R. Qed.

(** [fread] stores as much as was asked for and is there, and counts whole elements. *)
Lemma fread_ok out rest p d p' size nmemb :
  0 < requestId (reqData (the_request (plib p))) < 2 ^ 16 → isBeginProcessed (reqData (the_request (plib p))) = true →
  0 < size → 0 < nmemb → size * nmemb < 2 ^ 31 → Z.of_nat (length d) < 2 ^ 64 →
  has_input out rest p d p' →
  ∃ p'', on_file SIn (λ fp e, '(n, x, fp, e) ← FCGI_fread C uninit size nmemb fp e; Ok ((n, x), fp, e)) p' =
      Ok ((Z.min nmemb (Z.of_nat (length d) / size), take (Z.to_nat (size * nmemb)) d), p'') ∧
    (if size * nmemb <=? Z.of_nat (length d) then has_input out rest p (drop (Z.to_nat (size * nmemb)) d) p''
     else input_over out rest p p'').
Proof.
intros Hid Hb Hs Hn Hsz Hl Hi. assert (0 < size * nmemb) as Hp by nia.
pose proof (FillBuffProc_source uninit FCGI_STDIN _ out rest ltac:(done) ltac:(done) Hid Hb) as Hsrc.
set (I' := λ st, if size * nmemb <=? Z.of_nat (length d)
  then stream_holds FCGI_STDIN (reqData (the_request (plib p))) out rest (drop (Z.to_nat (size * nmemb)) d) st
  else stream_ends FCGI_STDIN (reqData (the_request (plib p))) out rest st).
destruct (choose_ok SIn (c_fread C size nmemb)
  (λ st, if u64 (size * nmemb) =? 0 then Ok ((0, []), st) else
         '(d, st) ← FCGX_GetStr (FillBuffProc uninit) (s32 (u64 (size * nmemb))) st;
         Ok ((u64 (Z.of_nat (length d)) / size, d), st)) (u64 EOF, []) p p'
  (Z.min nmemb (Z.of_nat (length d) / size), take (Z.to_nat (size * nmemb)) d) _ I' Hi) as (p'' & E & Hst).
{ intros st Hst. assert (u64 (size * nmemb) = size * nmemb) as -> by (unfold u64; rewrite Z.mod_small; lia).
  rewrite s32_id by lia. rewrite (proj2 (Z.eqb_neq (size * nmemb) 0)) by lia.
  destruct (GetStr_ok (size * nmemb) _ _ Hst ltac:(lia)) as (st' & -> & Hst'). cbn [mbind res_bind].
  exists st'. split_and!; [|done|].
  - do 3 f_equal. rewrite length_take. unfold u64. rewrite Z.mod_small by lia.
    rewrite Nat2Z.inj_min, Z2Nat.id by lia.
    destruct (Z.min_spec (size * nmemb) (Z.of_nat (length d))) as [[Hc ->]|[Hc ->]].
    + rewrite Z.mul_comm, Z.div_mul by lia. rewrite Z.min_l; [done|]. apply Z.div_le_lower_bound; lia.
    + rewrite Z.min_r; [done|]. apply Z.div_le_upper_bound; lia.
  - destruct (size * nmemb <=? Z.of_nat (length d)); [by eapply stream_holds_req|by destruct Hst']. }
exists p''. split.
- revert E. unfold on_file, FCGI_fread. destruct (choose _ _ _ _ _) as [[[[z x] fp] e]|]; [|done].
  cbn [mbind res_bind fst snd]. by intros [= -> -> <-].
- revert Hst. unfold I', has_input, input_over. by destruct (size * nmemb <=? Z.of_nat (length d)).
Qed.

(** ** Errors *)

(** A write that fails returns more elements than were asked for: the [int] -1 becomes the
    largest [size_t] before the division. *)
Lemma fwrite_failure_unseen p p' d size nmemb st' si n :
  p' = slot_state SOut p si n → file_at SOut p = mkFile None (Some SOut) →
  0 < size → 0 < nmemb → size * nmemb < 2 ^ 31 → size * nmemb ≤ Z.of_nat (length d) →
  FCGX_PutStr (take (Z.to_nat (size * nmemb)) d) (mkSt si (reqData (the_request (plib p))) n) = Ok (-1, st') →
  ∃ z p'', on_file SOut (FCGI_fwrite C d size nmemb) p' = Ok (z, p'') ∧ nmemb < z.
Proof.
intros -> Hf Hs Hn Hsz Hl E. assert (0 < size * nmemb) as Hp by nia.
unfold on_file, FCGI_fwrite, choose, on_slot. change (file_at SOut (slot_state SOut p si n)) with (file_at SOut p). rewrite Hf.
cbn [stdio_stream fcgx_stream rq wd stream_at].
change (out_ (the_request (plib (slot_state SOut p si n)))) with (Some si). cbn [conn pworld slot_state with_env set_conn wd].
change (reqData (the_request (plib (slot_state SOut p si n)))) with (reqData (the_request (plib p))).
assert (u64 (size * nmemb) = size * nmemb) as -> by (unfold u64; rewrite Z.mod_small; lia).
rewrite s32_id by lia. rewrite (proj2 (Z.eqb_neq (size * nmemb) 0)) by lia.
rewrite (proj2 (Z.ltb_ge (size * nmemb) 0)) by lia. rewrite (proj2 (Z.ltb_ge (Z.of_nat (length d)) (size * nmemb))) by lia.
cbn [orb]. rewrite E. cbn [mbind res_bind]. eexists _, _. split; [done|]. change (u64 (-1)) with (2 ^ 64 - 1).
enough (nmemb + 1 ≤ (2 ^ 64 - 1) / size) by lia. apply Z.div_le_lower_bound; nia.
Qed.
End output.

(** A C library that has no files. *)
Definition no_stdio : stdio () :=
  mkStdio () (λ _ _, None) None (λ _ _, None) (λ _ _, None) (λ _, 0) (λ _, 0) 0 (λ f, (0, f)) (λ _ _ _, None) (λ _ _ f, (-1, f)) (λ _ f, f)
    (λ _ _ f, (-1, f)) (λ f, (-1, f)) id (λ f, (EOF, f)) (λ _ f, (EOF, f)) (λ _ f, (None, f)) (λ _ f, (EOF, f)) (λ _ f, (EOF, f))
    (λ _ _ f, ((-1, []), f)) (λ _ _ f, ((0, []), f)) (λ _ _ _ f, (0, f)) (λ _, 0) (λ _, 0) id (λ _, -1).


(** A process that has accepted a request. *)
Definition demo_proc : @proc () :=
  mkProc true false (mkFile None (Some SIn)) (mkFile None (Some SOut)) (mkFile None (Some SErr)) None
    (mkLib true 1 None (set_out (Some (NewWriter true x00 8192 FCGI_STDOUT)) (set_reqData (mkReq 1 1 true 0 0 2) (FCGX_InitRequest 0 0))))
    (mkWorld [] (mkNet [] [Wrote 3] []) []) 0.

(** "<%s>%-c%n" *)
Definition demo_calls : list ocall :=
  [Fputc 60; Puts [x61; x00; x62]; Fwrite [x63; x64; x65] 1 2;
   Printf [x3c; x25; x73; x3e; x25; x2d; x63; x25; x6e] [VStr (Some [x66]); VInt 103; VIntPtr 4]].

Lemma stdio_output_witness :
  ∃ p'', ocalls no_stdio sprintf_sc demo_calls demo_proc = Ok ([(60, []); (10, []); (2, []); (4, [(4%nat, 4)])], p'') ∧
    has_output [] [] demo_proc [x3c; x61; x0a; x63; x64; x3c; x66; x3e; x67] p''.
Proof.
apply (stdio_output no_stdio sprintf_sc [] [] demo_proc [] demo_proc demo_calls); [exact sprintf_sc_ok| |].
- exists (NewWriter true x00 8192 FCGI_STDOUT), (mkNet [] [Wrote 3] []). split_and!; [done|done|].
  apply (NewWriter_ok true x00 8192 FCGI_STDOUT (mkReq 1 1 true 0 0 2) (mkNet [] [Wrote 3] [])). by repeat constructor.
- unfold demo_calls. repeat constructor; cbn; try lia. eexists. vm_compute. reflexivity.
Defined.
