(* ===== verification/Fcgio.v ===== *)
(** [fastcgi/fastcgi_lib/fcgio.cpp]: a [std::streambuf] over a stream of the FastCGI library,
    so that an application can use [istream] and [ostream].

    The object keeps the stream and a buffer given by its user, empty by default.  [eback] and
    [pbase] are the start of that buffer and [epptr] is its end, since only [reset] sets them;
    [gptr], [egptr] and [pptr] are offsets from its start.  [sputc], [sputn], [sbumpc], [sgetc]
    and [sgetn] are the members of the base class through which the streams call. *)

From Stdlib Require Import ZArith Lia Bool.
From Stdlib.Strings Require Import Byte String.
From stdpp Require Import base numbers list option.
From S2P Require Import Prelude CxxString Fcgx FcgxWriter FcgxRead FcgxReader.
Local Open Scope Z_scope.

(** ** State *)

Record fcgi_streambuf := mkStreambuf {
  fcgx : option St;
  mem : bytes;
  gptr : nat;
  egptr : nat;
  pptr : nat;
}.

Definition bufsize (b : fcgi_streambuf) : nat := length (mem b).
Definition buffered_ (b : fcgi_streambuf) : bool := negb (bufsize b =? 0)%nat.

Definition set_fcgx v b := mkStreambuf v (mem b) (gptr b) (egptr b) (pptr b).
Definition set_mem v b := mkStreambuf (fcgx b) v (gptr b) (egptr b) (pptr b).
Definition setg g e b := mkStreambuf (fcgx b) (mem b) g e (pptr b).
Definition set_pptr p b := mkStreambuf (fcgx b) (mem b) (gptr b) (egptr b) p.

(** A call of the FastCGI library on the stream; a null pointer is an error. *)
Definition on_fcgx {A} (f : St → res (A * St)) (b : fcgi_streambuf) : res (A * fcgi_streambuf) :=
  match fcgx b with
  | None => Fault OutOfBounds
  | Some st => '(r, st) ← f st; Ok (r, set_fcgx (Some st) b)
  end.

(** ** Construction *)

Definition reset (b : fcgi_streambuf) : fcgi_streambuf := set_pptr 0 (setg 0 0 b).

(** [true] when the buffer was taken. *)
Definition setbuf (m : bytes) (b : fcgi_streambuf) : bool * fcgi_streambuf :=
  if buffered_ b then (false, b) else (true, reset (set_mem m b)).

Definition init (fs : option St) (m : bytes) : fcgi_streambuf := (setbuf m (mkStreambuf fs [] 0 0 0)).2.

Definition attach (fs : option St) (b : fcgi_streambuf) : Z * fcgi_streambuf :=
  let b := set_fcgx fs b in (0, if buffered_ b then reset b else b).

(** [fcgi_istream] and [fcgi_ostream]: a stream on a buffer object of its own. *)
Definition fcgi_stream (fs : option St) : fcgi_streambuf := (attach fs (init None [])).2.
Definition fcgi_stream_attach (fs : option St) (b : fcgi_streambuf) : fcgi_streambuf := (attach fs b).2.

(** ** Output *)

Definition overflow (c : Z) (b : fcgi_streambuf) : res (Z * fcgi_streambuf) :=
  '(ok, b) ← (if buffered_ b && negb (pptr b =? 0)%nat then
      '(r, b) ← on_fcgx (FCGX_PutStr (take (pptr b) (mem b))) b;
      if r =? Z.of_nat (pptr b) then Ok (true, set_pptr 0 b) else Ok (false, b)
    else Ok (true, b));
  if negb ok then Ok (EOF, b) else
  if c =? EOF then Ok (0, b) else
  '(r, b) ← on_fcgx (FCGX_PutChar c) b;
  if r =? c then Ok (0, b) else Ok (EOF, b).

Definition sync (b : fcgi_streambuf) : res (Z * fcgi_streambuf) :=
  '(r, b) ← overflow EOF b;
  if negb (r =? 0) then Ok (EOF, b) else
  '(r, b) ← on_fcgx FCGX_FFlush b;
  if negb (r =? 0) then Ok (EOF, b) else Ok (0, b).

(** The destructor; the stream stays. *)
Definition destroy (b : fcgi_streambuf) : res (option St) := '(_, b) ← overflow EOF b; Ok (fcgx b).

Definition sputc (c : byte) (b : fcgi_streambuf) : res (Z * fcgi_streambuf) :=
  if (pptr b <? bufsize b)%nat then Ok (b2z c, set_pptr (S (pptr b)) (set_mem (overwrite (pptr b) [c] (mem b)) b))
  else overflow (b2z c) b.

(** [streambuf::xsputn]: [sputc] until it fails. *)
Fixpoint base_xsputn (s : bytes) (b : fcgi_streambuf) : res (Z * fcgi_streambuf) :=
  match s with
  | [] => Ok (0, b)
  | c :: s => '(r, b) ← sputc c b; if r =? EOF then Ok (0, b) else '(n, b) ← base_xsputn s b; Ok (n + 1, b)
  end.

Definition INT_MAX : Z := 2 ^ 31 - 1.

Definition xsputn (s : bytes) (b : fcgi_streambuf) : res (Z * fcgi_streambuf) :=
  if INT_MAX <? Z.of_nat (length s) then Ok (0, b) else
  if buffered_ b then base_xsputn s b else on_fcgx (FCGX_PutStr s) b.

(** ** Input *)

Section input.
Context (fill : St → res St).

(** As the GNU library computes it; [showmanyc] is that of the base class, 0. *)
Definition in_avail (b : fcgi_streambuf) : Z := Z.of_nat (egptr b) - Z.of_nat (gptr b).

Definition deref (b : fcgi_streambuf) : res Z := d ← mem_read (gptr b) 1 (mem b); Ok (b2z (hd x00 d)).
Definition gbump (b : fcgi_streambuf) : fcgi_streambuf := setg (S (gptr b)) (egptr b) b.

Definition underflow (b : fcgi_streambuf) : res (Z * fcgi_streambuf) :=
  if buffered_ b then
    '(ok, b) ← (if in_avail b =? 0 then
        '(d, b) ← on_fcgx (FCGX_GetStr fill (Z.of_nat (bufsize b))) b;
        let b := set_mem (overwrite 0 d (mem b)) b in
        if (length d =? 0)%nat then Ok (false, b) else Ok (true, setg 0 (length d) b)
      else Ok (true, b));
    if negb ok then Ok (EOF, b) else c ← deref b; Ok (c, b)
  else on_fcgx (FCGX_GetChar fill) b.

Definition uflow (b : fcgi_streambuf) : res (Z * fcgi_streambuf) :=
  '(rv, b) ← underflow b;
  Ok (rv, if buffered_ b then gbump b else b).

Definition sgetc (b : fcgi_streambuf) : res (Z * fcgi_streambuf) :=
  if (gptr b <? egptr b)%nat then c ← deref b; Ok (c, b) else underflow b.
Definition sbumpc (b : fcgi_streambuf) : res (Z * fcgi_streambuf) :=
  if (gptr b <? egptr b)%nat then c ← deref b; Ok (c, gbump b) else uflow b.

(** [streambuf::xsgetn]: [sbumpc] until the end of the input. *)
Fixpoint base_xsgetn (n : nat) (b : fcgi_streambuf) : res (bytes * fcgi_streambuf) :=
  match n with
  | O => Ok ([], b)
  | S n => '(c, b) ← sbumpc b; if c =? EOF then Ok ([], b) else '(d, b) ← base_xsgetn n b; Ok (z2b c :: d, b)
  end.

(** The octets stored at [s]; their number is the result. *)
Definition xsgetn (n : Z) (b : fcgi_streambuf) : res (bytes * fcgi_streambuf) :=
  if INT_MAX <? n then Ok ([], b) else
  if buffered_ b then base_xsgetn (Z.to_nat n) b else on_fcgx (FCGX_GetStr fill n) b.
End input.

(** ** What is written arrives *)

Section output.
Context (t : Z) (q : ReqData) (rd : list os_read) (s0 : bytes).

(** The stream has taken [d] but for what is still in the put area. *)
Definition holds_output (m : nat) (d : bytes) (b : fcgi_streambuf) : Prop :=
  ∃ st d0, fcgx b = Some st ∧ wrote t q rd s0 d0 st ∧ d = d0 ++ take (pptr b) (mem b) ∧
    (pptr b ≤ bufsize b)%nat ∧ bufsize b = m.

Lemma holds_PutStr b st d0 s :
  fcgx b = Some st → wrote t q rd s0 d0 st →
  ∃ st', on_fcgx (FCGX_PutStr s) b = Ok (Z.of_nat (length s), set_fcgx (Some st') b) ∧ wrote t q rd s0 (d0 ++ s) st'.
Proof.
intros E Hw. unfold on_fcgx. rewrite E.
destruct (PutStr_ok (wrote t q rd s0) (wrote_open t q rd s0) (put_ok t q rd s0) (keep_room t q rd s0) s d0 st Hw) as (st' & -> & ?).
by eexists.
Qed.

(** After [overflow] the put area is empty. *)
Lemma overflow_ok m d b c :
  holds_output m d b → c = EOF ∨ 0 ≤ c < 256 →
  ∃ b', overflow c b = Ok (0, b') ∧ holds_output m (d ++ (if c =? EOF then [] else [octet c])) b' ∧ pptr b' = 0%nat.
Proof.
intros (st & d0 & E & Hw & -> & Hp & Hm) Hc. unfold overflow.
assert (∃ b1 st1, (if buffered_ b && negb (pptr b =? 0)%nat then
      '(r, b) ← on_fcgx (FCGX_PutStr (take (pptr b) (mem b))) b;
      if r =? Z.of_nat (pptr b) then Ok (true, set_pptr 0 b) else Ok (false, b)
    else Ok (true, b)) = Ok (true, b1) ∧ fcgx b1 = Some st1 ∧ wrote t q rd s0 (d0 ++ take (pptr b) (mem b)) st1 ∧
    pptr b1 = 0%nat ∧ mem b1 = mem b) as (b1 & st1 & -> & E1 & Hw1 & Hp1 & Hm1).
{ destruct (Nat.eqb_spec (pptr b) 0) as [Hz|Hz].
  - rewrite andb_false_r. exists b, st. by rewrite Hz, take_0, app_nil_r.
  - unfold buffered_. rewrite (proj2 (Nat.eqb_neq (bufsize b) 0)) by lia. cbn [negb andb].
    destruct (holds_PutStr b st d0 (take (pptr b) (mem b)) E Hw) as (st' & -> & Hw'). cbn [mbind res_bind].
    cbn [pptr set_fcgx]. rewrite length_take. unfold bufsize in Hp. rewrite Nat.min_l by lia. rewrite Z.eqb_refl.
    eexists _, st'. split_and!; [done|done|done|done|done]. }
cbn [mbind res_bind negb]. assert (bufsize b1 = m) as Hb1 by (unfold bufsize in *; congruence).
destruct (Z.eqb_spec c EOF) as [He|He].
- exists b1. split_and!; [done| |done]. exists st1, (d0 ++ take (pptr b) (mem b)).
  rewrite Hp1, take_0, !app_nil_r. split_and!; [done|done|done|lia|done].
- destruct Hc as [?|Hc]; [done|]. unfold on_fcgx. rewrite E1.
  destruct (PutChar_ok (wrote t q rd s0) (wrote_open t q rd s0) (put_ok t q rd s0) (keep_room t q rd s0) c _ st1 Hw1) as (st2 & -> & Hw2).
  cbn [mbind res_bind]. assert (b2z (octet c) = c) as ->.
  { rewrite octet_mod, Z.mod_small by lia. apply b2z_z2b_small. lia. }
  rewrite Z.eqb_refl. eexists. split_and!; [done| |done].
  exists st2, ((d0 ++ take (pptr b) (mem b)) ++ [octet c]). cbn. rewrite Hp1, take_0, app_nil_r.
  split_and!; [done|done|done|lia|done].
Qed.
Lemma sputc_ok m d b c :
  holds_output m d b → ∃ r b', sputc c b = Ok (r, b') ∧ r ≠ EOF ∧ holds_output m (d ++ [c]) b'.
Proof.
intros H. unfold sputc. destruct (Nat.ltb_spec (pptr b) (bufsize b)) as [Hl|Hl].
- destruct H as (st & d0 & E & Hw & -> & Hp & Hm). eexists _, _.
  split_and!; [done|pose proof (b2z_range c); unfold EOF; lia|].
  assert (length (overwrite (pptr b) [c] (mem b)) = bufsize b) as Hlen by (apply length_overwrite; cbn; unfold bufsize in Hl; lia).
  exists st, d0. unfold bufsize in *. cbn. rewrite Hlen. split_and!; [done|done| |lia|done].
  rewrite <- app_assoc. f_equal. replace (S (pptr b)) with (pptr b + length [c])%nat by (cbn; lia).
  symmetry. apply (slice_overwrite_adj (pptr b) [c] (mem b) 0 (pptr b)); cbn; lia.
- pose proof (b2z_range c). destruct (overflow_ok m d b (b2z c) H) as (b' & E & Hb & _); [lia|].
  rewrite (proj2 (Z.eqb_neq (b2z c) EOF)) in Hb by (unfold EOF; lia).
  eexists _, b'. split_and!; [done|done|]. by rewrite octet_mod, Z.mod_small, z2b_b2z in Hb by lia.
Qed.

Lemma base_xsputn_ok m d b s :
  holds_output m d b → ∃ b', base_xsputn s b = Ok (Z.of_nat (length s), b') ∧ holds_output m (d ++ s) b'.
Proof.
revert d b. induction s as [|c s IH]; intros d b H; cbn [base_xsputn].
{ exists b. by rewrite app_nil_r. }
destruct (sputc_ok m d b c H) as (r & b1 & -> & Hr & H1). cbn [mbind res_bind].
rewrite (proj2 (Z.eqb_neq r EOF)) by done. destruct (IH _ _ H1) as (b2 & -> & H2). cbn [mbind res_bind].
exists b2. split; [do 2 f_equal; cbn [length]; lia|]. by rewrite <- app_assoc in H2.
Qed.

Lemma xsputn_ok m d b s :
  holds_output m d b → Z.of_nat (length s) ≤ INT_MAX →
  ∃ b', xsputn s b = Ok (Z.of_nat (length s), b') ∧ holds_output m (d ++ s) b'.
Proof.
intros H Hs. unfold xsputn. rewrite (proj2 (Z.ltb_ge _ _)) by done.
unfold buffered_. destruct (Nat.eqb_spec (bufsize b) 0) as [Hz|Hz]; cbn [negb]; [|by apply base_xsputn_ok].
destruct H as (st & d0 & E & Hw & -> & Hp & Hm).
destruct (holds_PutStr b st d0 s E Hw) as (st' & -> & Hw'). eexists. split; [done|].
exists st', (d0 ++ s). cbn. replace (pptr b) with 0%nat by lia.
rewrite !take_0, !app_nil_r. split_and!; [done|done|done|lia|done].
Qed.

(** [sync] leaves nothing in either buffer. *)
Lemma sync_ok m d b :
  holds_output m d b → ∃ b' st, sync b = Ok (0, b') ∧ holds_output m d b' ∧ pptr b' = 0%nat ∧
    fcgx b' = Some st ∧ wrote t q rd s0 d st ∧ pending st = [].
Proof.
intros H. unfold sync. destruct (overflow_ok m d b EOF H) as (b1 & -> & H1 & Hp1); [by left|].
rewrite Z.eqb_refl, app_nil_r in H1. cbn [mbind res_bind negb Z.eqb].
destruct H1 as (st & d0 & E & Hw & -> & Hp & Hm). rewrite Hp1, take_0, app_nil_r in *.
unfold on_fcgx. rewrite E. unfold FCGX_FFlush. destruct (wrote_open _ _ _ _ _ _ Hw) as (-> & -> & _). cbn [orb].
destruct (keep_ok _ _ _ _ _ _ Hw) as (st' & Ek & Hw' & Hpe & _). unfold EmptyBuffProc_keep in Ek.
unfold EmptyBuffProc. destruct (fill_header st) as [st1|]; [|done]. cbn [mbind res_bind] in *. injection Ek as ->.
destruct (wrote_open _ _ _ _ _ _ Hw') as (-> & _). cbn [Z.eqb negb]. eexists _, st'. split_and!; [done| |done|done|done|done].
exists st', d0. cbn. rewrite Hp1, take_0, app_nil_r. split_and!; [done|done|done|lia|done].
Qed.
End output.

(** The calls of an output stream on its buffer object. *)
Inductive scall := Sputc (c : byte) | Sputn (s : bytes) | Pubsync.

Definition scall_run (c : scall) (b : fcgi_streambuf) : res (Z * fcgi_streambuf) :=
  match c with Sputc c => sputc c b | Sputn s => xsputn s b | Pubsync => sync b end.
Definition smeant (c : scall) : bytes := match c with Sputc c => [c] | Sputn s => s | Pubsync => [] end.
(** What a stream takes for success. *)
Definition succeeded (c : scall) (r : Z) : Prop :=
  match c with Sputc _ => r ≠ EOF | Sputn s => r = Z.of_nat (length s) | Pubsync => r = 0 end.
Definition scall_fits (c : scall) : Prop := match c with Sputn s => Z.of_nat (length s) ≤ INT_MAX | _ => True end.

Fixpoint scalls (cs : list scall) (b : fcgi_streambuf) : res (list Z * fcgi_streambuf) :=
  match cs with
  | [] => Ok ([], b)
  | c :: cs => '(z, b) ← scall_run c b; '(zs, b) ← scalls cs b; Ok (z :: zs, b)
  end.

Lemma scalls_ok t q rd s0 m d b cs :
  holds_output t q rd s0 m d b → Forall scall_fits cs →
  ∃ zs b', scalls cs b = Ok (zs, b') ∧ Forall2 succeeded cs zs ∧ holds_output t q rd s0 m (d ++ concat (smeant <$> cs)) b'.
Proof.
intros H Hcs. revert d b H. induction Hcs as [|c cs Hc _ IH]; intros d b H; cbn [scalls fmap list_fmap concat].
{ exists [], b. rewrite app_nil_r. by split_and!. }
assert (∃ z b1, scall_run c b = Ok (z, b1) ∧ succeeded c z ∧ holds_output t q rd s0 m (d ++ smeant c) b1) as (z & b1 & -> & Hz & H1).
{ destruct c as [c|s|]; cbn [scall_run smeant succeeded].
  - by apply sputc_ok.
  - destruct (xsputn_ok _ _ _ _ _ _ _ _ H Hc) as (b' & -> & ?). by eexists _, _.
  - destruct (sync_ok _ _ _ _ _ _ _ H) as (b' & st & -> & ? & _). rewrite app_nil_r. by eexists _, _. }
cbn [mbind res_bind]. destruct (IH _ _ H1) as (zs & b2 & -> & Hzs & H2). eexists _, b2.
rewrite app_assoc. split_and!; [done|by constructor|done].
Qed.

(** An output stream over a buffer of any size, or none, loses nothing and changes no order:
    every call succeeds, and when the object is destroyed the FastCGI stream has taken what
    was put into it. *)
Theorem streambuf_output t q rd s0 d st m cs :
  wrote t q rd s0 d st → Forall scall_fits cs →
  ∃ zs b st', scalls cs (init (Some st) m) = Ok (zs, b) ∧ Forall2 succeeded cs zs ∧
    destroy b = Ok (Some st') ∧ wrote t q rd s0 (d ++ concat (smeant <$> cs)) st'.
Proof.
intros Hw Hcs. destruct (scalls_ok t q rd s0 (length m) d (init (Some st) m) cs) as (zs & b & E & Hz & H); [|done|].
{ exists st, d. cbn. rewrite take_0, app_nil_r. split_and!; [done|done|done|lia|done]. }
destruct (overflow_ok _ _ _ _ _ _ _ EOF H) as (b' & Eo & (st' & d0 & Ef & Hw' & Hd & _) & Hp); [by left|].
rewrite Z.eqb_refl, app_nil_r in Hd. rewrite Hp, take_0, app_nil_r in Hd. subst d0.
exists zs, b, st'. split_and!; [done|done| |done]. unfold destroy. rewrite Eo. cbn [mbind res_bind]. by rewrite Ef.
Qed.

(** ** What is read is what came *)

Section source.
Context {fill : St → res St} {holds_ : bytes → St → Prop} {ends : St → Prop}.
Context {Hsrc : Source fill holds_ ends}.

(** The get area and what the stream will still deliver. *)
Definition holds_input (m : nat) (d : bytes) (b : fcgi_streambuf) : Prop :=
  ∃ st d0, fcgx b = Some st ∧ (holds_ d0 st ∨ (d0 = [] ∧ ends st)) ∧
    d = slice (gptr b) (egptr b - gptr b) (mem b) ++ d0 ∧ (gptr b ≤ egptr b ≤ bufsize b)%nat ∧ bufsize b = m.

Lemma area_cons b : (gptr b < egptr b ≤ bufsize b)%nat →
  ∃ c, deref b = Ok (b2z c) ∧
    slice (gptr b) (egptr b - gptr b) (mem b) = c :: slice (S (gptr b)) (egptr b - S (gptr b)) (mem b).
Proof.
unfold bufsize. intros H. destruct (lookup_lt_is_Some_2 (mem b) (gptr b)) as [c Hc]; [lia|].
exists c. unfold deref, mem_read. rewrite (proj2 (Nat.leb_le _ _)) by lia. cbn [mbind res_bind].
unfold slice. rewrite (drop_S _ _ _ Hc). split; [done|].
by replace (egptr b - gptr b)%nat with (S (egptr b - S (gptr b))) by lia.
Qed.

Lemma holds_GetStr n d st : 0 ≤ n → holds_ d st ∨ (d = [] ∧ ends st) →
  ∃ st', FCGX_GetStr fill n st = Ok (take (Z.to_nat n) d, st') ∧
    (holds_ (drop (Z.to_nat n) d) st' ∨ (drop (Z.to_nat n) d = [] ∧ ends st')).
Proof.
intros Hn [H|[-> H]].
- destruct (GetStr_ok n d st H Hn) as (st' & -> & Hst). exists st'. split; [done|].
  destruct (Z.leb_spec n (Z.of_nat (length d))); [by left|right]. split; [apply drop_ge; lia|done].
- exists st. rewrite take_nil, drop_nil. split; [|by right]. unfold FCGX_GetStr. by rewrite (src_ends _ H).
Qed.

Lemma holds_GetChar d st : holds_ d st ∨ (d = [] ∧ ends st) →
  ∃ st', FCGX_GetChar fill st = Ok (default EOF (b2z <$> head d), st') ∧
    (holds_ (tail d) st' ∨ (tail d = [] ∧ ends st')).
Proof.
intros [H|[-> H]].
- destruct d as [|c d].
  + destruct (GetChar_end st H) as (st' & -> & ?). exists st'. split; [done|by right].
  + destruct (GetChar_next c d st H) as (st' & -> & ? & _). exists st'. split; [done|by left].
- exists st. split; [|by right]. unfold FCGX_GetChar. by rewrite (src_ends _ H).
Qed.

(** With a buffer, [underflow] leaves the next octet in the get area. *)
Lemma underflow_ok m c d b :
  (0 < m)%nat → gptr b = egptr b → holds_input m (c :: d) b →
  ∃ b', underflow fill b = Ok (b2z c, b') ∧ holds_input m (c :: d) b' ∧ (gptr b' < egptr b')%nat.
Proof.
intros Hm Hg (st & d0 & E & H & Hd & Hge & Hb). unfold underflow, buffered_.
rewrite (proj2 (Nat.eqb_neq (bufsize b) 0)) by lia. cbn [negb]. unfold in_avail. rewrite Hg, Z.sub_diag. cbn [Z.eqb].
rewrite Hg, Nat.sub_diag, slice_0 in Hd. cbn [app] in Hd. subst d0.
unfold on_fcgx. rewrite E. destruct (holds_GetStr (Z.of_nat (bufsize b)) _ _ ltac:(lia) H) as (st' & -> & H'). cbn [mbind res_bind].
rewrite Nat2Z.id in *. set (x := take (bufsize b) (c :: d)) in *.
assert (0 < length x ≤ bufsize b)%nat as Hx by (unfold x; rewrite length_take; cbn; lia).
rewrite (proj2 (Nat.eqb_neq (length x) 0)) by lia. cbn [mbind res_bind negb].
set (b' := setg 0 (length x) _). assert (bufsize b' = bufsize b) as Hb' by (apply length_overwrite; cbn; unfold bufsize in Hx; lia).
assert (holds_input m (c :: d) b') as Hi.
{ exists st', (drop (bufsize b) (c :: d)). split_and!; [done|done| |unfold b'; cbn; lia|rewrite Hb'; unfold b'; cbn; lia|congruence].
  unfold b'. cbn [gptr egptr mem setg set_mem set_fcgx]. rewrite Nat.sub_0_r, slice_overwrite by (cbn; unfold bufsize in Hx; lia).
  unfold x. by rewrite take_drop. }
destruct (area_cons b') as (c' & -> & Hc'); [rewrite Hb'; unfold b'; cbn; lia|]. cbn [mbind res_bind].
assert (c' = c) as ->.
{ destruct Hi as (? & ? & _ & _ & Hi & _). rewrite Hc' in Hi. by injection Hi. }
exists b'. split_and!; [done|done|unfold b'; cbn; lia].
Qed.

Lemma sgetc_ok m c d b :
  (0 < m)%nat → holds_input m (c :: d) b →
  ∃ b', sgetc fill b = Ok (b2z c, b') ∧ holds_input m (c :: d) b' ∧ (gptr b' < egptr b')%nat.
Proof.
intros Hm H. unfold sgetc. destruct (Nat.ltb_spec (gptr b) (egptr b)) as [Hl|Hl].
- destruct H as (st & d0 & E & H & Hd & Hge & Hb). destruct (area_cons b) as (c' & -> & Hc'); [lia|].
  rewrite Hc' in Hd. injection Hd as -> ->. exists b. cbn [mbind res_bind]. split_and!; [done| |done].
  exists st, d0. rewrite Hc'. split_and!; [done|done|done|lia..|done].
- apply underflow_ok; [done| |done]. destruct H as (? & ? & _ & _ & _ & ? & _). lia.
Qed.

Lemma gbump_ok m c d b : holds_input m (c :: d) b → (gptr b < egptr b)%nat → holds_input m d (gbump b).
Proof.
intros (st & d0 & E & H & Hd & Hge & Hb) Hl. destruct (area_cons b) as (c' & _ & Hc'); [lia|].
rewrite Hc' in Hd. injection Hd as -> ->. exists st, d0. unfold bufsize in *. cbn. split_and!; [done|done|done|lia..|done].
Qed.

Lemma sbumpc_ok m c d b :
  holds_input m (c :: d) b → ∃ b', sbumpc fill b = Ok (b2z c, b') ∧ holds_input m d b'.
Proof.
intros H. destruct m as [|m].
- destruct H as (st & d0 & E & H & Hd & Hge & Hb). unfold sbumpc. rewrite (proj2 (Nat.ltb_ge _ _)) by lia.
  replace (egptr b - gptr b)%nat with 0%nat in Hd by lia. rewrite slice_0 in Hd. cbn [app] in Hd. subst d0.
  unfold uflow, underflow, buffered_. rewrite Hb. cbn [Nat.eqb negb]. unfold on_fcgx. rewrite E.
  destruct (holds_GetChar _ _ H) as (st' & -> & H'). cbn [mbind res_bind]. unfold buffered_, bufsize in *. cbn [mem set_fcgx]. rewrite Hb.
  cbn [Nat.eqb negb]. eexists. split; [done|]. exists st', d. cbn. unfold bufsize. cbn. replace (egptr b - gptr b)%nat with 0%nat by lia.
  rewrite ?slice_0, ?take_0. split_and!; [done|done|done|lia..|done].
- destruct (sgetc_ok (S m) c d b ltac:(lia) H) as (b' & E & H' & Hl). unfold sgetc in E. unfold sbumpc, uflow.
  destruct (Nat.ltb_spec (gptr b) (egptr b)) as [Hb|Hb].
  + destruct (deref b) as [z|] eqn:Ez; [|done]. cbn [mbind res_bind] in *. injection E as -> ->.
    eexists. split; [done|]. by apply (gbump_ok _ c).
  + rewrite E. cbn [mbind res_bind]. assert (buffered_ b' = true) as ->.
    { destruct H' as (_ & _ & _ & _ & _ & _ & Hs). unfold buffered_. by rewrite Hs. }
    eexists. split; [done|]. by apply (gbump_ok _ c).
Qed.

(** At the end [sbumpc] says so. *)
Lemma sbumpc_end m b : holds_input m [] b → ∃ b', sbumpc fill b = Ok (EOF, b').
Proof.
intros (st & d0 & E & H & Hd & Hge & Hb). symmetry in Hd. apply app_eq_nil in Hd as [Ha ->].
assert (gptr b = egptr b) as Hg.
{ destruct (decide (gptr b = egptr b)); [done|]. destruct (area_cons b) as (c & _ & Hc); [lia|]. by rewrite Ha in Hc. }
unfold sbumpc. rewrite (proj2 (Nat.ltb_ge _ _)) by lia. unfold uflow, underflow.
destruct (buffered_ b).
- unfold in_avail. rewrite Hg, Z.sub_diag. cbn [Z.eqb]. unfold on_fcgx. rewrite E.
  destruct (holds_GetStr (Z.of_nat (bufsize b)) _ _ ltac:(lia) H) as (st' & -> & _). rewrite take_nil. cbn. by eexists.
- unfold on_fcgx. rewrite E. destruct (holds_GetChar _ _ H) as (st' & -> & _). by eexists.
Qed.

Lemma base_xsgetn_ok m n d b :
  holds_input m d b → ∃ b', base_xsgetn fill n b = Ok (take n d, b') ∧ ((n ≤ length d)%nat → holds_input m (drop n d) b').
Proof.
revert d b. induction n as [|n IH]; intros d b H; cbn [base_xsgetn].
{ exists b. by rewrite take_0, drop_0. }
destruct d as [|c d].
- destruct (sbumpc_end m b H) as (b' & ->). exists b'. split; [done|]. cbn. lia.
- destruct (sbumpc_ok m c d b H) as (b1 & -> & H1). cbn [mbind res_bind].
  rewrite (proj2 (Z.eqb_neq _ _)) by (pose proof (b2z_range c); unfold EOF; lia).
  destruct (IH d b1 H1) as (b2 & -> & H2). cbn [mbind res_bind]. exists b2. rewrite z2b_b2z. split; [done|].
  cbn. intros ?. apply H2. lia.
Qed.

Lemma xsgetn_ok m n d b :
  holds_input m d b → 0 ≤ n ≤ INT_MAX →
  ∃ b', xsgetn fill n b = Ok (take (Z.to_nat n) d, b') ∧ ((Z.to_nat n ≤ length d)%nat → holds_input m (drop (Z.to_nat n) d) b').
Proof.
intros H Hn. unfold xsgetn. rewrite (proj2 (Z.ltb_ge _ _)) by lia.
unfold buffered_. destruct (Nat.eqb_spec (bufsize b) 0) as [Hz|Hz]; cbn [negb]; [|by apply base_xsgetn_ok].
destruct H as (st & d0 & E & H & Hd & Hge & Hb). replace (egptr b - gptr b)%nat with 0%nat in Hd by lia.
rewrite slice_0 in Hd. cbn [app] in Hd. subst d0. unfold on_fcgx. rewrite E.
destruct (holds_GetStr n _ _ ltac:(lia) H) as (st' & -> & H'). cbn [mbind res_bind]. eexists. split; [done|]. intros _.
exists st', (drop (Z.to_nat n) d). unfold bufsize in *. cbn. replace (egptr b - gptr b)%nat with 0%nat by lia.
rewrite ?slice_0, ?take_0. split_and!; [done|done|done|lia..|done].
Qed.

(** The calls of an input stream; looking at the next octet needs a buffer. *)
Inductive icall := Sgetc | Sbumpc | Sgetn (n : Z).
Definition icall_run (c : icall) (b : fcgi_streambuf) : res (bytes * fcgi_streambuf) :=
  let octets z := if z =? EOF then [] else [z2b z] in
  match c with
  | Sgetc => '(z, b) ← sgetc fill b; Ok (octets z, b)
  | Sbumpc => '(z, b) ← sbumpc fill b; Ok (octets z, b)
  | Sgetn n => xsgetn fill n b
  end.
Fixpoint icalls (cs : list icall) (b : fcgi_streambuf) : res (list bytes * fcgi_streambuf) :=
  match cs with
  | [] => Ok ([], b)
  | c :: cs => '(x, b) ← icall_run c b; '(xs, b) ← icalls cs b; Ok (x :: xs, b)
  end.

(** A call looks at [looked c] octets of the input and takes [taken c] of them. *)
Definition looked (c : icall) : nat := match c with Sgetc | Sbumpc => 1 | Sgetn n => Z.to_nat n end.
Definition taken (c : icall) : nat := match c with Sgetc => 0 | c => looked c end.
Fixpoint expected (cs : list icall) (d : bytes) : list bytes :=
  match cs with [] => [] | c :: cs => take (looked c) d :: expected cs (drop (taken c) d) end.
(** Calls that stay within the input [d]. *)
Fixpoint within (m : nat) (cs : list icall) (d : bytes) : Prop :=
  match cs with
  | [] => True
  | c :: cs => (looked c ≤ length d)%nat ∧ match c with Sgetc => (0 < m)%nat | Sbumpc => True | Sgetn n => 0 ≤ n ≤ INT_MAX end ∧
      within m cs (drop (taken c) d)
  end.

Lemma icalls_ok m cs d b :
  holds_input m d b → within m cs d →
  ∃ b', icalls cs b = Ok (expected cs d, b') ∧ holds_input m (drop (sum_list (taken <$> cs)) d) b'.
Proof.
revert d b. induction cs as [|c cs IH]; intros d b H Hcs; cbn [icalls expected fmap list_fmap sum_list].
{ exists b. by rewrite drop_0. }
destruct Hcs as (Hl & Hc & Hcs).
assert (∃ b1, icall_run c b = Ok (take (looked c) d, b1) ∧ holds_input m (drop (taken c) d) b1) as (b1 & -> & H1).
{ destruct c as [| |n]; cbn [icall_run looked taken] in *.
  1,2: destruct d as [|x d]; [cbn in Hl; lia|]; pose proof (b2z_range x); cbn [take drop].
  - destruct (sgetc_ok m x d b Hc H) as (b1 & -> & H1 & _). cbn [mbind res_bind].
    rewrite (proj2 (Z.eqb_neq _ _)) by (unfold EOF; lia). rewrite z2b_b2z. by exists b1.
  - destruct (sbumpc_ok m x d b H) as (b1 & -> & H1). cbn [mbind res_bind].
    rewrite (proj2 (Z.eqb_neq _ _)) by (unfold EOF; lia). rewrite z2b_b2z. by exists b1.
  - destruct (xsgetn_ok m n d b H Hc) as (b1 & -> & H1). exists b1. split; [done|]. by apply H1. }
cbn [mbind res_bind]. destruct (IH _ _ H1 Hcs) as (b2 & -> & H2). exists b2. by rewrite drop_drop in H2.
Qed.

(** An input stream over a buffer of any size, or none, delivers the octets of the FastCGI
    stream in order: reads within the input return what comes next, and a last read for more
    than is left returns exactly what is left. *)
Theorem streambuf_input st d m cs n :
  holds_ d st → within (length m) cs d → Z.of_nat (length d) ≤ n ≤ INT_MAX →
  ∃ b b', icalls cs (init (Some st) m) = Ok (expected cs d, b) ∧
    xsgetn fill n b = Ok (drop (sum_list (taken <$> cs)) d, b').
Proof.
intros H Hcs Hn. destruct (icalls_ok (length m) cs d (init (Some st) m)) as (b & E & Hb); [|done|].
{ exists st, d. cbn. split_and!; [done|by left|done|lia..|done]. }
destruct (xsgetn_ok _ n _ b Hb) as (b' & E' & _); [lia|]. exists b, b'. split; [done|].
rewrite E'. by rewrite take_ge by (rewrite length_drop; lia).
Qed.
End source.

(** ** Defects *)

(** [uflow] moves the read position on also at the end of the input.  The next read finds a
    difference of -1 between the positions, takes it for available input and returns what the
    buffer happens to hold. *)
Example uflow_past_end (q : ReqData) (n : Net) (fill : St → res St) :
  let closed := set_isClosed true (NewStream true x00 8192 true FCGI_STDIN) in
  let b := init (Some (mkSt closed q n)) [x61; x62; x63; x64] in
  ∃ b1 b2, sbumpc fill b = Ok (EOF, b1) ∧ gptr b1 = 1%nat ∧ egptr b1 = 0%nat ∧ sbumpc fill b1 = Ok (0x62, b2).
Proof. eexists _, _. split_and!; reflexivity. Qed.

(** Without a buffer looking at the next octet removes it. *)
Lemma sgetc_removes {fill holds_ ends} `{Source fill holds_ ends} st c d :
  holds_ (c :: d) st →
  ∃ st', sgetc fill (init (Some st) []) = Ok (b2z c, init (Some st') []) ∧ holds_ d st'.
Proof.
intros Hh. destruct (GetChar_next c d st Hh) as (st' & E & ? & _). exists st'. split; [|done].
unfold sgetc. cbn. rewrite E. done.
Qed.
