(* ===== verification/FastServer.v ===== *)
(** [fastcgi/fastcgi_server.cpp], [fastcgi_server.h], [backend.cpp] and [main.cpp] of fastcgi:
    the server that forks workers, each of which accepts requests through the emulation of
    standard I/O, hands 24 parameters to a callback and prints what it returns.

    What the system answers to the socket calls and to [fork] is an argument. *)

From Stdlib Require Import ZArith Lia Bool.
From Stdlib.Strings Require Import Byte String.
From stdpp Require Import base numbers list gmap option.
From S2P Require Import Prelude CodecSpec CxxString Fcgx FcgxWriter FcgxRead FcgxReader FcgxAccept FcgxLife FcgxParams FcgxPrintf FcgiStdio.
Local Open Scope Z_scope.

(** ** State *)

Abbreviation ParamMap := (gmap bytes bytes).
(** The argument [pArg] is part of the function. *)
Abbreviation FastCgiCallback := (ParamMap → bytes → ParamMap * bytes).

Record CFastCgiServer := mkServer {
  m_usProcessCount : Z;
  m_usPort : Z;
  m_iListenFd : Z;
  m_pCgiCallBack : option FastCgiCallback;
  m_strIp : bytes;
  m_strOutPacket : bytes;
  m_umParam : ParamMap;
}.

Definition CFastCgiServer_ctor (strIp : bytes) (usPort usPCount listenFd : Z) (cb : option FastCgiCallback) : CFastCgiServer :=
  mkServer (u16 usPCount) (u16 usPort) listenFd cb strIp [] ∅.


(** ** Parameters *)





(** ** The listening socket *)

(** [0.0.0.0], or what [inet_addr] makes of the text. *)
Inductive address := INADDR_ANY | Inet (z : Z).

Definition any_names : list bytes := [] :: (list_byte_of_string <$> ["0"; "0.0.0.0"; "*"]%string).

Definition SetAddr (inet_addr : bytes → Z) (pszIP : option bytes) (shPort : Z) : address * Z :=
  ((match pszIP with
    | None => INADDR_ANY
    | Some ip => if decide (c_string ip ∈ any_names) then INADDR_ANY else Inet (inet_addr (c_string ip))
    end), u16 shPort).

(** What [socket], [bind] and [listen] return. *)
Record sockets := mkSockets { so_socket : Z; so_bind : address * Z → Z; so_listen : Z }.

Section init.
Context (inet_addr : bytes → Z) (sys : sockets).

(** The result, and the descriptors that were closed. *)
Definition CreateTcpSocket (shPort : Z) (pszIP : option bytes) : Z * list Z :=
  let fd := so_socket sys in
  if (0 <=? fd) && negb (shPort =? 0) then
    if negb (so_bind sys (SetAddr inet_addr pszIP shPort) =? 0) then (-1, [fd]) else (fd, [])
  else (fd, []).

Definition Init (s : CFastCgiServer) : bool * CFastCgiServer * list Z :=
  if decide (m_strIp s = []) then (false, s, []) else
  if m_usPort s =? 0 then (false, s, []) else
  if m_usProcessCount s =? 0 then (false, s, []) else
  match m_pCgiCallBack s with
  | None => (false, s, [])
  | Some _ =>
      let '(fd, closed) := CreateTcpSocket (m_usPort s) (Some (m_strIp s)) in
      let s := mkServer (m_usProcessCount s) (m_usPort s) fd (m_pCgiCallBack s) (m_strIp s) (m_strOutPacket s) (m_umParam s) in
      if fd <? 0 then (false, s, closed) else
      if so_listen sys <? 0 then (false, s, closed) else (true, s, closed)
  end.
End init.

(** ** A worker *)

Section worker.
Context {FILE : Type} (C : stdio FILE) (sprintf : bytes → varg → bytes) (uninit : bytes).
Context (aligned : bool) (junk : byte) (init : Z * Z) (addrs : option bytes) (listener : bool) (c_in c_out c_err : FILE).


End worker.

(** ** The processes *)

(** What a process does in [Run]: forks, serves requests until [FCGI_Accept] fails, waits for a
    child. *)
Inductive action := Forked | ForkFailed | Served | Waited.

(** [Run] from one turn of the loop on: the history of this process and of all that come from
    it, each with what its ancestors did before.  [fork] tells for the turns so far ([true] in the child) whether the call succeeds. *)
Fixpoint Run (turns : nat) (daemonize : bool) (fork : list bool → bool) (path : list bool) (past : list action) : list (list action) :=
  match turns with
  | O => [past ++ (if daemonize then [] else [Waited])]
  | S turns =>
      if fork path then
        Run turns daemonize fork (path ++ [false]) (past ++ [Forked]) ++
        Run turns daemonize fork (path ++ [true]) (past ++ [Served])
      else Run turns daemonize fork (path ++ [false]) (past ++ [ForkFailed])
  end.

(** ** The backend *)

(** [PrintRequest] of fastcgi; [content.length()] is appended as a character. *)
Definition FastPrintRequest (params : ParamMap) (strResp : bytes) : ParamMap * bytes :=
  let content := list_byte_of_string "OK!!" in
  (params, list_byte_of_string "Content-Type: text/html; charset=UTF-8" ++ [x0d; x0a] ++
           list_byte_of_string "Content-Length: " ++ [z2b (Z.of_nat (length content))] ++
           [x0d; x0a; x0d; x0a] ++ content).

(** ** Entry *)

(** [main]: [None] for the usage text; otherwise the server, whose descriptor is not yet set,
    and whether it is a daemon. *)
Definition fast_main (garbage : Z) (argv : list bytes) : option (CFastCgiServer * bool) :=
  if (length argv <? 5)%nat then None else
  let arg i := default [] (argv !! i) in
  Some (CFastCgiServer_ctor (c_string (arg 1%nat)) (s32 (atol (c_string (arg 2%nat)))) (s32 (atol (c_string (arg 3%nat)))) garbage (Some FastPrintRequest),
        bool_decide (c_string (arg 4%nat) = [x2d; x64])).

(** ** Parameters *)








(** ** A worker *)





Section answers.
Context {FILE : Type} (C : stdio FILE) (sprintf : bytes → varg → bytes) (uninit : bytes).
Context (aligned : bool) (junk : byte) (init : Z * Z) (addrs : option bytes) (c_in c_out c_err : FILE).
Context (callback : FastCgiCallback).






End answers.





(** ** The processes *)

(** A child whose [FCGI_Accept] fails goes on with the loop of its parent: if every worker's
    does, [n] processes asked for become [2 ^ n - 1] children. *)
Lemma Run_doubles n daemonize path past :
  length (Run n daemonize (λ _, true) path past) = (2 ^ n)%nat.
Proof.
revert path past. induction n as [|n IH]; intros path past; cbn [Run]; [done|].
rewrite length_app, !IH. cbn. lia.
Qed.
