(* ===== verification/SpawnFcgi.v ===== *)
(** [spawn-fcgi/spawn-fcgi.c]: binds a socket, gives up privileges and starts FastCGI
    applications.

    A system call takes the next answer of a script and is recorded in a trace with the answer,
    so that what the program asks of the system, and in which order, can be stated.  [getopt],
    the user database and the conversion of addresses are arguments. *)

From Stdlib Require Import ZArith Lia Bool.
From Stdlib.Strings Require Import Byte String.
From stdpp Require Import base numbers list option.
From S2P Require Import Prelude CxxString Fcgx.
Local Open Scope Z_scope.

(** ** The system *)

Inductive family := AF_UNIX | AF_INET | AF_INET6.

Inductive call :=
  | Socket (f : family) | Connect (fd : Z) | Setsockopt (fd : Z) | Bind (fd : Z) (f : family) (port : Z) | Listen (fd backlog : Z)
  | Unlink (path : bytes) | Chmod (path : bytes) (mode : Z) | Chown (path : bytes) (uid gid : Z)
  | Close (fd : Z) | Dup2 (fd fd2 : Z) | OpenNull | OpenExcl (path : bytes) | Stat (path : bytes) | OpenTrunc (path : bytes)
  | Write (fd : Z) (d : bytes)
  | Setgid (gid : Z) | Setgroups | Initgroups (user : bytes) (gid : Z) | Setuid (uid : Z)
  | Chroot (dir : bytes) | Chdir (dir : bytes)
  | Fork | Setsid | Putenv (s : bytes) | Execv (argv : list bytes) | Execsh (cmd : bytes) | Select | Waitpid (pid : Z) | Exit (code : Z).

(** The result, [errno], and what [stat] or [waitpid] stores. *)
Record answer := mkAnswer { ret : Z; err : Z; info : Z }.

Record world := mkWorld { script : list answer; trace : list (call * answer) }.

(** A computation gives a value, ends the calling function with a status, as [return -1] does,
    or stops where the answers of the script end: it is observed up to there. *)
Inductive outcome (A : Type) := Val (a : A) | Returned (z : Z) | Stopped.
Arguments Val {A} a.
Arguments Returned {A} z.
Arguments Stopped {A}.

Definition M (A : Type) : Type := world → outcome A * world.
#[export] Instance M_ret : MRet M := λ A a w, (Val a, w).
#[export] Instance M_bind : MBind M := λ A B k m w,
  let '(r, w) := m w in
  match r with Val a => k a w | Returned z => (Returned z, w) | Stopped => (Stopped, w) end.
Definition return_ {A} (z : Z) : M A := λ w, (Returned z, w).

Definition sys (c : call) : M answer := λ w,
  match script w with
  | a :: l => (Val a, mkWorld l (trace w ++ [(c, a)]))
  | [] => (Stopped, w)
  end.

Definition when (b : bool) (m : M ()) : M () := if b then m else mret ().
(** [if (-1 == call) return -1;] *)
Definition must (c : call) : M () := a ← sys c; if ret a =? -1 then return_ (-1) else mret ().
(** A function whose [return] is not that of the caller. *)
Definition catch (m : M Z) : M Z := λ w,
  let '(r, w) := m w in (match r with Returned z => Val z | r => r end, w).

Definition EINTR : Z := 4.
Definition ENOENT : Z := 2.
Definition EEXIST : Z := 17.
Definition sun_path_size : Z := 108.

(** ** Numbers *)

Definition digit_of (base : Z) (b : byte) : bool := (48 <=? b2z b) && (b2z b <? 48 + base).
Fixpoint value_in (base acc : Z) (l : bytes) : Z :=
  match l with [] => acc | b :: l => value_in base (base * acc + (b2z b - 48)) l end.

(** [strtol] for a base up to ten: the value, and what [endptr] points at. *)
Definition strtol (base : Z) (s : bytes) : Z * bytes :=
  let '(_, t) := span isspace s in
  let '(neg, t) := read_sign t in
  let '(ds, t) := span (digit_of base) t in
  match ds with
  | [] => (0, s)
  | _ => let v := value_in base 0 ds in
         (if neg : bool then Z.max (- 2 ^ 63) (- v) else Z.min (2 ^ 63 - 1) v, t)
  end.

(** ** Writing *)

(** 0, or -1 for an error; [write] never returns more than it was given.  Each turn takes an
    answer, so that the script bounds the turns. *)
Fixpoint write_all_loop (fuel : nat) (fd : Z) (buf : bytes) : M Z :=
  match buf with
  | [] => mret 0
  | _ =>
      match fuel with
      | O => λ w, (Stopped, w)
      | S fuel =>
          a ← sys (Write fd buf);
          if ret a =? -1 then (if err a =? EINTR then write_all_loop fuel fd buf else mret (-1))
          else write_all_loop fuel fd (drop (Z.to_nat (ret a)) buf)
      end
  end.

Definition write_all (fd : Z) (buf : bytes) : M Z := λ w, write_all_loop (S (length (script w))) fd buf w.

(** ** The socket *)

Section spawn.
(** Whether a text is an IPv4 or an IPv6 address. *)
Context (ip_family : bytes → option family).
(** [getpwnam], [getpwuid] and [getgrnam]: name, user and group of an entry. *)
Record passwd := mkPasswd { pw_name : bytes; pw_uid : Z; pw_gid : Z }.
Context (getpwnam : bytes → option passwd) (getpwuid : Z → option passwd) (getgrnam : bytes → option Z).

(** Removing what an earlier server left at the path, unless it still answers. *)
Definition clear_path (path : bytes) : M () :=
  (if sun_path_size - 1 <? Z.of_nat (length (c_string path)) then return_ (-1) else mret ()) ;;
  s ← sys (Socket AF_UNIX);
  if ret s =? -1 then return_ (-1) else
  c ← sys (Connect (ret s));
  if ret c =? 0 then sys (Close (ret s)) ;; return_ (-1) else
  u ← sys (Unlink path);
  if (ret u =? -1) && negb (err u =? ENOENT) then sys (Close (ret s)) ;; return_ (-1) else
  sys (Close (ret s)) ;; mret ().

(** Failing after the socket was made; [made] is the path that was bound. *)
Definition fail_socket (fd : Z) (made : option bytes) : M () :=
  sys (Close fd) ;;
  match made with Some path => sys (Unlink path) ;; return_ (-1) | None => return_ (-1) end.

Definition own_path (fd : Z) (path : bytes) (uid gid mode : Z) : M () :=
  a ← sys (Chmod path mode);
  if ret a =? -1 then fail_socket fd (Some path) else
  if (uid =? 0) && (gid =? 0) then mret () else
  a ← sys (Chown path (if uid =? 0 then u32 (-1) else uid) (if gid =? 0 then u32 (-1) else gid));
  if ret a =? -1 then fail_socket fd (Some path) else mret ().

(** The second half of [bind_socket]. *)
Definition make_listener (f : family) (port : Z) (unixsocket : option bytes) (uid gid mode backlog : Z) : M Z :=
  s ← sys (Socket f);
  if ret s =? -1 then return_ (-1) else
  let fd := ret s in
  o ← sys (Setsockopt fd);
  (if ret o <? 0 then fail_socket fd None else mret ()) ;;
  b ← sys (Bind fd f port);
  (if ret b =? -1 then fail_socket fd None else mret ()) ;;
  (match unixsocket with Some path => own_path fd path uid gid mode | None => mret () end) ;;
  l ← sys (Listen fd backlog);
  (if ret l =? -1 then fail_socket fd unixsocket else mret ()) ;;
  mret fd.

Definition bind_socket (addr : option bytes) (port : Z) (unixsocket : option bytes) (uid gid mode backlog : Z) : M Z :=
  catch (
    f ← (match unixsocket with
         | Some path => clear_path path ;; mret AF_UNIX
         | None => match addr with
                   | None => mret AF_INET
                   | Some a => match ip_family a with Some f => mret f | None => return_ (-1) end
                   end
         end);
    make_listener f port unixsocket uid gid mode backlog).

(** ** Users *)

(** The user, the group and the name under which [initgroups] finds the groups. *)
Definition find_user_group (user group : option bytes) : option (Z * Z * option bytes) :=
  '(uid, pwd, name) ← (match user with
    | None => Some (0, None, None)
    | Some u =>
        let '(v, rest) := strtol 10 u in
        let my_uid := u32 v in
        if (my_uid =? 0) || bool_decide (rest ≠ []) then
          pwd ← getpwnam u;
          if pw_uid pwd =? 0 then None else Some (pw_uid pwd, Some pwd, Some u)
        else let pwd := getpwuid my_uid in Some (my_uid, pwd, pw_name <$> pwd)
    end);
  gid ← (match group with
    | Some g =>
        let '(v, rest) := strtol 10 g in
        let my_gid := u32 v in
        if (my_gid =? 0) || bool_decide (rest ≠ []) then
          gid ← getgrnam g; if gid =? 0 then None else Some gid
        else Some my_gid
    | None => match pwd with
              | Some pwd => if pw_gid pwd =? 0 then None else Some (pw_gid pwd)
              | None => Some 0
              end
    end);
  Some (uid, gid, name).

(** ** The applications *)

(** The application as [argv], or as a command for the shell. *)
Record program := mkApp { appPath : bytes; appArgv : option (list bytes) }.

Fixpoint close_from (k : nat) (i : Z) : M () :=
  match k with O => mret () | S k => sys (Close i) ;; close_from k (i + 1) end.

(** The child: it ends with the application in its place, or with the error of [exec]. *)
Definition run_child (ap : program) (fcgi_fd child_count : Z) (nofork : bool) : M Z :=
  when (0 <=? child_count) (sys (Putenv (list_byte_of_string "PHP_FCGI_CHILDREN=" ++ print_dec child_count)) ;; mret ()) ;;
  when (negb (fcgi_fd =? 0)) (sys (Close 0) ;; sys (Dup2 fcgi_fd 0) ;; sys (Close fcgi_fd) ;; mret ()) ;;
  max_fd ← (if nofork then mret 0 else
    sys Setsid ;;
    n ← sys OpenNull;
    let fd := ret n in
    when (negb (fd =? -1)) (
      when (negb (fd =? 1)) (sys (Dup2 fd 1) ;; mret ()) ;;
      when (negb (fd =? 2)) (sys (Dup2 fd 2) ;; mret ()) ;;
      when (negb (fd =? 1) && negb (fd =? 2)) (sys (Close fd) ;; mret ())) ;;
    mret fd);
  close_from (Z.to_nat (max_fd - 3)) 3 ;;
  a ← sys (match appArgv ap with
           | Some argv => Execv argv
           | None => Execsh (list_byte_of_string "exec " ++ c_string (appPath ap))
           end);
  if ret a =? -1 then sys (Exit (err a)) ;; return_ (err a) else return_ 0.

(** One line of the PID file; the descriptor is given up after an error. *)
Definition write_pid (fd : Z) (d : bytes) : M Z :=
  if fd =? -1 then mret (-1) else
  r ← write_all fd d;
  if r =? -1 then sys (Close fd) ;; mret (-1) else mret fd.

(** What a child that has ended makes of the result. *)
Definition exit_code (status : Z) : Z :=
  let low := Z.land status 127 in
  if low =? 0 then Z.land (Z.shiftr status 8) 255 else if low =? 127 then status else 1.

(** [while (fork_count-- > 0)], with [k] turns left. *)
Fixpoint spawn_loop (k : nat) (ap : program) (fcgi_fd child_count : Z) (nofork : bool) (pid_fd rc : Z) : M (Z * Z) :=
  match k with
  | O => mret (pid_fd, rc)
  | S k =>
      child ← (if nofork then mret 0 else a ← sys Fork; mret (ret a));
      if child =? 0 then run_child ap fcgi_fd child_count nofork ;; mret (pid_fd, rc) else
      if child =? -1 then spawn_loop k ap fcgi_fd child_count nofork pid_fd rc else
      sys Select ;;
      w ← sys (Waitpid child);
      if ret w =? 0 then
        fd ← write_pid pid_fd (take 10 (print_dec child));
        fd ← (if (k =? 0)%nat then mret fd else write_pid fd [x0a]);
        spawn_loop k ap fcgi_fd child_count nofork fd rc
      else if ret w =? -1 then spawn_loop k ap fcgi_fd child_count nofork pid_fd rc
      else spawn_loop k ap fcgi_fd child_count nofork pid_fd (exit_code (info w))
  end.

Definition fcgi_spawn_connection (ap : program) (fcgi_fd fork_count child_count pid_fd : Z) (nofork : bool) : M Z :=
  '(pid_fd, rc) ← spawn_loop (Z.to_nat fork_count) ap fcgi_fd child_count nofork pid_fd 0;
  when (negb (pid_fd =? -1)) (sys (Close pid_fd) ;; mret ()) ;;
  sys (Close fcgi_fd) ;;
  mret rc.

(** ** Options *)

Record options := mkOptions {
  o_app : option bytes; o_dir : option bytes; o_addr : option bytes; o_port : Z;
  o_children : Z; o_forks : Z; o_backlog : Z; o_unix : option bytes; o_pid : option bytes;
  o_root : option bytes; o_user : option bytes; o_group : option bytes; o_sockuser : option bytes; o_sockgroup : option bytes;
  o_before : bool; o_mode : Z; o_nofork : bool;
}.

(** The defaults; the mode is read and write for user and group as far as the mask allows. *)
Definition default_options (umask : Z) : options :=
  mkOptions None None None 0 (-1) 1 1024 None None None None None None None false (Z.land 432 (Z.lnot umask)) false.

Definition set_option (root : bool) (o : byte) (arg : bytes) (op : options) : Z + options :=
  let 'mkOptions app dir addr port children forks backlog unix pid chr user group suser sgroup before mode nofork := op in
  let num := (strtol 10 arg).1 in
  let only (x y : option bytes) := if root then x else y in
  match o with
  | x66 => inr (mkOptions (Some arg) dir addr port children forks backlog unix pid chr user group suser sgroup before mode nofork)
  | x64 => inr (mkOptions app (Some arg) addr port children forks backlog unix pid chr user group suser sgroup before mode nofork)
  | x61 => inr (mkOptions app dir (Some arg) port children forks backlog unix pid chr user group suser sgroup before mode nofork)
  | x70 => if decide ((strtol 10 arg).2 = [])
           then inr (mkOptions app dir addr (u16 num) children forks backlog unix pid chr user group suser sgroup before mode nofork)
           else inl (-1)
  | x43 => inr (mkOptions app dir addr port (s32 num) forks backlog unix pid chr user group suser sgroup before mode nofork)
  | x46 => inr (mkOptions app dir addr port children (s32 num) backlog unix pid chr user group suser sgroup before mode nofork)
  | x62 => inr (mkOptions app dir addr port children forks (s32 num) unix pid chr user group suser sgroup before mode nofork)
  | x73 => inr (mkOptions app dir addr port children forks backlog (Some arg) pid chr user group suser sgroup before mode nofork)
  | x63 => inr (mkOptions app dir addr port children forks backlog unix pid (only (Some arg) chr) user group suser sgroup before mode nofork)
  | x75 => inr (mkOptions app dir addr port children forks backlog unix pid chr (only (Some arg) user) group suser sgroup before mode nofork)
  | x67 => inr (mkOptions app dir addr port children forks backlog unix pid chr user (only (Some arg) group) suser sgroup before mode nofork)
  | x55 => inr (mkOptions app dir addr port children forks backlog unix pid chr user group (only (Some arg) suser) sgroup before mode nofork)
  | x47 => inr (mkOptions app dir addr port children forks backlog unix pid chr user group suser (only (Some arg) sgroup) before mode nofork)
  | x53 => inr (mkOptions app dir addr port children forks backlog unix pid chr user group suser sgroup (root || before) mode nofork)
  | x4d => inr (mkOptions app dir addr port children forks backlog unix pid chr user group suser sgroup before (u32 (strtol 8 arg).1) nofork)
  | x6e => inr (mkOptions app dir addr port children forks backlog unix pid chr user group suser sgroup before mode true)
  | x50 => inr (mkOptions app dir addr port children forks backlog unix (Some arg) chr user group suser sgroup before mode nofork)
  | x76 | x3f | x68 => inl 0
  | _ => inl (-1)
  end.

Fixpoint set_options (root : bool) (l : list (byte * bytes)) (op : options) : Z + options :=
  match l with
  | [] => inr op
  | (o, arg) :: l => match set_option root o arg op with inl z => inl z | inr op => set_options root l op end
  end.

(** ** [main] *)

(** The checks between the options and the first system call; the result is the application. *)
Definition check_options (root setugid : bool) (rest : list bytes) (op : options) : Z + program :=
  let argv := match rest with [] => None | _ => Some rest end in
  match o_app op, argv with
  | None, None => inl (-1)
  | _, _ =>
      if (o_port op =? 0) && bool_decide (o_unix op = None) then inl (-1) else
      if negb (o_port op =? 0) && negb (bool_decide (o_unix op = None)) then inl (-1) else
      if from_option (λ p, sun_path_size - 1 <? Z.of_nat (length (c_string p))) false (o_unix op) then inl (-1) else
      if negb root && setugid then inl (-1) else
      inr (mkApp (default [] (o_app op)) argv)
  end.

(** [S_ISREG] *)
Definition regular (mode : Z) : bool := Z.land mode 61440 =? 32768.

Definition open_pid_file (op : options) : M Z :=
  match (if o_nofork op then None else o_pid op) with
  | None => mret (-1)
  | Some path =>
      a ← sys (OpenExcl path);
      if negb (ret a =? -1) then mret (ret a) else
      if negb (err a =? EEXIST) then return_ (-1) else
      s ← sys (Stat path);
      if negb (ret s =? 0) then return_ (-1) else
      if negb (regular (info s)) then return_ (-1) else
      a ← sys (OpenTrunc path);
      if ret a =? -1 then return_ (-1) else mret (ret a)
  end.

Definition bind_or_return (op : options) (uid gid : Z) : M Z :=
  fd ← bind_socket (o_addr op) (o_port op) (o_unix op) uid gid (o_mode op) (o_backlog op);
  if fd =? -1 then return_ (-1) else mret fd.

(** [setgid], [setgroups] and [initgroups] *)
Definition drop_group (gid : Z) (name : option bytes) : M () :=
  when (negb (gid =? 0)) (
    must (Setgid gid) ;; must Setgroups ;;
    match name with Some n => must (Initgroups n gid) | None => mret () end).

Definition change_root (dir : option bytes) : M () :=
  match dir with Some d => must (Chroot d) ;; must (Chdir [x2f]) | None => mret () end.

(** The branch of [main] for root. *)
Definition as_root (op : options) : M Z :=
  match find_user_group (o_user op) (o_group op), find_user_group (o_sockuser op) (o_sockgroup op) with
  | Some (uid, gid, name), Some (sockuid, sockgid, _) =>
      let sockuid := if sockuid =? 0 then uid else sockuid in
      let sockgid := if sockgid =? 0 then gid else sockgid in
      early ← (if o_before op then fd ← bind_or_return op sockuid sockgid; mret (Some fd) else mret None);
      drop_group gid name ;;
      change_root (o_root op) ;;
      fd ← (match early with Some fd => mret fd | None => bind_or_return op sockuid sockgid end);
      when (negb (uid =? 0)) (must (Setuid uid)) ;;
      mret fd
  | _, _ => return_ (-1)
  end.

Definition spawn_main (root setugid : bool) (op : options) (rest : list bytes) : M Z :=
  match check_options root setugid rest op with
  | inl z => return_ z
  | inr ap =>
      pid_fd ← open_pid_file op;
      fd ← (if root then as_root op else bind_or_return op 0 0);
      match o_dir op with Some d => must (Chdir d) | None => mret () end ;;
      fcgi_spawn_connection ap fd (o_forks op) (o_children op) pid_fd (o_nofork op)
  end.

(** [getopt] gives the options with their arguments, and the arguments that are none. *)
Definition main (getopt : list bytes → list (byte * bytes) * list bytes) (root setugid : bool) (umask : Z) (argv : list bytes) : M Z :=
  if (length argv <? 2)%nat then return_ (-1) else
  let '(l, rest) := getopt argv in
  match set_options root l (default_options umask) with
  | inl z => return_ z
  | inr op => spawn_main root setugid op rest
  end.
End spawn.

(** ** Traces *)

(** The calls that a computation makes all satisfy [P]. *)
Definition calls_only {A} (P : call → Prop) (m : M A) : Prop :=
  ∀ w r w', m w = (r, w') → ∃ t, trace w' = trace w ++ t ∧ Forall (λ e, P e.1) t.

Lemma calls_ret {A} P (a : A) : calls_only P (mret a : M A).
Proof. intros w r w' [= <- <-]. exists []. by rewrite app_nil_r. Qed.

Lemma calls_return {A} P z : calls_only P (return_ z : M A).
Proof. intros w r w' [= <- <-]. exists []. by rewrite app_nil_r. Qed.

Lemma calls_sys (P : call → Prop) c : P c → calls_only P (sys c).
Proof.
intros Hc w r w'. unfold sys. destruct (script w) as [|a l]; intros [= <- <-].
- exists []. by rewrite app_nil_r.
- exists [(c, a)]. split; [done|]. by repeat constructor.
Qed.

Lemma calls_bind {A B} P (m : M A) (k : A → M B) :
  calls_only P m → (∀ a, calls_only P (k a)) → calls_only P (m ≫= k).
Proof.
intros Hm Hk w r w'. unfold mbind, M_bind. destruct (m w) as [r1 w1] eqn:E.
destruct (Hm _ _ _ E) as (t1 & H1 & F1). destruct r1 as [a|z|]; [|intros [= <- <-]; by exists t1..].
intros E2. destruct (Hk a _ _ _ E2) as (t2 & H2 & F2). exists (t1 ++ t2).
rewrite H2, H1, app_assoc. split; [done|]. by apply Forall_app_2.
Qed.

Lemma calls_catch P m : calls_only P m → calls_only P (catch m).
Proof.
intros Hm w r w'. unfold catch. destruct (m w) as [r1 w1] eqn:E. intros [= _ <-]. by apply (Hm _ _ _ E).
Qed.

Lemma calls_when P b m : calls_only P m → calls_only P (when b m).
Proof. intros Hm. unfold when. destruct b; [done|]. apply calls_ret. Qed.

Lemma calls_must (P : call → Prop) c : P c → calls_only P (must c).
Proof. intros Hc. unfold must. apply calls_bind; [by apply calls_sys|]. intros a. case_match; [apply calls_return|apply calls_ret]. Qed.

Lemma calls_write_loop (P : call → Prop) fuel fd buf : (∀ d, P (Write fd d)) → calls_only P (write_all_loop fuel fd buf).
Proof.
intros HP. revert buf. induction fuel as [|fuel IH]; intros buf; (destruct buf as [|b buf]; [apply calls_ret|]).
- intros w r w' [= <- <-]. exists []. by rewrite app_nil_r.
- cbn [write_all_loop]. apply calls_bind; [by apply calls_sys|]. intros a.
  repeat case_match; [apply IH|apply calls_ret|apply IH].
Qed.

Lemma calls_write (P : call → Prop) fd buf : (∀ d, P (Write fd d)) → calls_only P (write_all fd buf).
Proof. intros HP w. by apply calls_write_loop. Qed.

Ltac calls_step :=
  lazymatch goal with
  | |- calls_only _ (mret _) => apply calls_ret
  | |- calls_only _ (return_ _) => apply calls_return
  | |- calls_only _ (sys _) => apply calls_sys; try exact I
  | |- calls_only _ (must _) => apply calls_must; try exact I
  | |- calls_only _ (catch _) => apply calls_catch
  | |- calls_only _ (when _ _) => apply calls_when
  | |- calls_only _ (write_all _ _) => apply calls_write; intros ?; try exact I
  | |- calls_only _ (_ ≫= _) => apply calls_bind; [|intros ?]
  | |- calls_only _ (match ?x with _ => _ end) => destruct x
  | |- calls_only _ (if ?x then _ else _) => destruct x
  end.

(** Neither privileges nor a program: what binding a socket and the other preparations do. *)
Definition quiet (c : call) : Prop :=
  match c with Setuid _ | Setgid _ | Setgroups | Initgroups _ _ | Fork | Execv _ | Execsh _ => False | _ => True end.
(** Nothing is started. *)
Definition starts (c : call) : Prop := match c with Fork | Execv _ | Execsh _ => True | _ => False end.
Definition idle (c : call) : Prop := match c with Fork | Execv _ | Execsh _ => False | _ => True end.
(** Privileges stay as they are. *)
Definition same_user (c : call) : Prop := match c with Setuid _ | Setgid _ => False | _ => True end.

Section effects.
Context (ip_family : bytes → option family).
Context (getpwnam : bytes → option passwd) (getpwuid : Z → option passwd) (getgrnam : bytes → option Z).

Lemma bind_socket_quiet addr port path uid gid mode backlog : calls_only quiet (bind_socket ip_family addr port path uid gid mode backlog).
Proof. unfold bind_socket, make_listener, clear_path, own_path, fail_socket. repeat calls_step. Qed.

Lemma bind_or_return_quiet op uid gid : calls_only quiet (bind_or_return ip_family op uid gid).
Proof. unfold bind_or_return. apply calls_bind; [apply bind_socket_quiet|]. intros ?. repeat calls_step. Qed.

Lemma open_pid_quiet op : calls_only quiet (open_pid_file op).
Proof. unfold open_pid_file. repeat calls_step. Qed.

Lemma change_root_quiet d : calls_only quiet (change_root d).
Proof. unfold change_root. repeat calls_step. Qed.

Lemma spawn_same_user ap fd forks children pid_fd nofork : calls_only same_user (fcgi_spawn_connection ap fd forks children pid_fd nofork).
Proof.
assert (∀ k i, calls_only same_user (close_from k i)) as Hclose.
{ induction k as [|k IH]; intros i; cbn [close_from]; repeat calls_step. apply IH. }
assert (∀ k pid rc, calls_only same_user (spawn_loop k ap fd children nofork pid rc)) as Hl.
{ induction k as [|k IH]; intros pid rc; cbn [spawn_loop]; unfold run_child, write_pid.
  all: repeat first [apply IH | apply Hclose | calls_step]. by destruct (appArgv ap). }
unfold fcgi_spawn_connection. apply calls_bind; [apply Hl|]. intros [? ?]. repeat calls_step.
Qed.

(** ** Privileges *)

(** The user and the group of a process that started as root, after its calls. *)
Definition uid_after (t : list (call * answer)) : Z :=
  foldl (λ u '(c, a), match c with Setuid v => if ret a =? -1 then u else v | _ => u end) 0 t.
Definition gid_after (t : list (call * answer)) : Z :=
  foldl (λ g '(c, a), match c with Setgid v => if ret a =? -1 then g else v | _ => g end) 0 t.
(** A call that succeeded. *)
Definition did (c : call) (t : list (call * answer)) : Prop := ∃ a, (c, a) ∈ t ∧ ret a ≠ -1.

Lemma uid_after_same t1 t2 : Forall (λ e, same_user e.1) t2 → uid_after (t1 ++ t2) = uid_after t1 ∧ gid_after (t1 ++ t2) = gid_after t1.
Proof.
intros H. unfold uid_after, gid_after. rewrite !foldl_app.
generalize (foldl (λ u '(c, a), match c with Setuid v => if ret a =? -1 then u else v | _ => u end) 0 t1) as u.
generalize (foldl (λ g '(c, a), match c with Setgid v => if ret a =? -1 then g else v | _ => g end) 0 t1) as g.
induction H as [|[c a] t2 Hc _ IH]; intros g u; [done|]. cbn [foldl]. by destruct c.
Qed.

Lemma quiet_same t : Forall (λ e, quiet e.1) t → Forall (λ e : call * answer, same_user e.1) t.
Proof. intros H. eapply list.Forall_impl; [exact H|]. intros [c a]. by destruct c. Qed.
Lemma quiet_idle t : Forall (λ e, quiet e.1) t → Forall (λ e : call * answer, idle e.1) t.
Proof. intros H. eapply list.Forall_impl; [exact H|]. intros [c a]. by destruct c. Qed.

Lemma must_Val c w u w' : must c w = (Val u, w') → ∃ a, trace w' = trace w ++ [(c, a)] ∧ ret a ≠ -1.
Proof.
unfold must, mbind, M_bind, sys. destruct (script w) as [|a l]; [done|].
destruct (Z.eqb_spec (ret a) (-1)); [done|]. intros [= _ <-]. by exists a.
Qed.

Lemma bind_Val {A B} (m : M A) (k : A → M B) w b w' :
  (m ≫= k) w = (Val b, w') → ∃ a w1, m w = (Val a, w1) ∧ k a w1 = (Val b, w').
Proof. unfold mbind, M_bind. destruct (m w) as [[a|z|] w1]; [|done..]. eauto. Qed.

(** What has happened once the groups were changed. *)
Definition group_dropped (gid : Z) (name : option bytes) (t : list (call * answer)) : Prop :=
  gid ≠ 0 → gid_after t = gid ∧ did Setgroups t ∧ from_option (λ n, did (Initgroups n gid) t) True name.

Lemma did_app c t1 t2 : did c t1 ∨ did c t2 → did c (t1 ++ t2).
Proof. intros [(a & H & ?)|(a & H & ?)]; exists a; (split; [|done]); apply elem_of_app; auto. Qed.

Lemma did_here c a : ret a ≠ -1 → did c [(c, a)].
Proof. intros H. exists a. split; [|done]. by apply list_elem_of_singleton. Qed.

Lemma group_dropped_more gid name t1 t2 :
  group_dropped gid name t1 → Forall (λ e, same_user e.1) t2 → group_dropped gid name (t1 ++ t2).
Proof.
intros H Hs Hg. destruct (H Hg) as (H1 & H2 & H3). split_and!.
- by rewrite (proj2 (uid_after_same t1 t2 Hs)).
- apply did_app. by left.
- destruct name; [|done]. apply did_app. by left.
Qed.

Lemma drop_group_Val gid name w u w' :
  drop_group gid name w = (Val u, w') →
  ∃ t, trace w' = trace w ++ t ∧ Forall (λ e, idle e.1) t ∧ group_dropped gid name (trace w').
Proof.
unfold drop_group, when. destruct (Z.eqb_spec gid 0) as [->|Hg]; cbn [negb].
{ intros [= _ <-]. exists []. rewrite app_nil_r. by split_and!. }
intros H. apply bind_Val in H as (u1 & w1 & E1 & H). apply bind_Val in H as (u2 & w2 & E2 & H).
apply must_Val in E1 as (a1 & T1 & R1). apply must_Val in E2 as (a2 & T2 & R2).
assert (∃ t3, trace w' = trace w2 ++ t3 ∧ Forall (λ e, idle e.1) t3 ∧ Forall (λ e : call * answer, same_user e.1) t3 ∧ from_option (λ n, did (Initgroups n gid) t3) True name)
  as (t3 & T3 & I3 & S3 & D3).
{ destruct name as [n|].
  - apply must_Val in H as (a3 & T3 & R3). exists [(Initgroups n gid, a3)]. split_and!; [done|by repeat constructor..|by apply did_here].
  - injection H as _ <-. exists []. rewrite app_nil_r. by split_and!. }
exists ((Setgid gid, a1) :: (Setgroups, a2) :: t3). rewrite T3, T2, T1, <- !app_assoc. split_and!; [done|by repeat constructor|].
intros _. split_and!.
- assert (Forall (λ e : call * answer, same_user e.1) ([(Setgroups, a2)] ++ t3)) as S23 by (by repeat constructor).
  rewrite app_assoc, (proj2 (uid_after_same _ _ S23)).
  unfold gid_after. rewrite foldl_app. cbn. by rewrite (proj2 (Z.eqb_neq _ _) R1).
- apply did_app. right. apply did_app. right. apply did_app. left. by apply did_here.
- destruct name; [|done]. do 3 (apply did_app; right). done.
Qed.

Lemma as_root_Val op w fd w' :
  as_root ip_family getpwnam getpwuid getgrnam op w = (Val fd, w') →
  ∃ uid gid name t, find_user_group getpwnam getpwuid getgrnam (o_user op) (o_group op) = Some (uid, gid, name) ∧
    trace w' = trace w ++ t ∧ Forall (λ e, idle e.1) t ∧ (uid ≠ 0 → uid_after (trace w') = uid) ∧ group_dropped gid name (trace w') ∧
    from_option (λ d, did (Chroot d) (trace w') ∧ did (Chdir [x2f]) (trace w')) True (o_root op).
Proof.
unfold as_root. destruct (find_user_group _ _ _ (o_user op) _) as [[[uid gid] name]|]; [|done].
destruct (find_user_group _ _ _ (o_sockuser op) _) as [[[su sg] ?]|]; [|done]. cbn zeta.
intros H. apply bind_Val in H as (early & w1 & E1 & H). apply bind_Val in H as (u2 & w2 & E2 & H).
apply bind_Val in H as (u3 & w3 & E3 & H). apply bind_Val in H as (fd' & w4 & E4 & H). apply bind_Val in H as (u5 & w5 & E5 & H).
injection H as _ <-. exists uid, gid, name.
assert (∃ t1, trace w1 = trace w ++ t1 ∧ Forall (λ e, quiet e.1) t1) as (t1 & T1 & Q1).
{ destruct (o_before op); [|by apply (calls_ret _ _ _ _ _ E1)].
  apply bind_Val in E1 as (? & w1' & E1 & E1'). injection E1' as _ <-. by apply (bind_or_return_quiet _ _ _ _ _ _ E1). }
destruct (drop_group_Val _ _ _ _ _ E2) as (t2 & T2 & I2 & G2).
destruct (change_root_quiet _ _ _ _ E3) as (t3 & T3 & Q3).
assert (∃ t4, trace w4 = trace w3 ++ t4 ∧ Forall (λ e, quiet e.1) t4) as (t4 & T4 & Q4).
{ destruct early; [by apply (calls_ret _ _ _ _ _ E4)|by apply (bind_or_return_quiet _ _ _ _ _ _ E4)]. }
assert (group_dropped gid name (trace w4)) as G4.
{ rewrite T4, T3. repeat (apply group_dropped_more; [|by apply quiet_same]). done. }
assert (∃ t5, trace w5 = trace w4 ++ t5 ∧ Forall (λ e, idle e.1) t5 ∧ (uid ≠ 0 → uid_after (trace w5) = uid) ∧ group_dropped gid name (trace w5))
  as (t5 & T5 & I5 & U5 & G5).
{ unfold when in E5. destruct (Z.eqb_spec uid 0) as [->|Hu]; cbn [negb] in E5.
  - injection E5 as _ <-. exists []. rewrite app_nil_r. by split_and!.
  - apply must_Val in E5 as (a & T & R). exists [(Setuid uid, a)]. split_and!; [done|by repeat constructor| |].
    + intros _. rewrite T. unfold uid_after. rewrite foldl_app. cbn. by rewrite (proj2 (Z.eqb_neq _ _) R).
    + intros Hg. destruct (G4 Hg) as (H1 & H2 & H3). rewrite T. split_and!.
      * unfold gid_after. by rewrite foldl_app.
      * apply did_app. by left.
      * destruct name; [|done]. apply did_app. by left. }
exists (t1 ++ t2 ++ t3 ++ t4 ++ t5). split_and!; [done| | |done|done|].
- by rewrite T5, T4, T3, T2, T1, <- !app_assoc.
- repeat apply Forall_app_2; try done; by apply quiet_idle.
- destruct (o_root op) as [d|]; [|done]. cbn [change_root] in E3. apply bind_Val in E3 as (u3' & w3' & E3 & E3').
  apply must_Val in E3 as (a3 & S3 & R3). apply must_Val in E3' as (a3' & S3' & R3').
  rewrite T5, T4, S3', S3. cbn. split; (do 2 (apply did_app; left); apply did_app); [left; apply did_app; right|right]; by apply did_here.
Qed.

Lemma calls_weaken {A} (P Q : call → Prop) (m : M A) : (∀ c, P c → Q c) → calls_only P m → calls_only Q m.
Proof.
intros HPQ Hm w r w' E. destruct (Hm _ _ _ E) as (t & T & F). exists t. split; [done|].
eapply list.Forall_impl; [exact F|]. intros e. apply HPQ.
Qed.

Lemma quiet_idle_call c : quiet c → idle c.
Proof. by destruct c. Qed.

Lemma as_root_idle op : calls_only idle (as_root ip_family getpwnam getpwuid getgrnam op).
Proof.
unfold as_root, drop_group.
repeat first [apply (calls_weaken _ _ _ quiet_idle_call), bind_or_return_quiet | apply (calls_weaken _ _ _ quiet_idle_call), change_root_quiet | calls_step].
Qed.

Lemma user_not_root u g uid gid name :
  find_user_group getpwnam getpwuid getgrnam (Some u) g = Some (uid, gid, name) → uid ≠ 0.
Proof.
unfold find_user_group. destruct (strtol 10 u) as [v rest]. destruct (Z.eqb_spec (u32 v) 0) as [E|E]; cbn [orb].
- destruct (getpwnam u) as [pwd|]; [|done]. cbn. destruct (Z.eqb_spec (pw_uid pwd) 0); [done|]. cbn.
  intros H. apply bind_Some in H as (? & _ & [= <- _ _]). done.
- case_bool_decide.
  + destruct (getpwnam u) as [pwd|]; [|done]. cbn. destruct (Z.eqb_spec (pw_uid pwd) 0); [done|]. cbn.
    intros H'. apply bind_Some in H' as (? & _ & [= <- _ _]). done.
  + cbn. intros H'. apply bind_Some in H' as (? & _ & [= <- _ _]). done.
Qed.

(** The group is root's only if none was given and the user is not in the database. *)
Lemma group_not_root u g uid gid name :
  find_user_group getpwnam getpwuid getgrnam u g = Some (uid, gid, name) → gid = 0 → g = None ∧ name = None ∨ u = None.
Proof.
unfold find_user_group. intros H Hg. apply bind_Some in H as ([[id pwd] nm] & Hu & H).
apply bind_Some in H as (gid' & Hgid & [= -> -> ->]). destruct g as [g|].
- destruct (strtol 10 g) as [v rest]. exfalso. destruct (Z.eqb_spec (u32 v) 0) as [E|E]; cbn [orb] in Hgid; [|case_bool_decide].
  1, 2: apply bind_Some in Hgid as (x & _ & Hx); destruct (Z.eqb_spec x 0); congruence.
  congruence.
- destruct u as [u|]; [left|by right]. split; [done|]. destruct pwd as [pwd|].
  + exfalso. destruct (Z.eqb_spec (pw_gid pwd) 0); congruence.
  + destruct (strtol 10 u) as [v rest]. destruct ((u32 v =? 0) || _).
    * apply bind_Some in Hu as (x & _ & Hx). by destruct (pw_uid x =? 0).
    * destruct (getpwuid (u32 v)); cbn in Hu; congruence.
Qed.

(** Everything before the applications are started. *)
Definition set_up (op : options) : M (Z * Z) :=
  pid_fd ← open_pid_file op;
  fd ← as_root ip_family getpwnam getpwuid getgrnam op;
  match o_dir op with Some d => must (Chdir d) | None => mret () end ;;
  mret (pid_fd, fd).

Lemma set_up_idle op : calls_only idle (set_up op).
Proof.
unfold set_up. apply calls_bind; [apply (calls_weaken _ _ _ quiet_idle_call), open_pid_quiet|intros ?].
apply calls_bind; [apply as_root_idle|intros ?]. repeat calls_step.
Qed.

Lemma set_up_Val op u w fds w' :
  o_user op = Some u → set_up op w = (Val fds, w') →
  ∃ uid gid name, find_user_group getpwnam getpwuid getgrnam (Some u) (o_group op) = Some (uid, gid, name) ∧
    uid ≠ 0 ∧ uid_after (trace w') = uid ∧ group_dropped gid name (trace w') ∧
    from_option (λ d, did (Chroot d) (trace w') ∧ did (Chdir [x2f]) (trace w')) True (o_root op).
Proof.
intros Hu H. unfold set_up in H. apply bind_Val in H as (pid & w1 & E1 & H). apply bind_Val in H as (fd & w2 & E2 & H).
apply bind_Val in H as (u3 & w3 & E3 & H). injection H as _ <-.
destruct (as_root_Val _ _ _ _ E2) as (uid & gid & name & t & Hf & _ & _ & U & G & R). rewrite Hu in Hf.
pose proof (user_not_root _ _ _ _ _ Hf) as Hn.
assert (∃ t3, trace w3 = trace w2 ++ t3 ∧ Forall (λ e : call * answer, same_user e.1) t3) as (t3 & -> & S3).
{ destruct (o_dir op) as [d|]; [|by apply (calls_ret _ _ _ _ _ E3)]. by apply (calls_must same_user (Chdir d) I _ _ _ E3). }
exists uid, gid, name. split_and!; [done|done| |by apply group_dropped_more|].
- rewrite (proj1 (uid_after_same _ _ S3)). by apply U.
- destruct (o_root op); [|done]. destruct R. split; apply did_app; by left.
Qed.

Lemma spawn_main_set_up setugid op rest w ap :
  check_options true setugid rest op = inr ap →
  spawn_main ip_family getpwnam getpwuid getgrnam true setugid op rest w =
  ('(pid_fd, fd) ← set_up op; fcgi_spawn_connection ap fd (o_forks op) (o_children op) pid_fd (o_nofork op)) w.
Proof.
intros E. unfold spawn_main, set_up. rewrite E. unfold mbind, M_bind, mret, M_ret.
destruct (open_pid_file op w) as [[pid|z|] w1]; [|done..].
destruct (as_root _ _ _ _ op w1) as [[fd|z|] w2]; [|done..].
by destruct (match o_dir op with Some d => must (Chdir d) | None => _ end w2) as [[x|z|] w3].
Qed.

Lemma not_idle (t t1 t2 : list (call * answer)) c a : Forall (λ e, idle e.1) t → starts c → t ≠ t1 ++ (c, a) :: t2.
Proof. intros F Hc ->. apply Forall_app in F as [_ F]. apply Forall_cons_1 in F as [F _]. by destruct c. Qed.

Lemma start_after (t ts t1 t2 : list (call * answer)) c a :
  Forall (λ e, idle e.1) t → starts c → t ++ ts = t1 ++ (c, a) :: t2 → ∃ k, t1 = t ++ k ∧ ts = k ++ (c, a) :: t2.
Proof.
intros F Hc. revert t1. induction F as [|e t He _ IH]; intros t1 E; [by exists t1|].
destruct t1 as [|e' t1]; injection E as -> E; [by destruct c|].
destruct (IH _ E) as (k & -> & ->). by exists k.
Qed.

(** C13: Root privileges are gone before anything is started.  For every sequence of
    answers of the system, however early it ends: when [main] runs as root with a user
    given by [-u], then at each [fork] and each [exec] it makes, the process runs as that
    user, which is not root; and if [-c] was given, it is inside the new root.  If a group
    was given by [-g] or the user is in the password database (the group found is then not
    0), the process has that group and none of root's groups, and if the user is in the
    database it has taken the groups of that user.  With a number for [-u] that is not in
    the database and without [-g] the code keeps the groups of root. *)
Theorem privileges_dropped getopt setugid umask argv l rest op u sc r w' t1 c a t2 :
  getopt argv = (l, rest) → set_options true l (default_options umask) = inr op → o_user op = Some u →
  main ip_family getpwnam getpwuid getgrnam getopt true setugid umask argv (mkWorld sc []) = (r, w') →
  trace w' = t1 ++ (c, a) :: t2 → starts c →
  ∃ uid gid name, find_user_group getpwnam getpwuid getgrnam (Some u) (o_group op) = Some (uid, gid, name) ∧
    uid ≠ 0 ∧ uid_after t1 = uid ∧ group_dropped gid name t1 ∧ (gid = 0 → o_group op = None ∧ name = None) ∧
    from_option (λ d, did (Chroot d) t1 ∧ did (Chdir [x2f]) t1) True (o_root op).
Proof.
intros Hg Ho Hu Hm Ht Hc. unfold main in Hm. rewrite Hg, Ho in Hm.
assert (∀ w0 : world, trace w0 = [] → w0 ≠ w') as Hne by (intros w0 E ->; rewrite E in Ht; by destruct t1).
destruct (length argv <? 2)%nat; [by injection Hm as _ Hm; destruct (Hne (mkWorld sc []))|].
destruct (check_options true setugid rest op) as [z|ap] eqn:Ec.
{ unfold spawn_main in Hm. rewrite Ec in Hm. by injection Hm as _ Hm; destruct (Hne (mkWorld sc [])). }
rewrite (spawn_main_set_up _ _ _ _ _ Ec) in Hm. unfold mbind, M_bind in Hm.
destruct (set_up op (mkWorld sc [])) as [rp wp] eqn:Ep. destruct (set_up_idle _ _ _ _ Ep) as (tp & Tp & Ip). cbn [trace app] in Tp.
destruct rp as [[pid fd]|z|]; [|injection Hm as _ <-; rewrite Tp in Ht; by destruct (not_idle _ _ _ _ _ Ip Hc Ht)..].
destruct (spawn_same_user _ _ _ _ _ _ _ _ _ Hm) as (ts & Ts & Ss). rewrite Ts, Tp in Ht.
destruct (start_after _ _ _ _ _ _ Ip Hc Ht) as (k & -> & ->). apply Forall_app in Ss as [Ss _].
destruct (set_up_Val _ _ _ _ _ Hu Ep) as (uid & gid & name & Hf & Hn & U & G & R). rewrite Tp in U, G, R.
exists uid, gid, name. split; [done|]. split; [done|]. split; [|split; [by apply group_dropped_more|split]].
- by rewrite (proj1 (uid_after_same _ _ Ss)).
- intros H0. by destruct (group_not_root _ _ _ _ _ Hf H0).
- destruct (o_root op); [|done]. destruct R. split; apply did_app; by left.
Qed.
End effects.

(** ** Descriptors *)

Definition opened (t : list (call * answer)) : list Z :=
  omap (λ '(c, a), match c with Socket _ => if ret a =? -1 then None else Some (ret a) | _ => None end) t.
Definition closed_fds (t : list (call * answer)) : list Z :=
  omap (λ '(c, a), match c with Close fd => Some fd | _ => None end) t.

(** A run of calls after which [open] is what is left of the sockets it made. *)
Definition leaves (open : list Z) (t : list (call * answer)) : Prop := opened t ≡ₚ closed_fds t ++ open.

Lemma leaves_app o1 o2 t1 t2 : leaves o1 t1 → leaves o2 t2 → leaves (o1 ++ o2) (t1 ++ t2).
Proof.
unfold leaves, opened, closed_fds. rewrite !omap_app. intros -> ->.
rewrite <- !app_assoc. apply Permutation_app_head. rewrite !app_assoc. apply Permutation_app_tail, Permutation_app_comm.
Qed.

Section sockets.
Context (ip_family : bytes → option family).

Lemma sys_run c w r w' : sys c w = (r, w') → (r = Stopped ∧ w' = w) ∨ ∃ a, r = Val a ∧ trace w' = trace w ++ [(c, a)].
Proof. unfold sys. destruct (script w) as [|a l]; intros [= <- <-]; [by left|right; by exists a]. Qed.

Definition no_bind (e : call * answer) : Prop := match e.1 with Bind _ _ _ => False | _ => True end.

Lemma clear_path_leaves path w r w' :
  clear_path path w = (r, w') → r ≠ Stopped →
  ∃ t, trace w' = trace w ++ t ∧ leaves [] t ∧ Forall no_bind t ∧ match r with Returned z => z = -1 | _ => True end.
Proof.
unfold clear_path, mbind, M_bind, return_, mret, M_ret, sys. destruct w as [sc tr]. cbn [script trace].
destruct (sun_path_size - 1 <? _); [intros [= <- <-] _; exists []; split_and!; [symmetry; apply app_nil_r|constructor|constructor|done]|].
repeat first [case_match; simplify_eq/=; try (intros; congruence) | intros [= <- <-] _].
all: cbn [trace]; rewrite <- ?app_assoc; eexists; (split_and!; [reflexivity| |by repeat constructor|done]).
all: unfold leaves, opened, closed_fds; cbn; repeat (match goal with H : (_ =? _) = _ |- _ => rewrite H; cbn end); done.
Qed.

(** The outcome: a listening descriptor and nothing else open, or nothing open and no path left
    behind. *)
Definition tidy (f : family) (port backlog : Z) (path : option bytes) (r : Z) (t : list (call * answer)) : Prop :=
  if r =? -1 then leaves [] t ∧ ∀ p fd, path = Some p → did (Bind fd f port) t → ∃ a, list.last t = Some (Unlink p, a)
  else leaves [r] t ∧ ∃ a, list.last t = Some (Listen r backlog, a) ∧ ret a ≠ -1.

Lemma make_listener_tidy f port path uid gid mode backlog w r w' :
  make_listener f port path uid gid mode backlog w = (r, w') → r ≠ Stopped →
  ∃ t z, trace w' = trace w ++ t ∧ (r = Val z ∧ z ≠ -1 ∨ r = Returned z ∧ z = -1) ∧ tidy f port backlog path z t.
Proof.
unfold make_listener, own_path, fail_socket, mbind, M_bind, return_, mret, M_ret, sys. destruct w as [sc tr]. cbn [script trace].
repeat first [case_match; simplify_eq/=; try (intros; congruence) | intros [= <- <-] _].
all: cbn [trace]; rewrite <- ?app_assoc; eexists _, _; (split; [reflexivity|]).
all: (split; [first [left; split; [reflexivity|lia] | right; split; reflexivity]|]); unfold tidy.
all: lazymatch goal with
  | |- if -1 =? -1 then _ else _ => cbn [Z.eqb Pos.eqb]; split
  | |- _ => rewrite (proj2 (Z.eqb_neq _ _)) by lia; split
  end.
all: lazymatch goal with
  | |- leaves _ _ => unfold leaves, opened, closed_fds; cbn; repeat (match goal with H : (_ =? _) = _ |- _ => rewrite H; cbn end); done
  | |- ∃ _, list.last _ = Some (Listen _ _, _) ∧ _ => eexists; split; [reflexivity|lia]
  | |- _ => idtac
  end.
all: first [by intros p fd [= <-] _; eexists | by intros p fd [=] | idtac].
all: intros p fd -> (x & Hin & Hr); exfalso; cbn [app] in Hin.
all: repeat (apply elem_of_cons in Hin as [Hin|Hin]; [simplify_eq; lia|]); by apply elem_of_nil in Hin.
Qed.

Lemma last_after {A} (t1 t2 : list A) x : list.last t2 = Some x → list.last (t1 ++ t2) = Some x.
Proof. intros H. rewrite last_app. by rewrite H. Qed.

Lemma tidy_after f port backlog path r t1 t2 :
  leaves [] t1 → Forall no_bind t1 → tidy f port backlog path r t2 → tidy f port backlog path r (t1 ++ t2).
Proof.
intros L B. unfold tidy. destruct (r =? -1); intros [L2 H].
- split; [by apply (leaves_app [] [])|]. intros p fd Hp (a & Hin & Ha). apply elem_of_app in Hin as [Hin|Hin].
  + by apply (proj1 (list.Forall_forall _ _) B) in Hin.
  + destruct (H p fd Hp) as (a' & E); [by exists a|]. exists a'. by apply last_after.
- split; [by apply (leaves_app [] [r])|]. destruct H as (a & E & Ha). exists a. split; [|done]. by apply last_after.
Qed.

(** C14: No descriptor and no path is left behind.  Whatever the system answers, when
    [bind_socket] returns, it has either failed, and has closed every socket it made and, if it
    had bound a path, removed it with its last call; or it returns a socket on which its last
    call, [listen], succeeded, and has closed every other one. *)
Theorem bind_socket_tidy addr port path uid gid mode backlog w r w' :
  bind_socket ip_family addr port path uid gid mode backlog w = (Val r, w') →
  ∃ f t, trace w' = trace w ++ t ∧ tidy f port backlog path r t.
Proof.
unfold bind_socket, catch. intros H.
set (choice := match path with Some p => clear_path p ;; mret AF_UNIX | None => _ end) in H.
assert (∀ rc wc, choice w = (rc, wc) → rc ≠ Stopped → ∃ t, trace wc = trace w ++ t ∧ leaves [] t ∧ Forall no_bind t ∧
  match rc with Returned z => z = -1 | _ => True end) as Hc.
{ intros rc wc. subst choice. assert (∃ t : list (call * answer), trace w = trace w ++ t ∧ leaves [] t ∧ Forall no_bind t) as (t0 & T0 & L0 & B0).
  { exists []. split_and!; [symmetry; apply app_nil_r|constructor|constructor]. }
  destruct path as [p|].
  - unfold mbind, M_bind. destruct (clear_path p w) as [rp wp] eqn:Ep. intros E Hs.
    destruct (clear_path_leaves _ _ _ _ Ep) as (t & T & L & B & Z); [by destruct rp; simplify_eq/=|].
    exists t. destruct rp as [u|z|]; injection E as <- <-; by split_and!.
  - destruct addr as [x|]; [destruct (ip_family x)|]; intros [= <- <-] _; exists t0; by split_and!. }
unfold mbind at 1, M_bind at 1 in H. destruct (choice w) as [rc wc] eqn:Ec.
destruct rc as [f|z|]; [| |done]; destruct (Hc _ _ eq_refl ltac:(done)) as (t & T & L & B & Z).
- destruct (make_listener _ _ _ _ _ _ _ wc) as [rl wl] eqn:El.
  destruct (make_listener_tidy _ _ _ _ _ _ _ _ _ _ El) as (t2 & z & T2 & Hz & D); [by destruct rl; simplify_eq/=|].
  assert (r = z ∧ w' = wl) as [-> ->] by (destruct Hz as [[-> _]|[-> _]]; by simplify_eq/=).
  exists f, (t ++ t2). rewrite T2, T, <- app_assoc. split; [done|]. by apply tidy_after.
- exists AF_INET, t. simplify_eq/=. split; [done|]. split; [done|]. intros p fd _ (x & Hin & _).
  by apply (proj1 (list.Forall_forall _ _) B) in Hin.
Qed.
End sockets.

(** ** Examples *)

Definition ok_answer : answer := mkAnswer 0 0 0.
Definition demo_user : bytes := list_byte_of_string "www".
Definition demo_getpwnam (n : bytes) : option passwd := if decide (n = demo_user) then Some (mkPasswd demo_user 33 33) else None.
Definition demo_argv : list bytes := list_byte_of_string <$> ["spawn-fcgi"; "-u"; "www"; "-c"; "/srv"; "-p"; "9000"; "app"]%string.
Definition demo_getopt (argv : list bytes) : list (byte * bytes) * list bytes :=
  ([(x75, demo_user); (x63, list_byte_of_string "/srv"); (x70, list_byte_of_string "9000")], drop 7 argv).
(** The answers up to the [fork], which returns in the child. *)
Definition demo_script : list answer := replicate 5 ok_answer ++ [mkAnswer 3 0 0] ++ replicate 5 ok_answer.

Lemma privileges_dropped_witness :
  ∃ t1 a t2, trace (main (λ _, None) demo_getpwnam (λ _, None) (λ _, None) demo_getopt true false 18 demo_argv (mkWorld demo_script [])).2 =
      t1 ++ (Fork, a) :: t2 ∧
    ∃ uid gid name, find_user_group demo_getpwnam (λ _, None) (λ _, None) (Some demo_user) None = Some (uid, gid, name) ∧
      uid ≠ 0 ∧ uid_after t1 = uid ∧ group_dropped gid name t1 ∧ (gid = 0 → @None bytes = None ∧ name = None) ∧
      (did (Chroot (list_byte_of_string "/srv")) t1 ∧ did (Chdir [x2f]) t1).
Proof.
set (m := main (λ _, None) demo_getpwnam (λ _, None) (λ _, None) demo_getopt true false 18 demo_argv (mkWorld demo_script [])).
exists (take 10 (trace m.2)), ok_answer, []. split; [vm_compute; reflexivity|].
destruct (set_options true (demo_getopt demo_argv).1 (default_options 18)) as [z|op] eqn:E; [vm_compute in E; discriminate E|].
assert (o_group op = None ∧ o_user op = Some demo_user ∧ o_root op = Some (list_byte_of_string "/srv")) as (E1 & E2 & E3)
  by (vm_compute in E; injection E as <-; by vm_compute).
pose proof (privileges_dropped (λ _, None) demo_getpwnam (λ _, None) (λ _, None) demo_getopt false 18 demo_argv
  (demo_getopt demo_argv).1 (demo_getopt demo_argv).2 op demo_user demo_script m.1 m.2 (take 10 (trace m.2)) Fork ok_answer []) as H.
rewrite E1, E3 in H. apply H; [reflexivity|exact E|exact E2|vm_compute; reflexivity|vm_compute; reflexivity|exact I].
Defined.

(** A Unix socket that cannot be made to listen. *)
Definition demo_path : bytes := list_byte_of_string "/tmp/s".
Lemma bind_socket_tidy_witness :
  ∃ f t, [(Socket AF_UNIX, mkAnswer 3 0 0); (Connect 3, mkAnswer (-1) 2 0); (Unlink demo_path, mkAnswer (-1) 2 0); (Close 3, ok_answer);
          (Socket AF_UNIX, mkAnswer 3 0 0); (Setsockopt 3, ok_answer); (Bind 3 AF_UNIX 0, ok_answer); (Chmod demo_path 432, ok_answer);
          (Listen 3 1024, mkAnswer (-1) 22 0); (Close 3, ok_answer); (Unlink demo_path, ok_answer)] = [] ++ t ∧
    tidy f 0 1024 (Some demo_path) (-1) t.
Proof.
apply (bind_socket_tidy (λ _, None) None 0 (Some demo_path) 0 0 432 1024
  (mkWorld [mkAnswer 3 0 0; mkAnswer (-1) 2 0; mkAnswer (-1) 2 0; ok_answer; mkAnswer 3 0 0; ok_answer; ok_answer; ok_answer;
            mkAnswer (-1) 22 0; ok_answer; ok_answer] []) (-1)
  (mkWorld [] [(Socket AF_UNIX, mkAnswer 3 0 0); (Connect 3, mkAnswer (-1) 2 0); (Unlink demo_path, mkAnswer (-1) 2 0); (Close 3, ok_answer);
          (Socket AF_UNIX, mkAnswer 3 0 0); (Setsockopt 3, ok_answer); (Bind 3 AF_UNIX 0, ok_answer); (Chmod demo_path 432, ok_answer);
          (Listen 3 1024, mkAnswer (-1) 22 0); (Close 3, ok_answer); (Unlink demo_path, ok_answer)])).
vm_compute. reflexivity.
Defined.

(** A port is cut to 16 bits without an error. *)
Lemma port_wraps : ∃ op, set_option false x70 (list_byte_of_string "65616") (default_options 0) = inr op ∧ o_port op = 80.
Proof. eexists. split; [vm_compute; reflexivity|reflexivity]. Qed.

(** ** The PID file *)

(** What the calls have written to [fd]. *)
Definition written (fd : Z) (t : list (call * answer)) : bytes :=
  concat ((λ '(c, a), match c with Write f d => if f =? fd then take (Z.to_nat (ret a)) d else [] | _ => [] end) <$> t).

Lemma write_loop_exact fuel fd buf w r w' t :
  write_all_loop fuel fd buf w = (Val r, w') → trace w' = trace w ++ t →
  (r = 0 ∧ written fd t = buf) ∨ (r = -1 ∧ ∃ rest, written fd t ++ rest = buf).
Proof.
revert buf w t. induction fuel as [|fuel IH]; intros buf w t; (destruct buf as [|b buf]; [intros [= <- <-] Ht|]).
1, 3: rewrite <- (app_nil_r (trace w)) in Ht at 1; apply app_inv_head in Ht as <-; by left.
{ done. }
cbn [write_all_loop]. unfold mbind, M_bind. destruct (sys (Write fd (b :: buf)) w) as [ra w1] eqn:E.
apply sys_run in E as [[-> ->]|(a & -> & T1)]; [done|]. set (e := (Write fd (b :: buf), a)) in *.
assert (∀ buf' r', write_all_loop fuel fd buf' w1 = (Val r', w') → trace w' = trace w ++ t →
  ∃ t', t = e :: t' ∧ trace w' = trace w1 ++ t') as Hsplit.
{ intros buf' r' E' Ht. destruct (calls_write_loop (λ _, True) fuel fd buf' ltac:(done) w1 (Val r') w' E') as (t' & T' & _).
  exists t'. rewrite T', T1, <- app_assoc in Ht. by apply app_inv_head in Ht as <-. }
assert (∀ t', written fd (e :: t') = take (Z.to_nat (ret a)) (b :: buf) ++ written fd t') as Hw.
{ intros t'. unfold written, e. cbn [fmap list_fmap concat]. by rewrite Z.eqb_refl. }
destruct (Z.eqb_spec (ret a) (-1)) as [Ha|Ha].
- destruct (err a =? EINTR); intros H Ht.
  + destruct (Hsplit _ _ H Ht) as (t' & -> & Ht'). rewrite Hw, Ha. by apply (IH _ w1).
  + injection H as <- <-. rewrite T1 in Ht. apply app_inv_head in Ht as <-. right. split; [done|].
    exists (b :: buf). rewrite Hw, Ha. done.
- intros H Ht. destruct (Hsplit _ _ H Ht) as (t' & -> & Ht'). rewrite Hw.
  destruct (IH _ w1 _ H Ht') as [[-> ->]|[-> (rest & Hr)]].
  + left. by rewrite take_drop.
  + right. split; [done|]. exists rest. by rewrite <- app_assoc, Hr, take_drop.
Qed.

(** Interrupted and partial writes are made up for: all of the text is written, or an error
    is reported after a prefix of it. *)
Lemma write_all_exact fd buf w r w' t :
  write_all fd buf w = (Val r, w') → trace w' = trace w ++ t →
  (r = 0 ∧ written fd t = buf) ∨ (r = -1 ∧ ∃ rest, written fd t ++ rest = buf).
Proof. apply write_loop_exact. Qed.

(** It ends with the script at the latest. *)
Lemma write_all_ends fd buf w w' : write_all fd buf w = (Stopped, w') → script w' = [].
Proof.
unfold write_all. assert (length (script w) < S (length (script w)))%nat as Hl by lia. revert Hl.
generalize (S (length (script w))) as fuel. intros fuel. revert buf w.
induction fuel as [|fuel IH]; intros buf w Hl; [lia|]. destruct buf as [|b buf]; [done|]. cbn [write_all_loop]. unfold mbind, M_bind, sys.
destruct (script w) as [|a l] eqn:E; [intros [= <-]; done|]. cbn [length] in Hl.
repeat case_match; intros Hs; try (apply IH in Hs; [done|cbn; lia]). done.
Qed.
